(** * mpd: MPEG-DASH Media Presentation Description codec

    A shallow embedding of [mpd.go] and of the parts of the Go standard
    library it calls ([strconv], [strings], [unicode/utf8], [regexp] for the
    one pattern used, [bytes.Buffer.ReadString] and [encoding/xml]).

    Go strings are byte strings: they are modelled by [string], whose
    characters are the bytes.  Nil-able pointers are [option]s, slices are
    lists, [uint64]/[uint32] are [N] and [int64] is [Z]. *)

From Stdlib Require Import Bool Arith NArith ZArith Lia List Ascii String.
Import ListNotations.

Local Open Scope string_scope.
Local Open Scope bool_scope.


(* ================================================================= *)
(** * Part I: definitions *)
(* ================================================================= *)

(** ** Byte strings *)

Definition byteOf (c : ascii) : N := N_of_ascii c.

(** [s[:n]] and [s[n:]]. *)
Fixpoint take (n : nat) (s : string) : string :=
  match n, s with
  | S k, String c s' => String c (take k s')
  | _, _ => EmptyString
  end.

Fixpoint drop (n : nat) (s : string) : string :=
  match n, s with
  | S k, String _ s' => drop k s'
  | _, _ => s
  end.

Fixpoint rev_append (s acc : string) : string :=
  match s with
  | EmptyString => acc
  | String c s' => rev_append s' (String c acc)
  end.

Definition rev (s : string) : string := rev_append s EmptyString.

Fixpoint concatAll (l : list string) : string :=
  match l with
  | [] => EmptyString
  | s :: l' => s ++ concatAll l'
  end.

(** Results of fallible library calls. *)
Inductive result (A E : Type) : Type :=
| Ok (a : A)
| Err (e : E).
Arguments Ok {A E} a.
Arguments Err {A E} e.

(* ----------------------------------------------------------------- *)
(** ** unicode/utf8 *)

Module utf8.

Definition RuneError : N := 65533.   (* U+FFFD *)
Definition RuneSelf : N := 128.
Definition UTFMax : nat := 4.

Definition inRange (lo hi x : N) : bool := (lo <=? x)%N && (x <=? hi)%N.

(** The [first] table together with [acceptRanges]: for a lead byte, the
    size of the sequence and the accepted range of the second byte. *)
Definition first (b0 : N) : option (nat * (N * N)) :=
  if inRange 194 223 b0 then Some (2%nat, (128, 191))%N        (* C2..DF *)
  else if (b0 =? 224)%N then Some (3%nat, (160, 191))%N          (* E0 *)
  else if inRange 225 236 b0 then Some (3%nat, (128, 191))%N     (* E1..EC *)
  else if (b0 =? 237)%N then Some (3%nat, (128, 159))%N          (* ED *)
  else if inRange 238 239 b0 then Some (3%nat, (128, 191))%N     (* EE..EF *)
  else if (b0 =? 240)%N then Some (4%nat, (144, 191))%N          (* F0 *)
  else if inRange 241 243 b0 then Some (4%nat, (128, 191))%N     (* F1..F3 *)
  else if (b0 =? 244)%N then Some (4%nat, (128, 143))%N          (* F4 *)
  else None.

Definition cont (b : N) : bool := inRange 128 191 b.   (* locb..hicb *)
Definition low6 (b : N) : N := N.land b 63.             (* maskx *)

(** [utf8.DecodeRuneInString]: the rune at the head of [s] and its width
    in bytes; [(RuneError, 0)] for the empty string and [(RuneError, 1)]
    for an invalid encoding. *)
Definition DecodeRuneInString (s : string) : N * nat :=
  match s with
  | EmptyString => (RuneError, 0%nat)
  | String c0 t =>
      let s0 := byteOf c0 in
      if (s0 <? RuneSelf)%N then (s0, 1%nat)
      else
        match first s0 with
        | None => (RuneError, 1%nat)
        | Some (sz, (lo, hi)) =>
            if (String.length s <? sz)%nat then (RuneError, 1%nat)
            else
              match t with
              | EmptyString => (RuneError, 1%nat)
              | String c1 t1 =>
                  let s1 := byteOf c1 in
                  if negb (inRange lo hi s1) then (RuneError, 1%nat)
                  else if (sz <=? 2)%nat then
                    (N.lor (N.shiftl (N.land s0 31) 6) (low6 s1), 2%nat)
                  else
                    match t1 with
                    | EmptyString => (RuneError, 1%nat)
                    | String c2 t2 =>
                        let s2 := byteOf c2 in
                        if negb (cont s2) then (RuneError, 1%nat)
                        else if (sz <=? 3)%nat then
                          (N.lor (N.shiftl (N.land s0 15) 12)
                             (N.lor (N.shiftl (low6 s1) 6) (low6 s2)), 3%nat)
                        else
                          match t2 with
                          | EmptyString => (RuneError, 1%nat)
                          | String c3 _ =>
                              let s3 := byteOf c3 in
                              if negb (cont s3) then (RuneError, 1%nat)
                              else
                                (N.lor (N.shiftl (N.land s0 7) 18)
                                   (N.lor (N.shiftl (low6 s1) 12)
                                      (N.lor (N.shiftl (low6 s2) 6) (low6 s3))),
                                 4%nat)
                          end
                    end
              end
        end
  end.

(** [utf8.RuneStart]: the byte is not a continuation byte. *)
Definition RuneStart (b : N) : bool := negb (N.land b 192 =? 128)%N.

(** The backward scan of [DecodeLastRuneInString], on the reversed
    string: the number of bytes, among the at most [lim] bytes before the
    last one, to step back to reach the closest rune start; when there is
    none the scan stops one byte before the limit (or at the start of the
    string). *)
Fixpoint scanBack (lim : nat) (r : string) : nat :=
  match lim, r with
  | S k, String c r' =>
      if RuneStart (byteOf c) then 1%nat else S (scanBack k r')
  | O, String _ _ => 1%nat
  | _, EmptyString => 0%nat
  end.

(** [utf8.DecodeLastRuneInString]. *)
Definition DecodeLastRuneInString (s : string) : N * nat :=
  match rev s with
  | EmptyString => (RuneError, 0%nat)
  | String c r' =>
      if (byteOf c <? RuneSelf)%N then (byteOf c, 1%nat)
      else
        let back := S (scanBack (UTFMax - 1) r') in
        let start := (String.length s - back)%nat in
        let '(r, size) := DecodeRuneInString (drop start s) in
        if (start + size =? String.length s)%nat then (r, size)
        else (RuneError, 1%nat)
  end.

End utf8.

(* ----------------------------------------------------------------- *)
(** ** unicode *)

Module unicode.

(** [unicode.IsSpace]: the code points with the White_Space property. *)
Definition IsSpace (r : N) : bool :=
  utf8.inRange 9 13 r            (* \t \n \v \f \r *)
  || (r =? 32)%N                 (* space *)
  || (r =? 133)%N                (* U+0085 NEL *)
  || (r =? 160)%N                (* U+00A0 NBSP *)
  || (r =? 5760)%N               (* U+1680 *)
  || utf8.inRange 8192 8202 r    (* U+2000..U+200A *)
  || (r =? 8232)%N || (r =? 8233)%N   (* U+2028, U+2029 *)
  || (r =? 8239)%N               (* U+202F *)
  || (r =? 8287)%N               (* U+205F *)
  || (r =? 12288)%N.             (* U+3000 *)

End unicode.

(* ----------------------------------------------------------------- *)
(** ** strings *)

Module strings.

(** [strings.HasPrefix]. *)
Fixpoint HasPrefix (s prefix : string) : bool :=
  match prefix, s with
  | EmptyString, _ => true
  | String a p', String b s' => Ascii.eqb a b && HasPrefix s' p'
  | String _ _, EmptyString => false
  end.

(** The first byte offset at which [substr] occurs in [s]. *)
Fixpoint indexOf (s substr : string) {struct s} : option nat :=
  if HasPrefix s substr then Some 0%nat
  else
    match s with
    | EmptyString => None
    | String _ s' => option_map S (indexOf s' substr)
    end.

(** [strings.Index]: the offset of the first instance, or -1. *)
Definition Index (s substr : string) : Z :=
  match indexOf s substr with
  | Some i => Z.of_nat i
  | None => (-1)%Z
  end.

(** [strings.Contains]. *)
Definition Contains (s substr : string) : bool := (0 <=? Index s substr)%Z.

(** The loop of [strings.Count] for a non-empty [substr]: the number of
    non-overlapping instances.  Every round consumes at least one byte, so
    [S (length s)] rounds are enough. *)
Fixpoint countLoop (fuel : nat) (s substr : string) (n : nat) : nat :=
  match fuel with
  | O => n
  | S fuel' =>
      match indexOf s substr with
      | None => n
      | Some i => countLoop fuel' (drop (i + String.length substr) s) substr (S n)
      end
  end.

Definition Count (s substr : string) : nat :=
  countLoop (S (String.length s)) s substr 0.

(** The replacement loop of [strings.Replace]: [n] replacements, each at
    the first instance of [old] in what is left of [s].  [n] never exceeds
    [Count s old], so an instance is always found. *)
Fixpoint replaceLoop (n : nat) (s old new : string) : string :=
  match n with
  | O => s
  | S n' =>
      match indexOf s old with
      | Some j =>
          take j s ++ new ++ replaceLoop n' (drop (j + String.length old) s) old new
      | None => s
      end
  end.

(** [strings.Replace(s, old, new, n)] for a non-empty [old], which is
    what every call in mpd.go passes (for an empty [old] Go inserts [new]
    between runes; that branch is not modelled and returns [s]).  A
    negative [n] lifts the limit on the number of replacements. *)
Definition Replace (s old new : string) (n : Z) : string :=
  if String.eqb old new || (n =? 0)%Z then s
  else
    match old with
    | EmptyString => s
    | String _ _ =>
        let m := Count s old in
        if (m =? 0)%nat then s
        else
          let n' := if (n <? 0)%Z || (Z.of_nat m <? n)%Z then m else Z.to_nat n in
          replaceLoop n' s old new
    end.

(** [indexFunc(s, f, false)] followed by [s[i:]]: [strings.TrimLeftFunc]. *)
Fixpoint trimLeftLoop (fuel : nat) (f : N -> bool) (s : string) : string :=
  match fuel with
  | O => s
  | S fuel' =>
      match s with
      | EmptyString => EmptyString
      | String _ _ =>
          let '(r, w) := utf8.DecodeRuneInString s in
          if f r then trimLeftLoop fuel' f (drop w s) else s
      end
  end.

Definition TrimLeftFunc (s : string) (f : N -> bool) : string :=
  trimLeftLoop (String.length s) f s.

(** [lastIndexFunc(s, f, false)]: the offset of the last rune that does
    not satisfy [f], scanning backwards from offset [i]. *)
Fixpoint lastIndexLoop (fuel : nat) (f : N -> bool) (s : string) (i : nat)
  : option nat :=
  match fuel with
  | O => None
  | S fuel' =>
      if (i =? 0)%nat then None
      else
        let '(r, size) := utf8.DecodeLastRuneInString (take i s) in
        let i' := (i - size)%nat in
        if negb (f r) then Some i' else lastIndexLoop fuel' f s i'
  end.

(** [strings.TrimRightFunc]. *)
Definition TrimRightFunc (s : string) (f : N -> bool) : string :=
  match lastIndexLoop (String.length s) f s (String.length s) with
  | Some i =>
      match drop i s with
      | String c _ =>
          if (utf8.RuneSelf <=? byteOf c)%N
          then take (i + snd (utf8.DecodeRuneInString (drop i s))) s
          else take (S i) s
      | EmptyString => take (S i) s
      end
  | None => EmptyString
  end.

(** [strings.TrimFunc]. *)
Definition TrimFunc (s : string) (f : N -> bool) : string :=
  TrimRightFunc (TrimLeftFunc s f) f.

(** The [asciiSpace] table. *)
Definition asciiSpace (c : N) : bool :=
  (c =? 9)%N || (c =? 10)%N || (c =? 11)%N || (c =? 12)%N || (c =? 13)%N
  || (c =? 32)%N.

(** The second loop of [strings.TrimSpace], from the end of the string,
    on the reversed string. *)
Fixpoint trimSpaceStop (r : string) : string :=
  match r with
  | EmptyString => EmptyString
  | String c r' =>
      if (utf8.RuneSelf <=? byteOf c)%N then TrimRightFunc (rev r) unicode.IsSpace
      else if asciiSpace (byteOf c) then trimSpaceStop r'
      else rev r
  end.

(** [strings.TrimSpace]: the ASCII fast path from both ends, falling back
    to the rune-wise functions at the first non-ASCII byte met. *)
Fixpoint TrimSpace (s : string) : string :=
  match s with
  | EmptyString => EmptyString
  | String c s' =>
      if (utf8.RuneSelf <=? byteOf c)%N then TrimFunc s unicode.IsSpace
      else if asciiSpace (byteOf c) then TrimSpace s'
      else trimSpaceStop (rev s)
  end.

End strings.

(* ----------------------------------------------------------------- *)
(** ** strconv *)

Module strconv.

Inductive NumError : Type := ErrSyntax | ErrRange.

Definition maxUint64 : N := 18446744073709551615.

Definition digitChar (d : N) : ascii := ascii_of_N (48 + d).

(** The digit loop of [formatBits] at base 10, filling the buffer from its
    end; a [uint64] has at most 20 decimal digits. *)
Fixpoint formatBits (fuel : nat) (u : N) (a : string) : string :=
  match fuel with
  | O => a
  | S fuel' =>
      if (10 <=? u)%N
      then formatBits fuel' (u / 10) (String (digitChar (u - (u / 10) * 10)) a)
      else String (digitChar u) a
  end.

(** [strconv.FormatUint(u, 10)]. *)
Definition FormatUint (u : N) : string := formatBits 20 u EmptyString.

(** [strconv.FormatInt(i, 10)]. *)
Definition FormatInt (i : Z) : string :=
  if (i <? 0)%Z then String "-" (FormatUint (Z.to_N (- i)))
  else FormatUint (Z.to_N i).

(** [strconv.FormatBool]. *)
Definition FormatBool (b : bool) : string := if b then "true" else "false".

(** [lower(c)]: [c | ('x' - 'X')]. *)
Definition lower (c : N) : N := N.lor c 32.

(** The loop of [strconv.ParseUint] for a [base] between 2 and 36:
    [maxVal] is the largest value of the requested bit size and [cutoff]
    the smallest number whose product with the base exceeds [maxUint64]. *)
Fixpoint parseUintLoop (base maxVal : N) (s : string) (n : N) : result N NumError :=
  match s with
  | EmptyString => Ok n
  | String ch s' =>
      let c := byteOf ch in
      let d :=
        if utf8.inRange 48 57 c then Some (c - 48)%N
        else if utf8.inRange 97 122 (lower c) then Some (lower c - 97 + 10)%N
        else None in
      match d with
      | None => Err ErrSyntax
      | Some d =>
          if (base <=? d)%N then Err ErrSyntax
          else if (maxUint64 / base + 1 <=? n)%N then Err ErrRange
          else
            let n10 := (n * base)%N in
            let n1 := ((n10 + d) mod 2 ^ 64)%N in
            if (n1 <? n10)%N || (maxVal <? n1)%N then Err ErrRange
            else parseUintLoop base maxVal s' n1
      end
  end.

(** [strconv.ParseUint(s, base, bitSize)] for an explicit base (base 0,
    with its prefixes and underscores, is not used by this program). *)
Definition ParseUintBase (s : string) (base bitSize : N) : result N NumError :=
  match s with
  | EmptyString => Err ErrSyntax
  | String _ _ => parseUintLoop base (2 ^ bitSize - 1) s 0
  end.

(** [strconv.ParseUint(s, 10, bitSize)]. *)
Definition ParseUint (s : string) (bitSize : N) : result N NumError :=
  ParseUintBase s 10 bitSize.

(** [strconv.ParseInt(s, 10, bitSize)]: an optional sign, then
    [ParseUint], then the range check of the signed type. *)
Definition ParseInt (s : string) (bitSize : N) : result Z NumError :=
  match s with
  | EmptyString => Err ErrSyntax
  | String c s' =>
      let neg := Ascii.eqb c "-" in
      let body := if Ascii.eqb c "+" || neg then s' else s in
      match ParseUint body bitSize with
      | Err e => Err e
      | Ok un =>
          let cutoff := (2 ^ (bitSize - 1))%N in
          if negb neg && (cutoff <=? un)%N then Err ErrRange
          else if neg && (cutoff <? un)%N then Err ErrRange
          else Ok (if neg then (- Z.of_N un)%Z else Z.of_N un)
      end
  end.

(** [strconv.ParseBool]. *)
Definition ParseBool (str : string) : result bool NumError :=
  if existsb (String.eqb str) ["1"; "t"; "T"; "true"; "TRUE"; "True"] then Ok true
  else if existsb (String.eqb str) ["0"; "f"; "F"; "false"; "FALSE"; "False"] then Ok false
  else Err ErrSyntax.

End strconv.

(* ----------------------------------------------------------------- *)
(** ** regexp: the pattern [emptyElementRE] *)

Module regexp.

Definition isLetter (c : ascii) : bool :=
  utf8.inRange 65 90 (byteOf c) || utf8.inRange 97 122 (byteOf c).

Definition gt : ascii := ">"%char.

(** [[A-Za-z]+>] at the head of [s]: the number of bytes matched.  [seen]
    tells whether a letter has been consumed already.  The repetition is
    greedy, and since [>] is no letter there is nothing to backtrack. *)
Fixpoint lettersGT (seen : bool) (s : string) : option nat :=
  match s with
  | EmptyString => None
  | String c s' =>
      if isLetter c then option_map S (lettersGT true s')
      else if seen && Ascii.eqb c gt then Some 1%nat
      else None
  end.

(** A match of [></[A-Za-z]+>] starting at the head of [s]: its length. *)
Definition matchHere (s : string) : option nat :=
  if strings.HasPrefix s "></"
  then option_map (Nat.add 3) (lettersGT false (drop 3 s))
  else None.

(** [emptyElementRE.ReplaceAllString(src, repl)] for a [repl] without [$]:
    matches are looked for from left to right, the leftmost one is
    replaced and the search resumes after it.  [skip] counts the bytes of
    the current match still to be passed over. *)
Fixpoint replaceAllFrom (skip : nat) (src repl : string) : string :=
  match src with
  | EmptyString => EmptyString
  | String c src' =>
      match skip with
      | S k => replaceAllFrom k src' repl
      | O =>
          match matchHere src with
          | Some n => repl ++ replaceAllFrom (n - 1) src' repl
          | None => String c (replaceAllFrom 0 src' repl)
          end
      end
  end.

End regexp.

Module emptyElementRE.
Definition ReplaceAllString (src repl : string) : string :=
  regexp.replaceAllFrom 0 src repl.
End emptyElementRE.

(* ----------------------------------------------------------------- *)
(** ** encoding/xml: names, attributes, escaping and the indenting printer *)

Module xml.

Record Name : Type := { Space : string; Local : string }.
Record Attr : Type := { AttrName : Name; Value : string }.

Definition attr (local value : string) : Attr :=
  {| AttrName := {| Space := ""; Local := local |}; Value := value |}.

(** [isInCharacterRange]: the Char production of the XML recommendation. *)
Definition isInCharacterRange (r : N) : bool :=
  (r =? 9)%N || (r =? 10)%N || (r =? 13)%N
  || utf8.inRange 32 55295 r             (* 0x20..0xD7FF *)
  || utf8.inRange 57344 65533 r          (* 0xE000..0xFFFD *)
  || utf8.inRange 65536 1114111 r.       (* 0x10000..0x10FFFF *)

Definition escFFFD : string :=
  String "239"%char (String "191"%char (String "189"%char "")).

(** The escape chosen by the switch of [escapeText] (with newlines
    escaped), if any. *)
Definition escapeOf (r : N) (width : nat) : option string :=
  if (r =? 34)%N then Some "&#34;"
  else if (r =? 39)%N then Some "&#39;"
  else if (r =? 38)%N then Some "&amp;"
  else if (r =? 60)%N then Some "&lt;"
  else if (r =? 62)%N then Some "&gt;"
  else if (r =? 9)%N then Some "&#x9;"
  else if (r =? 10)%N then Some "&#xA;"
  else if (r =? 13)%N then Some "&#xD;"
  else if negb (isInCharacterRange r) || ((r =? 65533)%N && (width =? 1)%nat)
       then Some escFFFD
  else None.

Fixpoint escapeLoop (fuel : nat) (s : string) : string :=
  match fuel with
  | O => EmptyString
  | S fuel' =>
      match s with
      | EmptyString => EmptyString
      | String _ _ =>
          let '(r, width) := utf8.DecodeRuneInString s in
          match escapeOf r width with
          | Some esc => esc ++ escapeLoop fuel' (drop width s)
          | None => take width s ++ escapeLoop fuel' (drop width s)
          end
      end
  end.

(** [EscapeText] and the printer's [EscapeString]: rune by rune. *)
Definition EscapeString (s : string) : string := escapeLoop (String.length s) s.

(** The tokens the marshaller hands to the printer, as a tree. *)
#[local] Unset Elimination Schemes.
Inductive Node : Type :=
| Element (name : string) (attrs : list Attr) (children : list Node)
| CharData (data : string).
#[local] Set Elimination Schemes.

(** The printer of an [Encoder] after [Indent("", "  ")]. *)
Record printer : Type := {
  buf : string;
  depth : nat;
  indentedIn : bool;
  putNewline : bool
}.

Definition newPrinter : printer :=
  {| buf := ""; depth := 0; indentedIn := false; putNewline := false |}.

Definition write (s : string) (p : printer) : printer :=
  {| buf := buf p ++ s; depth := depth p;
     indentedIn := indentedIn p; putNewline := putNewline p |}.

Definition nl : string := String "010"%char "".
Definition quot : string := String "034"%char "".

Fixpoint indentation (depth : nat) : string :=
  match depth with
  | O => ""
  | S d => "  " ++ indentation d
  end.

(** [writeIndent(1)], before a start tag. *)
Definition writeIndentIn (p : printer) : printer :=
  let b := buf p ++ (if putNewline p then nl else "") ++ indentation (depth p) in
  {| buf := b; depth := S (depth p); indentedIn := true; putNewline := true |}.

(** [writeIndent(-1)], before an end tag: nothing is written when the
    start tag has just been written. *)
Definition writeIndentOut (p : printer) : printer :=
  let d := Nat.pred (depth p) in
  if indentedIn p then
    {| buf := buf p; depth := d; indentedIn := false; putNewline := putNewline p |}
  else
    {| buf := buf p ++ (if putNewline p then nl else "") ++ indentation d;
       depth := d; indentedIn := false; putNewline := true |}.

Definition attrText (a : Attr) : string :=
  if String.eqb (Local (AttrName a)) "" then ""
  else " " ++ Local (AttrName a) ++ "=" ++ quot ++ EscapeString (Value a) ++ quot.

Definition attrsText (attrs : list Attr) : string :=
  concatAll (map attrText attrs).

(** [writeStart] for a name and attributes without name space. *)
Definition writeStart (name : string) (attrs : list Attr) (p : printer) : printer :=
  write ("<" ++ name ++ attrsText attrs ++ ">") (writeIndentIn p).

Definition writeEnd (name : string) (p : printer) : printer :=
  write ("</" ++ name ++ ">") (writeIndentOut p).

Fixpoint printNode (n : Node) (p : printer) : printer :=
  match n with
  | CharData data => write (EscapeString data) p
  | Element name attrs children =>
      writeEnd name
        (fold_left (fun q k => printNode k q) children (writeStart name attrs p))
  end.

End xml.

(* ----------------------------------------------------------------- *)
(** ** mpd.go: ConditionalUint *)

(** The errors of the package: the one built by [fmt.Errorf] in
    [UnmarshalXMLAttr], which prints the whole attribute (name and value),
    and the errors of [encoding/xml].  [NotModelled] is no error of the
    program: the model of the decoder answers it on the inputs it does not
    cover (comments, CDATA sections, directives, names outside ASCII). *)
Inductive error : Type :=
| MalformedUnion (attr : xml.Attr)
| MalformedDocument (msg : string)
| NotModelled (what : string).

Module ConditionalUint.

(** [ConditionalUint] (ConditionalUintType) defined in XSD as a union of
    unsignedInt and boolean: two nil-able pointers. *)
Record t : Type := {
  u : option N;
  b : option bool
}.

(** The zero value [ConditionalUint{}]. *)
Definition zero : t := {| u := None; b := None |}.

(** [MarshalXMLAttr] encodes ConditionalUint. *)
Definition MarshalXMLAttr (c : t) (name : xml.Name) : xml.Attr * option error :=
  match u c with
  | Some v => ({| xml.AttrName := name; xml.Value := strconv.FormatUint v |}, None)
  | None =>
      match b c with
      | Some v => ({| xml.AttrName := name; xml.Value := strconv.FormatBool v |}, None)
      | None =>
          (* both are nil - no attribute *)
          ({| xml.AttrName := {| xml.Space := ""; xml.Local := "" |};
              xml.Value := "" |}, None)
      end
  end.

(** [UnmarshalXMLAttr] decodes ConditionalUint: the receiver after the
    call, and the error returned. *)
Definition UnmarshalXMLAttr (c : t) (attr : xml.Attr) : t * option error :=
  match strconv.ParseUint (xml.Value attr) 64 with
  | Ok v => ({| u := Some v; b := b c |}, None)
  | Err _ =>
      match strconv.ParseBool (xml.Value attr) with
      | Ok v => ({| u := u c; b := Some v |}, None)
      | Err _ => (c, Some (MalformedUnion attr))
      end
  end.

End ConditionalUint.

(* ----------------------------------------------------------------- *)
(** ** mpd.go: the document tree *)

(** [Descriptor]. *)
Record Descriptor : Type := {
  Descriptor_SchemeIDURI : option string;
  Descriptor_Value : option string;
  Descriptor_ID : option string
}.

(** [AudioChannelConfiguration]. *)
Record AudioChannelConfiguration : Type := {
  Audio_SchemeIDURI : option string;
  Audio_Value : option string
}.

(** [Event]. *)
Record Event : Type := {
  Event_XMLName : xml.Name;
  Event_ID : option string;
  Event_PresentationTime : option Z;
  Event_Duration : option Z
}.

(** [EventStream]. *)
Record EventStream : Type := {
  ES_XMLName : xml.Name;
  ES_SchemeIDURI : option string;
  ES_Value : option string;
  ES_Timescale : option Z;
  ES_Events : list Event
}.

(** [ProgramEventStream] represents custom EventStream. *)
Record ProgramEventStream : Type := {
  PES_XMLName : xml.Name;
  PES_SchemeIDURI : option string;
  PES_Value : option string;
  PES_Timescale : option Z;
  PES_Events : list Event
}.

(** [Pssh]. *)
Record Pssh : Type := {
  Pssh_Value : option string;
  Pssh_Cenc : option string
}.

(** [Pro]. *)
Record Pro : Type := {
  Pro_Value : option string;
  Pro_Mspr : option string
}.

(** [ContentProtection]. *)
Record ContentProtection : Type := {
  CP_SchemeIDURI : option string;
  CP_Value : option string;
  CP_DefaultKID : option string;
  CP_Cenc : option string;
  CP_Pssh : option Pssh;
  CP_Pro : option Pro
}.

(** [SegmentTimelineSegment]: the inner S elements. *)
Record SegmentTimelineSegment : Type := {
  Seg_T : option N;
  Seg_D : N;
  Seg_R : option Z
}.

(** [SegmentTimeline]. *)
Record SegmentTimeline : Type := {
  Segments : list SegmentTimelineSegment
}.

(** [SegmentTemplate]. *)
Record SegmentTemplate : Type := {
  ST_Timescale : option N;
  ST_Media : option string;
  ST_Initialization : option string;
  ST_StartNumber : option N;
  ST_PresentationTimeOffset : option N;
  ST_Duration : option N;
  ST_SegmentTimeline : list SegmentTimeline
}.

(** [Representation]. *)
Record Representation : Type := {
  Rep_ID : option string;
  Rep_Width : option N;
  Rep_Height : option N;
  Rep_FrameRate : option string;
  Rep_Bandwidth : option N;
  Rep_AudioSamplingRate : option string;
  Rep_Codecs : option string;
  Rep_ContentProtections : list ContentProtection;
  Rep_SegmentTemplate : option SegmentTemplate;
  Rep_ScanType : option string;
  Rep_AudioChannelConfiguration : option AudioChannelConfiguration
}.

(** [AdaptationSet]. *)
Record AdaptationSet : Type := {
  AS_MimeType : string;
  AS_SegmentAlignment : ConditionalUint.t;
  AS_SubsegmentAlignment : ConditionalUint.t;
  AS_StartWithSAP : option N;
  AS_SubsegmentStartsWithSAP : option N;
  AS_BitstreamSwitching : option bool;
  AS_Lang : option string;
  AS_ContentProtections : list ContentProtection;
  AS_Representations : list Representation;
  AS_FrameRate : option string;
  AS_SegmentTemplate : option SegmentTemplate
}.

(** [Period]. *)
Record Period : Type := {
  Period_Start : option string;
  Period_ID : option string;
  Period_Duration : option string;
  Period_SupplementalProperty : option Descriptor;
  Period_BaseURL : string;
  Period_EventStreams : list EventStream;
  Period_ProgramEventStreams : list ProgramEventStream;
  Period_AdaptationSets : list (option AdaptationSet)
}.

(** [MPD] represents root XML element. *)
Record MPD : Type := {
  XMLNS : option string;
  Cenc : option string;
  Mspr : option string;
  Type_ : option string;
  MinimumUpdatePeriod : option string;
  AvailabilityStartTime : option string;
  MediaPresentationDuration : option string;
  MinBufferTime : option string;
  SuggestedPresentationDelay : option string;
  TimeShiftBufferDepth : option string;
  PublishTime : option string;
  Profiles : string;
  BaseURL : string;
  Periods : list (option Period)
}.

(* ----------------------------------------------------------------- *)
(** ** encoding/xml on the document tree: what the field tags make the
       marshaller emit *)

Module marshal.

(** A [*string] attribute: no attribute for a nil pointer. *)
Definition strAttr (name : string) (v : option string) : list xml.Attr :=
  match v with
  | Some s => [xml.attr name s]
  | None => []
  end.

Definition uintAttr (name : string) (v : option N) : list xml.Attr :=
  strAttr name (option_map strconv.FormatUint v).

Definition intAttr (name : string) (v : option Z) : list xml.Attr :=
  strAttr name (option_map strconv.FormatInt v).

Definition boolAttr (name : string) (v : option bool) : list xml.Attr :=
  strAttr name (option_map strconv.FormatBool v).

(** A field that implements [xml.MarshalerAttr]: the attribute it returns
    is kept when its name is not empty. *)
Definition condAttr (name : string) (c : ConditionalUint.t) : list xml.Attr :=
  let '(a, _) :=
    ConditionalUint.MarshalXMLAttr c {| xml.Space := ""; xml.Local := name |} in
  if String.eqb (xml.Local (xml.AttrName a)) "" then [] else [a].

(** A [string] element tagged [omitempty]. *)
Definition strElem (name : string) (s : string) : list xml.Node :=
  if String.eqb s "" then [] else [xml.Element name [] [xml.CharData s]].

(** A [,chardata] field of type [*string]. *)
Definition charData (v : option string) : list xml.Node :=
  match v with
  | Some s => [xml.CharData s]
  | None => []
  end.

(** A pointer to a struct: nothing for nil. *)
Definition optElem {A : Type} (f : A -> xml.Node) (v : option A) : list xml.Node :=
  match v with
  | Some x => [f x]
  | None => []
  end.

Definition descriptor (name : string) (d : Descriptor) : xml.Node :=
  xml.Element name
    (strAttr "schemeIdUri" (Descriptor_SchemeIDURI d)
     ++ strAttr "value" (Descriptor_Value d)
     ++ strAttr "id" (Descriptor_ID d))
    [].

Definition audioChannelConfiguration (a : AudioChannelConfiguration) : xml.Node :=
  xml.Element "AudioChannelConfiguration"
    (strAttr "schemeIdUri" (Audio_SchemeIDURI a)
     ++ strAttr "value" (Audio_Value a))
    [].

Definition event (e : Event) : xml.Node :=
  xml.Element "Event"
    (strAttr "id" (Event_ID e)
     ++ intAttr "presentationTime" (Event_PresentationTime e)
     ++ intAttr "duration" (Event_Duration e))
    [].

Definition eventStream (e : EventStream) : xml.Node :=
  xml.Element "EventStream"
    (strAttr "schemeIdUri" (ES_SchemeIDURI e)
     ++ strAttr "value" (ES_Value e)
     ++ intAttr "timescale" (ES_Timescale e))
    (map event (ES_Events e)).

Definition programEventStream (e : ProgramEventStream) : xml.Node :=
  xml.Element "ProgramEventStream"
    (strAttr "schemeIdUri" (PES_SchemeIDURI e)
     ++ strAttr "value" (PES_Value e)
     ++ intAttr "timescale" (PES_Timescale e))
    (map event (PES_Events e)).

Definition pssh (p : Pssh) : xml.Node :=
  xml.Element "pssh" (strAttr "cenc" (Pssh_Cenc p)) (charData (Pssh_Value p)).

Definition pro (p : Pro) : xml.Node :=
  xml.Element "pro" (strAttr "mspr" (Pro_Mspr p)) (charData (Pro_Value p)).

Definition contentProtection (c : ContentProtection) : xml.Node :=
  xml.Element "ContentProtection"
    (strAttr "schemeIdUri" (CP_SchemeIDURI c)
     ++ strAttr "value" (CP_Value c)
     ++ strAttr "default_KID" (CP_DefaultKID c)
     ++ strAttr "cenc" (CP_Cenc c))
    (optElem pssh (CP_Pssh c) ++ optElem pro (CP_Pro c)).

Definition segment (s : SegmentTimelineSegment) : xml.Node :=
  xml.Element "S"
    (uintAttr "t" (Seg_T s)
     ++ [xml.attr "d" (strconv.FormatUint (Seg_D s))]
     ++ intAttr "r" (Seg_R s))
    [].

Definition segmentTimeline (t : SegmentTimeline) : xml.Node :=
  xml.Element "SegmentTimeline" [] (map segment (Segments t)).

Definition segmentTemplate (t : SegmentTemplate) : xml.Node :=
  xml.Element "SegmentTemplate"
    (uintAttr "timescale" (ST_Timescale t)
     ++ strAttr "media" (ST_Media t)
     ++ strAttr "initialization" (ST_Initialization t)
     ++ uintAttr "startNumber" (ST_StartNumber t)
     ++ uintAttr "presentationTimeOffset" (ST_PresentationTimeOffset t)
     ++ uintAttr "duration" (ST_Duration t))
    (map segmentTimeline (ST_SegmentTimeline t)).

Definition representation (r : Representation) : xml.Node :=
  xml.Element "Representation"
    (strAttr "id" (Rep_ID r)
     ++ uintAttr "width" (Rep_Width r)
     ++ uintAttr "height" (Rep_Height r)
     ++ strAttr "frameRate" (Rep_FrameRate r)
     ++ uintAttr "bandwidth" (Rep_Bandwidth r)
     ++ strAttr "audioSamplingRate" (Rep_AudioSamplingRate r)
     ++ strAttr "codecs" (Rep_Codecs r)
     ++ strAttr "scanType" (Rep_ScanType r))
    (map contentProtection (Rep_ContentProtections r)
     ++ optElem segmentTemplate (Rep_SegmentTemplate r)
     ++ optElem audioChannelConfiguration (Rep_AudioChannelConfiguration r)).

Definition adaptationSet (a : AdaptationSet) : xml.Node :=
  xml.Element "AdaptationSet"
    ([xml.attr "mimeType" (AS_MimeType a)]
     ++ condAttr "segmentAlignment" (AS_SegmentAlignment a)
     ++ condAttr "subsegmentAlignment" (AS_SubsegmentAlignment a)
     ++ uintAttr "startWithSAP" (AS_StartWithSAP a)
     ++ uintAttr "subsegmentStartsWithSAP" (AS_SubsegmentStartsWithSAP a)
     ++ boolAttr "bitstreamSwitching" (AS_BitstreamSwitching a)
     ++ strAttr "lang" (AS_Lang a)
     ++ strAttr "frameRate" (AS_FrameRate a))
    (map contentProtection (AS_ContentProtections a)
     ++ map representation (AS_Representations a)
     ++ optElem segmentTemplate (AS_SegmentTemplate a)).

Definition period (p : Period) : xml.Node :=
  xml.Element "Period"
    (strAttr "start" (Period_Start p)
     ++ strAttr "id" (Period_ID p)
     ++ strAttr "duration" (Period_Duration p))
    (optElem (descriptor "SupplementalProperty") (Period_SupplementalProperty p)
     ++ strElem "BaseURL" (Period_BaseURL p)
     ++ map eventStream (Period_EventStreams p)
     ++ map programEventStream (Period_ProgramEventStreams p)
     ++ flat_map (optElem adaptationSet) (Period_AdaptationSets p)).

Definition mpd (m : MPD) : xml.Node :=
  xml.Element "MPD"
    (strAttr "xmlns" (XMLNS m)
     ++ strAttr "cenc" (Cenc m)
     ++ strAttr "mspr" (Mspr m)
     ++ strAttr "type" (Type_ m)
     ++ strAttr "minimumUpdatePeriod" (MinimumUpdatePeriod m)
     ++ strAttr "availabilityStartTime" (AvailabilityStartTime m)
     ++ strAttr "mediaPresentationDuration" (MediaPresentationDuration m)
     ++ strAttr "minBufferTime" (MinBufferTime m)
     ++ strAttr "suggestedPresentationDelay" (SuggestedPresentationDelay m)
     ++ strAttr "timeShiftBufferDepth" (TimeShiftBufferDepth m)
     ++ strAttr "publishTime" (PublishTime m)
     ++ [xml.attr "profiles" (Profiles m)])
    (strElem "BaseURL" (BaseURL m)
     ++ flat_map (optElem period) (Periods m)).

End marshal.

(** [xml.NewEncoder(x)], [e.Indent("", "  ")], [e.Encode(m)]: the bytes left
    in the buffer [x].  None of the types of the tree makes the marshaller
    fail. *)
Definition xmlEncode (m : MPD) : result string error :=
  Ok (xml.buf (xml.printNode (marshal.mpd m) xml.newPrinter)).

(* ----------------------------------------------------------------- *)
(** ** mpd.go: Encode *)

(** [bytes.Buffer.ReadString('\n')]: the bytes up to and including the first
    newline, what is left in the buffer, and whether [io.EOF] is returned
    (no newline was found). *)
Fixpoint ReadString (x : string) : string * string * bool :=
  match x with
  | EmptyString => (EmptyString, EmptyString, true)
  | String c x' =>
      if Ascii.eqb c "010"%char then (String c EmptyString, x', false)
      else
        let '(s, rest, eof) := ReadString x' in
        (String c s, rest, eof)
  end.

(** The six rewrites applied to a line, in the order of the loop body. *)
Definition selfClose (s : string) : string :=
  emptyElementRE.ReplaceAllString s "/>".

Definition injectMPD (s : string) : string :=
  if strings.Contains s "<MPD" then
    let s := strings.Replace s "cenc" "xmlns:cenc" 1 in
    strings.Replace s "mspr" "xmlns:mspr" 1
  else s.

Definition injectPssh (s : string) : string :=
  if strings.Contains s "<pssh" then
    let s := strings.Replace s "cenc" "xmlns:cenc" 1 in
    strings.Replace s "pssh" "cenc:pssh" (-1)
  else s.

Definition injectPro (s : string) : string :=
  if strings.Contains s "<pro" then
    let s := strings.Replace s "mspr" "xmlns:mspr" 1 in
    strings.Replace s "pro" "mspr:pro" (-1)
  else s.

Definition qualifyDefaultKID (s : string) : string :=
  if strings.Contains s "default_KID" then
    let s := strings.Replace s "default_KID" "cenc:default_KID" (-1) in
    strings.Replace s "cenc=" "xmlns:cenc=" (-1)
  else s.

Definition dropEmptyTimeline (s : string) : string :=
  if String.eqb (strings.TrimSpace s) "<SegmentTimeline/>" then "" else s.

(** The body of [if s != ""] in the loop of [Encode]: what is written to
    [res] for the line [s]. *)
Definition rewriteLine (s : string) : string :=
  dropEmptyTimeline
    (qualifyDefaultKID (injectPro (injectPssh (injectMPD (selfClose s))))).

(** The loop of [Encode] over the buffer [x], appending to [res].  Every
    round but the last takes at least the newline out of [x]. *)
Fixpoint encodeLoop (fuel : nat) (x res : string) : string :=
  match fuel with
  | O => res
  | S fuel' =>
      let '(s, x', eof) := ReadString x in
      let res := if String.eqb s "" then res else res ++ rewriteLine s in
      if eof then res else encodeLoop fuel' x' res
  end.

Definition xmlHeader : string :=
  "<?xml version=" ++ xml.quot ++ "1.0" ++ xml.quot
  ++ " encoding=" ++ xml.quot ++ "utf-8" ++ xml.quot ++ "?>".

(** The rewrite pass alone: the loop of [Encode] on a text [x]. *)
Definition rewritePass (x : string) : string :=
  encodeLoop (S (String.length x)) x "".

(** [Encode] generates MPD XML. *)
Definition Encode (m : MPD) : result string error :=
  match xmlEncode m with
  | Err e => Err e
  | Ok x =>
      let res := xmlHeader ++ xml.nl in
      let res := encodeLoop (S (String.length x)) x res in
      Ok (res ++ xml.nl)
  end.


(* ----------------------------------------------------------------- *)
(** ** encoding/xml: the decoder

    [xml.Unmarshal] reads tokens from a strict [Decoder] and fills the
    value as it goes.  The model reads the root element into a tree first
    ([decoder.document]) and fills the value from the tree afterwards
    ([unmarshal]): every input is accepted or refused as by the decoder,
    and an accepted input gives the same value.  On an input with several
    defects the model reports a defect of the syntax before one of a
    field's text, whatever their order in the input. *)

Module decoder.

Definition bind {A B : Type} (r : result A error) (f : A -> result B error)
  : result B error :=
  match r with
  | Ok a => f a
  | Err e => Err e
  end.

Notation "' p <- e ;; k" := (bind e (fun x => match x with p => k end))
  (at level 61, p pattern, e at next level, right associativity).

Definition syntaxError (msg : string) : error :=
  MalformedDocument ("XML syntax error: " ++ msg).

Definition unexpectedEOF : error := syntaxError "unexpected EOF".

Definition dquote : ascii := "034"%char.

(** [string(rune(n))]: the UTF-8 encoding of [n], of U+FFFD when [n] is no
    code point. *)
Definition runeString (r : N) : string :=
  let byte n := String (ascii_of_N n) "" in
  if (r <? 128)%N then byte r
  else if (r <? 2048)%N then byte (192 + r / 64)%N ++ byte (128 + r mod 64)%N
  else if utf8.inRange 55296 57343 r || (1114111 <? r)%N then xml.escFFFD
  else if (r <? 65536)%N then
    byte (224 + r / 4096)%N ++ byte (128 + (r / 64) mod 64)%N
    ++ byte (128 + r mod 64)%N
  else
    byte (240 + r / 262144)%N ++ byte (128 + (r / 4096) mod 64)%N
    ++ byte (128 + (r / 64) mod 64)%N ++ byte (128 + r mod 64)%N.

(** [d.space()]: skip spaces, tabs and line ends. *)
Fixpoint space (s : string) : string :=
  match s with
  | EmptyString => EmptyString
  | String c s' =>
      if Ascii.eqb c " " || Ascii.eqb c "013" || Ascii.eqb c "010" || Ascii.eqb c "009"
      then space s' else s
  end.

(** [isNameByte], and the bytes outside ASCII that [readName] takes too. *)
Definition isNameByte (c : ascii) : bool :=
  let b := byteOf c in
  utf8.inRange 65 90 b || utf8.inRange 97 122 b || utf8.inRange 48 57 b
  || Ascii.eqb c "_" || Ascii.eqb c ":" || Ascii.eqb c "." || Ascii.eqb c "-"
  || (utf8.RuneSelf <=? b)%N.

(** The loop of [readName]: the longest prefix of name bytes, and what
    follows it. *)
Fixpoint readName (s : string) : string * string :=
  match s with
  | EmptyString => (EmptyString, EmptyString)
  | String c s' =>
      if isNameByte c
      then let '(n, rest) := readName s' in (String c n, rest)
      else (EmptyString, s)
  end.

Definition isASCII (s : string) : bool :=
  forallb (fun c => (byteOf c <? utf8.RuneSelf)%N) (list_ascii_of_string s).

(** [isName] on ASCII: the tables [first] and [second] below U+0080. *)
Definition isNameStart (c : ascii) : bool :=
  let b := byteOf c in
  utf8.inRange 65 90 b || utf8.inRange 97 122 b
  || Ascii.eqb c "_" || Ascii.eqb c ":".

Definition isNameRest (c : ascii) : bool :=
  isNameStart c || utf8.inRange 48 57 (byteOf c)
  || Ascii.eqb c "-" || Ascii.eqb c ".".

Definition isName (s : string) : bool :=
  match s with
  | EmptyString => false
  | String c s' => isNameStart c && forallb isNameRest (list_ascii_of_string s')
  end.

(** [d.name()]: a name, which the input must not end; [what] is the message
    of the caller when there is no name at all. *)
Definition name (what : string) (s : string) : result (string * string) error :=
  let '(n, rest) := readName s in
  match rest with
  | EmptyString => Err unexpectedEOF
  | String _ _ =>
      if String.eqb n "" then Err (syntaxError what)
      else if negb (isASCII n) then Err (NotModelled "a name outside ASCII")
      else if isName n then Ok (n, rest)
      else Err (syntaxError ("invalid XML name: " ++ n))
  end.

(** [strings.Cut(s, ":")] as [nsname] uses it: the prefix and the local
    part, when both are there. *)
Definition splitName (s : string) : xml.Name :=
  match strings.indexOf s ":" with
  | Some i =>
      let space := take i s in
      let local := drop (S i) s in
      if String.eqb space "" || String.eqb local ""
      then {| xml.Space := ""; xml.Local := s |}
      else {| xml.Space := space; xml.Local := local |}
  | None => {| xml.Space := ""; xml.Local := s |}
  end.

(** [d.nsname()]. *)
Definition nsname (what : string) (s : string) : result (xml.Name * string) error :=
  ' (n, rest) <- name what s ;;
  if (1 <? strings.Count n ":")%nat then Err (syntaxError what)
  else Ok (splitName n, rest).

(** The predefined entities. *)
Definition entity (n : string) : option string :=
  if String.eqb n "lt" then Some "<"
  else if String.eqb n "gt" then Some ">"
  else if String.eqb n "amp" then Some "&"
  else if String.eqb n "apos" then Some "'"
  else if String.eqb n "quot" then Some (String dquote "")
  else None.

Definition isRefDigit (base : N) (c : ascii) : bool :=
  let b := byteOf c in
  utf8.inRange 48 57 b
  || ((base =? 16)%N && (utf8.inRange 97 102 b || utf8.inRange 65 70 b)).

Fixpoint refDigits (base : N) (s : string) : string * string :=
  match s with
  | EmptyString => (EmptyString, EmptyString)
  | String c s' =>
      if isRefDigit base c
      then let '(ds, rest) := refDigits base s' in (String c ds, rest)
      else (EmptyString, s)
  end.

Definition invalidEntity : error := syntaxError "invalid character entity".

(** What [d.text] does after a [&]: the text the reference stands for,
    and the input after its semicolon.  A strict decoder with no entity
    map of its own refuses everything else. *)
Definition reference (s : string) : result (string * string) error :=
  match s with
  | EmptyString => Err unexpectedEOF
  | String "#" r =>
      let '(base, r1) :=
        match r with
        | String "x" r' => (16%N, r')
        | _ => (10%N, r)
        end in
      let '(digits, r2) := refDigits base r1 in
      match r2 with
      | EmptyString => Err unexpectedEOF
      | String ";" r3 =>
          match strconv.ParseUintBase digits base 64 with
          | Ok n => if (n <=? 1114111)%N then Ok (runeString n, r3) else Err invalidEntity
          | Err _ => Err invalidEntity
          end
      | String _ _ => Err invalidEntity
      end
  | String _ _ =>
      let '(n, r1) := readName s in
      match r1 with
      | EmptyString => Err unexpectedEOF
      | String ";" r2 =>
          match (if isASCII n && isName n then entity n else None) with
          | Some t => Ok (t, r2)
          | None => Err invalidEntity
          end
      | String _ _ => Err invalidEntity
      end
  end.

(** The loop of [d.text(quote, false)]: [b0] and [b1] are the two bytes
    read before.  With [quote] the text ends after that quote, without at
    a [<], which is left in the input, or at the end of the input.  One
    unit of [fuel] per byte or reference. *)
Fixpoint textLoop (fuel : nat) (quote : option ascii) (b0 b1 : N) (s : string)
  : result (string * string) error :=
  match fuel with
  | O => Err unexpectedEOF
  | S fuel' =>
      match s with
      | EmptyString =>
          match quote with
          | None => Ok (EmptyString, EmptyString)
          | Some _ => Err unexpectedEOF
          end
      | String c s' =>
          let b := byteOf c in
          if (b0 =? 93)%N && (b1 =? 93)%N && (b =? 62)%N
          then Err (syntaxError "unescaped ]]> not in CDATA section")
          else if Ascii.eqb c "<" then
            match quote with
            | None => Ok (EmptyString, s)
            | Some _ => Err (syntaxError "unescaped < inside quoted string")
            end
          else if match quote with Some q => Ascii.eqb c q | None => false end
          then Ok (EmptyString, s')
          else if Ascii.eqb c "&" then
            ' (t, rest) <- reference s' ;;
            ' (data, rest') <- textLoop fuel' quote 0 0 rest ;;
            Ok (t ++ data, rest')
          else
            ' (data, rest') <- textLoop fuel' quote b1 b s' ;;
            (* unescaped \r and \r\n are rewritten into \n *)
            let here :=
              if (b =? 13)%N then xml.nl
              else if (b1 =? 13)%N && (b =? 10)%N then EmptyString
              else String c EmptyString in
            Ok (here ++ data, rest')
      end
  end.

(** The inspection of each rune at the end of [d.text]. *)
Fixpoint checkRunes (fuel : nat) (s : string) : option error :=
  match fuel with
  | O => None
  | S fuel' =>
      match s with
      | EmptyString => None
      | String _ _ =>
          let '(r, size) := utf8.DecodeRuneInString s in
          if (r =? utf8.RuneError)%N && (size =? 1)%nat
          then Some (syntaxError "invalid UTF-8")
          else if negb (xml.isInCharacterRange r)
          then Some (syntaxError "illegal character code")
          else checkRunes fuel' (drop size s)
      end
  end.

(** [d.text(quote, false)]. *)
Definition text (quote : option ascii) (s : string) : result (string * string) error :=
  ' (data, rest) <- textLoop (S (String.length s)) quote 0 0 s ;;
  match checkRunes (String.length data) data with
  | Some e => Err e
  | None => Ok (data, rest)
  end.

(** The attributes of a start tag, up to its [>] or [/>]: the attributes,
    whether the tag closes itself, and the input after the tag.  One unit
    of [fuel] per attribute. *)
Fixpoint attributes (fuel : nat) (s : string)
  : result (list xml.Attr * bool * string) error :=
  match fuel with
  | O => Err unexpectedEOF
  | S fuel' =>
      match space s with
      | EmptyString => Err unexpectedEOF
      | String c s1 as s0 =>
          if Ascii.eqb c "/" then
            match s1 with
            | EmptyString => Err unexpectedEOF
            | String c' s2 =>
                if Ascii.eqb c' ">" then Ok ([], true, s2)
                else Err (syntaxError "expected /> in element")
            end
          else if Ascii.eqb c ">" then Ok ([], false, s1)
          else
            ' (n, s1) <- nsname "expected attribute name in element" s0 ;;
            match space s1 with
            | EmptyString => Err unexpectedEOF
            | String e s2 =>
                if Ascii.eqb e "=" then
                  match space s2 with
                  | EmptyString => Err unexpectedEOF
                  | String q s3 =>
                      if Ascii.eqb q dquote || Ascii.eqb q "'" then
                        ' (v, s4) <- text (Some q) s3 ;;
                        ' (more, empty, rest) <- attributes fuel' s4 ;;
                        Ok ({| xml.AttrName := n; xml.Value := v |} :: more, empty, rest)
                      else Err (syntaxError "unquoted or missing attribute value in element")
                  end
                else Err (syntaxError "attribute name without = in element")
            end
      end
  end.

(** [procInst(param, s)]: the quoted value that follows [param=] in the
    text of an XML declaration. *)
Fixpoint procInstLoop (fuel : nat) (param : string) (sub : string) : string :=
  match fuel with
  | O => EmptyString
  | S fuel' =>
      match strings.indexOf sub param with
      | None => EmptyString
      | Some k =>
          match drop (k + String.length param) sub with
          | EmptyString => EmptyString
          | String c rest =>
              if Ascii.eqb c "'" || Ascii.eqb c dquote then
                match strings.indexOf rest (String c EmptyString) with
                | Some j => take j rest
                | None => EmptyString
                end
              else procInstLoop fuel' param rest
          end
      end
  end.

Definition procInst (param s : string) : string :=
  procInstLoop (S (String.length s)) (param ++ "=") s.

(** The text of a processing instruction up to its [?>], and the input
    after it. *)
Definition instruction (s : string) : result (string * string) error :=
  match strings.indexOf s "?>" with
  | Some i => Ok (take i s, drop (i + 2) s)
  | None => Err unexpectedEOF
  end.

Definition toLower (c : ascii) : ascii :=
  if utf8.inRange 65 90 (byteOf c) then ascii_of_N (byteOf c + 32) else c.

Definition lowerASCII (s : string) : string :=
  string_of_list_ascii (map toLower (list_ascii_of_string s)).

(** After [<?]: the instruction is read, and an XML declaration must
    announce version 1.0 and, there being no [CharsetReader], UTF-8. *)
Definition processing (s : string) : result string error :=
  ' (target, s1) <- name "expected target name after <?" s ;;
  ' (data, s2) <- instruction (space s1) ;;
  if String.eqb target "xml" then
    let ver := procInst "version" data in
    let enc := procInst "encoding" data in
    if negb (String.eqb ver "") && negb (String.eqb ver "1.0")
    then Err (MalformedDocument "xml: unsupported version; only version 1.0 is supported")
    else if negb (String.eqb enc "") && negb (String.eqb (lowerASCII enc) "utf-8")
    then Err (MalformedDocument "xml: encoding declared but Decoder.CharsetReader is nil")
    else Ok s2
  else Ok s2.

(** An element as the decoder's tokens delimit it, names as written (the
    prefix in [Space]). *)
#[local] Unset Elimination Schemes.
Inductive Tree : Type :=
| Elem (name : xml.Name) (attrs : list xml.Attr) (children : list Tree)
| Text (data : string).
#[local] Set Elimination Schemes.

Definition sameName (a b : xml.Name) : bool :=
  String.eqb (xml.Local a) (xml.Local b) && String.eqb (xml.Space a) (xml.Space b).

(** After [</]: the end tag must carry the name of the element open. *)
Definition endTag (parent : xml.Name) (s : string) : result string error :=
  ' (n, s1) <- nsname "expected element name after </" s ;;
  match space s1 with
  | EmptyString => Err unexpectedEOF
  | String c s2 =>
      if Ascii.eqb c ">" then
        if sameName parent n then Ok s2
        else Err (syntaxError ("element <" ++ xml.Local parent ++ "> closed by </"
                               ++ xml.Local n ++ ">"))
      else Err (syntaxError "invalid characters between </ and >")
  end.

(** [element]: an element from its name on (the [<] is read), and
    [content]: what an element holds up to its end tag.  One unit of [fuel]
    per token. *)
Fixpoint element (fuel : nat) (s : string) : result (Tree * string) error :=
  match fuel with
  | O => Err unexpectedEOF
  | S fuel' =>
      ' (n, s1) <- nsname "expected element name after <" s ;;
      ' (attrs, empty, s2) <- attributes (S (String.length s1)) s1 ;;
      if (empty : bool) then Ok (Elem n attrs [], s2)
      else
        ' (kids, s3) <- content fuel' n s2 ;;
        Ok (Elem n attrs kids, s3)
  end
with content (fuel : nat) (parent : xml.Name) (s : string)
  : result (list Tree * string) error :=
  match fuel with
  | O => Err unexpectedEOF
  | S fuel' =>
      match s with
      | EmptyString => Err unexpectedEOF
      | String c s1 =>
          if Ascii.eqb c "<" then
            match s1 with
            | EmptyString => Err unexpectedEOF
            | String c' s2 =>
                if Ascii.eqb c' "/" then
                  ' s3 <- endTag parent s2 ;;
                  Ok ([], s3)
                else if Ascii.eqb c' "?" then
                  ' s3 <- processing s2 ;;
                  content fuel' parent s3
                else if Ascii.eqb c' "!" then
                  Err (NotModelled "a comment, a CDATA section or a directive")
                else
                  ' (e, s2) <- element fuel' s1 ;;
                  ' (more, s3) <- content fuel' parent s2 ;;
                  Ok (e :: more, s3)
            end
          else
            ' (data, s1) <- text None s ;;
            ' (more, s2) <- content fuel' parent s1 ;;
            Ok (Text data :: more, s2)
      end
  end.

(** The tokens before the root element are read and dropped; the input
    after the root element is not read. *)
Fixpoint prolog (fuel : nat) (s : string) : result Tree error :=
  match fuel with
  | O => Err unexpectedEOF
  | S fuel' =>
      match s with
      | EmptyString => Err (MalformedDocument "EOF")
      | String c s1 =>
          if Ascii.eqb c "<" then
            match s1 with
            | EmptyString => Err unexpectedEOF
            | String c' s2 =>
                if Ascii.eqb c' "/" then
                  ' (n, _) <- nsname "expected element name after </" s2 ;;
                  Err (syntaxError ("unexpected end element </" ++ xml.Local n ++ ">"))
                else if Ascii.eqb c' "?" then
                  ' s3 <- processing s2 ;;
                  prolog fuel' s3
                else if Ascii.eqb c' "!" then
                  Err (NotModelled "a comment, a CDATA section or a directive")
                else
                  ' (e, _) <- element (S (String.length s1)) s1 ;;
                  Ok e
            end
          else
            ' (_, s1) <- text None s ;;
            prolog fuel' s1
      end
  end.

Definition document (b : string) : result Tree error :=
  prolog (S (String.length b)) b.

(** The name spaces in scope: prefix and URI, the latest binding first;
    the empty prefix is the default space. *)
Definition Spaces : Type := list (string * string).

Fixpoint lookup (prefix : string) (ns : Spaces) : option string :=
  match ns with
  | [] => None
  | (p, uri) :: ns' => if String.eqb p prefix then Some uri else lookup prefix ns'
  end.

Definition xmlnsPrefix : string := "xmlns".
Definition xmlPrefix : string := "xml".
Definition xmlURL : string := "http://www.w3.org/XML/1998/namespace".

(** The bindings a start tag adds, as [Token] applies them before it
    translates the names. *)
Fixpoint declare (ns : Spaces) (attrs : list xml.Attr) : Spaces :=
  match attrs with
  | [] => ns
  | a :: attrs' =>
      let n := xml.AttrName a in
      let ns1 :=
        if String.eqb (xml.Space n) xmlnsPrefix
        then (xml.Local n, xml.Value a) :: ns else ns in
      let ns2 :=
        if String.eqb (xml.Space n) "" && String.eqb (xml.Local n) xmlnsPrefix
        then (EmptyString, xml.Value a) :: ns1 else ns1 in
      declare ns2 attrs'
  end.

(** [d.translate]. *)
Definition translate (ns : Spaces) (n : xml.Name) (isElementName : bool) : xml.Name :=
  if String.eqb (xml.Space n) xmlnsPrefix then n
  else if String.eqb (xml.Space n) "" && negb isElementName then n
  else if String.eqb (xml.Space n) "" && String.eqb (xml.Local n) xmlnsPrefix then n
  else
    let space := if String.eqb (xml.Space n) xmlPrefix then xmlURL else xml.Space n in
    match lookup space ns with
    | Some uri => {| xml.Space := uri; xml.Local := xml.Local n |}
    | None => {| xml.Space := space; xml.Local := xml.Local n |}
    end.

Definition translateAttr (ns : Spaces) (a : xml.Attr) : xml.Attr :=
  {| xml.AttrName := translate ns (xml.AttrName a) false; xml.Value := xml.Value a |}.

End decoder.

(* ----------------------------------------------------------------- *)
(** ** encoding/xml on the document tree: what the field tags make
       [Unmarshal] store *)

Module unmarshal.

Import decoder.

Definition local (a : xml.Attr) : string := xml.Local (xml.AttrName a).

Definition numError (fn : string) : error :=
  MalformedDocument ("strconv." ++ fn ++ ": parsing failed").

(** [copyValue] into an unsigned integer of [bits] bits, a signed one and
    a boolean: the empty text stores the zero value. *)
Definition copyUint (bits : N) (src : string) : result N error :=
  if String.eqb src "" then Ok 0%N
  else
    match strconv.ParseUint (strings.TrimSpace src) bits with
    | Ok v => Ok v
    | Err _ => Err (numError "ParseUint")
    end.

Definition copyInt (bits : N) (src : string) : result Z error :=
  if String.eqb src "" then Ok 0%Z
  else
    match strconv.ParseInt (strings.TrimSpace src) bits with
    | Ok v => Ok v
    | Err _ => Err (numError "ParseInt")
    end.

Definition copyBool (src : string) : result bool error :=
  if String.eqb src "" then Ok false
  else
    match strconv.ParseBool (strings.TrimSpace src) with
    | Ok v => Ok v
    | Err _ => Err (numError "ParseBool")
    end.

(** A field tagged [name,attr]: each attribute of the start tag whose
    local name is [name] is stored by [store], in the order of the tag. *)
Fixpoint attrField {A : Type} (store : xml.Attr -> A -> result A error)
  (name : string) (attrs : list xml.Attr) (old : A) : result A error :=
  match attrs with
  | [] => Ok old
  | a :: attrs' =>
      if String.eqb (local a) name
      then ' v <- store a old ;; attrField store name attrs' v
      else attrField store name attrs' old
  end.

Definition stringAttr := attrField (fun a (_ : string) => Ok (xml.Value a)).

Definition stringPtrAttr := attrField (fun a (_ : option string) => Ok (Some (xml.Value a))).

Definition uintAttr (bits : N) :=
  attrField (fun a (_ : N) => copyUint bits (xml.Value a)).

Definition uintPtrAttr (bits : N) :=
  attrField (fun a (_ : option N) => ' v <- copyUint bits (xml.Value a) ;; Ok (Some v)).

Definition intPtrAttr (bits : N) :=
  attrField (fun a (_ : option Z) => ' v <- copyInt bits (xml.Value a) ;; Ok (Some v)).

Definition boolPtrAttr :=
  attrField (fun a (_ : option bool) => ' v <- copyBool (xml.Value a) ;; Ok (Some v)).

(** A field whose type implements [xml.UnmarshalerAttr]. *)
Definition condAttr :=
  attrField (fun a (c : ConditionalUint.t) =>
               match ConditionalUint.UnmarshalXMLAttr c a with
               | (c', None) => Ok c'
               | (_, Some e) => Err e
               end).

(** A field tagged [name]: each child element whose local name is [name]
    is stored by [store], in the order of the document.  The children no
    field takes are skipped. *)
Fixpoint childField {A : Type} (store : Tree -> A -> result A error)
  (name : string) (kids : list Tree) (old : A) : result A error :=
  match kids with
  | [] => Ok old
  | Text _ :: kids' => childField store name kids' old
  | Elem n _ _ as k :: kids' =>
      if String.eqb (xml.Local n) name
      then ' v <- store k old ;; childField store name kids' v
      else childField store name kids' old
  end.

(** The character data an element holds itself. *)
Fixpoint charData (kids : list Tree) : string :=
  match kids with
  | [] => EmptyString
  | Text data :: kids' => data ++ charData kids'
  | Elem _ _ _ :: kids' => charData kids'
  end.

Definition children (t : Tree) : list Tree :=
  match t with
  | Elem _ _ kids => kids
  | Text _ => []
  end.

(** A field of type [string]. *)
Definition stringElem := childField (fun k (_ : string) => Ok (charData (children k))).

(** A slice of structs grows by one element, read into a zero value. *)
Definition sliceElem {A : Type} (read : A -> Tree -> result A error) (zero : A) :=
  childField (fun k (old : list A) => ' x <- read zero k ;; Ok (old ++ [x])%list).

(** A slice of pointers to structs. *)
Definition ptrSliceElem {A : Type} (read : A -> Tree -> result A error) (zero : A) :=
  childField (fun k (old : list (option A)) => ' x <- read zero k ;; Ok (old ++ [Some x])%list).

(** A pointer to a struct is allocated when nil, and read into. *)
Definition ptrElem {A : Type} (read : A -> Tree -> result A error) (zero : A) :=
  childField (fun k (old : option A) =>
                ' x <- read (match old with Some o => o | None => zero end) k ;;
                Ok (Some x)).

(** The start tag of an element: its name and attributes translated, and
    the name spaces in scope below it. *)
Definition start (ns : Spaces) (t : Tree) : xml.Name * list xml.Attr * list Tree * Spaces :=
  match t with
  | Elem n attrs kids =>
      let ns' := declare ns attrs in
      (translate ns' n true, map (translateAttr ns') attrs, kids, ns')
  | Text _ => ({| xml.Space := ""; xml.Local := "" |}, [], [], ns)
  end.

Definition zeroDescriptor : Descriptor :=
  {| Descriptor_SchemeIDURI := None; Descriptor_Value := None; Descriptor_ID := None |}.

Definition descriptor (ns : Spaces) (x : Descriptor) (t : Tree) : result Descriptor error :=
  let '(_, attrs, _, _) := start ns t in
  ' schemeIdUri <- stringPtrAttr "schemeIdUri" attrs (Descriptor_SchemeIDURI x) ;;
  ' value <- stringPtrAttr "value" attrs (Descriptor_Value x) ;;
  ' id <- stringPtrAttr "id" attrs (Descriptor_ID x) ;;
  Ok {| Descriptor_SchemeIDURI := schemeIdUri; Descriptor_Value := value;
        Descriptor_ID := id |}.

Definition zeroAudioChannelConfiguration : AudioChannelConfiguration :=
  {| Audio_SchemeIDURI := None; Audio_Value := None |}.

Definition audioChannelConfiguration (ns : Spaces) (x : AudioChannelConfiguration)
  (t : Tree) : result AudioChannelConfiguration error :=
  let '(_, attrs, _, _) := start ns t in
  ' schemeIdUri <- stringPtrAttr "schemeIdUri" attrs (Audio_SchemeIDURI x) ;;
  ' value <- stringPtrAttr "value" attrs (Audio_Value x) ;;
  Ok {| Audio_SchemeIDURI := schemeIdUri; Audio_Value := value |}.

Definition zeroName : xml.Name := {| xml.Space := ""; xml.Local := "" |}.

Definition zeroEvent : Event :=
  {| Event_XMLName := zeroName; Event_ID := None;
     Event_PresentationTime := None; Event_Duration := None |}.

(** A field [XMLName] takes the name of the start tag. *)
Definition event (ns : Spaces) (x : Event) (t : Tree) : result Event error :=
  let '(name, attrs, _, _) := start ns t in
  ' id <- stringPtrAttr "id" attrs (Event_ID x) ;;
  ' presentationTime <- intPtrAttr 64 "presentationTime" attrs (Event_PresentationTime x) ;;
  ' duration <- intPtrAttr 64 "duration" attrs (Event_Duration x) ;;
  Ok {| Event_XMLName := name; Event_ID := id;
        Event_PresentationTime := presentationTime; Event_Duration := duration |}.

Definition zeroEventStream : EventStream :=
  {| ES_XMLName := zeroName; ES_SchemeIDURI := None; ES_Value := None;
     ES_Timescale := None; ES_Events := [] |}.

Definition eventStream (ns : Spaces) (x : EventStream) (t : Tree)
  : result EventStream error :=
  let '(name, attrs, kids, ns') := start ns t in
  ' schemeIdUri <- stringPtrAttr "schemeIdUri" attrs (ES_SchemeIDURI x) ;;
  ' value <- stringPtrAttr "value" attrs (ES_Value x) ;;
  ' timescale <- intPtrAttr 64 "timescale" attrs (ES_Timescale x) ;;
  ' events <- sliceElem (event ns') zeroEvent "Event" kids (ES_Events x) ;;
  Ok {| ES_XMLName := name; ES_SchemeIDURI := schemeIdUri; ES_Value := value;
        ES_Timescale := timescale; ES_Events := events |}.

Definition zeroProgramEventStream : ProgramEventStream :=
  {| PES_XMLName := zeroName; PES_SchemeIDURI := None; PES_Value := None;
     PES_Timescale := None; PES_Events := [] |}.

Definition programEventStream (ns : Spaces) (x : ProgramEventStream) (t : Tree)
  : result ProgramEventStream error :=
  let '(name, attrs, kids, ns') := start ns t in
  ' schemeIdUri <- stringPtrAttr "schemeIdUri" attrs (PES_SchemeIDURI x) ;;
  ' value <- stringPtrAttr "value" attrs (PES_Value x) ;;
  ' timescale <- intPtrAttr 64 "timescale" attrs (PES_Timescale x) ;;
  ' events <- sliceElem (event ns') zeroEvent "Event" kids (PES_Events x) ;;
  Ok {| PES_XMLName := name; PES_SchemeIDURI := schemeIdUri; PES_Value := value;
        PES_Timescale := timescale; PES_Events := events |}.

Definition zeroPssh : Pssh := {| Pssh_Value := None; Pssh_Cenc := None |}.

(** A field tagged [,chardata] is stored when the element ends, whatever
    text there was. *)
Definition pssh (ns : Spaces) (x : Pssh) (t : Tree) : result Pssh error :=
  let '(_, attrs, kids, _) := start ns t in
  ' cenc <- stringPtrAttr "cenc" attrs (Pssh_Cenc x) ;;
  Ok {| Pssh_Value := Some (charData kids); Pssh_Cenc := cenc |}.

Definition zeroPro : Pro := {| Pro_Value := None; Pro_Mspr := None |}.

Definition pro (ns : Spaces) (x : Pro) (t : Tree) : result Pro error :=
  let '(_, attrs, kids, _) := start ns t in
  ' mspr <- stringPtrAttr "mspr" attrs (Pro_Mspr x) ;;
  Ok {| Pro_Value := Some (charData kids); Pro_Mspr := mspr |}.

Definition zeroContentProtection : ContentProtection :=
  {| CP_SchemeIDURI := None; CP_Value := None; CP_DefaultKID := None;
     CP_Cenc := None; CP_Pssh := None; CP_Pro := None |}.

Definition contentProtection (ns : Spaces) (x : ContentProtection) (t : Tree)
  : result ContentProtection error :=
  let '(_, attrs, kids, ns') := start ns t in
  ' schemeIdUri <- stringPtrAttr "schemeIdUri" attrs (CP_SchemeIDURI x) ;;
  ' value <- stringPtrAttr "value" attrs (CP_Value x) ;;
  ' defaultKID <- stringPtrAttr "default_KID" attrs (CP_DefaultKID x) ;;
  ' cenc <- stringPtrAttr "cenc" attrs (CP_Cenc x) ;;
  ' pssh' <- ptrElem (pssh ns') zeroPssh "pssh" kids (CP_Pssh x) ;;
  ' pro' <- ptrElem (pro ns') zeroPro "pro" kids (CP_Pro x) ;;
  Ok {| CP_SchemeIDURI := schemeIdUri; CP_Value := value; CP_DefaultKID := defaultKID;
        CP_Cenc := cenc; CP_Pssh := pssh'; CP_Pro := pro' |}.

Definition zeroSegment : SegmentTimelineSegment :=
  {| Seg_T := None; Seg_D := 0%N; Seg_R := None |}.

Definition segment (ns : Spaces) (x : SegmentTimelineSegment) (t : Tree)
  : result SegmentTimelineSegment error :=
  let '(_, attrs, _, _) := start ns t in
  ' t' <- uintPtrAttr 64 "t" attrs (Seg_T x) ;;
  ' d <- uintAttr 64 "d" attrs (Seg_D x) ;;
  ' r <- intPtrAttr 64 "r" attrs (Seg_R x) ;;
  Ok {| Seg_T := t'; Seg_D := d; Seg_R := r |}.

Definition zeroSegmentTimeline : SegmentTimeline := {| Segments := [] |}.

Definition segmentTimeline (ns : Spaces) (x : SegmentTimeline) (t : Tree)
  : result SegmentTimeline error :=
  let '(_, _, kids, ns') := start ns t in
  ' segments <- sliceElem (segment ns') zeroSegment "S" kids (Segments x) ;;
  Ok {| Segments := segments |}.

Definition zeroSegmentTemplate : SegmentTemplate :=
  {| ST_Timescale := None; ST_Media := None; ST_Initialization := None;
     ST_StartNumber := None; ST_PresentationTimeOffset := None;
     ST_Duration := None; ST_SegmentTimeline := [] |}.

Definition segmentTemplate (ns : Spaces) (x : SegmentTemplate) (t : Tree)
  : result SegmentTemplate error :=
  let '(_, attrs, kids, ns') := start ns t in
  ' timescale <- uintPtrAttr 64 "timescale" attrs (ST_Timescale x) ;;
  ' media <- stringPtrAttr "media" attrs (ST_Media x) ;;
  ' initialization <- stringPtrAttr "initialization" attrs (ST_Initialization x) ;;
  ' startNumber <- uintPtrAttr 64 "startNumber" attrs (ST_StartNumber x) ;;
  ' offset <- uintPtrAttr 64 "presentationTimeOffset" attrs (ST_PresentationTimeOffset x) ;;
  ' duration <- uintPtrAttr 32 "duration" attrs (ST_Duration x) ;;
  ' timeline <- sliceElem (segmentTimeline ns') zeroSegmentTimeline "SegmentTimeline"
                  kids (ST_SegmentTimeline x) ;;
  Ok {| ST_Timescale := timescale; ST_Media := media;
        ST_Initialization := initialization; ST_StartNumber := startNumber;
        ST_PresentationTimeOffset := offset; ST_Duration := duration;
        ST_SegmentTimeline := timeline |}.

Definition zeroRepresentation : Representation :=
  {| Rep_ID := None; Rep_Width := None; Rep_Height := None; Rep_FrameRate := None;
     Rep_Bandwidth := None; Rep_AudioSamplingRate := None; Rep_Codecs := None;
     Rep_ContentProtections := []; Rep_SegmentTemplate := None;
     Rep_ScanType := None; Rep_AudioChannelConfiguration := None |}.

Definition representation (ns : Spaces) (x : Representation) (t : Tree)
  : result Representation error :=
  let '(_, attrs, kids, ns') := start ns t in
  ' id <- stringPtrAttr "id" attrs (Rep_ID x) ;;
  ' width <- uintPtrAttr 64 "width" attrs (Rep_Width x) ;;
  ' height <- uintPtrAttr 64 "height" attrs (Rep_Height x) ;;
  ' frameRate <- stringPtrAttr "frameRate" attrs (Rep_FrameRate x) ;;
  ' bandwidth <- uintPtrAttr 64 "bandwidth" attrs (Rep_Bandwidth x) ;;
  ' audioSamplingRate <- stringPtrAttr "audioSamplingRate" attrs (Rep_AudioSamplingRate x) ;;
  ' codecs <- stringPtrAttr "codecs" attrs (Rep_Codecs x) ;;
  ' protections <- sliceElem (contentProtection ns') zeroContentProtection
                     "ContentProtection" kids (Rep_ContentProtections x) ;;
  ' template <- ptrElem (segmentTemplate ns') zeroSegmentTemplate "SegmentTemplate"
                  kids (Rep_SegmentTemplate x) ;;
  ' scanType <- stringPtrAttr "scanType" attrs (Rep_ScanType x) ;;
  ' audio <- ptrElem (audioChannelConfiguration ns') zeroAudioChannelConfiguration
               "AudioChannelConfiguration" kids (Rep_AudioChannelConfiguration x) ;;
  Ok {| Rep_ID := id; Rep_Width := width; Rep_Height := height;
        Rep_FrameRate := frameRate; Rep_Bandwidth := bandwidth;
        Rep_AudioSamplingRate := audioSamplingRate; Rep_Codecs := codecs;
        Rep_ContentProtections := protections; Rep_SegmentTemplate := template;
        Rep_ScanType := scanType; Rep_AudioChannelConfiguration := audio |}.

Definition zeroAdaptationSet : AdaptationSet :=
  {| AS_MimeType := ""; AS_SegmentAlignment := ConditionalUint.zero;
     AS_SubsegmentAlignment := ConditionalUint.zero; AS_StartWithSAP := None;
     AS_SubsegmentStartsWithSAP := None; AS_BitstreamSwitching := None;
     AS_Lang := None; AS_ContentProtections := []; AS_Representations := [];
     AS_FrameRate := None; AS_SegmentTemplate := None |}.

Definition adaptationSet (ns : Spaces) (x : AdaptationSet) (t : Tree)
  : result AdaptationSet error :=
  let '(_, attrs, kids, ns') := start ns t in
  ' mimeType <- stringAttr "mimeType" attrs (AS_MimeType x) ;;
  ' segmentAlignment <- condAttr "segmentAlignment" attrs (AS_SegmentAlignment x) ;;
  ' subsegmentAlignment <- condAttr "subsegmentAlignment" attrs (AS_SubsegmentAlignment x) ;;
  ' startWithSAP <- uintPtrAttr 64 "startWithSAP" attrs (AS_StartWithSAP x) ;;
  ' subsegmentStartsWithSAP <- uintPtrAttr 64 "subsegmentStartsWithSAP" attrs
                                 (AS_SubsegmentStartsWithSAP x) ;;
  ' bitstreamSwitching <- boolPtrAttr "bitstreamSwitching" attrs (AS_BitstreamSwitching x) ;;
  ' lang <- stringPtrAttr "lang" attrs (AS_Lang x) ;;
  ' protections <- sliceElem (contentProtection ns') zeroContentProtection
                     "ContentProtection" kids (AS_ContentProtections x) ;;
  ' representations <- sliceElem (representation ns') zeroRepresentation
                         "Representation" kids (AS_Representations x) ;;
  ' frameRate <- stringPtrAttr "frameRate" attrs (AS_FrameRate x) ;;
  ' template <- ptrElem (segmentTemplate ns') zeroSegmentTemplate "SegmentTemplate"
                  kids (AS_SegmentTemplate x) ;;
  Ok {| AS_MimeType := mimeType; AS_SegmentAlignment := segmentAlignment;
        AS_SubsegmentAlignment := subsegmentAlignment; AS_StartWithSAP := startWithSAP;
        AS_SubsegmentStartsWithSAP := subsegmentStartsWithSAP;
        AS_BitstreamSwitching := bitstreamSwitching; AS_Lang := lang;
        AS_ContentProtections := protections; AS_Representations := representations;
        AS_FrameRate := frameRate; AS_SegmentTemplate := template |}.

Definition zeroPeriod : Period :=
  {| Period_Start := None; Period_ID := None; Period_Duration := None;
     Period_SupplementalProperty := None; Period_BaseURL := "";
     Period_EventStreams := []; Period_ProgramEventStreams := [];
     Period_AdaptationSets := [] |}.

Definition period (ns : Spaces) (x : Period) (t : Tree) : result Period error :=
  let '(_, attrs, kids, ns') := start ns t in
  ' start' <- stringPtrAttr "start" attrs (Period_Start x) ;;
  ' id <- stringPtrAttr "id" attrs (Period_ID x) ;;
  ' duration <- stringPtrAttr "duration" attrs (Period_Duration x) ;;
  ' property <- ptrElem (descriptor ns') zeroDescriptor "SupplementalProperty"
                  kids (Period_SupplementalProperty x) ;;
  ' baseURL <- stringElem "BaseURL" kids (Period_BaseURL x) ;;
  ' eventStreams <- sliceElem (eventStream ns') zeroEventStream "EventStream"
                      kids (Period_EventStreams x) ;;
  ' programEventStreams <- sliceElem (programEventStream ns') zeroProgramEventStream
                             "ProgramEventStream" kids (Period_ProgramEventStreams x) ;;
  ' adaptationSets <- ptrSliceElem (adaptationSet ns') zeroAdaptationSet "AdaptationSet"
                        kids (Period_AdaptationSets x) ;;
  Ok {| Period_Start := start'; Period_ID := id; Period_Duration := duration;
        Period_SupplementalProperty := property; Period_BaseURL := baseURL;
        Period_EventStreams := eventStreams;
        Period_ProgramEventStreams := programEventStreams;
        Period_AdaptationSets := adaptationSets |}.

(** The zero value [MPD{}]. *)
Definition zeroMPD : MPD :=
  {| XMLNS := None; Cenc := None; Mspr := None; Type_ := None;
     MinimumUpdatePeriod := None; AvailabilityStartTime := None;
     MediaPresentationDuration := None; MinBufferTime := None;
     SuggestedPresentationDelay := None; TimeShiftBufferDepth := None;
     PublishTime := None; Profiles := ""; BaseURL := ""; Periods := [] |}.

(** The root: [MPD] has no [XMLName], so any name of the root element is
    accepted. *)
Definition mpd (ns : Spaces) (x : MPD) (t : Tree) : result MPD error :=
  let '(_, attrs, kids, ns') := start ns t in
  ' xmlns <- stringPtrAttr "xmlns" attrs (XMLNS x) ;;
  ' cenc <- stringPtrAttr "cenc" attrs (Cenc x) ;;
  ' mspr <- stringPtrAttr "mspr" attrs (Mspr x) ;;
  ' type <- stringPtrAttr "type" attrs (Type_ x) ;;
  ' minimumUpdatePeriod <- stringPtrAttr "minimumUpdatePeriod" attrs (MinimumUpdatePeriod x) ;;
  ' availabilityStartTime <- stringPtrAttr "availabilityStartTime" attrs
                               (AvailabilityStartTime x) ;;
  ' mediaPresentationDuration <- stringPtrAttr "mediaPresentationDuration" attrs
                                   (MediaPresentationDuration x) ;;
  ' minBufferTime <- stringPtrAttr "minBufferTime" attrs (MinBufferTime x) ;;
  ' suggestedPresentationDelay <- stringPtrAttr "suggestedPresentationDelay" attrs
                                    (SuggestedPresentationDelay x) ;;
  ' timeShiftBufferDepth <- stringPtrAttr "timeShiftBufferDepth" attrs
                              (TimeShiftBufferDepth x) ;;
  ' publishTime <- stringPtrAttr "publishTime" attrs (PublishTime x) ;;
  ' profiles <- stringAttr "profiles" attrs (Profiles x) ;;
  ' baseURL <- stringElem "BaseURL" kids (BaseURL x) ;;
  ' periods <- ptrSliceElem (period ns') zeroPeriod "Period" kids (Periods x) ;;
  Ok {| XMLNS := xmlns; Cenc := cenc; Mspr := mspr; Type_ := type;
        MinimumUpdatePeriod := minimumUpdatePeriod;
        AvailabilityStartTime := availabilityStartTime;
        MediaPresentationDuration := mediaPresentationDuration;
        MinBufferTime := minBufferTime;
        SuggestedPresentationDelay := suggestedPresentationDelay;
        TimeShiftBufferDepth := timeShiftBufferDepth; PublishTime := publishTime;
        Profiles := profiles; BaseURL := baseURL; Periods := periods |}.

End unmarshal.

(* ----------------------------------------------------------------- *)
(** ** mpd.go: Decode *)

(** [Decode] parses MPD XML: [xml.Unmarshal(b, m)], the receiver [m] after
    a call that returns no error, or the error. *)
Definition Decode (m : MPD) (b : string) : result MPD error :=
  match decoder.document b with
  | Ok t => unmarshal.mpd [] m t
  | Err e => Err e
  end.

(* ================================================================= *)
(** * Part II: lemmas and theorems *)
(* ================================================================= *)

(** ** strconv: what [ParseUint] accepts *)

Definition isDigit (c : ascii) : bool := utf8.inRange 48 57 (byteOf c).

Fixpoint allDigits (s : string) : bool :=
  match s with
  | EmptyString => true
  | String c s' => isDigit c && allDigits s'
  end.

(** The number a string of decimal digits denotes, after the digits already
    read denote [acc]. *)
Fixpoint decimalValue (s : string) (acc : N) : N :=
  match s with
  | EmptyString => acc
  | String c s' => decimalValue s' (acc * 10 + (byteOf c - 48))
  end.

(** A decimal numeral of a [uint64]: digits only, at least one, and a value
    that fits 64 bits. *)
Definition uint64Text (s : string) : bool :=
  negb (String.eqb s "") && allDigits s && (decimalValue s 0 <=? strconv.maxUint64)%N.

Lemma decimalValue_ge (s : string) : forall acc, (acc <= decimalValue s acc)%N.
Proof.
  induction s as [|c s IH]; intros acc; simpl; [lia|].
  specialize (IH (acc * 10 + (byteOf c - 48))%N). lia.
Qed.

Lemma inRange_spec (lo hi x : N) :
  utf8.inRange lo hi x = true <-> (lo <= x <= hi)%N.
Proof.
  unfold utf8.inRange. rewrite andb_true_iff, !N.leb_le. tauto.
Qed.

Lemma parseUintLoop_ok (s : string) : forall n v,
  (n <= strconv.maxUint64)%N ->
  strconv.parseUintLoop 10 strconv.maxUint64 s n = Ok v <->
  allDigits s = true /\ decimalValue s n = v /\ (v <= strconv.maxUint64)%N.
Proof.
  induction s as [|c s IH]; intros n v Hn; simpl.
  - split.
    + intros H; inversion H; subst; auto.
    + intros (_ & -> & _); reflexivity.
  - unfold isDigit.
    destruct (utf8.inRange 48 57 (byteOf c)) eqn:Hd; simpl.
    + apply inRange_spec in Hd.
      assert (Hlt : (10 <=? byteOf c - 48)%N = false) by (apply N.leb_gt; lia).
      rewrite Hlt.
      change (strconv.maxUint64 / 10 + 1)%N with 1844674407370955162%N.
      change (N.pos (2 ^ 64)) with 18446744073709551616%N.
      pose proof (decimalValue_ge s (n * 10 + (byteOf c - 48))) as Hge.
      unfold strconv.maxUint64 in *.
      destruct (1844674407370955162 <=? n)%N eqn:Hc.
      * apply N.leb_le in Hc. split; [discriminate|].
        intros (_ & <- & Hv). lia.
      * apply N.leb_gt in Hc.
        destruct (N.lt_ge_cases (n * 10 + (byteOf c - 48)) 18446744073709551616) as [Hs|Hs].
        -- rewrite (N.mod_small _ _ Hs).
           assert (H1 : ((n * 10 + (byteOf c - 48) <? n * 10)
                         || (18446744073709551615 <? n * 10 + (byteOf c - 48)))%N = false).
           { apply orb_false_iff; split; apply N.ltb_ge; lia. }
           rewrite H1. apply IH. lia.
        -- assert (Hm : ((n * 10 + (byteOf c - 48)) mod 18446744073709551616
                         = n * 10 + (byteOf c - 48) - 18446744073709551616)%N).
           { symmetry. apply (N.mod_unique _ _ 1); lia. }
           rewrite Hm.
           assert (H1 : ((n * 10 + (byteOf c - 48) - 18446744073709551616 <? n * 10))%N = true)
             by (apply N.ltb_lt; lia).
           rewrite H1; simpl. split; [discriminate|].
           intros (_ & <- & Hv). lia.
    + destruct (utf8.inRange 97 122 (strconv.lower (byteOf c))) eqn:Hl.
      * assert (H1 : (10 <=? strconv.lower (byteOf c) - 97 + 10)%N = true)
          by (apply N.leb_le; lia).
        rewrite H1. split; [discriminate|intros (? & _); discriminate].
      * split; [discriminate|intros (? & _); discriminate].
Qed.

(** [ParseUint(s, 10, 64)] succeeds exactly on the decimal numerals of a
    [uint64], with the value they denote. *)
Lemma ParseUint_ok (s : string) (v : N) :
  strconv.ParseUint s 64 = Ok v <-> uint64Text s = true /\ decimalValue s 0 = v.
Proof.
  unfold strconv.ParseUint, strconv.ParseUintBase, uint64Text.
  destruct s as [|c s].
  - simpl. split; [discriminate|intros [? _]; discriminate].
  - change (2 ^ 64 - 1)%N with strconv.maxUint64.
    rewrite parseUintLoop_ok by (unfold strconv.maxUint64; lia).
    cbn [String.eqb negb andb].
    rewrite andb_true_iff, N.leb_le. split.
    + intros (Ha & <- & Hv); auto.
    + intros ((Ha & Hv) & <-); auto.
Qed.

Lemma ParseUint_err (s : string) :
  (exists e, strconv.ParseUint s 64 = Err e) <-> uint64Text s = false.
Proof.
  destruct (strconv.ParseUint s 64) as [v|e] eqn:H.
  - apply ParseUint_ok in H as [H _]. rewrite H.
    split; [intros [e ?]; discriminate|discriminate].
  - split; [intros _|eauto].
    destruct (uint64Text s) eqn:Ht; [|reflexivity].
    assert (strconv.ParseUint s 64 = Ok (decimalValue s 0)) by (apply ParseUint_ok; auto).
    congruence.
Qed.

(** ** ConditionalUint *)

(** At most one of the two variants is set. *)
Definition atMostOne (c : ConditionalUint.t) : Prop :=
  ConditionalUint.u c = None \/ ConditionalUint.b c = None.

(** The ways the claims build a ConditionalUint: the zero value, a literal
    with one of the two pointers, or [UnmarshalXMLAttr] on the zero value. *)
Inductive constructed : ConditionalUint.t -> Prop :=
| constructed_empty : constructed ConditionalUint.zero
| constructed_uint (v : N) :
    constructed {| ConditionalUint.u := Some v; ConditionalUint.b := None |}
| constructed_bool (v : bool) :
    constructed {| ConditionalUint.u := None; ConditionalUint.b := Some v |}
| constructed_decoded (attr : xml.Attr) :
    constructed (fst (ConditionalUint.UnmarshalXMLAttr ConditionalUint.zero attr)).

(** The literals [strconv.ParseBool] takes for true and for false, the
    digits left out (they are numerals). *)
Definition trueLiterals : list string := ["t"; "T"; "true"; "TRUE"; "True"].
Definition falseLiterals : list string := ["f"; "F"; "false"; "FALSE"; "False"].

(** The spec's reading of a boolean literal: "true" or "false" compared
    without regard to the case of ASCII letters. *)
Definition toLowerASCII (c : ascii) : ascii :=
  if utf8.inRange 65 90 (byteOf c) then ascii_of_N (byteOf c + 32) else c.

Fixpoint equalFold (s t : string) : bool :=
  match s, t with
  | EmptyString, EmptyString => true
  | String a s', String c t' =>
      Ascii.eqb (toLowerASCII a) (toLowerASCII c) && equalFold s' t'
  | _, _ => false
  end.

Definition specBoolLiteral (s : string) : bool :=
  equalFold s "true" || equalFold s "false".

Lemma existsb_eqb_In (s : string) (l : list string) :
  existsb (String.eqb s) l = true <-> In s l.
Proof.
  rewrite existsb_exists. split.
  - intros (x & Hin & Heq). apply String.eqb_eq in Heq. subst; auto.
  - intros Hin. exists s. split; auto. apply String.eqb_refl.
Qed.

Lemma ParseBool_true (s : string) :
  strconv.ParseBool s = Ok true <-> In s ("1" :: trueLiterals).
Proof.
  unfold strconv.ParseBool, trueLiterals.
  destruct (existsb (String.eqb s) ["1"; "t"; "T"; "true"; "TRUE"; "True"]) eqn:H1.
  - apply existsb_eqb_In in H1. tauto.
  - split.
    + intros H. destruct (existsb (String.eqb s) ["0"; "f"; "F"; "false"; "FALSE"; "False"]); discriminate H.
    + intros Hin. apply existsb_eqb_In in Hin. congruence.
Qed.

Lemma ParseBool_false (s : string) :
  strconv.ParseBool s = Ok false <-> In s ("0" :: falseLiterals).
Proof.
  unfold strconv.ParseBool, falseLiterals.
  destruct (existsb (String.eqb s) ["1"; "t"; "T"; "true"; "TRUE"; "True"]) eqn:H1.
  - split; [discriminate|].
    apply existsb_eqb_In in H1. intros Hin.
    unfold falseLiterals in Hin. simpl in H1, Hin.
    repeat (destruct H1 as [H1|H1]; [subst s; repeat (destruct Hin as [Hin|Hin]; [discriminate|]); destruct Hin|]).
    destruct H1.
  - destruct (existsb (String.eqb s) ["0"; "f"; "F"; "false"; "FALSE"; "False"]) eqn:H2.
    + apply existsb_eqb_In in H2. tauto.
    + split; [discriminate|]. intros Hin. apply existsb_eqb_In in Hin. congruence.
Qed.

Lemma ParseBool_err (s : string) :
  (exists e, strconv.ParseBool s = Err e) <->
  ~ In s ("1" :: trueLiterals) /\ ~ In s ("0" :: falseLiterals).
Proof.
  rewrite <- ParseBool_true, <- ParseBool_false.
  destruct (strconv.ParseBool s) as [[|]|e].
  - split; [intros [e ?]; discriminate|intros [H _]; exfalso; auto].
  - split; [intros [e ?]; discriminate|intros [_ H]; exfalso; auto].
  - split; [intros _; split; discriminate|eauto].
Qed.

Lemma literal_not_uint (s : string) :
  In s (trueLiterals ++ falseLiterals) -> uint64Text s = false.
Proof.
  simpl. intros H.
  repeat (destruct H as [H|H]; [subst s; reflexivity|]). destruct H.
Qed.

Lemma numeral_not_literal (s : string) :
  uint64Text s = true -> ~ In s (trueLiterals ++ falseLiterals).
Proof.
  intros Hu Hin. apply literal_not_uint in Hin. congruence.
Qed.

(** Integer first: whenever the unsigned parse succeeds the integer variant
    is stored and the boolean parse is not consulted. *)
Lemma UnmarshalXMLAttr_uint (c : ConditionalUint.t) (attr : xml.Attr) (v : N) :
  strconv.ParseUint (xml.Value attr) 64 = Ok v ->
  ConditionalUint.UnmarshalXMLAttr c attr
  = ({| ConditionalUint.u := Some v; ConditionalUint.b := ConditionalUint.b c |}, None).
Proof.
  intros H. unfold ConditionalUint.UnmarshalXMLAttr. rewrite H. reflexivity.
Qed.

Lemma UnmarshalXMLAttr_bool (c : ConditionalUint.t) (attr : xml.Attr) (v : bool) :
  uint64Text (xml.Value attr) = false ->
  strconv.ParseBool (xml.Value attr) = Ok v ->
  ConditionalUint.UnmarshalXMLAttr c attr
  = ({| ConditionalUint.u := ConditionalUint.u c; ConditionalUint.b := Some v |}, None).
Proof.
  intros Hu Hb. unfold ConditionalUint.UnmarshalXMLAttr.
  apply ParseUint_err in Hu as [e He]. rewrite He, Hb. reflexivity.
Qed.

Lemma UnmarshalXMLAttr_error (c : ConditionalUint.t) (attr : xml.Attr) (e : error) :
  snd (ConditionalUint.UnmarshalXMLAttr c attr) = Some e <->
  e = MalformedUnion attr
  /\ uint64Text (xml.Value attr) = false
  /\ ~ In (xml.Value attr) (trueLiterals ++ falseLiterals).
Proof.
  unfold ConditionalUint.UnmarshalXMLAttr.
  destruct (strconv.ParseUint (xml.Value attr) 64) as [v|e1] eqn:Hu.
  - apply ParseUint_ok in Hu as [Hu _]. cbn [snd].
    split; [discriminate|intros (_ & H & _); congruence].
  - assert (Hu' : uint64Text (xml.Value attr) = false)
      by (apply ParseUint_err; eauto).
    destruct (strconv.ParseBool (xml.Value attr)) as [v|e2] eqn:Hb; cbn [snd].
    + split; [discriminate|]. intros (_ & _ & Hn). exfalso. apply Hn.
      destruct v.
      * apply ParseBool_true in Hb. destruct Hb as [Hb|Hb].
        -- rewrite <- Hb in Hu'. discriminate.
        -- apply in_or_app; auto.
      * apply ParseBool_false in Hb. destruct Hb as [Hb|Hb].
        -- rewrite <- Hb in Hu'. discriminate.
        -- apply in_or_app; auto.
    + split.
      * intros H; inversion H; subst. split; [reflexivity|split; [assumption|]].
        assert (He : exists e, strconv.ParseBool (xml.Value attr) = Err e) by eauto.
        apply ParseBool_err in He as [H1 H2].
        intros Hin. apply in_app_or in Hin as [Hin|Hin].
        -- apply H1. right; assumption.
        -- apply H2. right; assumption.
      * intros (-> & _); reflexivity.
Qed.

(** C2. ConditionalUint tries the unsigned-integer parse before the boolean
    parse.  Encoding the integer variant 42 gives the text 42 and decoding
    that text gives the integer variant 42 and no boolean variant; encoding
    the boolean variant true gives the text true and decoding it gives the
    boolean variant; decoding abc fails with the MalformedUnion error.  In
    general, whenever the text parses as an unsigned integer the integer
    variant is stored, also for the texts 1 and 0 that the boolean parse
    would take as well. *)
Theorem C2_integer_before_boolean (name : xml.Name) :
  let attr := fun text => {| xml.AttrName := name; xml.Value := text |} in
  let uintv := fun v => {| ConditionalUint.u := Some v; ConditionalUint.b := None |} in
  let boolv := fun v => {| ConditionalUint.u := None; ConditionalUint.b := Some v |} in
  ConditionalUint.MarshalXMLAttr (uintv 42%N) name = (attr "42", None)
  /\ ConditionalUint.UnmarshalXMLAttr ConditionalUint.zero (attr "42") = (uintv 42%N, None)
  /\ ConditionalUint.MarshalXMLAttr (boolv true) name = (attr "true", None)
  /\ ConditionalUint.UnmarshalXMLAttr ConditionalUint.zero (attr "true") = (boolv true, None)
  /\ ConditionalUint.UnmarshalXMLAttr ConditionalUint.zero (attr "abc")
     = (ConditionalUint.zero, Some (MalformedUnion (attr "abc")))
  /\ (forall c text v,
        strconv.ParseUint text 64 = Ok v ->
        ConditionalUint.UnmarshalXMLAttr c (attr text)
        = ({| ConditionalUint.u := Some v; ConditionalUint.b := ConditionalUint.b c |}, None))
  /\ strconv.ParseBool "1" = Ok true
  /\ ConditionalUint.UnmarshalXMLAttr ConditionalUint.zero (attr "1") = (uintv 1%N, None).
Proof.
  cbv zeta. repeat split; try reflexivity.
  intros c text v H. apply UnmarshalXMLAttr_uint. exact H.
Qed.

(** C5 as the spec words it fails on the code: the text tRUE is no unsigned
    integer and equals true compared case-insensitively, yet decoding it
    fails; and the text t is neither an unsigned integer nor true or false in
    any case, yet decoding it succeeds with the boolean variant. *)
Lemma C5_counterexample :
  (specBoolLiteral "tRUE" = true
   /\ uint64Text "tRUE" = false
   /\ ConditionalUint.UnmarshalXMLAttr ConditionalUint.zero (xml.attr "segmentAlignment" "tRUE")
      = (ConditionalUint.zero, Some (MalformedUnion (xml.attr "segmentAlignment" "tRUE"))))
  /\ (specBoolLiteral "t" = false
      /\ uint64Text "t" = false
      /\ ConditionalUint.UnmarshalXMLAttr ConditionalUint.zero (xml.attr "segmentAlignment" "t")
         = ({| ConditionalUint.u := None; ConditionalUint.b := Some true |}, None)).
Proof. repeat split; reflexivity. Qed.

(** C5, amended.  For every attribute, decoding succeeds with the boolean
    variant when the text is no decimal numeral of a uint64 and is one of the
    literals t, T, true, TRUE, True (true) or f, F, false, FALSE, False
    (false); and it fails, with the MalformedUnion error that carries the
    attribute (its name and raw text), exactly when the text is neither a
    decimal numeral of a uint64 nor one of these ten literals. *)
Theorem C5_decode_outcomes (c : ConditionalUint.t) (attr : xml.Attr) :
  (forall v : bool,
      uint64Text (xml.Value attr) = false ->
      In (xml.Value attr) (if v then trueLiterals else falseLiterals) ->
      ConditionalUint.UnmarshalXMLAttr c attr
      = ({| ConditionalUint.u := ConditionalUint.u c; ConditionalUint.b := Some v |}, None))
  /\ (forall e : error,
        snd (ConditionalUint.UnmarshalXMLAttr c attr) = Some e <->
        e = MalformedUnion attr
        /\ uint64Text (xml.Value attr) = false
        /\ ~ In (xml.Value attr) (trueLiterals ++ falseLiterals)).
Proof.
  split.
  - intros v Hu Hin. apply UnmarshalXMLAttr_bool; [exact Hu|].
    destruct v.
    + apply ParseBool_true. right; exact Hin.
    + apply ParseBool_false. right; exact Hin.
  - intros e. apply UnmarshalXMLAttr_error.
Qed.

(** The amended C5 at the text False, and at the text 2e3. *)
Lemma C5_decode_outcomes_witness :
  ConditionalUint.UnmarshalXMLAttr ConditionalUint.zero (xml.attr "segmentAlignment" "False")
  = ({| ConditionalUint.u := None; ConditionalUint.b := Some false |}, None)
  /\ snd (ConditionalUint.UnmarshalXMLAttr ConditionalUint.zero (xml.attr "segmentAlignment" "2e3"))
     = Some (MalformedUnion (xml.attr "segmentAlignment" "2e3")).
Proof.
  split.
  - apply (proj1 (C5_decode_outcomes ConditionalUint.zero (xml.attr "segmentAlignment" "False")) false).
    + reflexivity.
    + simpl. auto 10.
  - apply (proj2 (C5_decode_outcomes ConditionalUint.zero (xml.attr "segmentAlignment" "2e3"))).
    split; [reflexivity|split; [reflexivity|]].
    simpl. intros H.
    repeat (destruct H as [H|H]; [discriminate H|]). exact H.
Defined.

(** Decoding twice into the same ConditionalUint can set both variants:
    the restriction of C9 to a zero-valued receiver matters. *)
Example decode_into_nonzero_sets_both :
  fst (ConditionalUint.UnmarshalXMLAttr
         {| ConditionalUint.u := None; ConditionalUint.b := Some true |}
         (xml.attr "segmentAlignment" "42"))
  = {| ConditionalUint.u := Some 42%N; ConditionalUint.b := Some true |}.
Proof. reflexivity. Qed.


(** ** Byte strings: append, take, drop *)

Lemma app_nil_r (s : string) : s ++ "" = s.
Proof. induction s as [|c s IH]; simpl; [reflexivity|now rewrite IH]. Qed.

Lemma app_assoc (a b c : string) : (a ++ b) ++ c = a ++ b ++ c.
Proof. induction a as [|x a IH]; simpl; [reflexivity|now rewrite IH]. Qed.

Lemma length_app (a b : string) :
  String.length (a ++ b) = (String.length a + String.length b)%nat.
Proof. induction a as [|x a IH]; simpl; [reflexivity|now rewrite IH]. Qed.

(** Normal form of nested appends. *)
Ltac strassoc :=
  repeat (progress (rewrite ?app_assoc; cbn [append]));
  try reflexivity.

Lemma app_inv_head (a b c : string) : a ++ b = a ++ c -> b = c.
Proof.
  induction a as [|x a IH]; simpl; intros H; [exact H|].
  inversion H. auto.
Qed.

Lemma take_drop (n : nat) (s : string) : take n s ++ drop n s = s.
Proof.
  revert s; induction n as [|n IH]; intros [|c s]; simpl; try reflexivity.
  now rewrite IH.
Qed.

Lemma take_app_length (a b : string) : take (String.length a) (a ++ b) = a.
Proof. induction a as [|x a IH]; simpl; [now destruct b|now rewrite IH]. Qed.

Lemma drop_app_length (a b : string) : drop (String.length a) (a ++ b) = b.
Proof. induction a as [|x a IH]; simpl; [now destruct b|exact IH]. Qed.

Lemma drop_app_plus (a b : string) (n : nat) :
  drop (String.length a + n) (a ++ b) = drop n b.
Proof. induction a as [|x a IH]; simpl; [reflexivity|exact IH]. Qed.

Lemma drop_0 (s : string) : drop 0 s = s.
Proof. now destruct s. Qed.

Lemma take_0 (s : string) : take 0 s = "".
Proof. now destruct s. Qed.

Lemma length_drop (n : nat) (s : string) :
  String.length (drop n s) = (String.length s - n)%nat.
Proof.
  revert s; induction n as [|n IH]; intros [|c s]; simpl; auto.
Qed.

Lemma length_take (n : nat) (s : string) :
  String.length (take n s) = Nat.min n (String.length s).
Proof.
  revert s; induction n as [|n IH]; intros [|c s]; simpl; auto.
Qed.

Lemma drop_drop (n m : nat) (s : string) : drop n (drop m s) = drop (m + n) s.
Proof.
  revert s; induction m as [|m IH]; intros s; simpl.
  - reflexivity.
  - destruct s as [|c s]; simpl; [now destruct n|apply IH].
Qed.

Lemma concatAll_app (l1 l2 : list string) :
  concatAll (l1 ++ l2) = concatAll l1 ++ concatAll l2.
Proof.
  induction l1 as [|s l1 IH]; simpl; [reflexivity|].
  now rewrite IH, app_assoc.
Qed.

Lemma rev_append_app (s acc : string) : rev_append s acc = rev s ++ acc.
Proof.
  unfold rev. revert acc. induction s as [|c s IH]; intros acc; simpl; [reflexivity|].
  rewrite IH, (IH (String c "")), app_assoc. reflexivity.
Qed.

Lemma rev_cons (c : ascii) (s : string) : rev (String c s) = rev s ++ String c "".
Proof. unfold rev at 1; simpl. apply rev_append_app. Qed.

Lemma rev_app (a b : string) : rev (a ++ b) = rev b ++ rev a.
Proof.
  induction a as [|x a IH]; simpl.
  - now rewrite app_nil_r.
  - rewrite !rev_cons, IH, app_assoc. reflexivity.
Qed.

Lemma rev_involutive (s : string) : rev (rev s) = s.
Proof.
  induction s as [|c s IH]; [reflexivity|].
  rewrite rev_cons, rev_app, IH. reflexivity.
Qed.

(** ** strings.HasPrefix, Index, Contains *)

Lemma HasPrefix_nil (s : string) : strings.HasPrefix s "" = true.
Proof. now destruct s. Qed.

Lemma HasPrefix_app (p s : string) : strings.HasPrefix (p ++ s) p = true.
Proof.
  induction p as [|c p IH]; simpl; [apply HasPrefix_nil|].
  now rewrite Ascii.eqb_refl.
Qed.

Lemma HasPrefix_spec (s p : string) :
  strings.HasPrefix s p = true <-> exists t, s = p ++ t.
Proof.
  revert s; induction p as [|c p IH]; intros s.
  - rewrite HasPrefix_nil. split; simpl; eauto.
  - destruct s as [|d s]; simpl.
    + split; [discriminate|intros [t H]; discriminate].
    + rewrite andb_true_iff, IH. split.
      * intros [Hc [t ->]]. apply Ascii.eqb_eq in Hc. subst. eauto.
      * intros [t H]. inversion H; subst. rewrite Ascii.eqb_refl. eauto.
Qed.

(** [occursAt s sub i]: [sub] occurs in [s] at offset [i]. *)
Definition occursAt (s sub : string) (i : nat) : Prop :=
  exists a b, s = a ++ sub ++ b /\ String.length a = i.

Lemma occursAt_0 (s sub : string) :
  occursAt s sub 0 <-> strings.HasPrefix s sub = true.
Proof.
  rewrite HasPrefix_spec. split.
  - intros (a & b & -> & Ha). destruct a; [|discriminate]. simpl. eauto.
  - intros [t ->]. exists "", t. auto.
Qed.

Lemma occursAt_S (c : ascii) (s sub : string) (i : nat) :
  occursAt (String c s) sub (S i) <-> occursAt s sub i.
Proof.
  split.
  - intros (a & b & H & Ha). destruct a as [|x a]; [discriminate|].
    simpl in H. inversion H; subst. exists a, b. simpl in Ha. auto.
  - intros (a & b & -> & Ha). exists (String c a), b. simpl. auto.
Qed.

Lemma indexOf_head (s sub : string) :
  strings.HasPrefix s sub = true -> strings.indexOf s sub = Some 0%nat.
Proof. intros H. destruct s; simpl in *; now rewrite H. Qed.

Lemma indexOf_tail (c : ascii) (s sub : string) :
  strings.HasPrefix (String c s) sub = false ->
  strings.indexOf (String c s) sub = option_map S (strings.indexOf s sub).
Proof. intros H. cbn [strings.indexOf]. now rewrite H. Qed.

(** [indexOf] finds an occurrence, and the first one. *)
Lemma indexOf_sound (s sub : string) : forall i,
  strings.indexOf s sub = Some i ->
  occursAt s sub i /\ forall j, (j < i)%nat -> ~ occursAt s sub j.
Proof.
  induction s as [|c s IH]; intros i.
  - cbn [strings.indexOf]. destruct (strings.HasPrefix "" sub) eqn:Hp; [|discriminate].
    intros H; inversion H; subst. split; [now apply occursAt_0|intros j Hj; lia].
  - cbn [strings.indexOf]. destruct (strings.HasPrefix (String c s) sub) eqn:Hp.
    + intros H; inversion H; subst. split; [now apply occursAt_0|intros j Hj; lia].
    + destruct (strings.indexOf s sub) as [k|] eqn:Hk; [|discriminate].
      simpl. intros H; inversion H; subst i.
      destruct (IH k eq_refl) as [H1 H2].
      split; [now apply occursAt_S|].
      intros [|j] Hj Hocc.
      * apply occursAt_0 in Hocc. congruence.
      * apply occursAt_S in Hocc. apply (H2 j); [lia|assumption].
Qed.

Lemma indexOf_complete (s sub : string) : forall i,
  occursAt s sub i -> exists k, strings.indexOf s sub = Some k /\ (k <= i)%nat.
Proof.
  induction s as [|c s IH]; intros i Hocc.
  - destruct Hocc as (a & b & H & Ha).
    destruct a; [|discriminate]. simpl in Ha. subst i.
    exists 0%nat. split; [|lia]. apply indexOf_head.
    apply occursAt_0. exists "", b. auto.
  - destruct (strings.HasPrefix (String c s) sub) eqn:Hp.
    + exists 0%nat. split; [now apply indexOf_head|lia].
    + rewrite (indexOf_tail _ _ _ Hp).
      destruct i as [|i].
      * apply occursAt_0 in Hocc. congruence.
      * apply occursAt_S in Hocc. destruct (IH i Hocc) as (k & Hk & Hle).
        exists (S k). rewrite Hk. split; [reflexivity|lia].
Qed.

Lemma indexOf_None (s sub : string) :
  strings.indexOf s sub = None <-> forall i, ~ occursAt s sub i.
Proof.
  split.
  - intros H i Hocc. destruct (indexOf_complete _ _ _ Hocc) as (k & Hk & _). congruence.
  - intros H. destruct (strings.indexOf s sub) as [k|] eqn:Hk; [|reflexivity].
    apply indexOf_sound in Hk as [Hk _]. exfalso. exact (H k Hk).
Qed.

Lemma indexOf_first (s sub : string) (i : nat) :
  occursAt s sub i -> (forall j, (j < i)%nat -> ~ occursAt s sub j) ->
  strings.indexOf s sub = Some i.
Proof.
  intros Hocc Hmin. destruct (indexOf_complete _ _ _ Hocc) as (k & Hk & Hle).
  rewrite Hk. f_equal.
  destruct (Nat.eq_dec k i) as [|Hne]; [assumption|].
  exfalso. apply (Hmin k); [lia|]. apply indexOf_sound in Hk. tauto.
Qed.

(** The decomposition of [s] around the occurrence [indexOf] finds. *)
Lemma indexOf_split (s sub : string) (i : nat) :
  strings.indexOf s sub = Some i ->
  s = take i s ++ sub ++ drop (i + String.length sub) s
  /\ String.length (take i s) = i.
Proof.
  intros H. apply indexOf_sound in H as [(a & b & -> & Ha) _]. subst i.
  rewrite take_app_length, drop_app_plus, drop_app_length. auto.
Qed.

Lemma Contains_true (s sub : string) :
  strings.Contains s sub = true <-> exists i, occursAt s sub i.
Proof.
  unfold strings.Contains, strings.Index.
  destruct (strings.indexOf s sub) as [k|] eqn:Hk.
  - split; [intros _|intros _; apply Z.leb_le; lia].
    exists k. apply indexOf_sound in Hk. tauto.
  - split; [discriminate|]. intros [i Hi].
    apply (proj1 (indexOf_None s sub)) in Hi; tauto.
Qed.

Lemma Contains_false (s sub : string) :
  strings.Contains s sub = false <-> strings.indexOf s sub = None.
Proof.
  unfold strings.Contains, strings.Index.
  destruct (strings.indexOf s sub) as [k|].
  - split; [|discriminate]. intros H. apply Z.leb_gt in H. lia.
  - split; reflexivity.
Qed.

Lemma Contains_app (a sub b : string) : strings.Contains (a ++ sub ++ b) sub = true.
Proof. apply Contains_true. exists (String.length a), a, b. auto. Qed.

(** An occurrence in a part is an occurrence in the whole. *)
Lemma occursAt_app_l (a b sub : string) (i : nat) :
  occursAt a sub i -> occursAt (a ++ b) sub i.
Proof.
  intros (x & y & -> & Hx). exists x, (y ++ b). now rewrite !app_assoc.
Qed.

Lemma occursAt_app_r (a b sub : string) (i : nat) :
  occursAt b sub i -> occursAt (a ++ b) sub (String.length a + i).
Proof.
  intros (x & y & -> & Hx). exists (a ++ x), y.
  rewrite !app_assoc, length_app. auto.
Qed.

Lemma Contains_false_app (a b sub : string) :
  strings.Contains (a ++ b) sub = false ->
  strings.Contains a sub = false /\ strings.Contains b sub = false.
Proof.
  intros H. split.
  - destruct (strings.Contains a sub) eqn:Ha; [|reflexivity].
    apply Contains_true in Ha as [i Hi].
    assert (strings.Contains (a ++ b) sub = true)
      by (apply Contains_true; eexists; apply occursAt_app_l; eassumption).
    congruence.
  - destruct (strings.Contains b sub) eqn:Hb; [|reflexivity].
    apply Contains_true in Hb as [i Hi].
    assert (strings.Contains (a ++ b) sub = true)
      by (apply Contains_true; eexists; apply occursAt_app_r; eassumption).
    congruence.
Qed.

(** ** strings.Count and strings.Replace *)

Lemma countLoop_acc (fuel : nat) : forall s old n,
  strings.countLoop fuel s old n = (n + strings.countLoop fuel s old 0)%nat.
Proof.
  induction fuel as [|fuel IH]; intros s old n; simpl; [lia|].
  destruct (strings.indexOf s old) as [i|]; [|lia].
  rewrite IH, (IH _ _ 1%nat). lia.
Qed.

Lemma indexOf_length (s old : string) (i : nat) :
  strings.indexOf s old = Some i -> (i + String.length old <= String.length s)%nat.
Proof.
  intros H. apply indexOf_sound in H as [(a & b & -> & Ha) _].
  rewrite !length_app. lia.
Qed.

(** Enough fuel: the count does not depend on it. *)
Lemma countLoop_fuel (old : string) :
  old <> "" ->
  forall fuel s, (String.length s < fuel)%nat ->
  strings.countLoop fuel s old 0 = strings.countLoop (S (String.length s)) s old 0.
Proof.
  intros Hold fuel. induction fuel as [fuel IH] using lt_wf_ind. intros s Hlen.
  destruct fuel as [|fuel]; [lia|].
  cbn [strings.countLoop].
  destruct (strings.indexOf s old) as [i|] eqn:Hi; [|reflexivity].
  pose proof (indexOf_length _ _ _ Hi) as Hle.
  assert (Hpos : (0 < String.length old)%nat) by (destruct old; [congruence|simpl; lia]).
  set (rest := drop (i + String.length old) s).
  assert (Hrest : (String.length rest < String.length s)%nat)
    by (unfold rest; rewrite length_drop; lia).
  rewrite (countLoop_acc fuel), (countLoop_acc (String.length s)).
  rewrite (IH fuel) by lia.
  rewrite (IH (String.length s)) by lia. reflexivity.
Qed.

Lemma Count_none (s old : string) :
  strings.indexOf s old = None -> strings.Count s old = 0%nat.
Proof. intros H. unfold strings.Count. simpl. now rewrite H. Qed.

Lemma Count_some (s old : string) (i : nat) :
  old <> "" ->
  strings.indexOf s old = Some i ->
  strings.Count s old = S (strings.Count (drop (i + String.length old) s) old).
Proof.
  intros Hold Hi. unfold strings.Count at 1. cbn [strings.countLoop]. rewrite Hi.
  rewrite countLoop_acc. unfold strings.Count.
  pose proof (indexOf_length _ _ _ Hi) as Hle.
  assert (Hpos : (0 < String.length old)%nat) by (destruct old; [congruence|simpl; lia]).
  rewrite (countLoop_fuel _ Hold) by (rewrite length_drop; lia). reflexivity.
Qed.

Lemma Replace_unfold (s old new : string) (n : Z) :
  old <> "" -> old <> new -> n <> 0%Z ->
  strings.Replace s old new n =
  if (strings.Count s old =? 0)%nat then s
  else strings.replaceLoop
         (if (n <? 0)%Z || (Z.of_nat (strings.Count s old) <? n)%Z
          then strings.Count s old else Z.to_nat n) s old new.
Proof.
  intros Ho Hon Hn. unfold strings.Replace.
  apply String.eqb_neq in Hon. apply Z.eqb_neq in Hn. rewrite Hon, Hn. simpl.
  destruct old; [congruence|reflexivity].
Qed.

Section Replace.

Variables old new : string.
Hypothesis old_nonempty : old <> "".
Hypothesis old_new : old <> new.

(** Nothing to replace: the string is returned as it is. *)
Lemma Replace_none (s : string) (n : Z) :
  strings.indexOf s old = None -> strings.Replace s old new n = s.
Proof.
  intros H. destruct (Z.eq_dec n 0) as [->|Hn].
  - unfold strings.Replace. now rewrite orb_true_r.
  - rewrite Replace_unfold by assumption. now rewrite (Count_none _ _ H).
Qed.

(** With [n = 1] the first instance is replaced, and no other. *)
Lemma Replace_first (s : string) (i : nat) :
  strings.indexOf s old = Some i ->
  strings.Replace s old new 1 = take i s ++ new ++ drop (i + String.length old) s.
Proof.
  intros H. rewrite Replace_unfold by (assumption || discriminate).
  rewrite (Count_some _ _ _ old_nonempty H). cbn [Nat.eqb].
  destruct (Z.of_nat (S (strings.Count (drop (i + String.length old) s) old)) <? 1)%Z eqn:Hlt.
  - apply Z.ltb_lt in Hlt. lia.
  - cbn [orb Z.ltb Z.compare]. change (Z.to_nat 1) with 1%nat.
    cbn [strings.replaceLoop]. now rewrite H.
Qed.

(** With a negative [n] every instance is replaced, from left to right. *)
Lemma Replace_all (s : string) (i : nat) :
  strings.indexOf s old = Some i ->
  strings.Replace s old new (-1)
  = take i s ++ new ++ strings.Replace (drop (i + String.length old) s) old new (-1).
Proof.
  intros H. rewrite !Replace_unfold by (assumption || discriminate).
  rewrite (Count_some _ _ _ old_nonempty H). cbn [Nat.eqb Z.ltb Z.compare orb strings.replaceLoop].
  rewrite H. do 2 f_equal.
  destruct (strings.Count (drop (i + String.length old) s) old); reflexivity.
Qed.

(** The same, on a string split around the first instance. *)
Lemma Replace_first_app (a b : string) :
  strings.indexOf (a ++ old ++ b) old = Some (String.length a) ->
  strings.Replace (a ++ old ++ b) old new 1 = a ++ new ++ b.
Proof.
  intros H. rewrite (Replace_first _ _ H).
  now rewrite take_app_length, drop_app_plus, drop_app_length.
Qed.

Lemma Replace_all_app (a b : string) :
  strings.indexOf (a ++ old ++ b) old = Some (String.length a) ->
  strings.Replace (a ++ old ++ b) old new (-1)
  = a ++ new ++ strings.Replace b old new (-1).
Proof.
  intros H. rewrite (Replace_all _ _ H).
  now rewrite take_app_length, drop_app_plus, drop_app_length.
Qed.

End Replace.

(** ** bytes.Buffer.ReadString and the lines of a text *)

Definition newline : ascii := "010"%char.

(** The lines of a text, each with its newline; the last one has none when
    the text does not end in a newline. *)
Fixpoint splitLines (x : string) : list string :=
  match x with
  | EmptyString => []
  | String c x' =>
      if Ascii.eqb c newline then String c "" :: splitLines x'
      else
        match splitLines x' with
        | [] => [String c ""]
        | l :: ls => String c l :: ls
        end
  end.

Lemma ReadString_lines (x : string) : forall s rest eof,
  ReadString x = (s, rest, eof) ->
  (x = "" /\ s = "" /\ rest = "" /\ eof = true)
  \/ (s <> "" /\ splitLines x = s :: splitLines rest
      /\ (String.length rest < String.length x)%nat
      /\ (eof = true -> rest = "")).
Proof.
  induction x as [|c x IH]; intros s rest eof; simpl.
  - intros H; inversion H; subst. left; auto.
  - fold newline. destruct (Ascii.eqb c newline) eqn:Hc.
    + intros H; inversion H; subst. right.
      repeat split; try discriminate; auto.
    + destruct (ReadString x) as [[s0 rest0] eof0] eqn:Hr.
      intros H; inversion H; subst. right.
      destruct (IH _ _ _ eq_refl) as [(-> & -> & -> & ->)|(Hs & Hl & Hlen & Heof)].
      * simpl. repeat split; try discriminate; auto.
      * rewrite Hl. repeat split; try discriminate; auto; simpl; lia.
Qed.

(** The loop of [Encode] rewrites the lines one by one and appends what is
    left of each. *)
Lemma encodeLoop_lines (fuel : nat) : forall x res,
  (String.length x < fuel)%nat ->
  encodeLoop fuel x res = res ++ concatAll (map rewriteLine (splitLines x)).
Proof.
  induction fuel as [|fuel IH]; intros x res Hlen; [lia|].
  cbn [encodeLoop].
  destruct (ReadString x) as [[s rest] eof] eqn:Hr.
  destruct (ReadString_lines _ _ _ _ Hr) as [(-> & -> & -> & ->)|(Hs & Hl & Hlt & Heof)].
  - simpl. now rewrite app_nil_r.
  - apply String.eqb_neq in Hs. rewrite Hs, Hl. simpl.
    destruct eof.
    + rewrite (Heof eq_refl). simpl. now rewrite app_nil_r.
    + rewrite IH by lia. now rewrite app_assoc.
Qed.

Lemma rewritePass_lines (x : string) :
  rewritePass x = concatAll (map rewriteLine (splitLines x)).
Proof. unfold rewritePass. now rewrite encodeLoop_lines by lia. Qed.

Lemma Encode_lines (m : MPD) :
  Encode m =
  match xmlEncode m with
  | Err e => Err e
  | Ok x => Ok ((xmlHeader ++ xml.nl) ++ rewritePass x ++ xml.nl)
  end.
Proof.
  unfold Encode. destruct (xmlEncode m) as [x|e]; [|reflexivity].
  rewrite encodeLoop_lines by lia. rewrite rewritePass_lines.
  now rewrite !app_assoc.
Qed.

Lemma splitLines_concat (x : string) : concatAll (splitLines x) = x.
Proof.
  induction x as [|c x IH]; simpl; [reflexivity|].
  destruct (Ascii.eqb c newline).
  - simpl. now rewrite IH.
  - destruct (splitLines x) as [|l ls]; simpl in *.
    + now rewrite <- IH.
    + now rewrite <- IH.
Qed.

(** A text without newline is one line. *)
Fixpoint noNewline (s : string) : bool :=
  match s with
  | EmptyString => true
  | String c s' => negb (Ascii.eqb c newline) && noNewline s'
  end.

Lemma splitLines_line (l rest : string) :
  noNewline l = true ->
  splitLines (l ++ xml.nl ++ rest) = (l ++ xml.nl) :: splitLines rest.
Proof.
  induction l as [|c l IH]; simpl; intros H.
  - reflexivity.
  - apply andb_true_iff in H as [Hc Hl]. apply negb_true_iff in Hc.
    rewrite Hc. specialize (IH Hl). simpl in IH. now rewrite IH.
Qed.

Lemma splitLines_last (l : string) :
  noNewline l = true -> l <> "" -> splitLines l = [l].
Proof.
  induction l as [|c l IH]; simpl; intros H Hne; [congruence|].
  apply andb_true_iff in H as [Hc Hl]. apply negb_true_iff in Hc.
  rewrite Hc.
  destruct l as [|d l]; [reflexivity|].
  rewrite (IH Hl) by discriminate. reflexivity.
Qed.

(** ** regexp: the replacement of [emptyElementRE] *)

(** The pattern matches somewhere in [s]. *)
Fixpoint hasMatch (s : string) : bool :=
  match regexp.matchHere s with
  | Some _ => true
  | None =>
      match s with
      | EmptyString => false
      | String _ s' => hasMatch s'
      end
  end.

Lemma replaceAllFrom_skip (repl : string) (s : string) : forall k,
  regexp.replaceAllFrom k s repl = regexp.replaceAllFrom 0 (drop k s) repl.
Proof.
  induction s as [|c s IH]; intros [|k]; try reflexivity.
  cbn [regexp.replaceAllFrom drop]. apply IH.
Qed.

Lemma matchHere_pos (s : string) (n : nat) :
  regexp.matchHere s = Some n -> (4 <= n)%nat.
Proof.
  unfold regexp.matchHere. destruct (strings.HasPrefix s "></"); [|discriminate].
  destruct (regexp.lettersGT false (drop 3 s)) as [k|] eqn:Hk; [|discriminate].
  simpl. intros H; inversion H; subst.
  destruct (drop 3 s) as [|c t]; [discriminate|]. simpl in Hk.
  destruct (regexp.isLetter c); [|discriminate].
  destruct (regexp.lettersGT true t); [|discriminate]. inversion Hk. lia.
Qed.

Lemma replaceAll_match (s repl : string) (n : nat) :
  regexp.matchHere s = Some n ->
  emptyElementRE.ReplaceAllString s repl
  = repl ++ emptyElementRE.ReplaceAllString (drop n s) repl.
Proof.
  intros H. unfold emptyElementRE.ReplaceAllString.
  pose proof (matchHere_pos _ _ H) as Hn.
  destruct s as [|c s]; [discriminate|].
  cbn [regexp.replaceAllFrom]. rewrite H, replaceAllFrom_skip.
  destruct n as [|n]; [lia|]. simpl. now rewrite Nat.sub_0_r.
Qed.

Lemma replaceAll_char (c : ascii) (s repl : string) :
  regexp.matchHere (String c s) = None ->
  emptyElementRE.ReplaceAllString (String c s) repl
  = String c (emptyElementRE.ReplaceAllString s repl).
Proof.
  intros H. unfold emptyElementRE.ReplaceAllString.
  cbn [regexp.replaceAllFrom]. now rewrite H.
Qed.

(** Without a match nothing is replaced. *)
Lemma replaceAll_nomatch (s repl : string) :
  hasMatch s = false -> emptyElementRE.ReplaceAllString s repl = s.
Proof.
  induction s as [|c s IH]; intros H; [reflexivity|].
  cbn [hasMatch] in H.
  destruct (regexp.matchHere (String c s)) eqn:Hm; [discriminate|].
  rewrite replaceAll_char by assumption. now rewrite IH.
Qed.

(** ** The rewrites of a line that finds nothing to rewrite *)

Definition emptyTimelineTag : string := "<SegmentTimeline/>".

(** No rule of the loop is triggered by the line. *)
Definition untriggered (s : string) : bool :=
  negb (hasMatch s)
  && negb (strings.Contains s "<MPD")
  && negb (strings.Contains s "<pssh")
  && negb (strings.Contains s "<pro")
  && negb (strings.Contains s "default_KID")
  && negb (String.eqb (strings.TrimSpace s) emptyTimelineTag).

(** No bare marker is left on the line: as [untriggered], but a line with
    the root tag only counts when it still holds a marker to qualify. *)
Definition settled (s : string) : bool :=
  negb (hasMatch s)
  && (negb (strings.Contains s "<MPD")
      || (negb (strings.Contains s "cenc") && negb (strings.Contains s "mspr")))
  && negb (strings.Contains s "<pssh")
  && negb (strings.Contains s "<pro")
  && negb (strings.Contains s "default_KID")
  && negb (String.eqb (strings.TrimSpace s) emptyTimelineTag).

Lemma untriggered_settled (s : string) : untriggered s = true -> settled s = true.
Proof.
  unfold untriggered, settled. intros H.
  repeat (apply andb_true_iff in H; let H' := fresh "H" in destruct H as [H H']).
  rewrite H, H0, H1, H2, H3, H4. reflexivity.
Qed.

Lemma rewriteLine_settled (s : string) : settled s = true -> rewriteLine s = s.
Proof.
  unfold settled. rewrite !andb_true_iff, !negb_true_iff.
  intros (((((H1 & H2) & H3) & H4) & H5) & H6).
  unfold rewriteLine, selfClose. rewrite (replaceAll_nomatch _ _ H1).
  assert (E2 : injectMPD s = s).
  { unfold injectMPD. destruct (strings.Contains s "<MPD"); [|reflexivity].
    simpl in H2. apply andb_true_iff in H2 as [Hc Hm].
    apply negb_true_iff in Hc, Hm. apply Contains_false in Hc, Hm.
    rewrite (Replace_none "cenc" "xmlns:cenc") by (discriminate || assumption).
    now rewrite (Replace_none "mspr" "xmlns:mspr") by (discriminate || assumption). }
  rewrite E2. unfold injectPssh. rewrite H3.
  unfold injectPro. rewrite H4.
  unfold qualifyDefaultKID. rewrite H5.
  unfold dropEmptyTimeline. unfold emptyTimelineTag in H6. now rewrite H6.
Qed.

Lemma rewriteLine_untriggered (s : string) : untriggered s = true -> rewriteLine s = s.
Proof. intros H. apply rewriteLine_settled, untriggered_settled, H. Qed.

(** C8. The rewrite pass never alters a line that triggers no rule: a line
    of the serializer's output with no open tag immediately followed by a
    close tag, without the substrings <MPD, <pssh, <pro and default_KID, and
    whose trimmed content is not the self-closed empty-timeline tag, stands
    in the output of Encode exactly as it stood in the serializer's
    output, between the rewritten lines before it and after it. *)
Theorem C8_untriggered_line_unchanged
  (m : MPD) (x : string) (before after : list string) (s : string) :
  xmlEncode m = Ok x ->
  splitLines x = (before ++ s :: after)%list ->
  untriggered s = true ->
  rewritePass x
  = concatAll (map rewriteLine before) ++ s ++ concatAll (map rewriteLine after)
  /\ Encode m
     = Ok ((xmlHeader ++ xml.nl)
           ++ (concatAll (map rewriteLine before) ++ s ++ concatAll (map rewriteLine after))
           ++ xml.nl).
Proof.
  intros Hx Hl Hs.
  assert (E : rewritePass x
              = concatAll (map rewriteLine before) ++ s ++ concatAll (map rewriteLine after)).
  { rewrite rewritePass_lines, Hl, map_app, concatAll_app. simpl.
    now rewrite (rewriteLine_untriggered _ Hs). }
  split; [exact E|].
  rewrite Encode_lines, Hx, E. reflexivity.
Qed.

(** ** Sample documents *)

Definition mkMPD (xmlns cenc mspr : option string) (profiles : string)
  (periods : list (option Period)) : MPD :=
  {| XMLNS := xmlns; Cenc := cenc; Mspr := mspr; Type_ := None;
     MinimumUpdatePeriod := None; AvailabilityStartTime := None;
     MediaPresentationDuration := None; MinBufferTime := None;
     SuggestedPresentationDelay := None; TimeShiftBufferDepth := None;
     PublishTime := None; Profiles := profiles; BaseURL := "";
     Periods := periods |}.

Definition mkPeriod (sets : list (option AdaptationSet)) : Period :=
  {| Period_Start := None; Period_ID := None; Period_Duration := None;
     Period_SupplementalProperty := None; Period_BaseURL := "";
     Period_EventStreams := []; Period_ProgramEventStreams := [];
     Period_AdaptationSets := sets |}.

Definition mkAdaptationSet (mime : string) (cps : list ContentProtection)
  (reps : list Representation) (tmpl : option SegmentTemplate) : AdaptationSet :=
  {| AS_MimeType := mime; AS_SegmentAlignment := ConditionalUint.zero;
     AS_SubsegmentAlignment := ConditionalUint.zero; AS_StartWithSAP := None;
     AS_SubsegmentStartsWithSAP := None; AS_BitstreamSwitching := None;
     AS_Lang := None; AS_ContentProtections := cps; AS_Representations := reps;
     AS_FrameRate := None; AS_SegmentTemplate := tmpl |}.

Definition mkRepresentation (id : option string) (bandwidth : option N)
  (cps : list ContentProtection) (tmpl : option SegmentTemplate) : Representation :=
  {| Rep_ID := id; Rep_Width := None; Rep_Height := None; Rep_FrameRate := None;
     Rep_Bandwidth := bandwidth; Rep_AudioSamplingRate := None; Rep_Codecs := None;
     Rep_ContentProtections := cps; Rep_SegmentTemplate := tmpl;
     Rep_ScanType := None; Rep_AudioChannelConfiguration := None |}.

Definition mkContentProtection (scheme value kid cenc : option string)
  (pssh : option Pssh) (pro : option Pro) : ContentProtection :=
  {| CP_SchemeIDURI := scheme; CP_Value := value; CP_DefaultKID := kid;
     CP_Cenc := cenc; CP_Pssh := pssh; CP_Pro := pro |}.

Definition mkSegmentTemplate (timescale : option N) (media : option string)
  (timelines : list SegmentTimeline) : SegmentTemplate :=
  {| ST_Timescale := timescale; ST_Media := media; ST_Initialization := None;
     ST_StartNumber := None; ST_PresentationTimeOffset := None;
     ST_Duration := None; ST_SegmentTimeline := timelines |}.

(** A document with a payload of each kind, a Representation without
    children and an empty timeline, and no marker on the root or key id. *)
Definition docPayloads : MPD :=
  mkMPD (Some "urn:mpeg:dash:schema:mpd:2011") None None
    "urn:mpeg:dash:profile:isoff-live:2011"
    [Some (mkPeriod
       [Some (mkAdaptationSet "video/mp4"
          [mkContentProtection (Some "urn:uuid:edef8ba9") None None None
             (Some {| Pssh_Value := Some "AAAA"; Pssh_Cenc := Some "urn:mpeg:cenc:2013" |})
             (Some {| Pro_Value := Some "BBBB"; Pro_Mspr := Some "urn:microsoft:playready" |})]
          [mkRepresentation (Some "1") (Some 500000%N) [] None]
          (Some (mkSegmentTemplate (Some 1000%N) (Some "seg-$Time$.m4s")
                   [{| Segments := [] |}])))])].

(** A document whose root carries the cenc marker. *)
Definition docRootCenc : MPD :=
  mkMPD None (Some "urn:mpeg:cenc:2013") None "p" [].

(** A document with a protection payload without name-space marker and a
    descriptor whose value holds the text of a marker. *)
Definition docTwoOccurrences : MPD :=
  mkMPD None None None "p"
    [Some (mkPeriod
       [Some (mkAdaptationSet "video/mp4"
          [mkContentProtection None (Some "cenc=1") (Some "k") (Some "urn:mpeg:cenc:2013")
             (Some {| Pssh_Value := Some "AAAA"; Pssh_Cenc := None |}) None]
          [] None)])].

Definition q : string := xml.quot.

Lemma C8_untriggered_line_unchanged_witness :
  rewritePass
    ("<MPD profiles=" ++ q ++ "p" ++ q ++ ">" ++ xml.nl
     ++ "  <Period></Period>" ++ xml.nl ++ "</MPD>")
  = concatAll (map rewriteLine
                 ["<MPD profiles=" ++ q ++ "p" ++ q ++ ">" ++ xml.nl;
                  "  <Period></Period>" ++ xml.nl])
    ++ "</MPD>" ++ concatAll (map rewriteLine [])
  /\ Encode (mkMPD None None None "p" [Some (mkPeriod [])])
     = Ok ((xmlHeader ++ xml.nl)
           ++ (concatAll (map rewriteLine
                 ["<MPD profiles=" ++ q ++ "p" ++ q ++ ">" ++ xml.nl;
                  "  <Period></Period>" ++ xml.nl])
               ++ "</MPD>" ++ concatAll (map rewriteLine []))
           ++ xml.nl).
Proof.
  apply (C8_untriggered_line_unchanged
           (mkMPD None None None "p" [Some (mkPeriod [])])
           ("<MPD profiles=" ++ q ++ "p" ++ q ++ ">" ++ xml.nl
            ++ "  <Period></Period>" ++ xml.nl ++ "</MPD>")
           ["<MPD profiles=" ++ q ++ "p" ++ q ++ ">" ++ xml.nl;
            "  <Period></Period>" ++ xml.nl]
           [] "</MPD>").
  - reflexivity.
  - reflexivity.
  - reflexivity.
Defined.

(** ** C3: the pass is not idempotent on what it has qualified *)

(** C3 as stated fails: on the output of the serializer for a document
    whose root carries the cenc marker, the second run qualifies the
    already qualified marker once more. *)
Lemma C3_counterexample :
  xmlEncode docRootCenc
  = Ok ("<MPD cenc=" ++ q ++ "urn:mpeg:cenc:2013" ++ q
        ++ " profiles=" ++ q ++ "p" ++ q ++ "></MPD>")
  /\ rewritePass ("<MPD cenc=" ++ q ++ "urn:mpeg:cenc:2013" ++ q
                  ++ " profiles=" ++ q ++ "p" ++ q ++ "></MPD>")
     = "<MPD xmlns:cenc=" ++ q ++ "urn:mpeg:cenc:2013" ++ q
       ++ " profiles=" ++ q ++ "p" ++ q ++ "/>"
  /\ rewritePass (rewritePass ("<MPD cenc=" ++ q ++ "urn:mpeg:cenc:2013" ++ q
                               ++ " profiles=" ++ q ++ "p" ++ q ++ "></MPD>"))
     = "<MPD xmlns:xmlns:cenc=" ++ q ++ "urn:mpeg:cenc:2013" ++ q
       ++ " profiles=" ++ q ++ "p" ++ q ++ "/>".
Proof. repeat split; reflexivity. Qed.

Lemma rewritePass_settled (y : string) :
  forallb settled (splitLines y) = true -> rewritePass y = y.
Proof.
  intros H. rewrite rewritePass_lines.
  rewrite <- (splitLines_concat y) at 2.
  induction (splitLines y) as [|l ls IH]; [reflexivity|].
  simpl in H. apply andb_true_iff in H as [Hl Hls].
  simpl. now rewrite (rewriteLine_settled _ Hl), (IH Hls).
Qed.

(** C3, amended.  Running the rewrite pass on its own output changes
    nothing when that output holds no bare marker any more: no line of it
    has an open tag immediately followed by a close tag, the root tag
    together with the text cenc or mspr, the text <pssh, <pro or
    default_KID, or the self-closed empty-timeline tag as its trimmed
    content.  (A qualified root marker or key id still holds the bare text of
    its marker, and a second run qualifies it again.) *)
Theorem C3_idempotent_when_settled (x : string) :
  forallb settled (splitLines (rewritePass x)) = true ->
  rewritePass (rewritePass x) = rewritePass x.
Proof. apply rewritePass_settled. Qed.

Lemma C3_idempotent_when_settled_witness :
  (exists x, xmlEncode docPayloads = Ok x
             /\ String.eqb (rewritePass x) x = false
             /\ rewritePass (rewritePass x) = rewritePass x).
Proof.
  eexists. split; [reflexivity|]. split; [vm_compute; reflexivity|].
  apply C3_idempotent_when_settled. vm_compute. reflexivity.
Defined.

(** ** C4: how many occurrences a rule replaces *)

(** The spec's two ways of substituting, written without [strings.Replace]:
    the first occurrence only, and every occurrence from left to right. *)
Fixpoint replaceFirst (old new s : string) {struct s} : string :=
  if strings.HasPrefix s old then new ++ drop (String.length old) s
  else
    match s with
    | EmptyString => EmptyString
    | String c s' => String c (replaceFirst old new s')
    end.

Fixpoint replaceEveryFrom (skip : nat) (old new s : string) {struct s} : string :=
  match s with
  | EmptyString => EmptyString
  | String c s' =>
      match skip with
      | S k => replaceEveryFrom k old new s'
      | O =>
          if strings.HasPrefix s old
          then new ++ replaceEveryFrom (String.length old - 1) old new s'
          else String c (replaceEveryFrom 0 old new s')
      end
  end.

Definition replaceEvery (old new s : string) : string := replaceEveryFrom 0 old new s.

Lemma replaceFirst_indexOf (old new s : string) :
  replaceFirst old new s =
  match strings.indexOf s old with
  | Some i => take i s ++ new ++ drop (i + String.length old) s
  | None => s
  end.
Proof.
  induction s as [|c s IH].
  - cbn [replaceFirst strings.indexOf].
    destruct (strings.HasPrefix "" old); [now rewrite take_0|reflexivity].
  - cbn [replaceFirst strings.indexOf].
    destruct (strings.HasPrefix (String c s) old); [reflexivity|].
    rewrite IH. destruct (strings.indexOf s old) as [i|]; reflexivity.
Qed.

Lemma replaceEveryFrom_skip (old new s : string) : forall k,
  replaceEveryFrom k old new s = replaceEvery old new (drop k s).
Proof.
  induction s as [|c s IH]; intros [|k]; try reflexivity.
  cbn [replaceEveryFrom drop]. apply IH.
Qed.

Lemma replaceEvery_indexOf (old new s : string) :
  old <> "" ->
  replaceEvery old new s =
  match strings.indexOf s old with
  | Some i => take i s ++ new ++ replaceEvery old new (drop (i + String.length old) s)
  | None => s
  end.
Proof.
  intros Hold. unfold replaceEvery. induction s as [|c s IH].
  - cbn [replaceEveryFrom strings.indexOf].
    destruct (strings.HasPrefix "" old) eqn:Hp; [|reflexivity].
    apply HasPrefix_spec in Hp as [t Ht]. destruct old; [congruence|discriminate].
  - cbn [replaceEveryFrom strings.indexOf].
    destruct (strings.HasPrefix (String c s) old).
    + rewrite replaceEveryFrom_skip. unfold replaceEvery.
      destruct old as [|o old']; [congruence|].
      cbn [String.length Nat.sub take drop Nat.add append]. now rewrite Nat.sub_0_r.
    + rewrite IH. destruct (strings.indexOf s old) as [i|]; reflexivity.
Qed.

Lemma Replace_1_replaceFirst (old new s : string) :
  old <> "" -> old <> new ->
  strings.Replace s old new 1 = replaceFirst old new s.
Proof.
  intros Ho Hon. rewrite replaceFirst_indexOf.
  destruct (strings.indexOf s old) as [i|] eqn:Hi.
  - now apply Replace_first.
  - now apply Replace_none.
Qed.

Lemma Replace_all_replaceEvery (old new : string) :
  old <> "" -> old <> new ->
  forall s, strings.Replace s old new (-1) = replaceEvery old new s.
Proof.
  intros Ho Hon s.
  remember (String.length s) as n eqn:Hn. revert s Hn.
  induction n as [n IH] using lt_wf_ind. intros s Hn.
  rewrite (replaceEvery_indexOf old new s Ho).
  destruct (strings.indexOf s old) as [i|] eqn:Hi.
  - rewrite (Replace_all old new Ho Hon s i Hi). do 2 f_equal.
    pose proof (indexOf_length _ _ _ Hi) as Hle.
    assert (Hpos : (0 < String.length old)%nat) by (destruct old; [congruence|simpl; lia]).
    apply (IH (String.length (drop (i + String.length old) s))); [|reflexivity].
    rewrite length_drop. lia.
  - now apply Replace_none.
Qed.

(** What the two substitutions do around the first occurrence. *)
Lemma replaceFirst_app (old new a b : string) :
  strings.indexOf (a ++ old ++ b) old = Some (String.length a) ->
  replaceFirst old new (a ++ old ++ b) = a ++ new ++ b.
Proof.
  intros H. rewrite replaceFirst_indexOf, H.
  now rewrite take_app_length, drop_app_plus, drop_app_length.
Qed.

Lemma replaceEvery_app (old new a b : string) :
  old <> "" ->
  strings.indexOf (a ++ old ++ b) old = Some (String.length a) ->
  replaceEvery old new (a ++ old ++ b) = a ++ new ++ replaceEvery old new b.
Proof.
  intros Ho H. rewrite replaceEvery_indexOf, H by assumption.
  now rewrite take_app_length, drop_app_plus, drop_app_length.
Qed.

(** C4 as stated fails: on the serializer's output for a protection payload
    and a descriptor with a key id, both occurrences of the tag name pssh and
    both occurrences of the text cenc= on the descriptor's line are
    rewritten, not the first one only. *)
Lemma C4_counterexample :
  injectPssh ("<pssh>AAAA</pssh>") = "<cenc:pssh>AAAA</cenc:pssh>"
  /\ qualifyDefaultKID
       ("<ContentProtection value=" ++ q ++ "cenc=1" ++ q
        ++ " default_KID=" ++ q ++ "k" ++ q
        ++ " cenc=" ++ q ++ "urn:mpeg:cenc:2013" ++ q ++ "/>")
     = "<ContentProtection value=" ++ q ++ "xmlns:cenc=1" ++ q
       ++ " cenc:default_KID=" ++ q ++ "k" ++ q
       ++ " xmlns:cenc=" ++ q ++ "urn:mpeg:cenc:2013" ++ q ++ "/>"
  /\ Encode docTwoOccurrences
     = Ok (xmlHeader ++ xml.nl
           ++ "<MPD profiles=" ++ q ++ "p" ++ q ++ ">" ++ xml.nl
           ++ "  <Period>" ++ xml.nl
           ++ "    <AdaptationSet mimeType=" ++ q ++ "video/mp4" ++ q ++ ">" ++ xml.nl
           ++ "      <ContentProtection value=" ++ q ++ "xmlns:cenc=1" ++ q
           ++ " cenc:default_KID=" ++ q ++ "k" ++ q
           ++ " xmlns:cenc=" ++ q ++ "urn:mpeg:cenc:2013" ++ q ++ ">" ++ xml.nl
           ++ "        <cenc:pssh>AAAA</cenc:pssh>" ++ xml.nl
           ++ "      </ContentProtection>" ++ xml.nl
           ++ "    </AdaptationSet>" ++ xml.nl
           ++ "  </Period>" ++ xml.nl
           ++ "</MPD>" ++ xml.nl).
Proof. repeat split; vm_compute; reflexivity. Qed.

(** C4, amended.  On every line: the root rule replaces the first
    occurrence only of cenc and of mspr; the two payload rules replace the
    first occurrence only of their name-space marker (cenc, mspr) and every
    occurrence of their tag name (pssh, pro); the key-id rule replaces every
    occurrence of default_KID and of cenc=.  Replacing the first occurrence
    leaves what follows it as it is; replacing every occurrence goes on in
    what follows. *)
Theorem C4_occurrences_replaced (s : string) :
  injectMPD s
  = (if strings.Contains s "<MPD"
     then replaceFirst "mspr" "xmlns:mspr" (replaceFirst "cenc" "xmlns:cenc" s) else s)
  /\ injectPssh s
     = (if strings.Contains s "<pssh"
        then replaceEvery "pssh" "cenc:pssh" (replaceFirst "cenc" "xmlns:cenc" s) else s)
  /\ injectPro s
     = (if strings.Contains s "<pro"
        then replaceEvery "pro" "mspr:pro" (replaceFirst "mspr" "xmlns:mspr" s) else s)
  /\ qualifyDefaultKID s
     = (if strings.Contains s "default_KID"
        then replaceEvery "cenc=" "xmlns:cenc="
               (replaceEvery "default_KID" "cenc:default_KID" s) else s)
  /\ (forall old new a b,
         old <> "" ->
         strings.indexOf (a ++ old ++ b) old = Some (String.length a) ->
         replaceFirst old new (a ++ old ++ b) = a ++ new ++ b
         /\ replaceEvery old new (a ++ old ++ b) = a ++ new ++ replaceEvery old new b).
Proof.
  unfold injectMPD, injectPssh, injectPro, qualifyDefaultKID.
  rewrite !Replace_1_replaceFirst by discriminate.
  rewrite !Replace_all_replaceEvery by discriminate.
  repeat split.
  - now apply replaceFirst_app.
  - now apply replaceEvery_app.
Qed.

Lemma C4_occurrences_replaced_witness :
  replaceFirst "cenc" "xmlns:cenc" ("<MPD " ++ "cenc" ++ "=1 cenc=2>")
  = "<MPD " ++ "xmlns:cenc" ++ "=1 cenc=2>"
  /\ replaceEvery "cenc=" "xmlns:cenc=" (" " ++ "cenc=" ++ "1 cenc=2>")
     = " " ++ "xmlns:cenc=" ++ replaceEvery "cenc=" "xmlns:cenc=" "1 cenc=2>".
Proof.
  split.
  - apply (proj2 (proj2 (proj2 (proj2 (C4_occurrences_replaced ""))))
             "cenc" "xmlns:cenc" "<MPD " "=1 cenc=2>"); [discriminate|reflexivity].
  - apply (proj2 (proj2 (proj2 (proj2 (C4_occurrences_replaced ""))))
             "cenc=" "xmlns:cenc=" " " "1 cenc=2>"); [discriminate|reflexivity].
Defined.

(** ** The indenting printer: the lines it writes *)

(** A line of the serializer's output: an open tag, an element written on
    one line (open tag, escaped character data, close tag), or a close tag. *)
Inductive Line : Type :=
| LOpen (depth : nat) (name : string) (attrs : list xml.Attr)
| LLeaf (depth : nat) (name : string) (attrs : list xml.Attr) (data : string)
| LClose (depth : nat) (name : string).

Definition openTag (name : string) (attrs : list xml.Attr) : string :=
  "<" ++ name ++ xml.attrsText attrs ++ ">".

Definition closeTag (name : string) : string := "</" ++ name ++ ">".

Definition lineText (l : Line) : string :=
  match l with
  | LOpen d name attrs => xml.indentation d ++ openTag name attrs
  | LLeaf d name attrs data =>
      xml.indentation d ++ openTag name attrs ++ xml.EscapeString data ++ closeTag name
  | LClose d name => xml.indentation d ++ closeTag name
  end.

(** The lines of an element: one line when it has no child element, else
    its open tag, the lines of its children one level deeper, and its
    close tag. *)
Fixpoint nodeLines (depth : nat) (n : xml.Node) : list Line :=
  match n with
  | xml.CharData _ => []
  | xml.Element name attrs children =>
      match children with
      | [] => [LLeaf depth name attrs ""]
      | [xml.CharData data] => [LLeaf depth name attrs data]
      | _ =>
          LOpen depth name attrs
          :: flat_map (nodeLines (S depth)) children ++ [LClose depth name]
      end
  end.

Definition isElement (n : xml.Node) : bool :=
  match n with
  | xml.Element _ _ _ => true
  | xml.CharData _ => false
  end.

(** The shapes the marshaller produces for the types of the document: an
    element holds nothing, or one piece of character data, or elements. *)
Fixpoint wellShaped (n : xml.Node) : bool :=
  match n with
  | xml.CharData _ => true
  | xml.Element _ _ children =>
      match children with
      | [] => true
      | [xml.CharData _] => true
      | _ => forallb isElement children && forallb wellShaped children
      end
  end.

(** Lines joined by newlines, without a newline at the end. *)
Fixpoint joinLines (ls : list string) : string :=
  match ls with
  | [] => ""
  | [l] => l
  | l :: ls' => l ++ xml.nl ++ joinLines ls'
  end.

Lemma joinLines_cons (l : string) (ls : list string) :
  ls <> [] -> joinLines (l :: ls) = l ++ xml.nl ++ joinLines ls.
Proof. destruct ls; [congruence|reflexivity]. Qed.

Lemma joinLines_app (a b : list string) :
  a <> [] -> b <> [] -> joinLines (a ++ b) = joinLines a ++ xml.nl ++ joinLines b.
Proof.
  intros Ha Hb. induction a as [|l a IH]; [congruence|].
  destruct a as [|l' a].
  - simpl. destruct b; [congruence|reflexivity].
  - change ((l :: l' :: a) ++ b)%list with (l :: ((l' :: a) ++ b))%list.
    rewrite joinLines_cons by discriminate.
    rewrite IH by discriminate.
    rewrite (joinLines_cons l) by discriminate.
    now rewrite !app_assoc.
Qed.

Lemma nodeLines_nonempty (d : nat) (n : xml.Node) :
  isElement n = true -> nodeLines d n <> [].
Proof.
  destruct n as [name attrs kids|data]; [|discriminate]. intros _.
  simpl. destruct kids as [|[|] [|]]; discriminate.
Qed.

(** The state the printer is left in after a complete element. *)
Definition afterElement (p : xml.printer) (text : string) : xml.printer :=
  {| xml.buf := xml.buf p ++ (if xml.putNewline p then xml.nl else "") ++ text;
     xml.depth := xml.depth p;
     xml.indentedIn := false;
     xml.putNewline := true |}.

Lemma printLeaf (name : string) (attrs : list xml.Attr) (text : string) (p : xml.printer) :
  xml.writeEnd name (xml.write text (xml.writeStart name attrs p))
  = afterElement p (xml.indentation (xml.depth p) ++ openTag name attrs ++ text ++ closeTag name).
Proof.
  unfold xml.writeEnd, xml.writeStart, xml.write, xml.writeIndentOut, xml.writeIndentIn,
    afterElement, openTag, closeTag. simpl.
  f_equal. strassoc.
Qed.

Lemma write_nil (p : xml.printer) : xml.write "" p = p.
Proof. destruct p. unfold xml.write. simpl. now rewrite app_nil_r. Qed.

(** Printing a run of elements after a start tag or after an element. *)
Lemma printChildren (kids : list xml.Node) :
  forallb isElement kids = true ->
  (forall k, In k kids -> forall p,
      xml.printNode k p
      = afterElement p (joinLines (map lineText (nodeLines (xml.depth p) k)))) ->
  kids <> [] ->
  forall p, xml.putNewline p = true ->
  fold_left (fun q k => xml.printNode k q) kids p
  = {| xml.buf := xml.buf p ++ xml.nl
                  ++ joinLines (map lineText (flat_map (nodeLines (xml.depth p)) kids));
       xml.depth := xml.depth p;
       xml.indentedIn := false;
       xml.putNewline := true |}.
Proof.
  induction kids as [|k kids IH]; intros Hel Hk Hne p Hp; [congruence|].
  simpl in Hel. apply andb_true_iff in Hel as [Hk1 Hel].
  cbn [fold_left flat_map]. rewrite (Hk k (or_introl eq_refl)).
  destruct kids as [|k' kids].
  - simpl. unfold afterElement. rewrite Hp. now rewrite List.app_nil_r.
  - rewrite IH; [|assumption|intros; apply Hk; now right|discriminate|reflexivity].
    unfold afterElement. cbn [xml.buf xml.depth]. rewrite Hp. f_equal.
    rewrite map_app, joinLines_app.
    + now rewrite !app_assoc.
    + intros H. apply map_eq_nil in H. revert H. now apply nodeLines_nonempty.
    + intros H. apply map_eq_nil in H. simpl in H. apply app_eq_nil in H as [H _].
      revert H. apply nodeLines_nonempty.
      simpl in Hel. now apply andb_true_iff in Hel as [? _].
Qed.

Lemma Node_ind' (P : xml.Node -> Prop) :
  (forall name attrs kids, (forall k, In k kids -> P k) -> P (xml.Element name attrs kids)) ->
  (forall data, P (xml.CharData data)) ->
  forall n, P n.
Proof.
  intros HE HC. fix IH 1. intros [name attrs kids|data]; [|apply HC].
  apply HE. induction kids as [|k kids IHk]; intros k' Hin.
  - destruct Hin.
  - destruct Hin as [Heq|Hin]; [rewrite <- Heq; apply IH|apply IHk, Hin].
Qed.

(** The printer writes an element as its lines, joined by newlines. *)
Lemma printNode_lines (n : xml.Node) :
  isElement n = true -> wellShaped n = true ->
  forall p,
  xml.printNode n p = afterElement p (joinLines (map lineText (nodeLines (xml.depth p) n))).
Proof.
  induction n as [name attrs kids IH|data] using Node_ind';
    [|intros H; discriminate H].
  intros _ Hws p.
  assert (Hcases : kids = [] \/ (exists data, kids = [xml.CharData data])
                   \/ (kids <> [] /\ forallb isElement kids = true
                       /\ forallb wellShaped kids = true
                       /\ nodeLines (xml.depth p) (xml.Element name attrs kids)
                          = LOpen (xml.depth p) name attrs
                            :: flat_map (nodeLines (S (xml.depth p))) kids
                            ++ [LClose (xml.depth p) name])).
  { destruct kids as [|[n1 a1 k1|d1] [|k2 kids]]; auto.
    - right; right.
      assert (H12 : forallb isElement [xml.Element n1 a1 k1] = true
                    /\ forallb wellShaped [xml.Element n1 a1 k1] = true)
        by (apply andb_true_iff; exact Hws).
      destruct H12 as [H1 H2].
      split; [discriminate|]. split; [exact H1|]. split; [exact H2|reflexivity].
    - right; right.
      assert (H12 : forallb isElement (xml.Element n1 a1 k1 :: k2 :: kids) = true
                    /\ forallb wellShaped (xml.Element n1 a1 k1 :: k2 :: kids) = true)
        by (apply andb_true_iff; exact Hws).
      destruct H12 as [H1 H2].
      split; [discriminate|]. split; [exact H1|]. split; [exact H2|reflexivity].
    - right; left; eauto.
    - simpl in Hws. discriminate. }
  destruct Hcases as [->|[[data ->]|(Hne & Hel & Hwk & Hlines)]].
  - cbn [xml.printNode fold_left nodeLines map joinLines lineText].
    rewrite <- (write_nil (xml.writeStart name attrs p)), printLeaf.
    reflexivity.
  - cbn [xml.printNode fold_left nodeLines map joinLines lineText].
    now rewrite printLeaf.
  - rewrite Hlines. cbn [xml.printNode].
    rewrite (printChildren kids Hel); [| |assumption|reflexivity].
    + unfold xml.writeEnd, xml.writeIndentOut, xml.writeStart, xml.writeIndentIn,
        xml.write, afterElement.
      cbn [xml.buf xml.depth xml.indentedIn xml.putNewline Nat.pred].
      f_equal.
      change (LOpen (xml.depth p) name attrs
              :: flat_map (nodeLines (S (xml.depth p))) kids ++ [LClose (xml.depth p) name])%list
        with ([LOpen (xml.depth p) name attrs]
              ++ (flat_map (nodeLines (S (xml.depth p))) kids ++ [LClose (xml.depth p) name]))%list.
      rewrite map_app, joinLines_app; [|discriminate|].
      * rewrite map_app, joinLines_app; [|..|discriminate].
        -- cbn [map joinLines lineText]. unfold openTag, closeTag. now rewrite !app_assoc.
        -- intros H. apply map_eq_nil in H.
           destruct kids as [|k kids]; [congruence|]. simpl in H.
           apply app_eq_nil in H as [H _]. revert H. apply nodeLines_nonempty.
           simpl in Hel. now apply andb_true_iff in Hel as [? _].
      * rewrite map_app. intros H. apply app_eq_nil in H as [_ H]. discriminate.
    + intros k Hin q. apply IH; [assumption| |].
      * rewrite forallb_forall in Hel. now apply Hel.
      * rewrite forallb_forall in Hwk. now apply Hwk.
Qed.

(** ** What the marshaller builds for a document *)

Fixpoint allb (P : ascii -> bool) (s : string) : bool :=
  match s with
  | EmptyString => true
  | String c s' => P c && allb P s'
  end.

Lemma allb_app (P : ascii -> bool) (a b : string) :
  allb P (a ++ b) = allb P a && allb P b.
Proof. induction a as [|c a IH]; simpl; [reflexivity|]. now rewrite IH, andb_assoc. Qed.

(** Element names are made of ASCII letters; attribute names may hold an
    underscore as well. *)
Definition elemNameOK (s : string) : bool :=
  negb (String.eqb s "") && allb regexp.isLetter s.

Definition isAttrNameChar (c : ascii) : bool :=
  regexp.isLetter c || Ascii.eqb c "_".

Definition attrOK (a : xml.Attr) : bool :=
  negb (String.eqb (xml.Local (xml.AttrName a)) "")
  && allb isAttrNameChar (xml.Local (xml.AttrName a)).

Fixpoint nodeOK (n : xml.Node) : bool :=
  match n with
  | xml.CharData _ => true
  | xml.Element name attrs children =>
      elemNameOK name && forallb attrOK attrs && forallb nodeOK children
  end.

Definition lineOK (l : Line) : bool :=
  match l with
  | LOpen _ name attrs => elemNameOK name && forallb attrOK attrs
  | LLeaf _ name attrs _ => elemNameOK name && forallb attrOK attrs
  | LClose _ name => elemNameOK name
  end.

Lemma forallb_map_true {A B : Type} (P : B -> bool) (f : A -> B) (l : list A) :
  (forall x, P (f x) = true) -> forallb P (map f l) = true.
Proof. intros H. induction l as [|x l IH]; simpl; [reflexivity|]. now rewrite H, IH. Qed.

Lemma forallb_optElem_true {A : Type} (P : xml.Node -> bool) (f : A -> xml.Node)
  (v : option A) :
  (forall x, P (f x) = true) -> forallb P (marshal.optElem f v) = true.
Proof. intros H. destruct v; simpl; [now rewrite H|reflexivity]. Qed.

Lemma forallb_flat_optElem_true {A : Type} (P : xml.Node -> bool) (f : A -> xml.Node)
  (l : list (option A)) :
  (forall x, P (f x) = true) -> forallb P (flat_map (marshal.optElem f) l) = true.
Proof.
  intros H. induction l as [|x l IH]; simpl; [reflexivity|].
  rewrite forallb_app, IH, andb_true_r. now apply forallb_optElem_true.
Qed.

Lemma wellShaped_elements (name : string) (attrs : list xml.Attr) (kids : list xml.Node) :
  forallb isElement kids = true -> forallb wellShaped kids = true ->
  wellShaped (xml.Element name attrs kids) = true.
Proof.
  intros H1 H2. destruct kids as [|[n1 a1 k1|d1] [|k2 kids]]; try reflexivity.
  - change (forallb isElement [xml.Element n1 a1 k1]
            && forallb wellShaped [xml.Element n1 a1 k1] = true).
    now rewrite H1, H2.
  - change (forallb isElement (xml.Element n1 a1 k1 :: k2 :: kids)
            && forallb wellShaped (xml.Element n1 a1 k1 :: k2 :: kids) = true).
    now rewrite H1, H2.
  - simpl in H1. discriminate.
Qed.

(** Every piece of the forests the marshaller builds satisfies [P], shown
    piece by piece. *)
Ltac forest P :=
  repeat rewrite forallb_app;
  repeat (apply andb_true_intro; split);
  try (apply forallb_map_true; intros ?);
  try (apply forallb_flat_optElem_true; intros ?);
  try (apply forallb_optElem_true; intros ?);
  try match goal with
      | |- forallb _ (marshal.strElem _ ?s) = true =>
          unfold marshal.strElem; destruct (String.eqb s ""); reflexivity
      | |- forallb _ (marshal.charData ?v) = true => destruct v; reflexivity
      | |- forallb _ (marshal.strAttr _ ?v) = true => destruct v; reflexivity
      | |- forallb _ (marshal.uintAttr _ ?v) = true => destruct v; reflexivity
      | |- forallb _ (marshal.intAttr _ ?v) = true => destruct v; reflexivity
      | |- forallb _ (marshal.boolAttr _ ?v) = true => destruct v; reflexivity
      | |- forallb _ (marshal.condAttr _ ?c) = true =>
          destruct c as [[?|] [?|]]; reflexivity
      | |- forallb _ [_] = true => reflexivity
      | |- forallb _ [] = true => reflexivity
      end;
  try reflexivity.

Lemma shaped_event e : wellShaped (marshal.event e) = true.
Proof. reflexivity. Qed.

Lemma shaped_eventStream e : wellShaped (marshal.eventStream e) = true.
Proof.
  apply wellShaped_elements; forest isElement; auto using shaped_event.
Qed.

Lemma shaped_programEventStream e : wellShaped (marshal.programEventStream e) = true.
Proof.
  apply wellShaped_elements; forest isElement; auto using shaped_event.
Qed.

Lemma shaped_pssh p : wellShaped (marshal.pssh p) = true.
Proof. destruct p as [[v|] c]; reflexivity. Qed.

Lemma shaped_pro p : wellShaped (marshal.pro p) = true.
Proof. destruct p as [[v|] c]; reflexivity. Qed.

Lemma shaped_contentProtection c : wellShaped (marshal.contentProtection c) = true.
Proof.
  apply wellShaped_elements; forest isElement; auto using shaped_pssh, shaped_pro.
Qed.

Lemma shaped_segment s : wellShaped (marshal.segment s) = true.
Proof. reflexivity. Qed.

Lemma shaped_segmentTimeline t : wellShaped (marshal.segmentTimeline t) = true.
Proof.
  apply wellShaped_elements; forest isElement; auto using shaped_segment.
Qed.

Lemma shaped_segmentTemplate t : wellShaped (marshal.segmentTemplate t) = true.
Proof.
  apply wellShaped_elements; forest isElement; auto using shaped_segmentTimeline.
Qed.

Lemma shaped_representation r : wellShaped (marshal.representation r) = true.
Proof.
  apply wellShaped_elements; forest isElement;
    auto using shaped_contentProtection, shaped_segmentTemplate.
Qed.

Lemma shaped_adaptationSet a : wellShaped (marshal.adaptationSet a) = true.
Proof.
  apply wellShaped_elements; forest isElement;
    auto using shaped_contentProtection, shaped_segmentTemplate, shaped_representation.
Qed.

Lemma shaped_period p : wellShaped (marshal.period p) = true.
Proof.
  apply wellShaped_elements; forest isElement;
    auto using shaped_eventStream, shaped_programEventStream, shaped_adaptationSet.
Qed.

Lemma shaped_mpd m : wellShaped (marshal.mpd m) = true.
Proof.
  apply wellShaped_elements; forest isElement; auto using shaped_period.
Qed.

(** The serializer's output for a document: the lines of its tree. *)
Definition docLines (m : MPD) : list Line := nodeLines 0 (marshal.mpd m).

Lemma xmlEncode_lines (m : MPD) :
  xmlEncode m = Ok (joinLines (map lineText (docLines m))).
Proof.
  unfold xmlEncode. rewrite printNode_lines; [|reflexivity|apply shaped_mpd].
  reflexivity.
Qed.

(** The names the marshaller writes are well-formed. *)
Lemma nodeOK_intro (name : string) (attrs : list xml.Attr) (kids : list xml.Node) :
  elemNameOK name = true -> forallb attrOK attrs = true -> forallb nodeOK kids = true ->
  nodeOK (xml.Element name attrs kids) = true.
Proof. intros H1 H2 H3. simpl. now rewrite H1, H2, H3. Qed.

Ltac names_ok := apply nodeOK_intro; [reflexivity|forest attrOK|forest nodeOK].

Lemma ok_event e : nodeOK (marshal.event e) = true.
Proof. names_ok. Qed.

Lemma ok_eventStream e : nodeOK (marshal.eventStream e) = true.
Proof. names_ok; auto using ok_event. Qed.

Lemma ok_programEventStream e : nodeOK (marshal.programEventStream e) = true.
Proof. names_ok; auto using ok_event. Qed.

Lemma ok_pssh p : nodeOK (marshal.pssh p) = true.
Proof. names_ok. Qed.

Lemma ok_pro p : nodeOK (marshal.pro p) = true.
Proof. names_ok. Qed.

Lemma ok_contentProtection c : nodeOK (marshal.contentProtection c) = true.
Proof. names_ok; auto using ok_pssh, ok_pro. Qed.

Lemma ok_segment s : nodeOK (marshal.segment s) = true.
Proof. names_ok. Qed.

Lemma ok_segmentTimeline t : nodeOK (marshal.segmentTimeline t) = true.
Proof. names_ok; auto using ok_segment. Qed.

Lemma ok_segmentTemplate t : nodeOK (marshal.segmentTemplate t) = true.
Proof. names_ok; auto using ok_segmentTimeline. Qed.

Lemma ok_audio a : nodeOK (marshal.audioChannelConfiguration a) = true.
Proof. names_ok. Qed.

Lemma ok_descriptor d : nodeOK (marshal.descriptor "SupplementalProperty" d) = true.
Proof. names_ok. Qed.

Lemma ok_representation r : nodeOK (marshal.representation r) = true.
Proof. names_ok; auto using ok_contentProtection, ok_segmentTemplate, ok_audio. Qed.

Lemma ok_adaptationSet a : nodeOK (marshal.adaptationSet a) = true.
Proof.
  names_ok; auto using ok_contentProtection, ok_segmentTemplate, ok_representation.
Qed.

Lemma ok_period p : nodeOK (marshal.period p) = true.
Proof.
  names_ok;
    auto using ok_eventStream, ok_programEventStream, ok_adaptationSet, ok_descriptor.
Qed.

Lemma ok_mpd m : nodeOK (marshal.mpd m) = true.
Proof. names_ok; auto using ok_period. Qed.

Lemma nodeLines_ok (n : xml.Node) :
  nodeOK n = true -> forall d, forallb lineOK (nodeLines d n) = true.
Proof.
  induction n as [name attrs kids IH|data] using Node_ind'; [|reflexivity].
  intros H d. simpl in H.
  apply andb_true_iff in H as [H H3]. apply andb_true_iff in H as [H1 H2].
  assert (Hk : forall d', forallb lineOK (flat_map (nodeLines d') kids) = true).
  { intros d'. clear -IH H3. induction kids as [|k kids IHk]; [reflexivity|].
    simpl in H3. apply andb_true_iff in H3 as [Hk Hks].
    cbn [flat_map]. rewrite forallb_app, (IH k (or_introl eq_refl) Hk), IHk; auto.
    intros k' Hin. apply IH. now right. }
  destruct kids as [|[n1 a1 k1|d1] [|k2 kids]];
    cbn [nodeLines]; cbn [forallb lineOK]; rewrite ?forallb_app, ?Hk;
    cbn [forallb lineOK]; now rewrite ?H1, ?H2.
Qed.

Lemma docLines_ok (m : MPD) : forallb lineOK (docLines m) = true.
Proof. apply nodeLines_ok, ok_mpd. Qed.

(** ** Characters that do not occur *)

(** The byte [c] does not occur in [s]. *)
Definition lacks (c : ascii) (s : string) : bool :=
  allb (fun x => negb (Ascii.eqb x c)) s.

Lemma lacks_app (c : ascii) (a b : string) :
  lacks c (a ++ b) = lacks c a && lacks c b.
Proof. apply allb_app. Qed.

Lemma allb_impl (P Q : ascii -> bool) (s : string) :
  (forall x, P x = true -> Q x = true) -> allb P s = true -> allb Q s = true.
Proof.
  intros H. induction s as [|c s IH]; simpl; [reflexivity|].
  intros H1. apply andb_true_iff in H1 as [Hc Hs]. now rewrite (H _ Hc), IH.
Qed.

Lemma byteOf_inj (a b : ascii) : byteOf a = byteOf b -> a = b.
Proof.
  intros H. rewrite <- (ascii_N_embedding a), <- (ascii_N_embedding b).
  unfold byteOf in H. now rewrite H.
Qed.

Lemma eqb_byteOf_neq (a b : ascii) : byteOf a <> byteOf b -> Ascii.eqb a b = false.
Proof. intros H. apply Ascii.eqb_neq. intros ->. now apply H. Qed.

(** ** unicode/utf8: the cases of DecodeRuneInString *)

Lemma first_cases (b0 : N) (sz : nat) (lo hi : N) :
  utf8.first b0 = Some (sz, (lo, hi)) -> (2 <= sz <= 4)%nat /\ (128 <= lo)%N.
Proof.
  unfold utf8.first.
  repeat match goal with
         | |- context [if ?b then _ else _] => destruct b
         end;
    intros H; inversion H; subst; split; lia.
Qed.

Definition highByte (x : ascii) : bool := (128 <=? byteOf x)%N.

Lemma decode_cases (s : string) (r : N) (w : nat) :
  utf8.DecodeRuneInString s = (r, w) ->
  (s = "" /\ w = 0%nat)
  \/ (w = 1%nat /\ exists c t, s = String c t /\ (byteOf c < 128)%N /\ r = byteOf c)
  \/ (w = 1%nat /\ r = utf8.RuneError /\ s <> "")
  \/ ((2 <= w <= 4)%nat /\ (w <= String.length s)%nat /\ allb highByte (take w s) = true).
Proof.
  unfold utf8.DecodeRuneInString.
  destruct s as [|c0 t]; [intros H; inversion H; auto|].
  destruct (byteOf c0 <? utf8.RuneSelf)%N eqn:H0.
  { intros H; inversion H; subst. right; left. split; [reflexivity|].
    exists c0, t. apply N.ltb_lt in H0. auto. }
  assert (Hc0 : highByte c0 = true)
    by (apply N.ltb_ge in H0; apply N.leb_le; exact H0).
  assert (Herr : forall (r : N) (w : nat), (utf8.RuneError, 1%nat) = (r, w) ->
            w = 1%nat /\ r = utf8.RuneError /\ String c0 t <> "").
  { intros r' w' H; inversion H; subst. repeat split; discriminate. }
  destruct (utf8.first (byteOf c0)) as [[sz [lo hi]]|] eqn:Hf;
    [|intros H; right; right; left; now apply Herr].
  apply first_cases in Hf as [Hsz Hlo].
  destruct (String.length (String c0 t) <? sz)%nat;
    [intros H; right; right; left; now apply Herr|].
  destruct t as [|c1 t1]; [intros H; right; right; left; now apply Herr|].
  destruct (utf8.inRange lo hi (byteOf c1)) eqn:H1; cbn [negb];
    [|intros H; right; right; left; now apply Herr].
  assert (Hc1 : highByte c1 = true).
  { apply inRange_spec in H1. apply N.leb_le. lia. }
  destruct (sz <=? 2)%nat.
  { intros H; inversion H; subst. right; right; right.
    split; [lia|]. split; [simpl; lia|]. simpl. now rewrite Hc0, Hc1. }
  destruct t1 as [|c2 t2]; [intros H; right; right; left; now apply Herr|].
  destruct (utf8.cont (byteOf c2)) eqn:H2; cbn [negb];
    [|intros H; right; right; left; now apply Herr].
  assert (Hc2 : highByte c2 = true).
  { apply inRange_spec in H2. apply N.leb_le. lia. }
  destruct (sz <=? 3)%nat.
  { intros H; inversion H; subst. right; right; right.
    split; [lia|]. split; [simpl; lia|]. simpl. now rewrite Hc0, Hc1, Hc2. }
  destruct t2 as [|c3 t3]; [intros H; right; right; left; now apply Herr|].
  destruct (utf8.cont (byteOf c3)) eqn:H3; cbn [negb];
    [|intros H; right; right; left; now apply Herr].
  assert (Hc3 : highByte c3 = true).
  { apply inRange_spec in H3. apply N.leb_le. lia. }
  intros H; inversion H; subst. right; right; right.
  split; [lia|]. split; [simpl; lia|]. simpl. now rewrite Hc0, Hc1, Hc2, Hc3.
Qed.

(** ** encoding/xml: what EscapeString leaves out *)

(** The bytes that are always written as a character reference. *)
Definition escapedByte (c : ascii) : bool :=
  existsb (N.eqb (byteOf c)) [34; 39; 60; 62; 9; 10; 13]%N.

Lemma escapeOf_Some_lacks (c : ascii) (r : N) (w : nat) (esc : string) :
  escapedByte c = true -> xml.escapeOf r w = Some esc -> lacks c esc = true.
Proof.
  intros Hc. unfold xml.escapeOf.
  assert (Hall : forall e,
             In e ["&#34;"; "&#39;"; "&amp;"; "&lt;"; "&gt;"; "&#x9;"; "&#xA;"; "&#xD;"; xml.escFFFD] ->
             lacks c e = true).
  { unfold escapedByte in Hc. simpl in Hc.
    intros e He. simpl in He.
    repeat (apply orb_true_iff in Hc; destruct Hc as [Hc|Hc]);
      try discriminate;
      apply N.eqb_eq in Hc;
      repeat (destruct He as [<-|He]);
      try (destruct He);
      unfold lacks, xml.escFFFD; cbn [allb];
      repeat (rewrite eqb_byteOf_neq;
                [|rewrite Hc; let H := fresh in intros H; vm_compute in H; discriminate H]);
      reflexivity. }
  repeat match goal with
         | |- context [if ?b then _ else _] => destruct b
         end;
    intros H; inversion H; subst; apply Hall; simpl; auto 12.
Qed.

Lemma escapeOf_None_ascii (c : ascii) (r : N) (w : nat) :
  escapedByte c = true -> xml.escapeOf r w = None -> r <> byteOf c.
Proof.
  intros Hc. unfold xml.escapeOf, escapedByte in *. simpl in Hc.
  destruct (r =? 34)%N eqn:E1; [discriminate|].
  destruct (r =? 39)%N eqn:E2; [discriminate|].
  destruct (r =? 38)%N eqn:E3; [discriminate|].
  destruct (r =? 60)%N eqn:E4; [discriminate|].
  destruct (r =? 62)%N eqn:E5; [discriminate|].
  destruct (r =? 9)%N eqn:E6; [discriminate|].
  destruct (r =? 10)%N eqn:E7; [discriminate|].
  destruct (r =? 13)%N eqn:E8; [discriminate|].
  intros _ Heq. subst r.
  rewrite E1, E2, E4, E5, E6, E7, E8 in Hc. discriminate.
Qed.

Lemma escapeOf_RuneError : xml.escapeOf utf8.RuneError 1 <> None.
Proof. vm_compute. discriminate. Qed.

Lemma allb_high_lacks (c : ascii) (s : string) :
  (byteOf c < 128)%N -> allb highByte s = true -> lacks c s = true.
Proof.
  intros Hc. apply allb_impl. intros x Hx. unfold highByte in Hx.
  apply N.leb_le in Hx. apply negb_true_iff, eqb_byteOf_neq. lia.
Qed.

Lemma escapedByte_ascii (c : ascii) : escapedByte c = true -> (byteOf c < 128)%N.
Proof.
  unfold escapedByte. simpl. intros H.
  repeat (apply orb_true_iff in H; destruct H as [H|H]);
    try discriminate; apply N.eqb_eq in H; lia.
Qed.

Lemma escapeLoop_lacks (c : ascii) :
  escapedByte c = true ->
  forall fuel s, lacks c (xml.escapeLoop fuel s) = true.
Proof.
  intros Hc fuel. induction fuel as [|fuel IH]; intros s; [reflexivity|].
  cbn [xml.escapeLoop]. destruct s as [|c0 t]; [reflexivity|].
  destruct (utf8.DecodeRuneInString (String c0 t)) as [r w] eqn:Hd.
  destruct (xml.escapeOf r w) as [esc|] eqn:He.
  - rewrite lacks_app, IH, andb_true_r. eapply escapeOf_Some_lacks; eassumption.
  - rewrite lacks_app, IH, andb_true_r.
    destruct (decode_cases _ _ _ Hd)
      as [[H _]|[(-> & c1 & t1 & Hs & Hlt & Hr)|[(-> & -> & _)|(_ & _ & Hhigh)]]].
    + discriminate.
    + inversion Hs; subst c1 t1. unfold lacks. simpl.
      rewrite eqb_byteOf_neq; [reflexivity|].
      rewrite <- Hr. now apply (escapeOf_None_ascii c r 1).
    + exfalso. now apply escapeOf_RuneError.
    + apply allb_high_lacks; [now apply escapedByte_ascii|assumption].
Qed.

Lemma EscapeString_lacks (c : ascii) (s : string) :
  escapedByte c = true -> lacks c (xml.EscapeString s) = true.
Proof. intros H. now apply escapeLoop_lacks. Qed.

Lemma escapeOf_Some_nonempty (r : N) (w : nat) (esc : string) :
  xml.escapeOf r w = Some esc -> esc <> "".
Proof.
  unfold xml.escapeOf.
  repeat match goal with
         | |- context [if ?b then _ else _] => destruct b
         end;
    intros H; inversion H; discriminate.
Qed.

Lemma app_nonempty_l (a b : string) : a <> "" -> a ++ b <> "".
Proof. destruct a; [congruence|discriminate]. Qed.

Lemma EscapeString_nonempty (s : string) : s <> "" -> xml.EscapeString s <> "".
Proof.
  destruct s as [|c t]; [congruence|]. intros _.
  unfold xml.EscapeString. cbn [String.length xml.escapeLoop].
  destruct (utf8.DecodeRuneInString (String c t)) as [r w] eqn:Hd.
  destruct (xml.escapeOf r w) as [esc|] eqn:He.
  - apply app_nonempty_l. eapply escapeOf_Some_nonempty; eassumption.
  - apply app_nonempty_l.
    destruct (decode_cases _ _ _ Hd) as [[H _]|[(-> & _)|[(-> & _)|(Hw & _)]]];
      try discriminate.
    destruct w as [|w]; [lia|discriminate].
Qed.

(** ** The text of a line *)

(** The bytes that delimit tags and lines. *)
Definition tagByte (c : ascii) : bool :=
  existsb (N.eqb (byteOf c)) [60; 62; 10]%N.

Lemma tagByte_cases (c : ascii) :
  tagByte c = true -> c = "<"%char \/ c = ">"%char \/ c = newline.
Proof.
  unfold tagByte. simpl. intros H.
  repeat (apply orb_true_iff in H; destruct H as [H|H]); try discriminate;
    apply N.eqb_eq in H.
  - left. now apply byteOf_inj.
  - right; left. now apply byteOf_inj.
  - right; right. now apply byteOf_inj.
Qed.

Lemma tagByte_escaped (c : ascii) : tagByte c = true -> escapedByte c = true.
Proof. intros H. destruct (tagByte_cases _ H) as [ -> | [ -> | -> ] ]; reflexivity. Qed.

Lemma lacks_indentation (c : ascii) (d : nat) :
  Ascii.eqb " " c = false -> lacks c (xml.indentation d) = true.
Proof.
  intros H. induction d as [|d IH]; [reflexivity|].
  unfold lacks in *. cbn [xml.indentation append allb]. now rewrite H, IH.
Qed.

Lemma isLetter_not_tagByte (x c : ascii) :
  regexp.isLetter x = true -> tagByte c = true -> Ascii.eqb x c = false.
Proof.
  intros Hx Hc. apply Ascii.eqb_neq. intros ->.
  destruct (tagByte_cases _ Hc) as [ -> | [ -> | -> ] ]; discriminate.
Qed.

Lemma lacks_letters (c : ascii) (s : string) :
  tagByte c = true -> allb regexp.isLetter s = true -> lacks c s = true.
Proof.
  intros Hc. apply allb_impl. intros x Hx.
  apply negb_true_iff. now apply isLetter_not_tagByte.
Qed.

Lemma lacks_attrName (c : ascii) (s : string) :
  tagByte c = true -> allb isAttrNameChar s = true -> lacks c s = true.
Proof.
  intros Hc. apply allb_impl. intros x Hx. apply negb_true_iff.
  unfold isAttrNameChar in Hx. apply orb_true_iff in Hx as [Hx|Hx].
  - now apply isLetter_not_tagByte.
  - apply Ascii.eqb_eq in Hx. subst x.
    destruct (tagByte_cases _ Hc) as [ -> | [ -> | -> ] ]; reflexivity.
Qed.

Lemma lacks_attrText (c : ascii) (a : xml.Attr) :
  tagByte c = true -> attrOK a = true -> lacks c (xml.attrText a) = true.
Proof.
  intros Hc Ha. unfold attrOK in Ha. apply andb_true_iff in Ha as [Hne Hn].
  unfold xml.attrText. apply negb_true_iff in Hne. rewrite Hne.
  rewrite !lacks_app, (lacks_attrName _ _ Hc Hn),
    (EscapeString_lacks _ _ (tagByte_escaped _ Hc)).
  destruct (tagByte_cases _ Hc) as [ -> | [ -> | -> ] ]; reflexivity.
Qed.

Lemma lacks_attrsText (c : ascii) (attrs : list xml.Attr) :
  tagByte c = true -> forallb attrOK attrs = true ->
  lacks c (xml.attrsText attrs) = true.
Proof.
  intros Hc. unfold xml.attrsText.
  induction attrs as [|a attrs IH]; [reflexivity|].
  simpl. intros H. apply andb_true_iff in H as [Ha Hs].
  now rewrite lacks_app, (lacks_attrText _ _ Hc Ha), IH.
Qed.

Lemma elemNameOK_letters (name : string) :
  elemNameOK name = true -> name <> "" /\ allb regexp.isLetter name = true.
Proof.
  unfold elemNameOK. intros H. apply andb_true_iff in H as [H1 H2].
  apply negb_true_iff, String.eqb_neq in H1. auto.
Qed.

Definition lineName (l : Line) : string :=
  match l with
  | LOpen _ name _ | LLeaf _ name _ _ | LClose _ name => name
  end.

Lemma noNewline_lacks (s : string) : noNewline s = lacks newline s.
Proof.
  unfold lacks. induction s as [|c s IH]; [reflexivity|].
  cbn [noNewline allb]. now rewrite IH.
Qed.

Lemma lineText_noNewline (l : Line) :
  lineOK l = true -> noNewline (lineText l) = true.
Proof.
  rewrite noNewline_lacks.
  assert (Hnl : tagByte newline = true) by reflexivity.
  destruct l as [d name attrs|d name attrs data|d name];
    cbn [lineText lineOK]; intros H.
  - apply andb_true_iff in H as [Hn Ha]. apply elemNameOK_letters in Hn as [_ Hn].
    unfold openTag. rewrite !lacks_app, lacks_indentation by reflexivity.
    rewrite (lacks_letters _ _ Hnl Hn), (lacks_attrsText _ _ Hnl Ha). reflexivity.
  - apply andb_true_iff in H as [Hn Ha]. apply elemNameOK_letters in Hn as [_ Hn].
    unfold openTag, closeTag. rewrite !lacks_app, lacks_indentation by reflexivity.
    rewrite (lacks_letters _ _ Hnl Hn), (lacks_attrsText _ _ Hnl Ha).
    rewrite (EscapeString_lacks _ _ (tagByte_escaped _ Hnl)). reflexivity.
  - apply elemNameOK_letters in H as [_ Hn].
    unfold closeTag. rewrite !lacks_app, lacks_indentation by reflexivity.
    rewrite (lacks_letters _ _ Hnl Hn). reflexivity.
Qed.

Lemma lineText_nonempty (l : Line) : lineText l <> "".
Proof.
  destruct l as [d name attrs|d name attrs data|d name]; simpl;
    unfold openTag, closeTag; intros H;
    apply (f_equal String.length) in H;
    rewrite !length_app in H; simpl in H; lia.
Qed.

(** The lines as [ReadString] returns them: all but the last end in a
    newline. *)
Fixpoint terminated (ls : list string) : list string :=
  match ls with
  | [] => []
  | [l] => [l]
  | l :: ls' => (l ++ xml.nl) :: terminated ls'
  end.

Lemma splitLines_joinLines (ls : list string) :
  (forall l, In l ls -> noNewline l = true /\ l <> "") ->
  splitLines (joinLines ls) = terminated ls.
Proof.
  induction ls as [|l ls IH]; intros H; [reflexivity|].
  destruct ls as [|l' ls].
  - simpl. apply splitLines_last; apply H; now left.
  - rewrite joinLines_cons by discriminate.
    rewrite splitLines_line by (apply H; now left).
    rewrite IH by (intros; apply H; now right). reflexivity.
Qed.

(** The lines the loop of [Encode] reads for a document. *)
Definition inputLines (m : MPD) : list string :=
  terminated (map lineText (docLines m)).

Lemma splitLines_xmlEncode (m : MPD) :
  splitLines (joinLines (map lineText (docLines m))) = inputLines m.
Proof.
  apply splitLines_joinLines. intros t Ht.
  apply in_map_iff in Ht as (l & <- & Hl).
  pose proof (docLines_ok m) as Hok. rewrite forallb_forall in Hok.
  split; [apply lineText_noNewline; now apply Hok|apply lineText_nonempty].
Qed.

(** [Encode] writes the header, the rewritten lines of the serializer's
    output, and a newline. *)
Lemma Encode_inputLines (m : MPD) :
  Encode m
  = Ok ((xmlHeader ++ xml.nl) ++ concatAll (map rewriteLine (inputLines m)) ++ xml.nl).
Proof.
  rewrite Encode_lines, xmlEncode_lines, rewritePass_lines, splitLines_xmlEncode.
  reflexivity.
Qed.

Lemma In_terminated (ls : list string) (t : string) :
  In t (terminated ls) -> exists l tail, In l ls /\ t = l ++ tail /\ (tail = "" \/ tail = xml.nl).
Proof.
  induction ls as [|l ls IH]; [intros []|].
  destruct ls as [|l' ls].
  - intros [<-|[]]. exists l, "". rewrite app_nil_r. simpl; auto.
  - intros [<-|Hin].
    + exists l, xml.nl. simpl; auto.
    + destruct (IH Hin) as (l0 & tail & H1 & H2 & H3).
      exists l0, tail. split; [now right|auto].
Qed.

(** ** C6: the collapse of empty elements *)

Lemma matchHere_first (c : ascii) (s : string) :
  Ascii.eqb c regexp.gt = false -> regexp.matchHere (String c s) = None.
Proof.
  intros H. unfold regexp.matchHere. cbn [strings.HasPrefix].
  rewrite Ascii.eqb_sym. unfold regexp.gt in H. now rewrite H.
Qed.

(** The replacement passes over a text without [>]. *)
Lemma replaceAll_lacks_gt (t r repl : string) :
  lacks regexp.gt t = true ->
  emptyElementRE.ReplaceAllString (t ++ r) repl
  = t ++ emptyElementRE.ReplaceAllString r repl.
Proof.
  induction t as [|c t IH]; intros H; [reflexivity|].
  unfold lacks in H. cbn [allb] in H. apply andb_true_iff in H as [Hc Ht].
  apply negb_true_iff in Hc.
  cbn [append]. rewrite replaceAll_char by (now apply matchHere_first).
  now rewrite IH.
Qed.

Lemma lettersGT_name (name r : string) : forall seen,
  allb regexp.isLetter name = true ->
  (seen = true \/ name <> "") ->
  regexp.lettersGT seen (name ++ String regexp.gt r) = Some (S (String.length name)).
Proof.
  induction name as [|c name IH]; intros seen Hl Hs.
  - destruct Hs as [->|Hs]; [|congruence]. reflexivity.
  - cbn [allb] in Hl. apply andb_true_iff in Hl as [Hc Hl].
    cbn [append regexp.lettersGT]. rewrite Hc.
    rewrite IH by auto. reflexivity.
Qed.

(** An open tag's [>] followed at once by the close tag of a name made of
    letters is a match, as long as the close tag. *)
Lemma matchHere_close (name r : string) :
  elemNameOK name = true ->
  regexp.matchHere (String regexp.gt (closeTag name ++ r))
  = Some (4 + String.length name)%nat.
Proof.
  intros H. apply elemNameOK_letters in H as [Hne Hl].
  unfold regexp.matchHere, closeTag. cbn [append strings.HasPrefix drop].
  rewrite !Ascii.eqb_refl. cbn [andb].
  rewrite HasPrefix_nil.
  rewrite app_assoc. cbn [append].
  rewrite lettersGT_name by auto. reflexivity.
Qed.

Lemma matchHere_gt_other (c : ascii) (r : string) :
  Ascii.eqb c "<" = false -> regexp.matchHere (String regexp.gt (String c r)) = None.
Proof.
  intros H. unfold regexp.matchHere. cbn [strings.HasPrefix].
  rewrite Ascii.eqb_sym in H. rewrite H. now rewrite andb_false_r.
Qed.

Lemma drop_close (name tail : string) :
  drop (4 + String.length name) (String regexp.gt (closeTag name ++ tail)) = tail.
Proof.
  unfold closeTag.
  replace (4 + String.length name)%nat with (String.length ("></" ++ name ++ ">"))
    by (cbn [append String.length]; rewrite length_app; simpl; lia).
  replace (String regexp.gt (("</" ++ name ++ ">") ++ tail))
    with (("></" ++ name ++ ">") ++ tail) by strassoc.
  apply drop_app_length.
Qed.

(** What the collapse leaves of a line: the self-closing tag for an element
    without content, the line itself otherwise. *)
Definition collapsed (l : Line) : string :=
  match l with
  | LLeaf d name attrs "" =>
      xml.indentation d ++ "<" ++ name ++ xml.attrsText attrs ++ "/>"
  | _ => lineText l
  end.

Lemma replaceAll_tail (tail repl : string) :
  tail = "" \/ tail = xml.nl ->
  emptyElementRE.ReplaceAllString tail repl = tail.
Proof. intros [->| ->]; reflexivity. Qed.

Lemma replaceAll_gt_tail (tail repl : string) :
  tail = "" \/ tail = xml.nl ->
  emptyElementRE.ReplaceAllString (String regexp.gt tail) repl = String regexp.gt tail.
Proof. intros [->| ->]; reflexivity. Qed.

Lemma lacks_gt_prefix (d : nat) (name : string) (attrs : list xml.Attr) :
  elemNameOK name = true -> forallb attrOK attrs = true ->
  lacks regexp.gt (xml.indentation d ++ "<" ++ name ++ xml.attrsText attrs) = true.
Proof.
  intros Hn Ha. apply elemNameOK_letters in Hn as [_ Hn].
  assert (Hgt : tagByte regexp.gt = true) by reflexivity.
  rewrite !lacks_app, lacks_indentation by reflexivity.
  rewrite (lacks_letters _ _ Hgt Hn), (lacks_attrsText _ _ Hgt Ha). reflexivity.
Qed.

Lemma lacks_gt_close (d : nat) (name : string) :
  elemNameOK name = true ->
  lacks regexp.gt (xml.indentation d ++ "</" ++ name) = true.
Proof.
  intros Hn. apply elemNameOK_letters in Hn as [_ Hn].
  assert (Hgt : tagByte regexp.gt = true) by reflexivity.
  rewrite !lacks_app, lacks_indentation by reflexivity.
  rewrite (lacks_letters _ _ Hgt Hn). reflexivity.
Qed.

Lemma lacks_head (c x : ascii) (s : string) :
  lacks c (String x s) = true -> Ascii.eqb x c = false.
Proof.
  unfold lacks. cbn [allb]. intros H. apply andb_true_iff in H as [H _].
  now apply negb_true_iff.
Qed.

Lemma lacks_tail (c x : ascii) (s : string) :
  lacks c (String x s) = true -> lacks c s = true.
Proof.
  unfold lacks. cbn [allb]. intros H. now apply andb_true_iff in H as [_ H].
Qed.

(** The first rewrite of the loop on a line of the serializer's output. *)
Lemma selfClose_line (l : Line) (tail : string) :
  lineOK l = true -> (tail = "" \/ tail = xml.nl) ->
  selfClose (lineText l ++ tail) = collapsed l ++ tail.
Proof.
  intros Hok Htail. unfold selfClose.
  destruct l as [d name attrs|d name attrs data|d name]; cbn [lineOK] in Hok.
  - apply andb_true_iff in Hok as [Hn Ha].
    cbn [lineText collapsed]. unfold openTag.
    replace ((xml.indentation d ++ "<" ++ name ++ xml.attrsText attrs ++ ">") ++ tail)
      with ((xml.indentation d ++ "<" ++ name ++ xml.attrsText attrs)
            ++ String regexp.gt tail) by strassoc.
    rewrite replaceAll_lacks_gt by now apply lacks_gt_prefix.
    rewrite replaceAll_gt_tail by assumption. strassoc.
  - apply andb_true_iff in Hok as [Hn Ha].
    cbn [lineText]. unfold openTag.
    replace ((xml.indentation d ++ ("<" ++ name ++ xml.attrsText attrs ++ ">")
              ++ xml.EscapeString data ++ closeTag name) ++ tail)
      with ((xml.indentation d ++ "<" ++ name ++ xml.attrsText attrs)
            ++ String regexp.gt (xml.EscapeString data ++ closeTag name ++ tail))
      by strassoc.
    rewrite replaceAll_lacks_gt by now apply lacks_gt_prefix.
    destruct data as [|c data].
    + change (xml.EscapeString "") with "". cbn [append collapsed].
      rewrite (replaceAll_match _ _ _ (matchHere_close name tail Hn)).
      replace (drop (4 + String.length name) (String regexp.gt (closeTag name ++ tail)))
        with tail.
      * rewrite replaceAll_tail by assumption. strassoc.
      * symmetry. apply drop_close.
    + assert (Hne : xml.EscapeString (String c data) <> "")
        by (apply EscapeString_nonempty; discriminate).
      assert (Hlt : lacks "<" (xml.EscapeString (String c data)) = true)
        by (now apply EscapeString_lacks).
      assert (Hgt : lacks regexp.gt (xml.EscapeString (String c data)) = true)
        by (now apply EscapeString_lacks).
      cbn [collapsed lineText].
      destruct (xml.EscapeString (String c data)) as [|e esc]; [congruence|].
      cbn [append].
      rewrite replaceAll_char by (apply matchHere_gt_other; now apply (lacks_head _ _ _ Hlt)).
      replace (String e (esc ++ closeTag name ++ tail))
        with ((String e esc ++ "</" ++ name) ++ String regexp.gt tail)
        by (unfold closeTag; strassoc).
      rewrite replaceAll_lacks_gt.
      * rewrite replaceAll_gt_tail by assumption. unfold openTag, closeTag. strassoc.
      * rewrite lacks_app, Hgt.
        apply elemNameOK_letters in Hn as [_ Hn].
        rewrite lacks_app, (lacks_letters regexp.gt _ eq_refl Hn). reflexivity.
  - cbn [lineText collapsed]. unfold closeTag.
    replace ((xml.indentation d ++ "</" ++ name ++ ">") ++ tail)
      with ((xml.indentation d ++ "</" ++ name) ++ String regexp.gt tail) by strassoc.
    rewrite replaceAll_lacks_gt by now apply lacks_gt_close.
    rewrite replaceAll_gt_tail by assumption. strassoc.
Qed.

(** The attributes the serializer writes on a Representation. *)
Definition representationAttrs (r : Representation) : list xml.Attr :=
  (marshal.strAttr "id" (Rep_ID r)
   ++ marshal.uintAttr "width" (Rep_Width r)
   ++ marshal.uintAttr "height" (Rep_Height r)
   ++ marshal.strAttr "frameRate" (Rep_FrameRate r)
   ++ marshal.uintAttr "bandwidth" (Rep_Bandwidth r)
   ++ marshal.strAttr "audioSamplingRate" (Rep_AudioSamplingRate r)
   ++ marshal.strAttr "codecs" (Rep_Codecs r)
   ++ marshal.strAttr "scanType" (Rep_ScanType r))%list.

(** The end-to-end scenario of the spec: one Period, one AdaptationSet of
    video/mp4, one Representation with id 1 and bandwidth 500000, and a
    ContentProtection with a pssh payload. *)
Definition docScenario : MPD :=
  mkMPD None (Some "urn:mpeg:cenc:2013") None "urn:mpeg:dash:profile:isoff-live:2011"
    [Some (mkPeriod
       [Some (mkAdaptationSet "video/mp4"
          [mkContentProtection (Some "urn:uuid:edef8ba9") None None None
             (Some {| Pssh_Value := Some "AAAA"; Pssh_Cenc := None |}) None]
          [mkRepresentation (Some "1") (Some 500000%N) [] None]
          None)])].

Example Encode_scenario :
  Encode docScenario
  = Ok (xmlHeader ++ xml.nl
        ++ "<MPD xmlns:cenc=" ++ q ++ "urn:mpeg:cenc:2013" ++ q
        ++ " profiles=" ++ q ++ "urn:mpeg:dash:profile:isoff-live:2011" ++ q ++ ">" ++ xml.nl
        ++ "  <Period>" ++ xml.nl
        ++ "    <AdaptationSet mimeType=" ++ q ++ "video/mp4" ++ q ++ ">" ++ xml.nl
        ++ "      <ContentProtection schemeIdUri=" ++ q ++ "urn:uuid:edef8ba9" ++ q ++ ">" ++ xml.nl
        ++ "        <cenc:pssh>AAAA</cenc:pssh>" ++ xml.nl
        ++ "      </ContentProtection>" ++ xml.nl
        ++ "      <Representation id=" ++ q ++ "1" ++ q
        ++ " bandwidth=" ++ q ++ "500000" ++ q ++ "/>" ++ xml.nl
        ++ "    </AdaptationSet>" ++ xml.nl
        ++ "  </Period>" ++ xml.nl
        ++ "</MPD>" ++ xml.nl).
Proof. vm_compute. reflexivity. Qed.

(** ** C10: the root rule keys on the bare text of the marker *)

(** A document without cenc marker whose profiles hold the text cenc. *)
Definition docProfilesCenc : MPD := mkMPD None None None "urn:cenc:profile" [].

(** C10. The root rule looks for the bare text cenc (and mspr) anywhere on
    a line that holds the root tag: whatever stands at the first occurrence
    is qualified.  There is a document without cenc marker whose profiles
    hold the text cenc, and Encode writes that occurrence, inside the value
    of the profiles attribute, as xmlns:cenc: the value written differs from
    the one stored. *)
Theorem C10_root_rule_rewrites_values :
  (forall a b,
      strings.Contains (a ++ "cenc" ++ b) "<MPD" = true ->
      strings.indexOf (a ++ "cenc" ++ b) "cenc" = Some (String.length a) ->
      injectMPD (a ++ "cenc" ++ b)
      = strings.Replace (a ++ "xmlns:cenc" ++ b) "mspr" "xmlns:mspr" 1)
  /\ exists m,
       Cenc m = None
       /\ Profiles m = "urn:cenc:profile"
       /\ strings.Contains (Profiles m) "cenc" = true
       /\ xmlEncode m
          = Ok ("<MPD profiles=" ++ q ++ "urn:cenc:profile" ++ q ++ "></MPD>")
       /\ Encode m
          = Ok (xmlHeader ++ xml.nl
                ++ "<MPD profiles=" ++ q ++ "urn:xmlns:cenc:profile" ++ q ++ "/>" ++ xml.nl).
Proof.
  split.
  - intros a b Hc Hi. unfold injectMPD. rewrite Hc.
    now rewrite (Replace_first_app "cenc" "xmlns:cenc") by (discriminate || assumption).
  - exists docProfilesCenc. repeat split; vm_compute; reflexivity.
Qed.

(** ** Substitutions and the texts they cannot create *)

Lemma app_eq_app (a b c d : string) :
  a ++ b = c ++ d ->
  (exists e, c = a ++ e /\ b = e ++ d) \/ (exists e, a = c ++ e /\ d = e ++ b).
Proof.
  revert c. induction a as [|x a IH]; intros c H.
  - left. exists c. auto.
  - destruct c as [|y c].
    + right. exists (String x a). auto.
    + simpl in H. inversion H; subst y.
      destruct (IH c H2) as [(e & -> & ->)|(e & -> & ->)].
      * left. exists e. auto.
      * right. exists e. auto.
Qed.

(** One of the two texts begins with the other. *)
Definition compatible (u v : string) : bool :=
  strings.HasPrefix u v || strings.HasPrefix v u.

Lemma compatible_app (u v r1 r2 : string) : u ++ r1 = v ++ r2 -> compatible u v = true.
Proof.
  intros H. unfold compatible. apply orb_true_iff.
  destruct (app_eq_app _ _ _ _ H) as [(e & -> & _)|(e & -> & _)].
  - right. apply HasPrefix_app.
  - left. apply HasPrefix_app.
Qed.

(** Writing [new] between two texts cannot complete an occurrence of [pat]:
    no proper end of [pat] begins like [new], and no end of [new] begins
    like [pat]. *)
Definition insertSafe (pat new : string) : bool :=
  forallb (fun k => negb (compatible (drop k pat) new)) (seq 1 (String.length pat - 1))
  && forallb (fun j => negb (compatible (drop j new) pat)) (seq 0 (String.length new)).

Lemma Contains_intro (s sub a b : string) :
  s = a ++ sub ++ b -> strings.Contains s sub = true.
Proof. intros ->. apply Contains_app. Qed.

Lemma Contains_elim (s sub : string) :
  strings.Contains s sub = true -> exists a b, s = a ++ sub ++ b.
Proof.
  intros H. apply Contains_true in H as (i & a & b & -> & _). eauto.
Qed.

Lemma no_occ_insert (pat new a t : string) :
  insertSafe pat new = true ->
  strings.Contains a pat = false ->
  strings.Contains t pat = false ->
  strings.Contains (a ++ new ++ t) pat = false.
Proof.
  intros Hsafe Ha Ht.
  destruct (strings.Contains (a ++ new ++ t) pat) eqn:Hc; [|reflexivity].
  exfalso. apply Contains_elim in Hc as (x & y & Hxy).
  unfold insertSafe in Hsafe. apply andb_true_iff in Hsafe as [S1 S2].
  rewrite forallb_forall in S1, S2.
  destruct (app_eq_app _ _ _ _ Hxy) as [(e & -> & H1)|(e & -> & H1)].
  - (* the occurrence starts at or after the end of [a] *)
    destruct (app_eq_app _ _ _ _ H1) as [(e' & -> & H2)|(e' & -> & H2)].
    + rewrite (Contains_intro t pat e' y H2) in Ht. discriminate.
    + (* [new = e ++ e'], and [e' ++ t] begins with [pat] *)
      destruct e' as [|c e'].
      * simpl in H2. rewrite (Contains_intro t pat "" y) in Ht by (symmetry; exact H2).
        discriminate.
      * assert (Hj : In (String.length e) (seq 0 (String.length (e ++ String c e')))).
        { apply in_seq. rewrite length_app. simpl. lia. }
        apply S2 in Hj. rewrite drop_app_length in Hj.
        rewrite (compatible_app (String c e') pat t y) in Hj by (symmetry; exact H2).
        discriminate.
  - (* the occurrence starts inside [a] *)
    destruct (app_eq_app _ _ _ _ H1) as [(p' & H2 & H3)|(e' & -> & H3)].
    + (* [e = pat ++ p'] *)
      subst e. rewrite (Contains_intro (x ++ pat ++ p') pat x p' eq_refl) in Ha.
      discriminate.
    + (* [pat = e ++ e'], and [new ++ t] begins with [e'] *)
      destruct e' as [|c e'].
      * rewrite app_nil_r in *.
        rewrite (Contains_intro (x ++ e) e x "") in Ha by now rewrite app_nil_r.
        discriminate.
      * destruct e as [|c0 e].
        -- simpl in *. destruct new as [|n0 new].
           ++ simpl in H3. rewrite (Contains_intro t (String c e') "" y H3) in Ht.
              discriminate.
           ++ assert (Hj : In 0%nat (seq 0 (String.length (String n0 new))))
                by (apply in_seq; simpl; lia).
              apply S2 in Hj. rewrite drop_0 in Hj.
              rewrite (compatible_app (String n0 new) (String c e') t y H3) in Hj.
              discriminate.
        -- assert (Hk : In (String.length (String c0 e))
                          (seq 1 (String.length (String c0 e ++ String c e') - 1))).
           { apply in_seq. rewrite length_app. simpl. lia. }
           apply S1 in Hk. rewrite drop_app_length in Hk.
           rewrite (compatible_app (String c e') new y t) in Hk by (symmetry; exact H3).
           discriminate.
Qed.

(** [Subst P new s t]: [t] is [s] with some segments that satisfy [P],
    taken from left to right, replaced by [new]. *)
Inductive Subst (P : string -> Prop) (new : string) : string -> string -> Prop :=
| Subst_done (s : string) : Subst P new s s
| Subst_step (a seg b t : string) :
    P seg -> Subst P new b t -> Subst P new (a ++ seg ++ b) (a ++ new ++ t).

Lemma Subst_absent (P : string -> Prop) (pat new s t : string) :
  insertSafe pat new = true ->
  Subst P new s t ->
  strings.Contains s pat = false -> strings.Contains t pat = false.
Proof.
  intros Hsafe H. induction H as [s|a seg b t Hseg Hsub IH]; [auto|].
  intros Hs. apply Contains_false_app in Hs as [Ha Hs].
  apply Contains_false_app in Hs as [_ Hb].
  apply no_occ_insert; auto.
Qed.

Definition endsWithNewline (s : string) : Prop := exists s', s = s' ++ xml.nl.

Lemma app_nl_inv (a b s : string) :
  a ++ b = s ++ xml.nl -> b <> "" -> exists b', b = b' ++ xml.nl.
Proof.
  intros H Hb. destruct (app_eq_app _ _ _ _ H) as [(e & -> & ->)|(e & -> & He)].
  - eauto.
  - destruct e as [|c e].
    + exists "". simpl in He. now rewrite He.
    + simpl in He. inversion He. destruct e; [|discriminate]. simpl in *. subst b.
      congruence.
Qed.

Lemma Subst_newline (P : string -> Prop) (new s t : string) :
  (forall seg, P seg -> seg <> "" /\ lacks newline seg = true) ->
  Subst P new s t ->
  endsWithNewline s -> endsWithNewline t.
Proof.
  intros HP H. induction H as [s|a seg b t Hseg Hsub IH]; [auto|].
  intros [s' Hs]. destruct (HP _ Hseg) as [Hne Hl].
  assert (Hb : endsWithNewline b).
  { destruct b as [|c b].
    - exfalso. rewrite app_nil_r in Hs.
      destruct (app_nl_inv _ _ _ Hs Hne) as [seg' ->].
      rewrite lacks_app in Hl. apply andb_true_iff in Hl as [_ Hl]. discriminate.
    - rewrite <- app_assoc in Hs. apply app_nl_inv in Hs; [|discriminate]. exact Hs. }
  destruct (IH Hb) as [t' ->]. exists (a ++ new ++ t'). strassoc.
Qed.

(** [strings.Replace] is such a substitution of [old]. *)
Lemma replaceLoop_Subst (old new : string) (n : nat) : forall s,
  Subst (eq old) new s (strings.replaceLoop n s old new).
Proof.
  induction n as [|n IH]; intros s; [constructor|].
  cbn [strings.replaceLoop].
  destruct (strings.indexOf s old) as [j|] eqn:Hj; [|constructor].
  destruct (indexOf_split _ _ _ Hj) as [Hs _].
  rewrite Hs at 1. constructor; [reflexivity|apply IH].
Qed.

Lemma Replace_Subst (old new s : string) (n : Z) :
  Subst (eq old) new s (strings.Replace s old new n).
Proof.
  unfold strings.Replace.
  destruct (String.eqb old new || (n =? 0)%Z); [constructor|].
  destruct old; [constructor|].
  destruct (strings.Count s _ =? 0)%nat; [constructor|].
  apply replaceLoop_Subst.
Qed.

(** A match of the pattern: the text it spans. *)
Definition matchSegment (seg : string) : Prop :=
  exists name, seg = "></" ++ name ++ ">" /\ allb regexp.isLetter name = true.

Lemma lettersGT_inv (s : string) : forall seen n,
  regexp.lettersGT seen s = Some n ->
  exists name r, s = name ++ String regexp.gt r
                 /\ allb regexp.isLetter name = true
                 /\ n = S (String.length name).
Proof.
  induction s as [|c s IH]; intros seen n; [discriminate|].
  cbn [regexp.lettersGT]. destruct (regexp.isLetter c) eqn:Hc.
  - destruct (regexp.lettersGT true s) as [k|] eqn:Hk; [|discriminate].
    simpl. intros H; inversion H; subst n.
    destruct (IH _ _ Hk) as (name & r & -> & Hl & ->).
    exists (String c name), r. simpl. now rewrite Hc, Hl.
  - destruct (seen && Ascii.eqb c regexp.gt) eqn:Hg; [|discriminate].
    apply andb_true_iff in Hg as [_ Hg]. apply Ascii.eqb_eq in Hg. subst c.
    intros H; inversion H; subst n. exists "", s. auto.
Qed.

Lemma matchHere_inv (s : string) (n : nat) :
  regexp.matchHere s = Some n ->
  exists name r, s = ("></" ++ name ++ ">") ++ r
                 /\ allb regexp.isLetter name = true
                 /\ n = String.length ("></" ++ name ++ ">").
Proof.
  unfold regexp.matchHere.
  destruct (strings.HasPrefix s "></") eqn:Hp; [|discriminate].
  apply HasPrefix_spec in Hp as [t ->].
  change (drop 3 ("></" ++ t)) with t.
  destruct (regexp.lettersGT false t) as [k|] eqn:Hk; [|discriminate].
  simpl. intros H; inversion H; subst n.
  destruct (lettersGT_inv _ _ _ Hk) as (name & r & -> & Hl & ->).
  exists name, r. split; [strassoc|]. split; [assumption|].
  cbn [append String.length]. rewrite length_app. simpl. lia.
Qed.

Lemma Subst_cons (P : string -> Prop) (new s t : string) (c : ascii) :
  Subst P new s t -> Subst P new (String c s) (String c t).
Proof.
  intros H. destruct H as [s|a seg b t Hseg Hsub]; [constructor|].
  change (String c (a ++ seg ++ b)) with (String c a ++ seg ++ b).
  change (String c (a ++ new ++ t)) with (String c a ++ new ++ t).
  now constructor.
Qed.

Lemma ReplaceAllString_Subst (repl : string) (s : string) :
  Subst matchSegment repl s (emptyElementRE.ReplaceAllString s repl).
Proof.
  remember (String.length s) as n eqn:Hn. revert s Hn.
  induction n as [n IH] using lt_wf_ind. intros s Hn.
  destruct s as [|c s]; [constructor|].
  destruct (regexp.matchHere (String c s)) as [k|] eqn:Hm.
  - rewrite (replaceAll_match _ _ _ Hm).
    destruct (matchHere_inv _ _ Hm) as (name & r & Hs & Hl & ->).
    rewrite Hs. rewrite drop_app_length.
    change ((("></" ++ name ++ ">") ++ r)) with ("" ++ (("></" ++ name ++ ">") ++ r)).
    change (repl ++ emptyElementRE.ReplaceAllString r repl)
      with ("" ++ repl ++ emptyElementRE.ReplaceAllString r repl).
    constructor; [exists name; auto|].
    apply (IH (String.length r)); [|reflexivity].
    subst n. rewrite Hs, length_app. simpl. lia.
  - rewrite (replaceAll_char _ _ _ Hm).
    assert (H : Subst matchSegment repl s (emptyElementRE.ReplaceAllString s repl))
      by (apply (IH (String.length s)); [subst n; simpl; lia|reflexivity]).
    now apply Subst_cons.
Qed.

(** ** What the rewrites of a line preserve *)

(** The seven texts the rules write cannot complete an occurrence of [pat]. *)
Definition rewriteSafe (pat : string) : bool :=
  forallb (insertSafe pat)
    ["/>"; "xmlns:cenc"; "xmlns:mspr"; "cenc:pssh"; "mspr:pro";
     "cenc:default_KID"; "xmlns:cenc="].

Lemma Replace_absent (pat old new s : string) (n : Z) :
  insertSafe pat new = true ->
  strings.Contains s pat = false ->
  strings.Contains (strings.Replace s old new n) pat = false.
Proof. intros Hs. apply Subst_absent with (P := eq old) (new := new); [assumption|apply Replace_Subst]. Qed.

Lemma Contains_nil_r (s : string) : strings.Contains s "" = true.
Proof.
  unfold strings.Contains, strings.Index.
  rewrite (indexOf_head s "" (HasPrefix_nil s)). reflexivity.
Qed.

Lemma rewriteLine_absent (pat s : string) :
  rewriteSafe pat = true ->
  strings.Contains s pat = false ->
  strings.Contains (rewriteLine s) pat = false.
Proof.
  unfold rewriteSafe. cbn [forallb]. intros H.
  repeat (apply andb_true_iff in H; let H' := fresh "S" in destruct H as [H' H]).
  intros Hs.
  assert (H1 : strings.Contains (selfClose s) pat = false).
  { apply Subst_absent with (P := matchSegment) (new := "/>") (s := s);
      [assumption|apply ReplaceAllString_Subst|assumption]. }
  assert (H2 : strings.Contains (injectMPD (selfClose s)) pat = false).
  { unfold injectMPD. destruct (strings.Contains (selfClose s) "<MPD"); [|assumption].
    now repeat apply Replace_absent. }
  assert (H3 : strings.Contains (injectPssh (injectMPD (selfClose s))) pat = false).
  { unfold injectPssh. destruct (strings.Contains _ "<pssh"); [|assumption].
    now repeat apply Replace_absent. }
  assert (H4 : strings.Contains (injectPro (injectPssh (injectMPD (selfClose s)))) pat = false).
  { unfold injectPro. destruct (strings.Contains _ "<pro"); [|assumption].
    now repeat apply Replace_absent. }
  assert (H5 : strings.Contains
                 (qualifyDefaultKID (injectPro (injectPssh (injectMPD (selfClose s))))) pat
               = false).
  { unfold qualifyDefaultKID. destruct (strings.Contains _ "default_KID"); [|assumption].
    now repeat apply Replace_absent. }
  unfold rewriteLine, dropEmptyTimeline.
  destruct (String.eqb _ _); [|assumption].
  destruct pat; [|reflexivity]. now rewrite Contains_nil_r in Hs.
Qed.

Lemma Replace_newline (old new s : string) (n : Z) :
  old <> "" -> lacks newline old = true ->
  endsWithNewline s -> endsWithNewline (strings.Replace s old new n).
Proof.
  intros Ho Hl. apply Subst_newline with (P := eq old) (new := new).
  - intros seg <-. auto.
  - apply Replace_Subst.
Qed.

Lemma matchSegment_newline (seg : string) :
  matchSegment seg -> seg <> "" /\ lacks newline seg = true.
Proof.
  intros (name & -> & Hl). split; [discriminate|].
  cbn [append]. unfold lacks. cbn [allb]. fold (lacks newline (name ++ ">")).
  rewrite lacks_app, (lacks_letters newline name eq_refl Hl). reflexivity.
Qed.

(** A line that ends in a newline is dropped or still ends in a newline. *)
Lemma rewriteLine_newline (s : string) :
  endsWithNewline s -> rewriteLine s = "" \/ endsWithNewline (rewriteLine s).
Proof.
  intros Hs.
  assert (H1 : endsWithNewline (selfClose s)).
  { apply Subst_newline with (P := matchSegment) (new := "/>") (s := s);
      [apply matchSegment_newline|apply ReplaceAllString_Subst|assumption]. }
  assert (H2 : endsWithNewline (injectMPD (selfClose s))).
  { unfold injectMPD. destruct (strings.Contains (selfClose s) "<MPD"); [|assumption].
    repeat apply Replace_newline; (discriminate || reflexivity || assumption). }
  assert (H3 : endsWithNewline (injectPssh (injectMPD (selfClose s)))).
  { unfold injectPssh. destruct (strings.Contains _ "<pssh"); [|assumption].
    repeat apply Replace_newline; (discriminate || reflexivity || assumption). }
  assert (H4 : endsWithNewline (injectPro (injectPssh (injectMPD (selfClose s))))).
  { unfold injectPro. destruct (strings.Contains _ "<pro"); [|assumption].
    repeat apply Replace_newline; (discriminate || reflexivity || assumption). }
  assert (H5 : endsWithNewline
                 (qualifyDefaultKID (injectPro (injectPssh (injectMPD (selfClose s)))))).
  { unfold qualifyDefaultKID. destruct (strings.Contains _ "default_KID"); [|assumption].
    repeat apply Replace_newline; (discriminate || reflexivity || assumption). }
  unfold rewriteLine, dropEmptyTimeline.
  destruct (String.eqb _ _); [now left|now right].
Qed.

(** Pieces that end in a newline (or are empty), none of which holds
    [pat], put one after the other do not hold [pat]. *)
Lemma concat_absent (pat : string) (pieces : list string) (last : string) :
  insertSafe pat xml.nl = true ->
  (forall p, In p pieces ->
     strings.Contains p pat = false /\ (p = "" \/ endsWithNewline p)) ->
  strings.Contains last pat = false ->
  strings.Contains (concatAll pieces ++ last) pat = false.
Proof.
  intros Hsafe. induction pieces as [|p ps IH]; intros Hp Hlast; [assumption|].
  cbn [concatAll]. rewrite app_assoc.
  destruct (Hp p (or_introl eq_refl)) as [Hc [->|[p' ->]]].
  - apply IH; [intros; apply Hp; now right|assumption].
  - rewrite app_assoc. apply no_occ_insert; [assumption| |].
    + now apply Contains_false_app in Hc as [Hc _].
    + apply IH; [intros; apply Hp; now right|assumption].
Qed.

(** ** Occurrences of a pattern that begins with a byte absent elsewhere *)

Lemma HasPrefix_lacks_head (c x : ascii) (pat s : string) :
  Ascii.eqb x c = false -> strings.HasPrefix (String x s) (String c pat) = false.
Proof. intros H. cbn [strings.HasPrefix]. rewrite Ascii.eqb_sym in H. now rewrite H. Qed.

Lemma indexOf_skip (c : ascii) (pat t r : string) :
  lacks c t = true ->
  strings.indexOf (t ++ r) (String c pat)
  = option_map (Nat.add (String.length t)) (strings.indexOf r (String c pat)).
Proof.
  induction t as [|x t IH]; intros H.
  - simpl. destruct (strings.indexOf r (String c pat)); reflexivity.
  - cbn [append]. rewrite indexOf_tail
      by (apply HasPrefix_lacks_head; now apply (lacks_head c x t)).
    rewrite IH by (now apply (lacks_tail c x t)).
    destruct (strings.indexOf r (String c pat)); reflexivity.
Qed.

Lemma Contains_skip (c : ascii) (pat t r : string) :
  lacks c t = true ->
  strings.Contains (t ++ r) (String c pat) = strings.Contains r (String c pat).
Proof.
  intros H. unfold strings.Contains, strings.Index. rewrite indexOf_skip by assumption.
  destruct (strings.indexOf r (String c pat)); simpl; [|reflexivity].
  apply eq_trans with true; [apply Z.leb_le; lia|symmetry; apply Z.leb_le; lia].
Qed.

Lemma Contains_lacks (c : ascii) (pat t : string) :
  lacks c t = true -> strings.Contains t (String c pat) = false.
Proof.
  intros H. rewrite <- (app_nil_r t), Contains_skip by assumption. reflexivity.
Qed.

Lemma Contains_head (c : ascii) (pat r : string) :
  strings.Contains (String c r) (String c pat)
  = strings.HasPrefix r pat || strings.Contains r (String c pat).
Proof.
  unfold strings.Contains, strings.Index. cbn [strings.indexOf strings.HasPrefix].
  rewrite Ascii.eqb_refl. cbn [andb].
  destruct (strings.HasPrefix r pat); [reflexivity|].
  destruct (strings.indexOf r (String c pat)); simpl; [|reflexivity].
  apply eq_trans with true; [apply Z.leb_le; lia|symmetry; apply Z.leb_le; lia].
Qed.

(** ** C7: empty timelines *)

Definition timelineTag : string := "SegmentTimeline".

(** The element names of the document tree. *)
Definition schemaNames : list string :=
  ["MPD"; "BaseURL"; "Period"; "SupplementalProperty"; "EventStream";
   "ProgramEventStream"; "AdaptationSet"; "ContentProtection"; "Representation";
   "SegmentTemplate"; "AudioChannelConfiguration"; "Event"; "pssh"; "pro";
   "SegmentTimeline"; "S"].

Definition inSchema (name : string) : bool := existsb (String.eqb name) schemaNames.

(** Every element named SegmentTimeline is empty. *)
Fixpoint timelinesEmptyNode (n : xml.Node) : bool :=
  match n with
  | xml.CharData _ => true
  | xml.Element name attrs children =>
      inSchema name
      && (if String.eqb name timelineTag
          then match attrs, children with
               | [], [] => true
               | _, _ => false
               end
          else true)
      && forallb timelinesEmptyNode children
  end.

Definition timelinesEmptyLine (l : Line) : bool :=
  inSchema (lineName l)
  && (if String.eqb (lineName l) timelineTag
      then match l with
           | LLeaf _ _ [] "" => true
           | _ => false
           end
      else true).

Definition optb {A : Type} (P : A -> bool) (o : option A) : bool :=
  match o with
  | Some x => P x
  | None => true
  end.

(** Every SegmentTimeline of the document has zero segments. *)
Definition timelineEmpty (t : SegmentTimeline) : bool :=
  match Segments t with
  | [] => true
  | _ :: _ => false
  end.

Definition templateEmpty (t : SegmentTemplate) : bool :=
  forallb timelineEmpty (ST_SegmentTimeline t).

Definition representationEmpty (r : Representation) : bool :=
  optb templateEmpty (Rep_SegmentTemplate r).

Definition adaptationSetEmpty (a : AdaptationSet) : bool :=
  forallb representationEmpty (AS_Representations a)
  && optb templateEmpty (AS_SegmentTemplate a).

Definition periodEmpty (p : Period) : bool :=
  forallb (optb adaptationSetEmpty) (Period_AdaptationSets p).

Definition allTimelinesEmpty (m : MPD) : bool :=
  forallb (optb periodEmpty) (Periods m).

Lemma tl_intro (name : string) (attrs : list xml.Attr) (kids : list xml.Node) :
  inSchema name = true -> String.eqb name timelineTag = false ->
  forallb timelinesEmptyNode kids = true ->
  timelinesEmptyNode (xml.Element name attrs kids) = true.
Proof. intros H1 H2 H3. cbn [timelinesEmptyNode]. now rewrite H1, H2, H3. Qed.

Ltac tl_ok := apply tl_intro; [reflexivity|reflexivity|forest timelinesEmptyNode].

Lemma forallb_map_cond {A B : Type} (Q : A -> bool) (P : B -> bool) (f : A -> B)
  (l : list A) :
  (forall x, Q x = true -> P (f x) = true) ->
  forallb Q l = true -> forallb P (map f l) = true.
Proof.
  intros H. induction l as [|x l IH]; simpl; [reflexivity|].
  intros Hl. apply andb_true_iff in Hl as [Hx Hl]. now rewrite (H _ Hx), IH.
Qed.

Lemma forallb_optElem_cond {A : Type} (Q : A -> bool) (P : xml.Node -> bool)
  (f : A -> xml.Node) (v : option A) :
  (forall x, Q x = true -> P (f x) = true) ->
  optb Q v = true -> forallb P (marshal.optElem f v) = true.
Proof. intros H. destruct v; simpl; [intros Hv; now rewrite H|reflexivity]. Qed.

Lemma forallb_flat_optElem_cond {A : Type} (Q : A -> bool) (P : xml.Node -> bool)
  (f : A -> xml.Node) (l : list (option A)) :
  (forall x, Q x = true -> P (f x) = true) ->
  forallb (optb Q) l = true -> forallb P (flat_map (marshal.optElem f) l) = true.
Proof.
  intros H. induction l as [|x l IH]; simpl; [reflexivity|].
  intros Hl. apply andb_true_iff in Hl as [Hx Hl].
  rewrite forallb_app, IH, andb_true_r by assumption.
  now apply (forallb_optElem_cond Q).
Qed.

Lemma tl_event e : timelinesEmptyNode (marshal.event e) = true.
Proof. tl_ok. Qed.

Lemma tl_eventStream e : timelinesEmptyNode (marshal.eventStream e) = true.
Proof. tl_ok; auto using tl_event. Qed.

Lemma tl_programEventStream e : timelinesEmptyNode (marshal.programEventStream e) = true.
Proof. tl_ok; auto using tl_event. Qed.

Lemma tl_pssh p : timelinesEmptyNode (marshal.pssh p) = true.
Proof. tl_ok. Qed.

Lemma tl_pro p : timelinesEmptyNode (marshal.pro p) = true.
Proof. tl_ok. Qed.

Lemma tl_contentProtection c : timelinesEmptyNode (marshal.contentProtection c) = true.
Proof. tl_ok; auto using tl_pssh, tl_pro. Qed.

Lemma tl_audio a : timelinesEmptyNode (marshal.audioChannelConfiguration a) = true.
Proof. tl_ok. Qed.

Lemma tl_descriptor d : timelinesEmptyNode (marshal.descriptor "SupplementalProperty" d) = true.
Proof. tl_ok. Qed.

Lemma tl_segmentTimeline t :
  timelineEmpty t = true -> timelinesEmptyNode (marshal.segmentTimeline t) = true.
Proof.
  unfold timelineEmpty, marshal.segmentTimeline.
  destruct (Segments t); [reflexivity|discriminate].
Qed.

Lemma tl_segmentTemplate t :
  templateEmpty t = true -> timelinesEmptyNode (marshal.segmentTemplate t) = true.
Proof.
  intros H. apply tl_intro; [reflexivity|reflexivity|].
  apply (forallb_map_cond timelineEmpty); [apply tl_segmentTimeline|exact H].
Qed.

Lemma tl_representation r :
  representationEmpty r = true -> timelinesEmptyNode (marshal.representation r) = true.
Proof.
  intros H. apply tl_intro; [reflexivity|reflexivity|].
  rewrite !forallb_app. repeat (apply andb_true_intro; split).
  - apply forallb_map_true, tl_contentProtection.
  - apply (forallb_optElem_cond templateEmpty); [apply tl_segmentTemplate|exact H].
  - apply forallb_optElem_true, tl_audio.
Qed.

Lemma tl_adaptationSet a :
  adaptationSetEmpty a = true -> timelinesEmptyNode (marshal.adaptationSet a) = true.
Proof.
  intros H. apply andb_true_iff in H as [H1 H2].
  apply tl_intro; [reflexivity|reflexivity|].
  rewrite !forallb_app. repeat (apply andb_true_intro; split).
  - apply forallb_map_true, tl_contentProtection.
  - apply (forallb_map_cond representationEmpty); [apply tl_representation|exact H1].
  - apply (forallb_optElem_cond templateEmpty); [apply tl_segmentTemplate|exact H2].
Qed.

Lemma tl_period p :
  periodEmpty p = true -> timelinesEmptyNode (marshal.period p) = true.
Proof.
  intros H. apply tl_intro; [reflexivity|reflexivity|].
  rewrite !forallb_app. repeat (apply andb_true_intro; split).
  - apply forallb_optElem_true, tl_descriptor.
  - unfold marshal.strElem. destruct (String.eqb (Period_BaseURL p) ""); reflexivity.
  - apply forallb_map_true, tl_eventStream.
  - apply forallb_map_true, tl_programEventStream.
  - apply (forallb_flat_optElem_cond adaptationSetEmpty); [apply tl_adaptationSet|exact H].
Qed.

Lemma tl_mpd m :
  allTimelinesEmpty m = true -> timelinesEmptyNode (marshal.mpd m) = true.
Proof.
  intros H. apply tl_intro; [reflexivity|reflexivity|].
  rewrite !forallb_app. repeat (apply andb_true_intro; split).
  - unfold marshal.strElem. destruct (String.eqb (BaseURL m) ""); reflexivity.
  - apply (forallb_flat_optElem_cond periodEmpty); [apply tl_period|exact H].
Qed.

Lemma nodeLines_timelines (n : xml.Node) :
  timelinesEmptyNode n = true ->
  forall d, forallb timelinesEmptyLine (nodeLines d n) = true.
Proof.
  induction n as [name attrs kids IH|data] using Node_ind'; [|reflexivity].
  intros H d. cbn [timelinesEmptyNode] in H.
  apply andb_true_iff in H as [H H3]. apply andb_true_iff in H as [H1 H2].
  assert (Hk : forall d', forallb timelinesEmptyLine (flat_map (nodeLines d') kids) = true).
  { intros d'. clear -IH H3. induction kids as [|k kids IHk]; [reflexivity|].
    simpl in H3. apply andb_true_iff in H3 as [Hk Hks].
    cbn [flat_map]. rewrite forallb_app, (IH k (or_introl eq_refl) Hk), IHk; auto.
    intros k' Hin. apply IH. now right. }
  destruct (String.eqb name timelineTag) eqn:Hn.
  - destruct attrs; [|discriminate]. destruct kids; [|discriminate].
    cbn [nodeLines forallb]. unfold timelinesEmptyLine. cbn [lineName].
    now rewrite H1, Hn.
  - destruct kids as [|[n1 a1 k1|d1] [|k2 kids]];
      cbn [nodeLines]; cbn [forallb]; rewrite ?forallb_app, ?Hk;
      cbn [forallb]; unfold timelinesEmptyLine; cbn [lineName]; now rewrite ?H1, ?Hn.
Qed.

Lemma docLines_timelines (m : MPD) :
  allTimelinesEmpty m = true -> forallb timelinesEmptyLine (docLines m) = true.
Proof. intros H. apply nodeLines_timelines, tl_mpd, H. Qed.

Lemma TrimSpace_indentation (d : nat) (s : string) :
  strings.TrimSpace (xml.indentation d ++ s) = strings.TrimSpace s.
Proof. induction d as [|d IH]; [reflexivity|]. cbn [xml.indentation append]. exact IH. Qed.

(** The line of an empty timeline leaves nothing in the output. *)
Lemma emptyTimeline_dropped (d : nat) (tail : string) :
  (tail = "" \/ tail = xml.nl) ->
  rewriteLine (lineText (LLeaf d timelineTag [] "") ++ tail) = "".
Proof.
  intros Htail. unfold rewriteLine.
  rewrite selfClose_line by (reflexivity || assumption).
  cbn [collapsed]. unfold timelineTag.
  change (xml.attrsText []) with "".
  replace ((xml.indentation d ++ "<" ++ "SegmentTimeline" ++ "" ++ "/>") ++ tail)
    with (xml.indentation d ++ "<SegmentTimeline/>" ++ tail) by strassoc.
  assert (E1 : injectMPD (xml.indentation d ++ "<SegmentTimeline/>" ++ tail)
               = xml.indentation d ++ "<SegmentTimeline/>" ++ tail).
  { unfold injectMPD. rewrite Contains_skip by (apply lacks_indentation; reflexivity).
    destruct Htail as [Ht|Ht]; rewrite Ht; reflexivity. }
  rewrite E1.
  assert (E2 : injectPssh (xml.indentation d ++ "<SegmentTimeline/>" ++ tail)
               = xml.indentation d ++ "<SegmentTimeline/>" ++ tail).
  { unfold injectPssh. rewrite Contains_skip by (apply lacks_indentation; reflexivity).
    destruct Htail as [Ht|Ht]; rewrite Ht; reflexivity. }
  rewrite E2.
  assert (E3 : injectPro (xml.indentation d ++ "<SegmentTimeline/>" ++ tail)
               = xml.indentation d ++ "<SegmentTimeline/>" ++ tail).
  { unfold injectPro. rewrite Contains_skip by (apply lacks_indentation; reflexivity).
    destruct Htail as [Ht|Ht]; rewrite Ht; reflexivity. }
  rewrite E3.
  assert (E4 : qualifyDefaultKID (xml.indentation d ++ "<SegmentTimeline/>" ++ tail)
               = xml.indentation d ++ "<SegmentTimeline/>" ++ tail).
  { unfold qualifyDefaultKID. rewrite Contains_skip by (apply lacks_indentation; reflexivity).
    destruct Htail as [Ht|Ht]; rewrite Ht; reflexivity. }
  rewrite E4.
  unfold dropEmptyTimeline. rewrite TrimSpace_indentation.
  destruct Htail as [Ht|Ht]; rewrite Ht; reflexivity.
Qed.

(** The text after an element name begins with a space or with [>]. *)
Definition delimStart (rest : string) : Prop :=
  exists c y, rest = String c y /\ (c = " "%char \/ c = ">"%char).

Lemma attrsText_delimStart (attrs : list xml.Attr) (z : string) :
  forallb attrOK attrs = true -> delimStart (xml.attrsText attrs ++ ">" ++ z).
Proof.
  destruct attrs as [|a attrs]; intros H.
  - exists ">"%char, z. auto.
  - cbn [forallb] in H. apply andb_true_iff in H as [Ha _].
    unfold attrOK in Ha. apply andb_true_iff in Ha as [Hne _].
    apply negb_true_iff in Hne.
    unfold xml.attrsText. cbn [map concatAll]. unfold xml.attrText. rewrite Hne.
    eexists " "%char, _. split; [|now left]. strassoc.
Qed.

Lemma schema_cases (P : string -> Prop) (name : string) :
  inSchema name = true -> Forall P schemaNames -> P name.
Proof.
  intros H HP. unfold inSchema in H. apply existsb_exists in H as (x & Hin & Heq).
  apply String.eqb_eq in Heq. subst x. rewrite Forall_forall in HP. now apply HP.
Qed.

Lemma open_name_prefix (name rest : string) :
  inSchema name = true -> String.eqb name timelineTag = false -> delimStart rest ->
  strings.HasPrefix (name ++ rest) "SegmentTimeline" = false
  /\ strings.HasPrefix (name ++ rest) "/SegmentTimeline" = false.
Proof.
  intros Hin Hne (c & y & -> & Hc). revert Hne.
  apply (schema_cases (fun name =>
           String.eqb name timelineTag = false ->
           strings.HasPrefix (name ++ String c y) "SegmentTimeline" = false
           /\ strings.HasPrefix (name ++ String c y) "/SegmentTimeline" = false) name Hin).
  unfold schemaNames.
  repeat (constructor; [intros Hne; try discriminate Hne;
                        destruct Hc as [->| ->]; split; reflexivity|]).
  constructor.
Qed.

Lemma close_name_prefix (name rest : string) :
  inSchema name = true -> String.eqb name timelineTag = false ->
  strings.HasPrefix ("/" ++ name ++ ">" ++ rest) "SegmentTimeline" = false
  /\ strings.HasPrefix ("/" ++ name ++ ">" ++ rest) "/SegmentTimeline" = false.
Proof.
  intros Hin Hne. split; [reflexivity|].
  cbn [append strings.HasPrefix]. rewrite Ascii.eqb_refl. cbn [andb].
  apply open_name_prefix; [assumption|assumption|].
  exists ">"%char, rest. auto.
Qed.

Definition timelinePattern (pat : string) : Prop :=
  pat = "<SegmentTimeline" \/ pat = "</SegmentTimeline".

Lemma lacks_lt_tail (tail : string) : (tail = "" \/ tail = xml.nl) -> lacks "<" tail = true.
Proof. intros [->| ->]; reflexivity. Qed.

(** A line of another element does not hold a tag of SegmentTimeline. *)
Lemma line_absent (l : Line) (tail pat : string) :
  lineOK l = true -> timelinesEmptyLine l = true -> (tail = "" \/ tail = xml.nl) ->
  timelinePattern pat ->
  (exists d, l = LLeaf d timelineTag [] "")
  \/ strings.Contains (lineText l ++ tail) pat = false.
Proof.
  intros Hok Htl Htail Hpat.
  unfold timelinesEmptyLine in Htl. apply andb_true_iff in Htl as [Hin Hcase].
  destruct (String.eqb (lineName l) timelineTag) eqn:Hname.
  { left. destruct l as [d name attrs|d name [|a attrs] [|c data]|d name];
      try discriminate Hcase.
    cbn [lineName] in Hname. apply String.eqb_eq in Hname. subst name. eauto. }
  right.
  assert (Hlt : tagByte "<" = true) by reflexivity.
  pose proof (lacks_lt_tail tail Htail) as Htl.
  assert (Hsplit : exists p', pat = String "<" p'
                    /\ (p' = "SegmentTimeline" \/ p' = "/SegmentTimeline")).
  { destruct Hpat as [->| ->]; eexists; split; eauto. }
  destruct Hsplit as (p' & -> & Hp').
  destruct l as [d name attrs|d name attrs data|d name];
    cbn [lineName] in Hin, Hname; cbn [lineOK] in Hok; cbn [lineText].
  - apply andb_true_iff in Hok as [Hn Ha].
    pose proof (elemNameOK_letters _ Hn) as [_ Hl].
    unfold openTag.
    replace ((xml.indentation d ++ "<" ++ name ++ xml.attrsText attrs ++ ">") ++ tail)
      with (xml.indentation d
            ++ String "<" (name ++ xml.attrsText attrs ++ ">" ++ tail)) by strassoc.
    rewrite Contains_skip by (apply lacks_indentation; reflexivity).
    rewrite Contains_head.
    rewrite Contains_lacks.
    + rewrite orb_false_r.
      destruct (open_name_prefix name (xml.attrsText attrs ++ ">" ++ tail) Hin Hname
                  (attrsText_delimStart attrs tail Ha)) as [H1 H2].
      destruct Hp' as [->| ->]; assumption.
    + rewrite !lacks_app, (lacks_letters _ _ Hlt Hl), (lacks_attrsText _ _ Hlt Ha), Htl.
      reflexivity.
  - apply andb_true_iff in Hok as [Hn Ha].
    pose proof (elemNameOK_letters _ Hn) as [_ Hl].
    unfold openTag, closeTag.
    replace ((xml.indentation d ++ ("<" ++ name ++ xml.attrsText attrs ++ ">")
              ++ xml.EscapeString data ++ "</" ++ name ++ ">") ++ tail)
      with (xml.indentation d
            ++ String "<" ((name ++ xml.attrsText attrs ++ ">" ++ xml.EscapeString data)
                           ++ String "<" ("/" ++ name ++ ">" ++ tail))) by strassoc.
    rewrite Contains_skip by (apply lacks_indentation; reflexivity).
    rewrite Contains_head.
    assert (Hmid : lacks "<" (name ++ xml.attrsText attrs ++ ">" ++ xml.EscapeString data)
                   = true).
    { rewrite !lacks_app, (lacks_letters _ _ Hlt Hl), (lacks_attrsText _ _ Hlt Ha).
      rewrite (EscapeString_lacks _ _ (tagByte_escaped _ Hlt)). reflexivity. }
    rewrite Contains_skip by exact Hmid.
    rewrite Contains_head, Contains_lacks.
    + rewrite orb_false_r.
      destruct (close_name_prefix name tail Hin Hname) as [H3 H4].
      replace ((name ++ xml.attrsText attrs ++ ">" ++ xml.EscapeString data)
               ++ String "<" ("/" ++ name ++ ">" ++ tail))
        with (name ++ xml.attrsText attrs ++ ">"
              ++ (xml.EscapeString data ++ String "<" ("/" ++ name ++ ">" ++ tail)))
        by strassoc.
      destruct (open_name_prefix name _ Hin Hname
                  (attrsText_delimStart attrs
                     (xml.EscapeString data ++ String "<" ("/" ++ name ++ ">" ++ tail)) Ha))
        as [H1 H2].
      destruct Hp' as [->| ->].
      * now rewrite H1, H3.
      * now rewrite H2, H4.
    + rewrite !lacks_app, (lacks_letters _ _ Hlt Hl), Htl. reflexivity.
  - pose proof (elemNameOK_letters _ Hok) as [_ Hl].
    unfold closeTag.
    replace ((xml.indentation d ++ "</" ++ name ++ ">") ++ tail)
      with (xml.indentation d ++ String "<" ("/" ++ name ++ ">" ++ tail)) by strassoc.
    rewrite Contains_skip by (apply lacks_indentation; reflexivity).
    rewrite Contains_head, Contains_lacks.
    + rewrite orb_false_r.
      destruct (close_name_prefix name tail Hin Hname) as [H3 H4].
      destruct Hp' as [->| ->]; assumption.
    + rewrite !lacks_app, (lacks_letters _ _ Hlt Hl), Htl. reflexivity.
Qed.

Lemma Contains_nil_l (pat : string) :
  strings.Contains xml.nl pat = false -> strings.Contains "" pat = false.
Proof.
  intros H. destruct pat; [now rewrite Contains_nil_r in H|reflexivity].
Qed.

(** The rewritten lines of a text, followed by a newline, do not hold
    [pat] when every line is dropped or does not hold it. *)
Lemma pieces_absent (pat : string) (ts : list string) :
  insertSafe pat xml.nl = true -> rewriteSafe pat = true ->
  strings.Contains xml.nl pat = false ->
  (forall t tail, In t ts -> (tail = "" \/ tail = xml.nl) ->
     rewriteLine (t ++ tail) = "" \/ strings.Contains (t ++ tail) pat = false) ->
  strings.Contains (concatAll (map rewriteLine (terminated ts)) ++ xml.nl) pat = false.
Proof.
  intros Hnl Hsafe Hpat. induction ts as [|t ts IH]; intros Hts; [exact Hpat|].
  destruct ts as [|t' ts].
  - cbn [terminated map concatAll]. rewrite app_nil_r.
    destruct (Hts t "" (or_introl eq_refl) (or_introl eq_refl)) as [H|H];
      rewrite app_nil_r in H.
    + rewrite H. exact Hpat.
    + replace (rewriteLine t ++ xml.nl) with (rewriteLine t ++ xml.nl ++ "")
        by now rewrite app_nil_r.
      apply no_occ_insert; [assumption| |now apply Contains_nil_l].
      now apply rewriteLine_absent.
  - change (terminated (t :: t' :: ts)) with ((t ++ xml.nl) :: terminated (t' :: ts)).
    cbn [map concatAll]. rewrite app_assoc.
    assert (Hrest : strings.Contains
                      (concatAll (map rewriteLine (terminated (t' :: ts))) ++ xml.nl) pat
                    = false)
      by (apply IH; intros; apply Hts; [now right|assumption]).
    destruct (Hts t xml.nl (or_introl eq_refl) (or_intror eq_refl)) as [H|H].
    + rewrite H. exact Hrest.
    + destruct (rewriteLine_newline (t ++ xml.nl)) as [H0|[p' Hp']]; [now exists t| |].
      * rewrite H0. exact Hrest.
      * pose proof (rewriteLine_absent pat _ Hsafe H) as Habs.
        rewrite Hp' in *. rewrite app_assoc.
        apply no_occ_insert; [assumption| |assumption].
        now apply Contains_false_app in Habs as [Habs _].
Qed.

Lemma Encode_absent (m : MPD) (pat : string) :
  allTimelinesEmpty m = true -> timelinePattern pat ->
  strings.Contains ((xmlHeader ++ xml.nl)
                    ++ concatAll (map rewriteLine (inputLines m)) ++ xml.nl) pat = false.
Proof.
  intros Hm Hpat.
  assert (Hc : insertSafe pat xml.nl = true /\ rewriteSafe pat = true
               /\ strings.Contains xml.nl pat = false
               /\ strings.Contains xmlHeader pat = false).
  { destruct Hpat as [->| ->]; repeat split; vm_compute; reflexivity. }
  destruct Hc as (Hnl & Hsafe & Hp & Hh).
  rewrite app_assoc. apply no_occ_insert; [assumption|assumption|].
  unfold inputLines. apply pieces_absent; try assumption.
  intros t tail Hin Htail.
  apply in_map_iff in Hin as (l & <- & Hl).
  pose proof (docLines_ok m) as Hok. rewrite forallb_forall in Hok.
  pose proof (docLines_timelines m Hm) as Htl. rewrite forallb_forall in Htl.
  destruct (line_absent l tail pat (Hok l Hl) (Htl l Hl) Htail Hpat) as [[d ->]|H].
  - left. now apply emptyTimeline_dropped.
  - now right.
Qed.

(** C7. A SegmentTimeline with zero segments is serialized as the line of
    an open tag immediately followed by its close tag, and that line leaves
    nothing in the output; in general a line whose trimmed content, after the
    other rewrites, is exactly the self-closed empty-timeline tag is dropped.
    So the output of Encode for a Document whose SegmentTimelines have zero
    segments holds no SegmentTimeline tag at all, neither open nor close. *)
Theorem C7_empty_timelines_suppressed (m : MPD) :
  allTimelinesEmpty m = true ->
  (forall d tail,
      (tail = "" \/ tail = xml.nl) ->
      nodeLines d (marshal.segmentTimeline {| Segments := [] |})
      = [LLeaf d timelineTag [] ""]
      /\ lineText (LLeaf d timelineTag [] "")
         = xml.indentation d ++ "<SegmentTimeline></SegmentTimeline>"
      /\ rewriteLine (lineText (LLeaf d timelineTag [] "") ++ tail) = "")
  /\ (forall s,
         strings.TrimSpace
           (qualifyDefaultKID (injectPro (injectPssh (injectMPD (selfClose s)))))
         = "<SegmentTimeline/>" ->
         rewriteLine s = "")
  /\ exists out,
       Encode m = Ok out
       /\ strings.Contains out "<SegmentTimeline" = false
       /\ strings.Contains out "</SegmentTimeline" = false.
Proof.
  intros Hm. split; [|split].
  - intros d tail Htail. split; [reflexivity|]. split.
    + cbn [lineText]. unfold openTag, closeTag, timelineTag.
      change (xml.attrsText []) with "". change (xml.EscapeString "") with "".
      strassoc.
    + now apply emptyTimeline_dropped.
  - intros s Hs. unfold rewriteLine, dropEmptyTimeline. now rewrite Hs.
  - eexists. split; [apply Encode_inputLines|].
    split; apply Encode_absent; try assumption; [now left|now right].
Qed.

Lemma C7_empty_timelines_suppressed_witness :
  exists out,
    Encode docPayloads = Ok out
    /\ strings.Contains out "<SegmentTimeline" = false
    /\ strings.Contains out "</SegmentTimeline" = false.
Proof.
  exact (proj2 (proj2 (C7_empty_timelines_suppressed docPayloads eq_refl))).
Defined.

(** A template with an empty timeline next to one with a segment. *)
Definition docMixedTimelines : MPD :=
  mkMPD None None None "p"
    [Some (mkPeriod
       [Some (mkAdaptationSet "video/mp4" [] []
          (Some (mkSegmentTemplate None None
                   [{| Segments := [] |};
                    {| Segments := [{| Seg_T := None; Seg_D := 5%N; Seg_R := None |}] |}])))])].

(** C7, as stated, fails: the template of this document contains a
    SegmentTimeline with zero segments, and the output of Encode still
    contains a SegmentTimeline element, that of the other timeline. *)
Lemma C7_counterexample :
  allTimelinesEmpty docMixedTimelines = false
  /\ Encode docMixedTimelines
     = Ok (xmlHeader ++ xml.nl
           ++ "<MPD profiles=" ++ q ++ "p" ++ q ++ ">" ++ xml.nl
           ++ "  <Period>" ++ xml.nl
           ++ "    <AdaptationSet mimeType=" ++ q ++ "video/mp4" ++ q ++ ">" ++ xml.nl
           ++ "      <SegmentTemplate>" ++ xml.nl
           ++ "        <SegmentTimeline>" ++ xml.nl
           ++ "          <S d=" ++ q ++ "5" ++ q ++ "/>" ++ xml.nl
           ++ "        </SegmentTimeline>" ++ xml.nl
           ++ "      </SegmentTemplate>" ++ xml.nl
           ++ "    </AdaptationSet>" ++ xml.nl
           ++ "  </Period>" ++ xml.nl
           ++ "</MPD>" ++ xml.nl).
Proof. split; vm_compute; reflexivity. Qed.

(** ** Decode after Encode: where the round trip fails *)

(** A document with one template, holding the timelines [ts]. *)
Definition docTemplate (ts : list SegmentTimeline) : MPD :=
  mkMPD None None None "p"
    [Some (mkPeriod
       [Some (mkAdaptationSet "video/mp4" [] []
          (Some (mkSegmentTemplate None None ts)))])].

(** A document with one ContentProtection, holding the payload [p]. *)
Definition docPssh (p : Pssh) : MPD :=
  mkMPD None None None "p"
    [Some (mkPeriod
       [Some (mkAdaptationSet "video/mp4"
          [mkContentProtection None None None None (Some p) None] [] None)])].

(** A document in the name space [urn:x] with one event stream, named
    [name]. *)
Definition docEventStream (name : xml.Name) : MPD :=
  mkMPD (Some "urn:x") None None "p"
    [Some {| Period_Start := None; Period_ID := None; Period_Duration := None;
             Period_SupplementalProperty := None; Period_BaseURL := "";
             Period_EventStreams :=
               [{| ES_XMLName := name; ES_SchemeIDURI := None; ES_Value := None;
                   ES_Timescale := None; ES_Events := [] |}];
             Period_ProgramEventStreams := []; Period_AdaptationSets := [] |}].

(** C1, as stated, fails.  A timeline with zero segments is dropped by
    Encode and is absent after Decode; a value that contains a marker of
    the rewrite rules comes back changed; a payload without text comes back
    with the empty text; the name of an event stream, which Encode ignores,
    is set by Decode. *)
Lemma C1_counterexample :
  (exists out,
      Encode (docTemplate [{| Segments := [] |}]) = Ok out
      /\ Decode unmarshal.zeroMPD out = Ok (docTemplate []))
  /\ (exists out,
         Encode (mkMPD None None None "urn:cenc:profile" []) = Ok out
         /\ Decode unmarshal.zeroMPD out
            = Ok (mkMPD None None None "urn:xmlns:cenc:profile" []))
  /\ (exists out,
         Encode (docPssh {| Pssh_Value := None; Pssh_Cenc := None |}) = Ok out
         /\ Decode unmarshal.zeroMPD out
            = Ok (docPssh {| Pssh_Value := Some ""; Pssh_Cenc := None |}))
  /\ (exists out,
         Encode (docEventStream {| xml.Space := ""; xml.Local := "" |}) = Ok out
         /\ Decode unmarshal.zeroMPD out
            = Ok (docEventStream {| xml.Space := "urn:x"; xml.Local := "EventStream" |})).
Proof.
  repeat split; eexists; (split; [vm_compute; reflexivity|vm_compute; reflexivity]).
Qed.

(** ** The decoder reads back what the printer escapes *)

(** A text the decoder accepts as it stands: valid UTF-8, every rune in
    the character range of XML. *)
Definition validText (s : string) : bool :=
  match decoder.checkRunes (String.length s) s with
  | None => true
  | Some _ => false
  end.

(** The quote of an attribute value, or none for character data. *)
Definition printerQuote (quote : option ascii) : Prop :=
  quote = None \/ quote = Some decoder.dquote.

Definition quoted (quote : option ascii) (c : ascii) : bool :=
  match quote with
  | Some q => Ascii.eqb c q
  | None => false
  end.

Lemma bind_Ok {A B : Type} (a : A) (f : A -> result B error) :
  decoder.bind (Ok a) f = f a.
Proof. reflexivity. Qed.

Lemma lor_ge_l (a b : N) : (a <= N.lor a b)%N.
Proof.
  assert (H : N.lor a b = N.lor a (N.ldiff b a)).
  { apply N.bits_inj. intros k. rewrite !N.lor_spec, N.ldiff_spec.
    destruct (N.testbit a k), (N.testbit b k); reflexivity. }
  assert (H0 : N.land a (N.ldiff b a) = 0%N).
  { apply N.bits_inj. intros k. rewrite N.land_spec, N.ldiff_spec, N.bits_0.
    destruct (N.testbit a k), (N.testbit b k); reflexivity. }
  rewrite H, <- N.lxor_lor, <- N.add_nocarry_lxor by assumption. lia.
Qed.

Lemma lor_ge_r (a b : N) : (b <= N.lor a b)%N.
Proof. rewrite N.lor_comm. apply lor_ge_l. Qed.

Lemma land_mask (a : N) (k : N) (m : N) :
  m = N.ones k -> N.land a m = (a mod 2 ^ k)%N.
Proof. intros ->. apply N.land_ones. Qed.

Lemma decode_wide (s : string) (r : N) (w : nat) :
  utf8.DecodeRuneInString s = (r, w) -> (2 <= w)%nat -> (128 <= r)%N.
Proof.
  unfold utf8.DecodeRuneInString.
  destruct s as [|c0 t]; [intros H; inversion H; lia|].
  destruct (byteOf c0 <? utf8.RuneSelf)%N; [intros H; inversion H; lia|].
  destruct (utf8.first (byteOf c0)) as [[sz [lo hi]]|] eqn:Hf; [|intros H; inversion H; lia].
  destruct (String.length (String c0 t) <? sz)%nat; [intros H; inversion H; lia|].
  destruct t as [|c1 t1]; [intros H; inversion H; lia|].
  destruct (utf8.inRange lo hi (byteOf c1)) eqn:H1; cbn [negb];
    [|intros H; inversion H; lia].
  apply inRange_spec in H1.
  assert (Hs0 : (N.land (byteOf c0) 31 = byteOf c0 mod 32
                 /\ N.land (byteOf c0) 15 = byteOf c0 mod 16
                 /\ N.land (byteOf c0) 7 = byteOf c0 mod 8
                 /\ utf8.low6 (byteOf c1) = byteOf c1 mod 64)%N).
  { unfold utf8.low6. repeat split.
    - apply (land_mask _ 5); reflexivity.
    - apply (land_mask _ 4); reflexivity.
    - apply (land_mask _ 3); reflexivity.
    - apply (land_mask _ 6); reflexivity. }
  destruct Hs0 as (M31 & M15 & M7 & M63).
  unfold utf8.first in Hf.
  repeat match type of Hf with
         | (if ?b then _ else _) = _ => destruct b eqn:?
         end; inversion Hf; subst sz lo hi; clear Hf;
    repeat match goal with
           | H : utf8.inRange _ _ _ = true |- _ => apply inRange_spec in H
           | H : (_ =? _)%N = true |- _ => apply N.eqb_eq in H
           end;
    cbn [Nat.leb];
    repeat match goal with
           | |- context [match ?t with EmptyString => _ | String _ _ => _ end] =>
               destruct t; [intros H; inversion H; lia|]
           | |- context [if negb ?b then _ else _] =>
               destruct b; cbn [negb]; [|intros H; inversion H; lia]
           end;
    intros H _; inversion H; subst r;
    rewrite ?M31, ?M15, ?M7, ?M63, !N.shiftl_mul_pow2.
  all: try (etransitivity; [|apply lor_ge_l];
            change (2 ^ 6)%N with 64%N; change (2 ^ 12)%N with 4096%N;
            change (2 ^ 18)%N with 262144%N;
            match goal with
            | |- (128 <= (?x mod ?m) * _)%N =>
                pose proof (N.Div0.div_mod x m); pose proof (N.mod_lt x m ltac:(lia));
                nia
            end).
  all: etransitivity; [|apply lor_ge_r]; etransitivity; [|apply lor_ge_l];
    change (2 ^ 6)%N with 64%N; change (2 ^ 12)%N with 4096%N;
    match goal with
    | |- (128 <= (?x mod ?m) * _)%N =>
        pose proof (N.Div0.div_mod x m); pose proof (N.mod_lt x m ltac:(lia)); nia
    end.
Qed.

Lemma reference_escape (r : N) (w : nat) (esc : string) :
  xml.escapeOf r w = Some esc ->
  (xml.isInCharacterRange r = true /\ ((r =? 65533)%N && (w =? 1)%nat) = false) ->
  (r < 128)%N
  /\ exists t, esc = String "&" t
               /\ forall X, decoder.reference (t ++ X) = Ok (String (ascii_of_N r) "", X).
Proof.
  unfold xml.escapeOf. intros H [Hr Hw].
  repeat match type of H with
         | (if (r =? ?k)%N then _ else _) = _ =>
             destruct (N.eqb_spec r k) as [->|_];
             [inversion H; subst esc; split; [lia|eexists; split; [reflexivity|intros X; reflexivity]]|]
         end.
  rewrite Hr, Hw in H. discriminate.
Qed.

Lemma textLoop_raw (fuel : nat) (quote : option ascii) (b0 b1 : N) (c : ascii) (s : string) :
  (byteOf c =? 62)%N = false -> Ascii.eqb c "<" = false -> Ascii.eqb c "&" = false ->
  (byteOf c =? 13)%N = false -> (byteOf c =? 10)%N = false ->
  quoted quote c = false ->
  decoder.textLoop (S fuel) quote b0 b1 (String c s)
  = decoder.bind (decoder.textLoop fuel quote b1 (byteOf c) s)
      (fun x => match x with (data, rest') => Ok (String c data, rest') end).
Proof.
  intros H62 H60 H38 H13 H10 Hq. cbn [decoder.textLoop].
  rewrite H62, andb_false_r, H60. unfold quoted in Hq. rewrite Hq, H38, H13, H10.
  rewrite andb_false_r. reflexivity.
Qed.

Lemma textLoop_amp (fuel : nat) (quote : option ascii) (b0 b1 : N) (s : string) :
  printerQuote quote ->
  decoder.textLoop (S fuel) quote b0 b1 (String "&" s)
  = decoder.bind (decoder.reference s)
      (fun x => match x with
                | (t, rest) =>
                    decoder.bind (decoder.textLoop fuel quote 0 0 rest)
                      (fun y => match y with (data, rest') => Ok (t ++ data, rest') end)
                end).
Proof.
  intros Hq. cbn [decoder.textLoop].
  change (byteOf "&" =? 62)%N with false. rewrite andb_false_r.
  change (Ascii.eqb "&" "<") with false. cbv iota.
  destruct Hq as [->| ->]; reflexivity.
Qed.

Lemma highByte_raw (c : ascii) (quote : option ascii) :
  printerQuote quote -> highByte c = true ->
  (byteOf c =? 62)%N = false /\ Ascii.eqb c "<" = false /\ Ascii.eqb c "&" = false
  /\ (byteOf c =? 13)%N = false /\ (byteOf c =? 10)%N = false
  /\ quoted quote c = false.
Proof.
  intros Hq Hc. unfold highByte in Hc. apply N.leb_le in Hc.
  repeat split; try (apply N.eqb_neq; lia);
    try (apply eqb_byteOf_neq; vm_compute (byteOf "<"); vm_compute (byteOf "&"); lia).
  destruct Hq as [->| ->]; [reflexivity|].
  apply eqb_byteOf_neq. vm_compute (byteOf decoder.dquote). lia.
Qed.

Lemma textLoop_high (quote : option ascii) (X d r : string) (t : string) :
  printerQuote quote -> allb highByte t = true ->
  forall fuel,
  (forall b0 b1, decoder.textLoop fuel quote b0 b1 X = Ok (d, r)) ->
  forall b0 b1,
  decoder.textLoop (String.length t + fuel) quote b0 b1 (t ++ X) = Ok (t ++ d, r).
Proof.
  intros Hq. induction t as [|c t IH]; intros Hall fuel HX b0 b1.
  - apply HX.
  - cbn [allb] in Hall. apply andb_true_iff in Hall as [Hc Hall].
    destruct (highByte_raw c quote Hq Hc) as (H1 & H2 & H3 & H4 & H5 & H6).
    cbn [String.length Nat.add append].
    rewrite textLoop_raw by assumption.
    rewrite (IH Hall fuel HX). reflexivity.
Qed.

Lemma checkRunes_step (fuel : nat) (c : ascii) (t : string) (r : N) (w : nat) :
  utf8.DecodeRuneInString (String c t) = (r, w) ->
  decoder.checkRunes (S fuel) (String c t) = None ->
  xml.isInCharacterRange r = true
  /\ ((r =? 65533)%N && (w =? 1)%nat) = false
  /\ decoder.checkRunes fuel (drop w (String c t)) = None.
Proof.
  intros Hd. cbn [decoder.checkRunes]. rewrite Hd.
  change utf8.RuneError with 65533%N.
  destruct ((r =? 65533)%N && (w =? 1)%nat); [discriminate|].
  destruct (xml.isInCharacterRange r); [|discriminate].
  cbn [negb]. auto.
Qed.

Lemma ascii_of_byteOf (c : ascii) : ascii_of_N (byteOf c) = c.
Proof. apply ascii_N_embedding. Qed.

Lemma escapeOf_None_raw (c : ascii) (quote : option ascii) :
  printerQuote quote ->
  xml.escapeOf (byteOf c) 1 = None ->
  (byteOf c =? 62)%N = false /\ Ascii.eqb c "<" = false /\ Ascii.eqb c "&" = false
  /\ (byteOf c =? 13)%N = false /\ (byteOf c =? 10)%N = false
  /\ quoted quote c = false.
Proof.
  intros Hq. unfold xml.escapeOf.
  destruct (N.eqb_spec (byteOf c) 34) as [|N34]; [discriminate|].
  destruct (N.eqb_spec (byteOf c) 39) as [|N39]; [discriminate|].
  destruct (N.eqb_spec (byteOf c) 38) as [|N38]; [discriminate|].
  destruct (N.eqb_spec (byteOf c) 60) as [|N60]; [discriminate|].
  destruct (N.eqb_spec (byteOf c) 62) as [|N62]; [discriminate|].
  destruct (N.eqb_spec (byteOf c) 9) as [|N9]; [discriminate|].
  destruct (N.eqb_spec (byteOf c) 10) as [|N10]; [discriminate|].
  destruct (N.eqb_spec (byteOf c) 13) as [|N13]; [discriminate|].
  intros _. repeat split; try reflexivity;
    try (apply eqb_byteOf_neq; assumption).
  destruct Hq as [->| ->]; [reflexivity|]. apply eqb_byteOf_neq. assumption.
Qed.

(** The loop of [d.text] over an escaped text gives the text back, up to
    the terminator [term]. *)
Lemma textLoop_escapeLoop (quote : option ascii) (term : ascii) (rest after : string) :
  printerQuote quote ->
  (forall fuel b0 b1,
      decoder.textLoop (S fuel) quote b0 b1 (String term rest) = Ok ("", after)) ->
  forall ef s,
  (String.length s <= ef)%nat ->
  decoder.checkRunes ef s = None ->
  forall fuel b0 b1,
  (String.length (xml.escapeLoop ef s) < fuel)%nat ->
  decoder.textLoop fuel quote b0 b1 (xml.escapeLoop ef s ++ String term rest)
  = Ok (s, after).
Proof.
  intros Hq Hterm ef. induction ef as [|ef IH]; intros s Hlen Hok fuel b0 b1 Hfuel.
  - destruct s; [|cbn in Hlen; lia]. cbn [xml.escapeLoop append].
    destruct fuel; [cbn in Hfuel; lia|]. apply Hterm.
  - destruct s as [|c t].
    + cbn [xml.escapeLoop append]. destruct fuel; [cbn in Hfuel; lia|]. apply Hterm.
    + cbn [xml.escapeLoop] in *.
      destruct (utf8.DecodeRuneInString (String c t)) as [r w] eqn:Hd.
      destruct (checkRunes_step _ _ _ _ _ Hd Hok) as (Hr & Hw & Hrest).
      assert (Hdrop : (String.length (drop w (String c t)) <= ef)%nat).
      { rewrite length_drop.
        destruct (decode_cases _ _ _ Hd) as [[H _]|[(-> & _)|[(-> & _)|(Hw2 & _)]]];
          [discriminate| | |]; cbn [String.length] in *; lia. }
      destruct (xml.escapeOf r w) as [esc|] eqn:He.
      * destruct (reference_escape _ _ _ He (conj Hr Hw)) as (Hlt & e & -> & Href).
        destruct (decode_cases _ _ _ Hd)
          as [[H _]|[(-> & c1 & t1 & Hs & _ & Hrc)|[(-> & -> & _)|(Hw2 & _ & Hhigh)]]].
        -- discriminate.
        -- inversion Hs; subst c1 t1. subst r.
           destruct fuel as [|fuel]; [lia|].
           rewrite app_assoc. cbn [append]. rewrite textLoop_amp by assumption.
           rewrite Href, bind_Ok.
           cbn [drop] in *. rewrite ?drop_0 in *.
           rewrite IH; [|assumption|assumption|].
           ++ rewrite bind_Ok, ascii_of_byteOf. reflexivity.
           ++ cbn [append String.length] in Hfuel. rewrite length_app in Hfuel. lia.
        -- vm_compute in Hw. discriminate.
        -- pose proof (decode_wide _ _ _ Hd ltac:(lia)). lia.
      * destruct (decode_cases _ _ _ Hd)
          as [[H _]|[(-> & c1 & t1 & Hs & _ & Hrc)|[(-> & -> & _)|(Hw2 & Hlw & Hhigh)]]].
        -- discriminate.
        -- inversion Hs; subst c1 t1. subst r.
           destruct (escapeOf_None_raw c quote Hq He) as (H1 & H2 & H3 & H4 & H5 & H6).
           destruct fuel as [|fuel]; [lia|].
           cbn [take append]. rewrite ?take_0. cbn [append].
           rewrite textLoop_raw by assumption.
           cbn [drop] in *. rewrite ?drop_0 in *.
           rewrite IH; [reflexivity|assumption|assumption|].
           cbn [take append String.length] in Hfuel. rewrite ?take_0 in Hfuel.
           cbn [append String.length] in Hfuel. lia.
        -- vm_compute in Hw. discriminate.
        -- rewrite length_app in Hfuel.
           assert (Hlt : String.length (take w (String c t)) = w)
             by (rewrite length_take; lia).
           replace fuel with (String.length (take w (String c t))
                              + (fuel - w))%nat by lia.
           rewrite app_assoc.
           rewrite (textLoop_high quote _ (drop w (String c t)) after).
           ++ rewrite take_drop. reflexivity.
           ++ assumption.
           ++ assumption.
           ++ intros b0' b1'. apply IH; [assumption|assumption|lia].
Qed.

(** [d.text] on an escaped text. *)
Lemma text_escaped (quote : option ascii) (term : ascii) (rest after : string) (s : string) :
  printerQuote quote ->
  (forall fuel b0 b1,
      decoder.textLoop (S fuel) quote b0 b1 (String term rest) = Ok ("", after)) ->
  validText s = true ->
  decoder.text quote (xml.EscapeString s ++ String term rest) = Ok (s, after).
Proof.
  intros Hq Hterm Hv. unfold decoder.text, xml.EscapeString.
  unfold validText in Hv.
  destruct (decoder.checkRunes (String.length s) s) eqn:Hc; [discriminate|].
  rewrite (textLoop_escapeLoop quote term rest after Hq Hterm);
    [|lia|assumption|rewrite length_app; cbn [String.length]; lia].
  rewrite bind_Ok, Hc. reflexivity.
Qed.

Lemma text_value (s rest : string) :
  validText s = true ->
  decoder.text (Some decoder.dquote) (xml.EscapeString s ++ xml.quot ++ rest) = Ok (s, rest).
Proof.
  intros Hv. apply text_escaped; [right; reflexivity| |assumption].
  intros fuel b0 b1. cbn [decoder.textLoop].
  change (byteOf decoder.dquote =? 62)%N with false. rewrite andb_false_r.
  reflexivity.
Qed.

Lemma text_data (s rest : string) :
  validText s = true ->
  decoder.text None (xml.EscapeString s ++ String "<" rest) = Ok (s, String "<" rest).
Proof.
  intros Hv. apply text_escaped; [left; reflexivity| |assumption].
  intros fuel b0 b1. cbn [decoder.textLoop].
  change (byteOf "<" =? 62)%N with false. rewrite andb_false_r.
  reflexivity.
Qed.

(** ** The decoder on the tags the printer writes *)

(** A name the decoder reads back: ASCII, a name of XML, with one colon at
    most. *)
Definition nameOK (n : string) : bool :=
  negb (String.eqb n "")
  && allb decoder.isNameByte n
  && decoder.isASCII n
  && decoder.isName n
  && (strings.Count n ":" <=? 1)%nat.

Lemma readName_app (n rest : string) (c : ascii) :
  allb decoder.isNameByte n = true -> decoder.isNameByte c = false ->
  decoder.readName (n ++ String c rest) = (n, String c rest).
Proof.
  intros Hn Hc. induction n as [|x n IH]; cbn [append decoder.readName].
  - rewrite Hc. reflexivity.
  - cbn [allb] in Hn. apply andb_true_iff in Hn as [Hx Hn].
    rewrite Hx, (IH Hn). reflexivity.
Qed.

Lemma name_app (what n rest : string) (c : ascii) :
  nameOK n = true -> decoder.isNameByte c = false ->
  decoder.name what (n ++ String c rest) = Ok (n, String c rest).
Proof.
  unfold nameOK. intros H Hc.
  repeat (apply andb_true_iff in H; destruct H as [H ?]).
  unfold decoder.name. rewrite readName_app by assumption.
  apply negb_true_iff in H. rewrite H.
  match goal with H : decoder.isASCII n = true |- _ => rewrite H end.
  match goal with H : decoder.isName n = true |- _ => rewrite H end.
  reflexivity.
Qed.

Lemma nsname_app (what n rest : string) (c : ascii) :
  nameOK n = true -> decoder.isNameByte c = false ->
  decoder.nsname what (n ++ String c rest) = Ok (decoder.splitName n, String c rest).
Proof.
  intros H Hc. unfold decoder.nsname. rewrite name_app by assumption.
  rewrite bind_Ok. unfold nameOK in H.
  apply andb_true_iff in H as [_ H]. apply Nat.leb_le in H.
  destruct (1 <? strings.Count n ":")%nat eqn:E; [apply Nat.ltb_lt in E; lia|].
  reflexivity.
Qed.

(** The first byte of a name is none of the bytes that end the list of
    attributes or that [space] skips. *)
Lemma nameOK_head (n : string) :
  nameOK n = true ->
  exists c t, n = String c t /\ decoder.isNameStart c = true.
Proof.
  unfold nameOK. intros H.
  repeat (apply andb_true_iff in H; destruct H as [H ?]).
  destruct n as [|c t]; [discriminate|].
  exists c, t. split; [reflexivity|].
  match goal with H : decoder.isName _ = true |- _ =>
    cbn [decoder.isName] in H; apply andb_true_iff in H as [H _]; exact H end.
Qed.

Lemma isNameStart_cases (c : ascii) :
  decoder.isNameStart c = true ->
  Ascii.eqb c " " = false /\ Ascii.eqb c "013" = false /\ Ascii.eqb c "010" = false
  /\ Ascii.eqb c "009" = false /\ Ascii.eqb c "/" = false /\ Ascii.eqb c ">" = false
  /\ Ascii.eqb c "<" = false /\ Ascii.eqb c "?" = false /\ Ascii.eqb c "!" = false.
Proof.
  intros H. repeat split;
    match goal with
    | |- Ascii.eqb c ?x = false =>
        destruct (Ascii.eqb_spec c x) as [->|]; [vm_compute in H; discriminate|reflexivity]
    end.
Qed.

(** An attribute as the decoder returns it: the name split at its colon,
    the value unescaped. *)
Definition parsedAttr (a : xml.Attr) : xml.Attr :=
  {| xml.AttrName := decoder.splitName (xml.Local (xml.AttrName a));
     xml.Value := xml.Value a |}.

Definition attrParseOK (a : xml.Attr) : bool :=
  nameOK (xml.Local (xml.AttrName a)) && validText (xml.Value a).

Lemma attrText_cons (a : xml.Attr) :
  nameOK (xml.Local (xml.AttrName a)) = true ->
  xml.attrText a
  = " " ++ xml.Local (xml.AttrName a) ++ "=" ++ xml.quot
    ++ xml.EscapeString (xml.Value a) ++ xml.quot.
Proof.
  intros H. unfold xml.attrText.
  destruct (nameOK_head _ H) as (c & t & -> & _). reflexivity.
Qed.

Lemma space_nameStart (c : ascii) (t : string) :
  decoder.isNameStart c = true -> decoder.space (String c t) = String c t.
Proof.
  intros H. destruct (isNameStart_cases c H) as (E1 & E2 & E3 & E4 & _).
  cbn [decoder.space]. rewrite E1, E2, E3, E4. reflexivity.
Qed.

Lemma attributes_step (fuel : nat) (a : xml.Attr) (more : string) :
  attrParseOK a = true ->
  decoder.attributes (S fuel) (xml.attrText a ++ more)
  = decoder.bind (decoder.attributes fuel more)
      (fun x => match x with
                | (attrs, empty, rest) => Ok (parsedAttr a :: attrs, empty, rest)
                end).
Proof.
  unfold attrParseOK. intros H. apply andb_true_iff in H as [Hn Hv].
  rewrite attrText_cons by assumption.
  destruct (nameOK_head _ Hn) as (c & t & Hc & Hs).
  destruct (isNameStart_cases c Hs) as (E1 & E2 & E3 & E4 & E5 & E6 & _).
  cbn [decoder.attributes]. strassoc.
  change (decoder.space (String " " ?x)) with (decoder.space x).
  rewrite Hc at 1. cbn [append]. rewrite space_nameStart by assumption.
  rewrite E5, E6.
  change (String c (t ++ ?x)) with (String c t ++ x). rewrite <- Hc.
  rewrite (nsname_app _ _ _ "=") by (assumption || reflexivity).
  rewrite bind_Ok.
  unfold xml.quot at 1. cbn [append decoder.space Ascii.eqb Bool.eqb orb].
  change (String "034" "") with xml.quot.
  change (Some "034"%char) with (Some decoder.dquote).
  rewrite (text_value _ _ Hv), bind_Ok. reflexivity.
Qed.

Lemma attributes_attrs (attrs : list xml.Attr) (close : bool) (rest : string) :
  forallb attrParseOK attrs = true ->
  forall fuel, (List.length attrs < fuel)%nat ->
  decoder.attributes fuel
    (xml.attrsText attrs ++ (if close then "/>" else ">") ++ rest)
  = Ok (map parsedAttr attrs, close, rest).
Proof.
  induction attrs as [|a attrs IH]; intros Hok fuel Hfuel.
  - destruct fuel; [cbn in Hfuel; lia|]. destruct close; reflexivity.
  - cbn [forallb] in Hok. apply andb_true_iff in Hok as [Ha Hok].
    destruct fuel; [cbn in Hfuel; lia|].
    unfold xml.attrsText. cbn [map concatAll]. rewrite app_assoc.
    rewrite attributes_step by assumption.
    fold (xml.attrsText attrs). rewrite IH; [reflexivity|assumption|cbn in Hfuel; lia].
Qed.

Lemma length_attrsText (attrs : list xml.Attr) :
  forallb attrParseOK attrs = true ->
  (List.length attrs <= String.length (xml.attrsText attrs))%nat.
Proof.
  induction attrs as [|a attrs IH]; intros Hok; [cbn; lia|].
  cbn [forallb] in Hok. apply andb_true_iff in Hok as [Ha Hok].
  unfold xml.attrsText. cbn [map concatAll]. rewrite length_app.
  fold (xml.attrsText attrs). specialize (IH Hok).
  unfold attrParseOK in Ha. apply andb_true_iff in Ha as [Hn _].
  rewrite attrText_cons by assumption. cbn [append String.length List.length]. lia.
Qed.

(** The white space between two tags. *)
Lemma textLoop_indentation (d : nat) (rest : string) : forall fuel b0 b1,
  (String.length (xml.indentation d) < fuel)%nat ->
  decoder.textLoop fuel None b0 b1 (xml.indentation d ++ String "<" rest)
  = Ok (xml.indentation d, String "<" rest).
Proof.
  induction d as [|d IH]; intros fuel b0 b1 Hfuel.
  - destruct fuel; [cbn in Hfuel; lia|]. cbn [xml.indentation append decoder.textLoop].
    change (byteOf "<" =? 62)%N with false. rewrite andb_false_r. reflexivity.
  - cbn [xml.indentation append String.length] in *.
    destruct fuel as [|[|fuel]]; try lia.
    rewrite textLoop_raw by reflexivity.
    rewrite textLoop_raw by reflexivity.
    rewrite IH by lia. reflexivity.
Qed.

Lemma checkRunes_indentation (d : nat) : forall fuel,
  decoder.checkRunes fuel (xml.indentation d) = None.
Proof.
  induction d as [|d IH]; intros fuel.
  - destruct fuel; reflexivity.
  - destruct fuel as [|[|fuel]]; try reflexivity.
    cbn [xml.indentation append]. 
    change (decoder.checkRunes (S (S fuel)) (String " " (String " " (xml.indentation d))))
      with (decoder.checkRunes fuel (xml.indentation d)).
    apply IH.
Qed.

Lemma textLoop_nl (fuel : nat) (b0 : N) (s : string) :
  decoder.textLoop (S fuel) None b0 0 (String "010" s)
  = decoder.bind (decoder.textLoop fuel None 0 10 s)
      (fun x => match x with (data, rest') => Ok (String "010" data, rest') end).
Proof.
  cbn [decoder.textLoop].
  change (byteOf "010" =? 62)%N with false. rewrite andb_false_r.
  reflexivity.
Qed.

Lemma text_space (d : nat) (rest : string) :
  decoder.text None (xml.nl ++ xml.indentation d ++ String "<" rest)
  = Ok (xml.nl ++ xml.indentation d, String "<" rest).
Proof.
  unfold decoder.text. cbn [xml.nl append String.length].
  rewrite textLoop_nl.
  rewrite textLoop_indentation by (rewrite length_app; cbn [String.length]; lia).
  rewrite !bind_Ok. cbn [String.length].
  change (decoder.checkRunes (S (String.length (xml.indentation d)))
            (String "010" (xml.indentation d)))
    with (decoder.checkRunes (String.length (xml.indentation d)) (xml.indentation d)).
  rewrite checkRunes_indentation. reflexivity.
Qed.

(** ** The decoder on the lines of a printed tree *)

(** What follows the [<] of an element printed at depth [d], with the
    empty elements closed in their start tag: the text of the lines of the
    element, without the indentation of the first and the line end of the
    last. *)
Fixpoint tagBody (d : nat) (n : xml.Node) : string :=
  match n with
  | xml.CharData _ => ""
  | xml.Element name attrs children =>
      name ++ xml.attrsText attrs
      ++ match children with
         | [] => "/>"
         | [xml.CharData data] =>
             if String.eqb data "" then "/>"
             else ">" ++ xml.EscapeString data ++ closeTag name
         | _ =>
             ">"
             ++ concatAll (map (fun k => xml.nl ++ xml.indentation (S d)
                                         ++ "<" ++ tagBody (S d) k) children)
             ++ xml.nl ++ xml.indentation d ++ closeTag name
         end
  end.

(** The tree the decoder builds from these lines: the white space between
    the tags is character data. *)
Fixpoint treeOf (d : nat) (n : xml.Node) : decoder.Tree :=
  match n with
  | xml.CharData data => decoder.Text data
  | xml.Element name attrs children =>
      decoder.Elem (decoder.splitName name) (map parsedAttr attrs)
        match children with
        | [] => []
        | [xml.CharData data] =>
            if String.eqb data "" then [] else [decoder.Text data]
        | _ =>
            (flat_map (fun k => [decoder.Text (xml.nl ++ xml.indentation (S d));
                                 treeOf (S d) k]) children
             ++ [decoder.Text (xml.nl ++ xml.indentation d)])%list
        end
  end.

Fixpoint parseOK (n : xml.Node) : bool :=
  match n with
  | xml.CharData data => validText data
  | xml.Element name attrs children =>
      nameOK name && forallb attrParseOK attrs && forallb parseOK children
  end.

Definition lineEnd (l : Line) : string := collapsed l ++ xml.nl.

Lemma collapsed_leaf (d : nat) (name : string) (attrs : list xml.Attr) (data : string) :
  collapsed (LLeaf d name attrs data)
  = xml.indentation d ++ "<" ++ name ++ xml.attrsText attrs
    ++ (if String.eqb data "" then "/>"
        else ">" ++ xml.EscapeString data ++ closeTag name).
Proof.
  destruct data as [|c data]; [reflexivity|].
  cbn [collapsed lineText String.eqb]. unfold openTag. strassoc.
Qed.

Lemma concat_flat_map {A : Type} (f : A -> list Line) (l : list A) :
  concatAll (map lineEnd (flat_map f l))
  = concatAll (map (fun x => concatAll (map lineEnd (f x))) l).
Proof.
  induction l as [|x l IH]; [reflexivity|].
  cbn [flat_map map concatAll]. rewrite map_app, concatAll_app, IH. reflexivity.
Qed.

Lemma shift_nl {A : Type} (f : A -> string) (xs : list A) (tail : string) :
  xml.nl ++ concatAll (map (fun x => f x ++ xml.nl) xs) ++ tail
  = concatAll (map (fun x => xml.nl ++ f x) xs) ++ xml.nl ++ tail.
Proof.
  induction xs as [|x xs IH]; [reflexivity|].
  cbn [map concatAll]. rewrite !app_assoc. rewrite <- IH. strassoc.
Qed.

Lemma map_ext_in' {A B : Type} (f g : A -> B) (l : list A) :
  (forall x, In x l -> f x = g x) -> map f l = map g l.
Proof.
  induction l as [|x l IH]; intros H; [reflexivity|].
  cbn [map]. rewrite H by (left; reflexivity). rewrite IH; [reflexivity|].
  intros y Hy. apply H. right. exact Hy.
Qed.

(** The lines of an element, rewritten or not, spell its tag body. *)
Lemma lines_tagBody (n : xml.Node) :
  isElement n = true -> wellShaped n = true ->
  forall d,
  concatAll (map lineEnd (nodeLines d n))
  = xml.indentation d ++ "<" ++ tagBody d n ++ xml.nl.
Proof.
  induction n as [name attrs kids IH|data] using Node_ind'; [|discriminate].
  intros _ Hw d.
  destruct kids as [|k kids].
  { cbn [nodeLines map concatAll tagBody]. unfold lineEnd.
    rewrite collapsed_leaf. cbn [String.eqb]. strassoc. }
  destruct k as [kname kattrs kkids|data].
  2:{ destruct kids as [|k2 kids].
      - cbn [nodeLines map concatAll tagBody]. unfold lineEnd.
        rewrite collapsed_leaf. destruct (String.eqb data ""); strassoc.
      - cbn in Hw. discriminate. }
  assert (Hk : forallb isElement (xml.Element kname kattrs kkids :: kids) = true
               /\ forallb wellShaped (xml.Element kname kattrs kkids :: kids) = true).
  { cbn [wellShaped] in Hw. destruct kids; apply andb_true_iff in Hw; exact Hw. }
  destruct Hk as [He Hs].
  change (nodeLines d (xml.Element name attrs (xml.Element kname kattrs kkids :: kids)))
    with (LOpen d name attrs
          :: flat_map (nodeLines (S d)) (xml.Element kname kattrs kkids :: kids)
             ++ [LClose d name])%list.
  change (tagBody d (xml.Element name attrs (xml.Element kname kattrs kkids :: kids)))
    with (name ++ xml.attrsText attrs ++ ">"
          ++ concatAll (map (fun k => xml.nl ++ xml.indentation (S d)
                                      ++ "<" ++ tagBody (S d) k)
                          (xml.Element kname kattrs kkids :: kids))
          ++ xml.nl ++ xml.indentation d ++ closeTag name).
  remember (xml.Element kname kattrs kkids :: kids) as ks eqn:Hks.
  cbn [map concatAll]. rewrite map_app, concatAll_app, concat_flat_map.
  rewrite (map_ext_in' _ (fun k => (xml.indentation (S d) ++ "<" ++ tagBody (S d) k) ++ xml.nl)).
  2:{ intros k Hin. rewrite (IH k Hin).
      - strassoc.
      - rewrite forallb_forall in He. apply He. exact Hin.
      - rewrite forallb_forall in Hs. apply Hs. exact Hin. }
  cbn [map concatAll]. unfold lineEnd at 1 2. cbn [collapsed lineText].
  unfold openTag. strassoc.
  do 3 f_equal.
  rewrite (shift_nl (fun k => xml.indentation (S d) ++ "<" ++ tagBody (S d) k)).
  strassoc.
Qed.

Lemma afterName (attrs : list xml.Attr) (close : bool) (X : string) :
  forallb attrParseOK attrs = true ->
  exists c Y,
    xml.attrsText attrs ++ (if close then "/>" else ">") ++ X = String c Y
    /\ decoder.isNameByte c = false.
Proof.
  destruct attrs as [|a attrs]; intros H.
  - destruct close; eexists; eexists; (split; [reflexivity|reflexivity]).
  - cbn [forallb] in H. apply andb_true_iff in H as [Ha _].
    unfold attrParseOK in Ha. apply andb_true_iff in Ha as [Hn _].
    unfold xml.attrsText. cbn [map concatAll]. rewrite attrText_cons by assumption.
    eexists; eexists; split; [strassoc|reflexivity].
Qed.

Lemma sameName_refl (n : xml.Name) : decoder.sameName n n = true.
Proof. unfold decoder.sameName. rewrite !String.eqb_refl. reflexivity. Qed.

Lemma endTag_close (name rest : string) :
  nameOK name = true ->
  decoder.endTag (decoder.splitName name) (name ++ ">" ++ rest) = Ok rest.
Proof.
  intros H. unfold decoder.endTag.
  cbn [append]. rewrite (nsname_app _ _ _ ">") by (assumption || reflexivity).
  rewrite bind_Ok. cbn [decoder.space Ascii.eqb Bool.eqb orb].
  rewrite sameName_refl. reflexivity.
Qed.

Lemma content_text (fuel : nat) (parent : xml.Name) (c : ascii) (s : string) :
  Ascii.eqb c "<" = false ->
  decoder.content (S fuel) parent (String c s)
  = decoder.bind (decoder.text None (String c s))
      (fun x => match x with
                | (data, s1) =>
                    decoder.bind (decoder.content fuel parent s1)
                      (fun y => match y with
                                | (more, s2) => Ok (decoder.Text data :: more, s2)
                                end)
                end).
Proof. intros H. cbn [decoder.content]. rewrite H. reflexivity. Qed.

Lemma content_end (fuel : nat) (parent : xml.Name) (s : string) :
  decoder.content (S fuel) parent (String "<" (String "/" s))
  = decoder.bind (decoder.endTag parent s) (fun s3 => Ok ([], s3)).
Proof. reflexivity. Qed.

Lemma content_element (fuel : nat) (parent : xml.Name) (c : ascii) (s : string) :
  decoder.isNameStart c = true ->
  decoder.content (S fuel) parent (String "<" (String c s))
  = decoder.bind (decoder.element fuel (String c s))
      (fun x => match x with
                | (e, s2) =>
                    decoder.bind (decoder.content fuel parent s2)
                      (fun y => match y with
                                | (more, s3) => Ok (e :: more, s3)
                                end)
                end).
Proof.
  intros H. destruct (isNameStart_cases c H) as (_ & _ & _ & _ & E5 & _ & _ & E8 & E9).
  cbn [decoder.content]. change (Ascii.eqb "<" "<") with true. cbv iota.
  rewrite E5, E8, E9. reflexivity.
Qed.

Lemma nl_head (s : string) : xml.nl ++ s = String "010" s.
Proof. reflexivity. Qed.

Lemma content_close (fuel d : nat) (name rest : string) :
  nameOK name = true ->
  decoder.content (S (S fuel)) (decoder.splitName name)
    (xml.nl ++ xml.indentation d ++ closeTag name ++ rest)
  = Ok ([decoder.Text (xml.nl ++ xml.indentation d)], rest).
Proof.
  intros H. unfold closeTag.
  replace (xml.nl ++ xml.indentation d ++ ("</" ++ name ++ ">") ++ rest)
    with (xml.nl ++ xml.indentation d ++ String "<" ("/" ++ name ++ ">" ++ rest))
    by strassoc.
  rewrite nl_head, content_text by reflexivity.
  rewrite <- nl_head, text_space, bind_Ok.
  cbn [append]. rewrite content_end.
  change (String ">" rest) with (">" ++ rest).
  rewrite endTag_close by assumption. reflexivity.
Qed.

Lemma element_start (fuel : nat) (name : string) (attrs : list xml.Attr)
  (close : bool) (X : string) :
  nameOK name = true -> forallb attrParseOK attrs = true ->
  decoder.element (S fuel)
    (name ++ xml.attrsText attrs ++ (if close then "/>" else ">") ++ X)
  = if close
    then Ok (decoder.Elem (decoder.splitName name) (map parsedAttr attrs) [], X)
    else decoder.bind (decoder.content fuel (decoder.splitName name) X)
           (fun x => match x with
                     | (kids, s3) =>
                         Ok (decoder.Elem (decoder.splitName name)
                               (map parsedAttr attrs) kids, s3)
                     end).
Proof.
  intros Hn Ha. cbn [decoder.element].
  destruct (afterName attrs close X Ha) as (c & Y & Heq & Hc).
  rewrite Heq. rewrite nsname_app by assumption. rewrite bind_Ok, <- Heq.
  rewrite attributes_attrs.
  - rewrite bind_Ok. destruct close; reflexivity.
  - assumption.
  - pose proof (length_attrsText attrs Ha). rewrite length_app. lia.
Qed.

Lemma escaped_head (data : string) :
  data <> "" ->
  exists c t, xml.EscapeString data = String c t /\ Ascii.eqb c "<" = false.
Proof.
  intros H. pose proof (EscapeString_nonempty data H) as Hne.
  pose proof (EscapeString_lacks "<" data eq_refl) as Hl.
  destruct (xml.EscapeString data) as [|c t]; [congruence|].
  exists c, t. split; [reflexivity|]. now apply lacks_head in Hl.
Qed.

Definition kidsText (d : nat) (kids : list xml.Node) : string :=
  concatAll (map (fun k => xml.nl ++ xml.indentation (S d) ++ "<" ++ tagBody (S d) k) kids).

Definition kidsTrees (d : nat) (kids : list xml.Node) : list decoder.Tree :=
  flat_map (fun k => [decoder.Text (xml.nl ++ xml.indentation (S d)); treeOf (S d) k]) kids.

Definition parsesBack (n : xml.Node) : Prop :=
  isElement n = true -> wellShaped n = true -> parseOK n = true ->
  forall d fuel rest,
  (String.length (tagBody d n) < fuel)%nat ->
  decoder.element fuel (tagBody d n ++ rest) = Ok (treeOf d n, rest).

Lemma tagBody_head (d : nat) (n : xml.Node) :
  isElement n = true -> parseOK n = true ->
  exists c t, tagBody d n = String c t /\ decoder.isNameStart c = true.
Proof.
  destruct n as [name attrs kids|data]; [|discriminate]. intros _ H.
  cbn [parseOK] in H. apply andb_true_iff in H as [H _].
  apply andb_true_iff in H as [H _].
  destruct (nameOK_head _ H) as (c & t & -> & Hc).
  cbn [tagBody append]. eauto.
Qed.

Lemma content_children (d : nat) (name : string) (kids : list xml.Node) :
  nameOK name = true ->
  (forall k, In k kids -> parsesBack k) ->
  forallb isElement kids = true -> forallb wellShaped kids = true ->
  forallb parseOK kids = true ->
  forall fuel rest,
  (String.length (kidsText d kids ++ xml.nl ++ xml.indentation d ++ closeTag name) < fuel)%nat ->
  decoder.content fuel (decoder.splitName name)
    (kidsText d kids ++ xml.nl ++ xml.indentation d ++ closeTag name ++ rest)
  = Ok ((kidsTrees d kids ++ [decoder.Text (xml.nl ++ xml.indentation d)])%list, rest).
Proof.
  intros Hn. induction kids as [|k kids IH]; intros Hback He Hw Hp fuel rest Hfuel.
  - cbn [kidsText kidsTrees map concatAll flat_map append List.app] in *.
    destruct fuel as [|[|fuel]];
      try (rewrite ?length_app in Hfuel; cbn [xml.nl closeTag String.length append] in Hfuel; lia).
    apply content_close. assumption.
  - cbn [forallb] in He, Hw, Hp.
    apply andb_true_iff in He as [Hek He].
    apply andb_true_iff in Hw as [Hwk Hw].
    apply andb_true_iff in Hp as [Hpk Hp].
    unfold kidsText, kidsTrees in *. cbn [map concatAll flat_map] in *.
    fold (kidsText d kids) in *. fold (kidsTrees d kids) in *.
    rewrite ?length_app in Hfuel.
    cbn [xml.nl append String.length] in Hfuel. rewrite ?length_app in Hfuel.
    cbn [String.length] in Hfuel.
    destruct (tagBody_head (S d) k Hek Hpk) as (c & t & Hb & Hc).
    destruct fuel as [|[|fuel]]; try lia.
    replace ((xml.nl ++ xml.indentation (S d) ++ "<" ++ tagBody (S d) k)
             ++ kidsText d kids)
      with (xml.nl ++ xml.indentation (S d)
            ++ String "<" (tagBody (S d) k ++ kidsText d kids))
      by strassoc.
    rewrite !app_assoc. rewrite nl_head, content_text by reflexivity.
    rewrite <- nl_head.
    change (String "<" (tagBody (S d) k ++ kidsText d kids)
            ++ xml.nl ++ xml.indentation d ++ closeTag name ++ rest)
      with (String "<" ((tagBody (S d) k ++ kidsText d kids)
                        ++ xml.nl ++ xml.indentation d ++ closeTag name ++ rest)).
    rewrite text_space, bind_Ok.
    rewrite app_assoc. rewrite Hb at 1. cbn [append].
    rewrite content_element by assumption.
    change (String c (t ++ ?x)) with (String c t ++ x). rewrite <- Hb.
    rewrite (Hback k (or_introl eq_refl) Hek Hwk Hpk) by lia.
    rewrite bind_Ok.
    rewrite IH.
    + rewrite bind_Ok. reflexivity.
    + intros k' Hin. apply Hback. right. exact Hin.
    + assumption.
    + assumption.
    + assumption.
    + rewrite ?length_app. cbn [xml.nl String.length append]. rewrite ?length_app. lia.
Qed.

Lemma element_tagBody (n : xml.Node) : parsesBack n.
Proof.
  induction n as [name attrs kids IH|data] using Node_ind'; [|discriminate].
  intros _ Hw Hp d fuel rest Hfuel.
  cbn [parseOK] in Hp. apply andb_true_iff in Hp as [Hp Hkids].
  apply andb_true_iff in Hp as [Hname Hattrs].
  destruct fuel as [|fuel]; [lia|].
  destruct kids as [|k kids].
  { cbn [tagBody treeOf]. rewrite !app_assoc.
    apply (element_start fuel name attrs true rest); assumption. }
  destruct k as [kname kattrs kkids|data].
  2:{ destruct kids as [|k2 kids]; [|cbn in Hw; discriminate].
      cbn [tagBody treeOf].
      destruct (String.eqb_spec data "") as [->|Hne].
      - rewrite !app_assoc.
        apply (element_start fuel name attrs true rest); assumption.
      - cbn [forallb parseOK] in Hkids. rewrite andb_true_r in Hkids.
        rewrite !app_assoc.
        rewrite (element_start fuel name attrs false) by assumption.
        cbn [tagBody] in Hfuel. rewrite (proj2 (String.eqb_neq _ _) Hne) in Hfuel.
        unfold closeTag in Hfuel.
        rewrite ?length_app in Hfuel. cbn [append String.length] in Hfuel.
        rewrite ?length_app in Hfuel.
        destruct (escaped_head data Hne) as (c & t & Hesc & Hc).
        destruct fuel as [|[|fuel]]; try lia.
        rewrite Hesc at 1. cbn [append]. rewrite content_text by assumption.
        change (String c (t ++ ?x)) with (String c t ++ x). rewrite <- Hesc.
        unfold closeTag. 
        replace (("</" ++ name ++ ">") ++ rest)
          with (String "<" (String "/" (name ++ ">" ++ rest))) by strassoc.
        rewrite text_data by assumption. rewrite bind_Ok. cbv beta match.
        rewrite content_end, endTag_close by assumption.
        reflexivity. }
  assert (Hk : forallb isElement (xml.Element kname kattrs kkids :: kids) = true
               /\ forallb wellShaped (xml.Element kname kattrs kkids :: kids) = true).
  { cbn [wellShaped] in Hw. destruct kids; apply andb_true_iff in Hw; exact Hw. }
  destruct Hk as [He Hs].
  change (tagBody d (xml.Element name attrs (xml.Element kname kattrs kkids :: kids)))
    with (name ++ xml.attrsText attrs ++ ">"
          ++ kidsText d (xml.Element kname kattrs kkids :: kids)
          ++ xml.nl ++ xml.indentation d ++ closeTag name) in *.
  change (treeOf d (xml.Element name attrs (xml.Element kname kattrs kkids :: kids)))
    with (decoder.Elem (decoder.splitName name) (map parsedAttr attrs)
            (kidsTrees d (xml.Element kname kattrs kkids :: kids)
             ++ [decoder.Text (xml.nl ++ xml.indentation d)])%list).
  remember (xml.Element kname kattrs kkids :: kids) as ks eqn:Hks.
  rewrite !app_assoc.
  rewrite (element_start fuel name attrs false) by assumption.
  rewrite ?length_app in Hfuel. cbn [append String.length] in Hfuel.
  rewrite ?length_app in Hfuel.
  rewrite content_children; try assumption.
  - reflexivity.
  - rewrite !length_app. lia.
Qed.

Lemma instruction_app (a rest : string) :
  lacks "?" a = true ->
  decoder.instruction (a ++ "?>" ++ rest) = Ok (a, rest).
Proof.
  intros H. unfold decoder.instruction.
  rewrite (indexOf_skip "?" ">" a _ H).
  rewrite (indexOf_head ("?>" ++ rest) "?>") by apply HasPrefix_app.
  cbn [option_map]. rewrite Nat.add_0_r, take_app_length.
  replace (String.length a + 2)%nat with (String.length (a ++ "?>"))
    by (rewrite length_app; reflexivity).
  rewrite <- (app_assoc a "?>" rest), drop_app_length. reflexivity.
Qed.

Lemma processing_header (rest : string) :
  decoder.processing
    ("xml version=" ++ xml.quot ++ "1.0" ++ xml.quot
     ++ " encoding=" ++ xml.quot ++ "utf-8" ++ xml.quot ++ "?>" ++ rest)
  = Ok rest.
Proof.
  unfold decoder.processing.
  assert (Hn : decoder.name "expected target name after <?"
                 ("xml version=" ++ xml.quot ++ "1.0" ++ xml.quot
                  ++ " encoding=" ++ xml.quot ++ "utf-8" ++ xml.quot ++ "?>" ++ rest)
               = Ok ("xml", " " ++ ("version=" ++ xml.quot ++ "1.0" ++ xml.quot
                      ++ " encoding=" ++ xml.quot ++ "utf-8" ++ xml.quot)
                      ++ "?>" ++ rest)) by reflexivity.
  rewrite Hn, bind_Ok. cbv beta match.
  change (decoder.space (" " ++ ?x)) with (decoder.space x).
  assert (Hs : forall x, decoder.space
                 (("version=" ++ xml.quot ++ "1.0" ++ xml.quot
                   ++ " encoding=" ++ xml.quot ++ "utf-8" ++ xml.quot) ++ x)
               = ("version=" ++ xml.quot ++ "1.0" ++ xml.quot
                  ++ " encoding=" ++ xml.quot ++ "utf-8" ++ xml.quot) ++ x)
    by reflexivity.
  rewrite Hs, instruction_app by reflexivity.
  reflexivity.
Qed.

(** The decoder on a document: the declaration, a line end, and the lines
    of the root element. *)
Lemma document_lines (n : xml.Node) :
  isElement n = true -> wellShaped n = true -> parseOK n = true ->
  decoder.document
    ((xmlHeader ++ xml.nl) ++ concatAll (map lineEnd (nodeLines 0 n)))
  = Ok (treeOf 0 n).
Proof.
  intros He Hw Hp. rewrite lines_tagBody by assumption.
  unfold decoder.document.
  remember (String.length ((xmlHeader ++ xml.nl)
                           ++ xml.indentation 0 ++ "<" ++ tagBody 0 n ++ xml.nl)) as len eqn:Hlen.
  assert (Hbig : (String.length (tagBody 0 n) + 4 < len)%nat).
  { subst len. rewrite !length_app.
    assert (Hh : String.length xmlHeader = 38%nat) by reflexivity. rewrite Hh.
    cbn [xml.indentation xml.nl String.length append].
    rewrite ?length_app. cbn [String.length]. lia. }
  destruct len as [|[|[|len]]]; try lia.
  unfold xmlHeader. cbn [xml.indentation].
  replace ((("<?xml version=" ++ xml.quot ++ "1.0" ++ xml.quot
             ++ " encoding=" ++ xml.quot ++ "utf-8" ++ xml.quot ++ "?>") ++ xml.nl)
           ++ EmptyString ++ "<" ++ tagBody 0 n ++ xml.nl)
    with (String "<" (String "?"
            ("xml version=" ++ xml.quot ++ "1.0" ++ xml.quot
             ++ " encoding=" ++ xml.quot ++ "utf-8" ++ xml.quot ++ "?>"
             ++ xml.nl ++ xml.indentation 0 ++ String "<" (tagBody 0 n ++ xml.nl))))
    by strassoc.
  cbn [decoder.prolog Ascii.eqb Bool.eqb]. cbv beta match.
  rewrite processing_header, bind_Ok.
  rewrite nl_head. cbn [Ascii.eqb Bool.eqb]. cbv beta match.
  rewrite <- nl_head, text_space, bind_Ok. cbv beta match.
  destruct (tagBody_head 0 n He Hp) as (c & t & Hb & Hc).
  destruct (isNameStart_cases c Hc) as (_ & _ & _ & _ & E5 & _ & E7 & E8 & E9).
  rewrite Hb at 1. cbn [append]. rewrite E5, E8, E9.
  change (Ascii.eqb "<" "<") with true. cbv match.
  rewrite (element_tagBody n He Hw Hp).
  - reflexivity.
  - rewrite length_app. lia.
Qed.

(** ** Replacements in a text cut at delimiters *)

(** The bytes that separate the words of a tag: none of them occurs in a
    marker of the rewrite rules. *)
Definition delim (c : ascii) : bool :=
  existsb (Ascii.eqb c) [" "; "034"; "<"; ">"; "/"; "010"]%char.

(** A pattern without delimiter. *)
Definition free (pat : string) : bool := allb (fun c => negb (delim c)) pat.

(** A piece of text that is empty or starts with a delimiter. *)
Definition delimited (s : string) : bool :=
  match s with
  | EmptyString => true
  | String c _ => delim c
  end.

Lemma delimited_concat (ps : list string) :
  forallb delimited ps = true -> delimited (concatAll ps) = true.
Proof.
  induction ps as [|p ps IH]; intros H; [reflexivity|].
  cbn [forallb] in H. apply andb_true_iff in H as [Hp Hps].
  cbn [concatAll]. destruct p as [|c p]; [apply IH; assumption|exact Hp].
Qed.

Lemma take_app_le (i : nat) (p r : string) :
  (i <= String.length p)%nat -> take i (p ++ r) = take i p.
Proof.
  revert i. induction p as [|c p IH]; intros i Hi.
  - cbn in Hi. replace i with 0%nat by lia. rewrite !take_0. reflexivity.
  - destruct i as [|i]; [reflexivity|]. cbn [append take]. rewrite IH; [reflexivity|].
    cbn in Hi. lia.
Qed.

Lemma drop_app_le (i : nat) (p r : string) :
  (i <= String.length p)%nat -> drop i (p ++ r) = drop i p ++ r.
Proof.
  revert i. induction p as [|c p IH]; intros i Hi.
  - cbn in Hi. replace i with 0%nat by lia. rewrite !drop_0. reflexivity.
  - destruct i as [|i]; [reflexivity|]. cbn [append drop]. apply IH. cbn in Hi. lia.
Qed.

(** An occurrence of a free pattern in [p ++ r], [r] delimited, lies in
    [p] or in [r]. *)
Lemma occursAt_split (p r pat : string) (i : nat) :
  free pat = true -> pat <> "" -> delimited r = true ->
  occursAt (p ++ r) pat i ->
  occursAt p pat i
  \/ exists j, i = (String.length p + j)%nat /\ occursAt r pat j.
Proof.
  intros Hfree Hne Hr (a & b & Heq & Hlen).
  destruct (app_eq_app _ _ _ _ Heq) as [(e & Ha & Hr')|(e & Hp & Hb)].
  - right. exists (String.length e). split.
    + rewrite <- Hlen, Ha, length_app. reflexivity.
    + exists e, b. split; [exact Hr'|reflexivity].
  - symmetry in Hb. destruct (app_eq_app _ _ _ _ Hb) as [(f & Hpat & Hrf)|(f & He & Hbf)].
    + (* pat = e ++ f, r = f ++ b *)
      destruct f as [|c f].
      * left. exists a, "". rewrite app_nil_r in Hpat. subst e.
        split; [rewrite app_nil_r; exact Hp|exact Hlen].
      * exfalso. cbn [append] in Hrf. subst r. cbn [delimited] in Hr.
        subst pat. unfold free in Hfree. rewrite allb_app in Hfree.
        apply andb_true_iff in Hfree as [_ Hf]. cbn [allb] in Hf.
        rewrite Hr in Hf. discriminate.
    + left. exists a, f. split; [|exact Hlen]. rewrite Hp, He. strassoc.
Qed.

Lemma indexOf_split_delim (p r pat : string) :
  free pat = true -> pat <> "" -> delimited r = true ->
  strings.indexOf (p ++ r) pat
  = match strings.indexOf p pat with
    | Some i => Some i
    | None => option_map (Nat.add (String.length p)) (strings.indexOf r pat)
    end.
Proof.
  intros Hfree Hne Hr.
  destruct (strings.indexOf p pat) as [i|] eqn:Hp.
  - destruct (indexOf_sound _ _ _ Hp) as [Hocc Hmin].
    pose proof (indexOf_length _ _ _ Hp) as Hlen.
    apply indexOf_first; [now apply occursAt_app_l|].
    intros j Hj Hoccj.
    destruct (occursAt_split _ _ _ _ Hfree Hne Hr Hoccj) as [H|(k & -> & _)].
    + exact (Hmin j Hj H).
    + destruct pat; [congruence|]. cbn [String.length] in Hlen. lia.
  - pose proof (proj1 (indexOf_None _ _) Hp) as Hno.
    destruct (strings.indexOf r pat) as [j|] eqn:Hrr; cbn [option_map].
    + destruct (indexOf_sound _ _ _ Hrr) as [Hocc Hmin].
      apply indexOf_first; [now apply occursAt_app_r|].
      intros k Hk Hocck.
      destruct (occursAt_split _ _ _ _ Hfree Hne Hr Hocck) as [H|(k' & -> & H)].
      * exact (Hno k H).
      * apply (Hmin k'); [lia|exact H].
    + apply indexOf_None. intros k Hocck.
      destruct (occursAt_split _ _ _ _ Hfree Hne Hr Hocck) as [H|(k' & -> & H)].
      * exact (Hno k H).
      * exact (proj1 (indexOf_None _ _) Hrr k' H).
Qed.

Lemma Contains_indexOf (s pat : string) :
  strings.Contains s pat
  = match strings.indexOf s pat with Some _ => true | None => false end.
Proof.
  destruct (strings.indexOf s pat) eqn:H.
  - apply Contains_true. exists n. now apply indexOf_sound in H.
  - now apply Contains_false.
Qed.

Lemma Contains_app_delim (p r pat : string) :
  free pat = true -> pat <> "" -> delimited r = true ->
  strings.Contains (p ++ r) pat = strings.Contains p pat || strings.Contains r pat.
Proof.
  intros Hfree Hne Hr. rewrite !Contains_indexOf, indexOf_split_delim by assumption.
  destruct (strings.indexOf p pat); [reflexivity|].
  destruct (strings.indexOf r pat); reflexivity.
Qed.

(** G1: a free pattern occurs in a text cut into delimited pieces when it
    occurs in one of the pieces. *)
Lemma Contains_pieces (pat : string) (ps : list string) :
  free pat = true -> pat <> "" -> forallb delimited ps = true ->
  strings.Contains (concatAll ps) pat = existsb (fun p => strings.Contains p pat) ps.
Proof.
  intros Hfree Hne. induction ps as [|p ps IH]; intros Hd.
  - cbn [concatAll existsb]. apply Contains_false. destruct pat; [congruence|reflexivity].
  - cbn [forallb] in Hd. apply andb_true_iff in Hd as [_ Hps].
    cbn [concatAll existsb].
    rewrite Contains_app_delim by (try assumption; now apply delimited_concat).
    rewrite IH by assumption. reflexivity.
Qed.

Section Pieces.

Variables old new : string.
Hypothesis old_free : free old = true.
Hypothesis old_nonempty : old <> "".
Hypothesis old_new : old <> new.

Lemma ReplaceAll_app_delim (r : string) :
  delimited r = true ->
  forall n p, (String.length p < n)%nat ->
  strings.Replace (p ++ r) old new (-1)
  = strings.Replace p old new (-1) ++ strings.Replace r old new (-1).
Proof.
  intros Hr n. induction n as [|n IH]; intros p Hn; [lia|].
  pose proof (indexOf_split_delim p r old old_free old_nonempty Hr) as Hsplit.
  destruct (strings.indexOf p old) as [i|] eqn:Hp.
  - pose proof (indexOf_length _ _ _ Hp) as Hlen.
    rewrite (Replace_all old new old_nonempty old_new _ i Hsplit).
    rewrite (Replace_all old new old_nonempty old_new _ i Hp).
    rewrite take_app_le, drop_app_le by lia.
    rewrite IH.
    + strassoc.
    + rewrite length_drop. destruct old; [congruence|]. cbn [String.length] in *. lia.
  - rewrite (Replace_none old new old_nonempty old_new p _ Hp).
    destruct (strings.indexOf r old) as [j|] eqn:Hrr; cbn [option_map] in Hsplit.
    + rewrite (Replace_all old new old_nonempty old_new _ _ Hsplit).
      rewrite (Replace_all old new old_nonempty old_new _ _ Hrr).
      replace (String.length p + j)%nat with (String.length p + j)%nat by reflexivity.
      assert (Ht : take (String.length p + j) (p ++ r) = p ++ take j r).
      { clear. induction p as [|c p IHp]; [reflexivity|].
        cbn [String.length Nat.add append take]. now rewrite IHp. }
      rewrite Ht, <- Nat.add_assoc, drop_app_plus. strassoc.
    + rewrite (Replace_none old new old_nonempty old_new _ _ Hsplit).
      rewrite (Replace_none old new old_nonempty old_new _ _ Hrr). reflexivity.
Qed.

(** G2: replacing every occurrence, piece by piece. *)
Lemma ReplaceAll_pieces (ps : list string) :
  forallb delimited ps = true ->
  strings.Replace (concatAll ps) old new (-1)
  = concatAll (map (fun p => strings.Replace p old new (-1)) ps).
Proof.
  induction ps as [|p ps IH]; intros Hd.
  - cbn [concatAll map]. apply Replace_none; try assumption.
    destruct old; [congruence|reflexivity].
  - cbn [forallb] in Hd. apply andb_true_iff in Hd as [_ Hps].
    cbn [concatAll map].
    rewrite (ReplaceAll_app_delim _ (delimited_concat _ Hps) (S (String.length p))) by lia.
    rewrite IH by assumption. reflexivity.
Qed.

(** The first piece that holds the pattern has its first occurrence
    replaced. *)
Fixpoint replaceFirstIn (ps : list string) : list string :=
  match ps with
  | [] => []
  | p :: ps' =>
      if strings.Contains p old then strings.Replace p old new 1 :: ps'
      else p :: replaceFirstIn ps'
  end.

Lemma ReplaceFirst_app_delim (p r : string) :
  delimited r = true ->
  strings.Replace (p ++ r) old new 1
  = if strings.Contains p old then strings.Replace p old new 1 ++ r
    else p ++ strings.Replace r old new 1.
Proof.
  intros Hr.
  pose proof (indexOf_split_delim p r old old_free old_nonempty Hr) as Hsplit.
  rewrite (Contains_indexOf p).
  destruct (strings.indexOf p old) as [i|] eqn:Hp.
  - pose proof (indexOf_length _ _ _ Hp) as Hlen.
    rewrite (Replace_first old new old_nonempty old_new _ i Hsplit).
    rewrite (Replace_first old new old_nonempty old_new _ i Hp).
    rewrite take_app_le, drop_app_le by lia. strassoc.
  - destruct (strings.indexOf r old) as [j|] eqn:Hrr; cbn [option_map] in Hsplit.
    + rewrite (Replace_first old new old_nonempty old_new _ _ Hsplit).
      rewrite (Replace_first old new old_nonempty old_new _ _ Hrr).
      assert (Ht : take (String.length p + j) (p ++ r) = p ++ take j r).
      { clear. induction p as [|c p IHp]; [reflexivity|].
        cbn [String.length Nat.add append take]. now rewrite IHp. }
      rewrite Ht, <- Nat.add_assoc, drop_app_plus. strassoc.
    + rewrite (Replace_none old new old_nonempty old_new _ _ Hsplit).
      rewrite (Replace_none old new old_nonempty old_new _ _ Hrr). reflexivity.
Qed.

(** G3: replacing the first occurrence. *)
Lemma ReplaceFirst_pieces (ps : list string) :
  forallb delimited ps = true ->
  strings.Replace (concatAll ps) old new 1 = concatAll (replaceFirstIn ps).
Proof.
  induction ps as [|p ps IH]; intros Hd.
  - cbn [concatAll replaceFirstIn]. apply Replace_none; try assumption.
    destruct old; [congruence|reflexivity].
  - cbn [forallb] in Hd. apply andb_true_iff in Hd as [_ Hps].
    cbn [concatAll replaceFirstIn].
    rewrite (ReplaceFirst_app_delim _ _ (delimited_concat _ Hps)).
    destruct (strings.Contains p old); [reflexivity|].
    cbn [concatAll]. rewrite IH by assumption. reflexivity.
Qed.

Lemma replaceFirstIn_app (ps qs : list string) :
  replaceFirstIn (ps ++ qs)
  = if existsb (fun p => strings.Contains p old) ps
    then (replaceFirstIn ps ++ qs)%list
    else (ps ++ replaceFirstIn qs)%list.
Proof.
  induction ps as [|p ps IH]; [reflexivity|].
  cbn [List.app replaceFirstIn existsb].
  destruct (strings.Contains p old); [reflexivity|].
  cbn [orb]. rewrite IH. destruct (existsb _ ps); reflexivity.
Qed.

End Pieces.

(** ** The lines of the encoder, cut into pieces *)

Definition attrName (a : xml.Attr) : string := xml.Local (xml.AttrName a).

Definition escaped (a : xml.Attr) : string := xml.EscapeString (xml.Value a).

(** The three pieces of an attribute: its name with the blank before and
    the equals sign after, the opening quote with the value, and the
    closing quote. *)
Definition attrPieces (a : xml.Attr) : list string :=
  [" " ++ attrName a ++ "="; xml.quot ++ escaped a; xml.quot].

Definition attrsPieces (attrs : list xml.Attr) : list string :=
  flat_map attrPieces attrs.

Definition lineAttrs (l : Line) : list xml.Attr :=
  match l with
  | LOpen _ _ attrs | LLeaf _ _ attrs _ => attrs
  | LClose _ _ => []
  end.

Definition lineDepth (l : Line) : nat :=
  match l with
  | LOpen d _ _ | LLeaf d _ _ _ | LClose d _ => d
  end.

(** What follows the attributes on the line. *)
Definition endPieces (l : Line) : list string :=
  match l with
  | LOpen _ _ _ => [">"]
  | LLeaf _ name _ data =>
      if String.eqb data "" then ["/>"]
      else [">" ++ xml.EscapeString data; "</" ++ name ++ ">"]
  | LClose _ _ => []
  end.

Definition headPiece (l : Line) : string :=
  match l with
  | LOpen _ name _ | LLeaf _ name _ _ => "<" ++ name
  | LClose _ name => "</" ++ name ++ ">"
  end.

(** A collapsed line and what ends it, in pieces. *)
Definition pieces (l : Line) (tail : string) : list string :=
  ([xml.indentation (lineDepth l); headPiece l]
   ++ attrsPieces (lineAttrs l) ++ endPieces l ++ [tail])%list.

Lemma attrsPieces_text (attrs : list xml.Attr) :
  forallb attrOK attrs = true ->
  concatAll (attrsPieces attrs) = xml.attrsText attrs.
Proof.
  induction attrs as [|a attrs IH]; intros H; [reflexivity|].
  cbn [forallb] in H. apply andb_true_iff in H as [Ha H].
  unfold attrsPieces, xml.attrsText in *. cbn [flat_map map concatAll].
  rewrite concatAll_app, IH by assumption.
  unfold attrOK in Ha. apply andb_true_iff in Ha as [Hn _].
  unfold xml.attrText. rewrite (proj1 (negb_true_iff _) Hn).
  unfold attrName, escaped. cbn [attrPieces concatAll]. strassoc.
Qed.

Lemma pieces_text (l : Line) (tail : string) :
  lineOK l = true -> concatAll (pieces l tail) = collapsed l ++ tail.
Proof.
  intros Hok. unfold pieces. cbn [List.app concatAll].
  rewrite !concatAll_app.
  destruct l as [d name attrs|d name attrs data|d name]; cbn [lineOK] in Hok;
    cbn [lineDepth headPiece lineAttrs endPieces].
  - apply andb_true_iff in Hok as [_ Ha]. rewrite attrsPieces_text by assumption.
    cbn [collapsed lineText concatAll]. unfold openTag.
    rewrite !app_nil_r. strassoc.
  - apply andb_true_iff in Hok as [_ Ha]. rewrite attrsPieces_text by assumption.
    rewrite collapsed_leaf. unfold closeTag.
    destruct (String.eqb data ""); cbn [concatAll]; rewrite !app_nil_r; strassoc.
  - cbn [collapsed lineText attrsPieces flat_map concatAll]. unfold closeTag.
    rewrite !app_nil_r. strassoc.
Qed.

Lemma delimited_indentation (d : nat) : delimited (xml.indentation d) = true.
Proof. destruct d; reflexivity. Qed.

Lemma delimited_attrsPieces (attrs : list xml.Attr) :
  forallb delimited (attrsPieces attrs) = true.
Proof.
  induction attrs as [|a attrs IH]; [reflexivity|].
  unfold attrsPieces in *. cbn [flat_map]. rewrite forallb_app, IH. reflexivity.
Qed.

Lemma delimited_pieces (l : Line) (tail : string) :
  (tail = "" \/ tail = xml.nl) -> forallb delimited (pieces l tail) = true.
Proof.
  intros Ht. unfold pieces. rewrite !forallb_app, delimited_attrsPieces.
  cbn [forallb]. rewrite delimited_indentation.
  assert (Htail : delimited tail = true) by (destruct Ht as [->| ->]; reflexivity).
  rewrite Htail.
  destruct l as [d name attrs|d name attrs data|d name]; cbn [headPiece endPieces];
    try reflexivity.
  destruct (String.eqb data ""); reflexivity.
Qed.

(** *** Names *)

(** The names of the attributes of the schema. *)
Definition rootAttrs : list string :=
  ["xmlns"; "cenc"; "mspr"; "type"; "minimumUpdatePeriod"; "availabilityStartTime";
   "mediaPresentationDuration"; "minBufferTime"; "suggestedPresentationDelay";
   "timeShiftBufferDepth"; "publishTime"; "profiles"].

Definition protectionAttrs : list string :=
  ["schemeIdUri"; "value"; "default_KID"; "cenc"].

Definition plainAttrs : list string :=
  ["start"; "id"; "duration"; "schemeIdUri"; "value"; "mimeType";
   "segmentAlignment"; "subsegmentAlignment"; "startWithSAP";
   "subsegmentStartsWithSAP"; "bitstreamSwitching"; "lang"; "frameRate";
   "width"; "height"; "bandwidth"; "audioSamplingRate"; "codecs"; "scanType";
   "timescale"; "presentationTime"; "media"; "initialization"; "startNumber";
   "presentationTimeOffset"; "t"; "d"; "r"].

(** The attributes an element of the schema carries. *)
Definition allowedAttrs (name : string) : list string :=
  if String.eqb name "MPD" then rootAttrs
  else if String.eqb name "pssh" then ["cenc"]
  else if String.eqb name "pro" then ["mspr"]
  else if String.eqb name "ContentProtection" then protectionAttrs
  else plainAttrs.

Definition named (m : string) (a : xml.Attr) : bool := String.eqb (attrName a) m.

Definition hasName (m : string) (attrs : list xml.Attr) : bool := existsb (named m) attrs.

Definition countNamed (m : string) (attrs : list xml.Attr) : nat :=
  List.length (filter (named m) attrs).

Definition among (names : list string) (a : xml.Attr) : bool :=
  existsb (String.eqb (attrName a)) names.

Definition isLeaf (l : Line) : bool :=
  match l with
  | LLeaf _ _ _ _ => true
  | _ => false
  end.

(** A line of the schema: an element of the schema with attributes it
    carries, each marker attribute once at most; the two payloads hold
    text only. *)
Definition lineSchema (l : Line) : bool :=
  inSchema (lineName l)
  && forallb (among (allowedAttrs (lineName l))) (lineAttrs l)
  && (countNamed "cenc" (lineAttrs l) <=? 1)%nat
  && (countNamed "mspr" (lineAttrs l) <=? 1)%nat
  && (isLeaf l || negb (existsb (String.eqb (lineName l)) ["pssh"; "pro"])).

Lemma table_fact (P : string -> bool) (names : list string) (n : string) :
  forallb P names = true -> existsb (String.eqb n) names = true -> P n = true.
Proof.
  intros HP Hin. apply existsb_exists in Hin as (x & Hx & Heq).
  apply String.eqb_eq in Heq. subst x. rewrite forallb_forall in HP. now apply HP.
Qed.

(** *** What the rules do to the attributes *)

Definition valuesLack (pat : string) (attrs : list xml.Attr) : bool :=
  forallb (fun a => negb (strings.Contains (escaped a) pat)) attrs.

Definition renameWith (rho : string -> string) (a : xml.Attr) : xml.Attr :=
  {| xml.AttrName := {| xml.Space := xml.Space (xml.AttrName a);
                        xml.Local := rho (attrName a) |};
     xml.Value := xml.Value a |}.

Definition swap (m m' : string) (n : string) : string :=
  if String.eqb n m then m' else n.

Lemma renameWith_id (rho : string -> string) (a : xml.Attr) :
  rho (attrName a) = attrName a -> renameWith rho a = a.
Proof.
  destruct a as [[sp lo] v]. unfold renameWith, attrName. cbn. intros ->. reflexivity.
Qed.

Lemma attrPieces_renameWith (rho : string -> string) (a : xml.Attr) :
  attrPieces (renameWith rho a)
  = [" " ++ rho (attrName a) ++ "="; xml.quot ++ escaped a; xml.quot].
Proof. reflexivity. Qed.

Lemma free_head (pat : string) :
  free pat = true -> pat <> "" ->
  exists x t, pat = String x t /\ delim x = false.
Proof.
  intros Hf Hne. destruct pat as [|x t]; [congruence|].
  exists x, t. split; [reflexivity|].
  unfold free in Hf. cbn [allb] in Hf. apply andb_true_iff in Hf as [Hx _].
  now apply negb_true_iff in Hx.
Qed.

Lemma Contains_cons_delim (c : ascii) (s pat : string) :
  delim c = true -> free pat = true -> pat <> "" ->
  strings.Contains (String c s) pat = strings.Contains s pat.
Proof.
  intros Hc Hf Hne. destruct (free_head pat Hf Hne) as (x & t & -> & Hx).
  rewrite !Contains_indexOf.
  rewrite indexOf_tail.
  - destruct (strings.indexOf s (String x t)); reflexivity.
  - apply HasPrefix_lacks_head.
    destruct (Ascii.eqb_spec c x) as [->|]; [congruence|reflexivity].
Qed.

Lemma Contains_empty (pat : string) : pat <> "" -> strings.Contains "" pat = false.
Proof. intros H. apply Contains_false. destruct pat; [congruence|reflexivity]. Qed.

Section Rule.

Variables old new : string.
Hypothesis old_free : free old = true.
Hypothesis old_nonempty : old <> "".
Hypothesis old_new : old <> new.

Lemma Contains_quot : strings.Contains xml.quot old = false.
Proof.
  unfold xml.quot. rewrite Contains_cons_delim by (assumption || reflexivity).
  now apply Contains_empty.
Qed.

Lemma Contains_value (a : xml.Attr) :
  strings.Contains (xml.quot ++ escaped a) old = strings.Contains (escaped a) old.
Proof.
  unfold xml.quot. cbn [append].
  apply Contains_cons_delim; assumption || reflexivity.
Qed.

Lemma Replace_lacks (s : string) (n : Z) :
  strings.Contains s old = false -> strings.Replace s old new n = s.
Proof.
  intros H. apply Replace_none; try assumption. now apply Contains_false.
Qed.

(** No piece of the attributes holds the pattern. *)
Lemma attrs_absent (attrs : list xml.Attr) :
  forallb (fun a => negb (strings.Contains (" " ++ attrName a ++ "=") old)) attrs = true ->
  valuesLack old attrs = true ->
  existsb (fun p => strings.Contains p old) (attrsPieces attrs) = false.
Proof.
  induction attrs as [|a attrs IH]; intros Hn Hv; [reflexivity|].
  cbn [forallb valuesLack] in Hn, Hv. fold (valuesLack old attrs) in Hv.
  apply andb_true_iff in Hn as [Hna Hn]. apply andb_true_iff in Hv as [Hva Hv].
  unfold attrsPieces. cbn [flat_map attrPieces List.app existsb].
  fold (attrsPieces attrs). rewrite (IH Hn Hv).
  apply negb_true_iff in Hna. apply negb_true_iff in Hva.
  rewrite Hna, Contains_value, Hva, Contains_quot. reflexivity.
Qed.

(** Every occurrence replaced: the names change as [rho] tells. *)
Lemma attrs_all (rho : string -> string) (attrs : list xml.Attr) :
  forallb (fun a => String.eqb (strings.Replace (" " ++ attrName a ++ "=") old new (-1))
                      (" " ++ rho (attrName a) ++ "=")) attrs = true ->
  valuesLack old attrs = true ->
  map (fun p => strings.Replace p old new (-1)) (attrsPieces attrs)
  = attrsPieces (map (renameWith rho) attrs).
Proof.
  induction attrs as [|a attrs IH]; intros Hn Hv; [reflexivity|].
  cbn [forallb valuesLack] in Hn, Hv. fold (valuesLack old attrs) in Hv.
  apply andb_true_iff in Hn as [Hna Hn]. apply andb_true_iff in Hv as [Hva Hv].
  unfold attrsPieces. cbn [flat_map map]. rewrite map_app.
  fold (attrsPieces attrs). fold (attrsPieces (map (renameWith rho) attrs)).
  rewrite (IH Hn Hv). f_equal.
  apply String.eqb_eq in Hna. apply negb_true_iff in Hva.
  rewrite attrPieces_renameWith. cbn [attrPieces map].
  rewrite Hna, (Replace_lacks (xml.quot ++ escaped a)), (Replace_lacks xml.quot).
  - reflexivity.
  - apply Contains_quot.
  - rewrite Contains_value. exact Hva.
Qed.

(** The values before the attribute named [m] lack the pattern; all of
    them, when no attribute has this name. *)
Fixpoint beforeMarker (m : string) (attrs : list xml.Attr) : bool :=
  match attrs with
  | [] => true
  | a :: attrs' =>
      if named m a then true
      else negb (strings.Contains (escaped a) old) && beforeMarker m attrs'
  end.

Lemma no_marker_id (m m' : string) (attrs : list xml.Attr) :
  countNamed m attrs = 0%nat -> map (renameWith (swap m m')) attrs = attrs.
Proof.
  induction attrs as [|a attrs IH]; intros H; [reflexivity|].
  unfold countNamed in H. cbn [filter] in H.
  destruct (named m a) eqn:Ha; [discriminate|].
  cbn [map]. rewrite IH by exact H. f_equal.
  apply renameWith_id. unfold swap. unfold named in Ha. rewrite Ha. reflexivity.
Qed.

(** The first occurrence replaced: the attribute named [m] is renamed. *)
Lemma attrs_first (m m' : string) (attrs : list xml.Attr) (post : list string) :
  strings.Replace (" " ++ m ++ "=") old new 1 = " " ++ m' ++ "=" ->
  forallb (fun a => Bool.eqb (strings.Contains (" " ++ attrName a ++ "=") old)
                      (named m a)) attrs = true ->
  beforeMarker m attrs = true ->
  (countNamed m attrs <= 1)%nat ->
  replaceFirstIn old new (attrsPieces attrs ++ post)
  = (attrsPieces (map (renameWith (swap m m')) attrs)
     ++ (if hasName m attrs then post else replaceFirstIn old new post))%list.
Proof.
  intros Hm. induction attrs as [|a attrs IH]; intros Hn Hb Hc; [reflexivity|].
  cbn [forallb beforeMarker] in Hn, Hb.
  apply andb_true_iff in Hn as [Hna Hn]. apply Bool.eqb_prop in Hna.
  unfold attrsPieces. cbn [flat_map map hasName existsb].
  fold (attrsPieces attrs). fold (attrsPieces (map (renameWith (swap m m')) attrs)).
  fold (hasName m attrs).
  rewrite attrPieces_renameWith. cbn [attrPieces List.app replaceFirstIn].
  rewrite Hna. unfold countNamed in Hc. cbn [filter] in Hc.
  destruct (named m a) eqn:Ha.
  - cbn [orb List.length] in *.
    unfold named in Ha. apply String.eqb_eq in Ha.
    rewrite no_marker_id by (unfold countNamed; lia).
    unfold swap. rewrite Ha, String.eqb_refl, Hm. reflexivity.
  - apply andb_true_iff in Hb as [Hva Hb]. apply negb_true_iff in Hva.
    rewrite Contains_value, Hva, Contains_quot. cbn [orb].
    rewrite (IH Hn Hb Hc).
    unfold swap. unfold named in Ha. rewrite Ha. reflexivity.
Qed.

End Rule.

(** ** Which lines trigger which rule *)

(** A piece that holds no [<] after its first byte. *)
Definition tagPiece (p : string) : bool :=
  match p with
  | EmptyString => true
  | String c t => delim c && lacks "<" t
  end.

Lemma tagPiece_delimited (ps : list string) :
  forallb tagPiece ps = true -> forallb delimited ps = true.
Proof.
  induction ps as [|p ps IH]; intros H; [reflexivity|].
  cbn [forallb] in *. apply andb_true_iff in H as [Hp H]. rewrite IH by assumption.
  destruct p as [|c t]; [reflexivity|]. cbn [tagPiece delimited] in *.
  apply andb_true_iff in Hp as [Hc _]. rewrite Hc. reflexivity.
Qed.

Lemma HasPrefix_app_delim (X r : string) : forall t,
  free X = true -> delimited r = true ->
  strings.HasPrefix (t ++ r) X = strings.HasPrefix t X.
Proof.
  induction X as [|x X IH]; intros t Hf Hr.
  - rewrite !HasPrefix_nil. reflexivity.
  - unfold free in Hf. cbn [allb] in Hf. apply andb_true_iff in Hf as [Hx Hf].
    apply negb_true_iff in Hx.
    destruct t as [|c t].
    + cbn [append]. destruct r as [|c r]; [reflexivity|].
      cbn [delimited] in Hr. cbn [strings.HasPrefix].
      destruct (Ascii.eqb_spec x c) as [->|]; [congruence|reflexivity].
    + cbn [append strings.HasPrefix]. rewrite (IH t Hf Hr). reflexivity.
Qed.

(** A pattern that begins with [<] occurs in a text cut into tag pieces
    when it begins one of the pieces. *)
Lemma Contains_lt_pieces (X : string) (ps : list string) :
  free X = true -> forallb tagPiece ps = true ->
  strings.Contains (concatAll ps) (String "<" X)
  = existsb (fun p => strings.HasPrefix p (String "<" X)) ps.
Proof.
  intros Hf. induction ps as [|p ps IH]; intros Hp; [reflexivity|].
  cbn [forallb] in Hp. apply andb_true_iff in Hp as [Hp Hps].
  cbn [concatAll existsb]. specialize (IH Hps).
  pose proof (delimited_concat _ (tagPiece_delimited _ Hps)) as Hd.
  destruct p as [|c t]; [exact IH|].
  cbn [tagPiece] in Hp. apply andb_true_iff in Hp as [Hc Ht].
  cbn [append].
  destruct (Ascii.eqb_spec c "<") as [->|Hne].
  - rewrite Contains_head, Contains_skip by assumption.
    rewrite IH. cbn [strings.HasPrefix Ascii.eqb Bool.eqb andb].
    rewrite HasPrefix_app_delim by assumption. reflexivity.
  - change (String c (t ++ concatAll ps)) with (String c t ++ concatAll ps).
    rewrite Contains_skip.
    + rewrite IH. cbn [strings.HasPrefix].
      destruct (Ascii.eqb_spec "<" c); [congruence|reflexivity].
    + unfold lacks in *. cbn [allb]. rewrite Ht, andb_true_r.
      apply negb_true_iff. destruct (Ascii.eqb_spec c "<"); [congruence|reflexivity].
Qed.

Lemma lacks_lt_attrName (a : xml.Attr) :
  attrOK a = true -> lacks "<" (attrName a) = true.
Proof.
  unfold attrOK. intros H. apply andb_true_iff in H as [_ H].
  now apply lacks_attrName.
Qed.

Lemma tagPiece_attrsPieces (attrs : list xml.Attr) :
  forallb attrOK attrs = true -> forallb tagPiece (attrsPieces attrs) = true.
Proof.
  induction attrs as [|a attrs IH]; intros H; [reflexivity|].
  cbn [forallb] in H. apply andb_true_iff in H as [Ha H].
  unfold attrsPieces in *. cbn [flat_map]. rewrite forallb_app, IH by assumption.
  cbn [attrPieces forallb tagPiece append xml.quot delim existsb Ascii.eqb Bool.eqb orb andb].
  rewrite lacks_app, (lacks_lt_attrName _ Ha).
  unfold escaped. rewrite (EscapeString_lacks "<" _ eq_refl). reflexivity.
Qed.

Lemma tagPiece_indentation (d : nat) : tagPiece (xml.indentation d) = true.
Proof.
  destruct d as [|d]; [reflexivity|].
  cbn [xml.indentation append tagPiece]. 
  change (delim " ") with true. cbn [andb].
  change (lacks "<" (String " " (xml.indentation d))) with (lacks "<" (xml.indentation d)).
  apply lacks_indentation. reflexivity.
Qed.

Lemma tagPiece_pieces (l : Line) (tail : string) :
  lineOK l = true -> (tail = "" \/ tail = xml.nl) ->
  forallb tagPiece (pieces l tail) = true.
Proof.
  intros Hok Ht. unfold pieces. rewrite !forallb_app.
  assert (Htail : tagPiece tail = true) by (destruct Ht as [->| ->]; reflexivity).
  cbn [forallb]. rewrite tagPiece_indentation, Htail.
  assert (Hlt : tagByte "<" = true) by reflexivity.
  destruct l as [d name attrs|d name attrs data|d name]; cbn [lineOK] in Hok;
    cbn [headPiece lineAttrs endPieces lineDepth].
  - apply andb_true_iff in Hok as [Hn Ha].
    pose proof (elemNameOK_letters _ Hn) as [_ Hl].
    rewrite (tagPiece_attrsPieces _ Ha).
    cbn [append tagPiece forallb]. change (delim "<") with true.
    rewrite (lacks_letters _ _ Hlt Hl). reflexivity.
  - apply andb_true_iff in Hok as [Hn Ha].
    pose proof (elemNameOK_letters _ Hn) as [_ Hl].
    rewrite (tagPiece_attrsPieces _ Ha).
    cbn [append tagPiece]. change (delim "<") with true.
    rewrite (lacks_letters _ _ Hlt Hl).
    destruct (String.eqb data ""); cbn [forallb append tagPiece]; [reflexivity|].
    change (delim ">") with true. change (delim "<") with true.
    rewrite (EscapeString_lacks "<" _ eq_refl).
    change (lacks "<" (String "/" (name ++ ">"))) with (lacks "<" (name ++ ">")).
    rewrite lacks_app, (lacks_letters _ _ Hlt Hl). reflexivity.
  - pose proof (elemNameOK_letters _ Hok) as [_ Hl].
    cbn [attrsPieces flat_map forallb append tagPiece].
    change (delim "<") with true.
    change (lacks "<" (String "/" (name ++ ">"))) with (lacks "<" (name ++ ">")).
    rewrite lacks_app, (lacks_letters _ _ Hlt Hl). reflexivity.
Qed.

Definition isStart (l : Line) : bool :=
  match l with
  | LClose _ _ => false
  | _ => true
  end.

Definition triggerNames : list string := ["MPD"; "pssh"; "pro"].

Lemma HasPrefix_attrsPieces (pat : string) (attrs : list xml.Attr) :
  existsb (fun p => strings.HasPrefix p (String "<" pat)) (attrsPieces attrs) = false.
Proof.
  induction attrs as [|a attrs IH]; [reflexivity|].
  unfold attrsPieces in *. cbn [flat_map]. rewrite existsb_app, IH. reflexivity.
Qed.

(** A line holds [<MPD], [<pssh] or [<pro] when it opens such an
    element. *)
Lemma trigger_line (l : Line) (tail X : string) :
  lineOK l = true -> inSchema (lineName l) = true -> (tail = "" \/ tail = xml.nl) ->
  existsb (String.eqb X) triggerNames = true ->
  strings.Contains (collapsed l ++ tail) (String "<" X)
  = isStart l && String.eqb (lineName l) X.
Proof.
  intros Hok Hin Ht HX.
  assert (HfX : free X = true).
  { apply (table_fact free triggerNames X); [reflexivity|exact HX]. }
  rewrite <- pieces_text by assumption.
  rewrite Contains_lt_pieces by (try assumption; now apply tagPiece_pieces).
  unfold pieces. rewrite !existsb_app, HasPrefix_attrsPieces.
  assert (Hind : strings.HasPrefix (xml.indentation (lineDepth l)) (String "<" X) = false)
    by (destruct (lineDepth l); reflexivity).
  assert (Htail : strings.HasPrefix tail (String "<" X) = false)
    by (destruct Ht as [->| ->]; reflexivity).
  cbn [existsb]. rewrite Hind, Htail. cbn [orb]. rewrite !orb_false_r.
  assert (Hname : strings.HasPrefix (lineName l) X = String.eqb (lineName l) X).
  { revert HX. unfold triggerNames. cbn [existsb]. rewrite orb_false_r.
    intros HX.
    apply (schema_cases (fun n => strings.HasPrefix n X = String.eqb n X) _ Hin).
    repeat (apply orb_true_iff in HX; destruct HX as [HX|HX]);
      apply String.eqb_eq in HX; subst X;
      repeat constructor. }
  assert (Hslash : forall s, strings.HasPrefix (String "/" s) X = false).
  { intros s. revert HX. unfold triggerNames. cbn [existsb]. rewrite orb_false_r.
    intros HX.
    repeat (apply orb_true_iff in HX; destruct HX as [HX|HX]);
      apply String.eqb_eq in HX; subst X; reflexivity. }
  assert (Hcons : forall s, strings.HasPrefix (String "<" s) (String "<" X)
                            = strings.HasPrefix s X) by reflexivity.
  assert (Hgt : forall s, strings.HasPrefix (String ">" s) (String "<" X) = false)
    by reflexivity.
  assert (Hsl : forall s, strings.HasPrefix (String "/" s) (String "<" X) = false)
    by reflexivity.
  destruct l as [d name attrs|d name attrs data|d name];
    cbn [headPiece endPieces lineName isStart andb] in *.
  - cbn [append existsb]. rewrite Hcons, Hgt, !orb_false_r. exact Hname.
  - destruct (String.eqb data ""); cbn [append existsb];
      rewrite ?Hcons, ?Hgt, ?Hsl, ?Hslash, ?orb_false_r; exact Hname.
  - cbn [append existsb]. rewrite Hcons, Hslash. reflexivity.
Qed.

(** ** The lines no rule changes *)

Definition dataLacks (pat : string) (l : Line) : bool :=
  match l with
  | LLeaf _ _ _ data => negb (strings.Contains (xml.EscapeString data) pat)
  | _ => true
  end.

(** The line of a SegmentTimeline with zero segments. *)
Definition isEmptyTimeline (l : Line) : bool :=
  match l with
  | LLeaf _ name [] data => String.eqb name "SegmentTimeline" && String.eqb data ""
  | _ => false
  end.

(** What a collapsed line holds between its [<] and its last [>]. *)
Definition midOf (l : Line) : string :=
  match l with
  | LOpen _ name attrs => name ++ concatAll (attrsPieces attrs)
  | LLeaf _ name attrs data =>
      name ++ concatAll (attrsPieces attrs)
      ++ (if String.eqb data "" then "/"
          else ">" ++ xml.EscapeString data ++ "</" ++ name)
  | LClose _ name => "/" ++ name
  end.

Lemma pieces_mid (l : Line) (tail : string) :
  concatAll (pieces l tail)
  = xml.indentation (lineDepth l) ++ String "<" (midOf l ++ ">") ++ tail.
Proof.
  unfold pieces. cbn [List.app concatAll]. rewrite !concatAll_app.
  cbn [concatAll]. rewrite app_nil_r.
  destruct l as [d name attrs|d name attrs data|d name];
    cbn [lineDepth headPiece lineAttrs endPieces midOf].
  - cbn [concatAll]. strassoc.
  - destruct (String.eqb data ""); cbn [concatAll]; strassoc.
  - cbn [attrsPieces flat_map concatAll]. strassoc.
Qed.

Lemma TrimSpace_tag (d : nat) (mid tail : string) :
  (tail = "" \/ tail = xml.nl) ->
  strings.TrimSpace (xml.indentation d ++ String "<" (mid ++ ">") ++ tail)
  = String "<" (mid ++ ">").
Proof.
  intros Ht. rewrite TrimSpace_indentation.
  cbn [append strings.TrimSpace].
  change (utf8.RuneSelf <=? byteOf "<")%N with false.
  change (strings.asciiSpace (byteOf "<")) with false. cbv iota.
  change (String "<" ((mid ++ ">") ++ tail)) with (String "<" (mid ++ ">") ++ tail).
  rewrite rev_app.
  assert (Hrev : rev (String "<" (mid ++ ">")) = String ">" (rev mid ++ "<")).
  { rewrite rev_cons, rev_app. reflexivity. }
  rewrite Hrev.
  assert (Hstop : strings.trimSpaceStop (String ">" (rev mid ++ "<"))
                  = String "<" (mid ++ ">")).
  { cbn [strings.trimSpaceStop].
    change (utf8.RuneSelf <=? byteOf ">")%N with false.
    change (strings.asciiSpace (byteOf ">")) with false. cbv iota.
    rewrite <- Hrev. apply rev_involutive. }
  destruct Ht as [->| ->]; exact Hstop.
Qed.

Lemma dropEmptyTimeline_pieces (l : Line) (tail : string) :
  (tail = "" \/ tail = xml.nl) ->
  String.eqb (String "<" (midOf l ++ ">")) emptyTimelineTag = false ->
  dropEmptyTimeline (concatAll (pieces l tail)) = concatAll (pieces l tail).
Proof.
  intros Ht H. unfold dropEmptyTimeline. rewrite pieces_mid, TrimSpace_tag by assumption.
  unfold emptyTimelineTag in H. rewrite H. reflexivity.
Qed.

Lemma attrsPieces_head (a : xml.Attr) (attrs : list xml.Attr) :
  exists t, concatAll (attrsPieces (a :: attrs)) = String " " t.
Proof. eexists. unfold attrsPieces. cbn [flat_map attrPieces List.app concatAll append]. reflexivity. Qed.

(** Only the line of an empty timeline is the empty-timeline tag. *)
Lemma timeline_check (l : Line) :
  inSchema (lineName l) = true ->
  String.eqb (String "<" (midOf l ++ ">")) emptyTimelineTag = isEmptyTimeline l.
Proof.
  intros Hin.
  destruct l as [d name attrs|d name attrs data|d name];
    cbn [lineName midOf isEmptyTimeline] in *; [| |reflexivity].
  - destruct attrs as [|a attrs].
    + cbn [attrsPieces flat_map concatAll].
      pattern name. apply schema_cases; [exact Hin|repeat constructor].
    + destruct (attrsPieces_head a attrs) as [t ->].
      pattern name. apply schema_cases; [exact Hin|repeat constructor].
  - destruct attrs as [|a attrs].
    + cbn [attrsPieces flat_map concatAll].
      destruct (String.eqb data "").
      * rewrite andb_true_r.
        pattern name. apply schema_cases; [exact Hin|repeat constructor].
      * rewrite andb_false_r.
        pattern name. apply schema_cases; [exact Hin|repeat constructor].
    + destruct (attrsPieces_head a attrs) as [t ->].
      pattern name. apply schema_cases; [exact Hin|repeat constructor].
Qed.

Lemma Contains_indentation (pat : string) (d : nat) :
  free pat = true -> pat <> "" -> strings.Contains (xml.indentation d) pat = false.
Proof.
  intros Hf Hne. destruct (free_head pat Hf Hne) as (x & t & -> & Hx).
  apply Contains_lacks. apply lacks_indentation.
  destruct (Ascii.eqb_spec " " x) as [<-|]; [discriminate|reflexivity].
Qed.

Lemma Contains_tail (pat tail : string) :
  free pat = true -> pat <> "" -> (tail = "" \/ tail = xml.nl) ->
  strings.Contains tail pat = false.
Proof.
  intros Hf Hne [->| ->]; [now apply Contains_empty|].
  unfold xml.nl. rewrite Contains_cons_delim by (assumption || reflexivity).
  now apply Contains_empty.
Qed.

Lemma inSchema_among (names : list string) (a : xml.Attr) :
  among names a = true -> existsb (String.eqb (attrName a)) names = true.
Proof. intros H. exact H. Qed.

(** Every name of the schema. *)
Definition allAttrs : list string := (rootAttrs ++ protectionAttrs ++ plainAttrs)%list.

Lemma allowed_all (name : string) (a : xml.Attr) :
  among (allowedAttrs name) a = true -> among allAttrs a = true.
Proof.
  unfold allowedAttrs, among, allAttrs. intros H.
  rewrite !existsb_app.
  destruct (String.eqb name "MPD"); [rewrite H; reflexivity|].
  destruct (String.eqb name "pssh").
  { cbn [existsb] in H. rewrite orb_false_r in H. apply String.eqb_eq in H.
    rewrite H. reflexivity. }
  destruct (String.eqb name "pro").
  { cbn [existsb] in H. rewrite orb_false_r in H. apply String.eqb_eq in H.
    rewrite H. reflexivity. }
  destruct (String.eqb name "ContentProtection").
  - rewrite H, orb_true_r. reflexivity.
  - rewrite H, !orb_true_r. reflexivity.
Qed.

(** The pieces of the element names hold no marker but their own. *)
Lemma head_absent (pat : string) (l : Line) :
  inSchema (lineName l) = true ->
  forallb (fun n => negb (strings.Contains ("<" ++ n) pat)
                    && negb (strings.Contains ("</" ++ n ++ ">") pat)) schemaNames = true ->
  strings.Contains (headPiece l) pat = false.
Proof.
  intros Hin Htab.
  pose proof (table_fact _ _ _ Htab Hin) as H.
  apply andb_true_iff in H as [H1 H2].
  apply negb_true_iff in H1. apply negb_true_iff in H2.
  destruct l; cbn [headPiece lineName] in *; assumption.
Qed.

Lemma end_absent (pat : string) (l : Line) :
  free pat = true -> pat <> "" ->
  inSchema (lineName l) = true ->
  forallb (fun n => negb (strings.Contains ("<" ++ n) pat)
                    && negb (strings.Contains ("</" ++ n ++ ">") pat)) schemaNames = true ->
  dataLacks pat l = true ->
  existsb (fun p => strings.Contains p pat) (endPieces l) = false.
Proof.
  intros Hf Hne Hin Htab Hd.
  pose proof (table_fact _ _ _ Htab Hin) as H.
  apply andb_true_iff in H as [_ H2]. apply negb_true_iff in H2.
  destruct l as [d name attrs|d name attrs data|d name];
    cbn [endPieces lineName dataLacks] in *.
  - cbn [existsb]. rewrite orb_false_r.
    change ">" with (String ">" ""). rewrite Contains_cons_delim by (assumption || reflexivity).
    now apply Contains_empty.
  - destruct (String.eqb data ""); cbn [existsb]; rewrite orb_false_r.
    + change "/>" with (String "/" (String ">" "")).
      rewrite !Contains_cons_delim by (assumption || reflexivity).
      now apply Contains_empty.
    + cbn [append]. rewrite Contains_cons_delim by (assumption || reflexivity).
      apply negb_true_iff in Hd. rewrite Hd. exact H2.
  - reflexivity.
Qed.

(** A line whose texts lack a marker lacks it altogether, when the names
    on the line do. *)
Lemma line_lacks (pat : string) (l : Line) (tail : string) :
  free pat = true -> pat <> "" ->
  lineOK l = true -> inSchema (lineName l) = true -> (tail = "" \/ tail = xml.nl) ->
  forallb (fun n => negb (strings.Contains ("<" ++ n) pat)
                    && negb (strings.Contains ("</" ++ n ++ ">") pat)) schemaNames = true ->
  forallb (fun a => negb (strings.Contains (" " ++ attrName a ++ "=") pat)) (lineAttrs l)
  = true ->
  valuesLack pat (lineAttrs l) = true -> dataLacks pat l = true ->
  strings.Contains (collapsed l ++ tail) pat = false.
Proof.
  intros Hf Hne Hok Hin Ht Htab Hnames Hv Hd.
  rewrite <- pieces_text by assumption.
  rewrite Contains_pieces by (try assumption; now apply delimited_pieces).
  unfold pieces. rewrite !existsb_app.
  rewrite (attrs_absent pat Hf Hne _ Hnames Hv).
  rewrite (end_absent pat l Hf Hne Hin Htab Hd).
  cbn [existsb].
  rewrite (Contains_indentation pat _ Hf Hne), (head_absent pat l Hin Htab).
  rewrite (Contains_tail pat tail Hf Hne Ht). reflexivity.
Qed.

Definition keyId : string := "default_KID".

Lemma keyId_names :
  forallb (fun n => negb (strings.Contains ("<" ++ n) keyId)
                    && negb (strings.Contains ("</" ++ n ++ ">") keyId)) schemaNames = true.
Proof. vm_compute. reflexivity. Qed.

Lemma keyId_attrs :
  forallb (fun n => Bool.eqb (strings.Contains (" " ++ n ++ "=") keyId) (String.eqb n keyId))
    allAttrs = true.
Proof. vm_compute. reflexivity. Qed.

Lemma keyId_absent (l : Line) (tail : string) :
  lineOK l = true -> lineSchema l = true -> (tail = "" \/ tail = xml.nl) ->
  hasName keyId (lineAttrs l) = false ->
  valuesLack keyId (lineAttrs l) = true -> dataLacks keyId l = true ->
  strings.Contains (collapsed l ++ tail) keyId = false.
Proof.
  intros Hok Hs Ht Hno Hv Hd.
  unfold lineSchema in Hs. apply andb_true_iff in Hs as [Hs _].
  repeat (apply andb_true_iff in Hs; destruct Hs as [Hs ?]).
  assert (Hne : keyId <> "") by discriminate.
  apply (line_lacks keyId l tail eq_refl Hne Hok Hs Ht keyId_names);
    [|assumption|assumption].
  apply forallb_forall. intros a Ha.
    match goal with H : forallb (among _) _ = true |- _ =>
      rewrite forallb_forall in H; pose proof (H a Ha) as Hal end.
  apply allowed_all in Hal.
  pose proof (table_fact _ _ _ keyId_attrs Hal) as Hk. cbv beta in Hk.
  apply Bool.eqb_prop in Hk. rewrite Hk.
  unfold hasName in Hno.
  assert (Hna : named keyId a = false).
  { destruct (named keyId a) eqn:E; [|reflexivity].
    assert (existsb (named keyId) (lineAttrs l) = true)
      by (apply existsb_exists; eauto).
    congruence. }
  unfold named in Hna. rewrite Hna. reflexivity.
Qed.

(** A line that triggers no rule is written collapsed. *)
Lemma plain_line (l : Line) (tail : string) :
  lineOK l = true -> lineSchema l = true -> (tail = "" \/ tail = xml.nl) ->
  isStart l && existsb (String.eqb (lineName l)) triggerNames = false ->
  hasName keyId (lineAttrs l) = false ->
  valuesLack keyId (lineAttrs l) = true -> dataLacks keyId l = true ->
  isEmptyTimeline l = false ->
  rewriteLine (lineText l ++ tail) = collapsed l ++ tail.
Proof.
  intros Hok Hs Ht Hplain Hno Hv Hd Hempty.
  assert (Hin : inSchema (lineName l) = true).
  { unfold lineSchema in Hs. apply andb_true_iff in Hs as [Hs _].
    repeat (apply andb_true_iff in Hs; destruct Hs as [Hs ?]). exact Hs. }
  unfold rewriteLine. rewrite selfClose_line by assumption.
  assert (Htrig : forall X, existsb (String.eqb X) triggerNames = true ->
                  strings.Contains (collapsed l ++ tail) (String "<" X) = false).
  { intros X HX. rewrite trigger_line by assumption.
    destruct (isStart l); [|reflexivity]. cbn [andb] in *.
    destruct (String.eqb_spec (lineName l) X) as [<-|]; [|reflexivity].
    rewrite Hplain in HX. discriminate. }
  unfold injectMPD. rewrite (Htrig "MPD" eq_refl).
  unfold injectPssh. rewrite (Htrig "pssh" eq_refl).
  unfold injectPro. rewrite (Htrig "pro" eq_refl).
  unfold qualifyDefaultKID.
  pose proof (keyId_absent l tail Hok Hs Ht Hno Hv Hd) as Hk. unfold keyId in Hk.
  rewrite Hk.
  rewrite <- pieces_text by assumption.
  apply dropEmptyTimeline_pieces; [assumption|].
  rewrite timeline_check by assumption. exact Hempty.
Qed.

(** ** The lines a rule rewrites *)

(** The line [l] with another name and other attributes. *)
Definition withAttrs (l : Line) (name : string) (attrs : list xml.Attr) : Line :=
  match l with
  | LOpen d _ _ => LOpen d name attrs
  | LLeaf d _ _ data => LLeaf d name attrs data
  | LClose d _ => LClose d name
  end.

Lemma escaped_renameWith (rho : string -> string) (a : xml.Attr) :
  escaped (renameWith rho a) = escaped a.
Proof. reflexivity. Qed.

Lemma valuesLack_rename (pat : string) (rho : string -> string) (attrs : list xml.Attr) :
  valuesLack pat (map (renameWith rho) attrs) = valuesLack pat attrs.
Proof.
  induction attrs as [|a attrs IH]; [reflexivity|].
  cbn [map valuesLack forallb]. fold (valuesLack pat (map (renameWith rho) attrs)).
  fold (valuesLack pat attrs). rewrite IH. reflexivity.
Qed.

Lemma renameWith_compose (f g : string -> string) (attrs : list xml.Attr) :
  map (renameWith g) (map (renameWith f) attrs) = map (renameWith (fun n => g (f n))) attrs.
Proof. rewrite map_map. reflexivity. Qed.

Lemma forallb_rename (P : string -> bool) (rho : string -> string) (names : list string)
  (attrs : list xml.Attr) :
  forallb (fun n => P (rho n)) names = true ->
  forallb (among names) attrs = true ->
  forallb (fun a => P (attrName a)) (map (renameWith rho) attrs) = true.
Proof.
  intros HP Ha. apply forallb_forall. intros a' Hin.
  apply in_map_iff in Hin as (a & <- & Hin).
  rewrite forallb_forall in Ha. specialize (Ha a Hin).
  exact (table_fact _ _ _ HP Ha).
Qed.

Lemma forallb_names (P : string -> bool) (names : list string) (attrs : list xml.Attr) :
  forallb P names = true ->
  forallb (among names) attrs = true ->
  forallb (fun a => P (attrName a)) attrs = true.
Proof.
  intros HP Ha. apply forallb_forall. intros a Hin.
  rewrite forallb_forall in Ha. specialize (Ha a Hin).
  exact (table_fact _ _ _ HP Ha).
Qed.

Section Rule.

Variables old new : string.
Hypothesis old_free : free old = true.
Hypothesis old_nonempty : old <> "".
Hypothesis old_new : old <> new.

Lemma Replace_end (l : Line) (name' : string) (attrs' : list xml.Attr) (n : Z) :
  strings.Replace ("</" ++ lineName l ++ ">") old new n = "</" ++ name' ++ ">" ->
  dataLacks old l = true ->
  map (fun p => strings.Replace p old new n) (endPieces l)
  = endPieces (withAttrs l name' attrs').
Proof.
  intros Hclose Hd.
  destruct l as [d name attrs|d name attrs data|d name];
    cbn [endPieces withAttrs lineName dataLacks] in *.
  - cbn [map]. f_equal. apply Replace_lacks; try assumption.
    change ">" with (String ">" ""). rewrite Contains_cons_delim by (assumption || reflexivity).
    now apply Contains_empty.
  - destruct (String.eqb data ""); cbn [map].
    + f_equal. apply Replace_lacks; try assumption.
      change "/>" with (String "/" (String ">" "")).
      rewrite !Contains_cons_delim by (assumption || reflexivity).
      now apply Contains_empty.
    + rewrite Hclose. f_equal. apply Replace_lacks; try assumption.
      cbn [append]. rewrite Contains_cons_delim by (assumption || reflexivity).
      now apply negb_true_iff in Hd.
  - reflexivity.
Qed.

(** A rule that replaces every occurrence, on a line whose texts lack the
    pattern: the names change. *)
Lemma rule_all (rhoE : string) (rhoA : string -> string) (l : Line) (tail : string) :
  (tail = "" \/ tail = xml.nl) ->
  strings.Replace (headPiece l) old new (-1) = headPiece (withAttrs l rhoE []) ->
  strings.Replace ("</" ++ lineName l ++ ">") old new (-1) = "</" ++ rhoE ++ ">" ->
  forallb (fun a => String.eqb (strings.Replace (" " ++ attrName a ++ "=") old new (-1))
                      (" " ++ rhoA (attrName a) ++ "=")) (lineAttrs l) = true ->
  valuesLack old (lineAttrs l) = true -> dataLacks old l = true ->
  strings.Replace (concatAll (pieces l tail)) old new (-1)
  = concatAll (pieces (withAttrs l rhoE (map (renameWith rhoA) (lineAttrs l))) tail).
Proof.
  intros Ht Hhead Hclose Hnames Hv Hd.
  rewrite (ReplaceAll_pieces old new old_free old_nonempty old_new)
    by now apply delimited_pieces.
  f_equal. unfold pieces. rewrite !map_app.
  rewrite (attrs_all old new old_free old_nonempty old_new rhoA _ Hnames Hv).
  rewrite (Replace_end l rhoE (map (renameWith rhoA) (lineAttrs l)) _ Hclose Hd).
  cbn [map]. rewrite Hhead.
  rewrite (Replace_lacks old new old_nonempty old_new (xml.indentation _))
    by now apply Contains_indentation.
  rewrite (Replace_lacks old new old_nonempty old_new tail)
    by now apply Contains_tail.
  destruct l; reflexivity.
Qed.

Lemma replaceFirstIn_absent (ps : list string) :
  existsb (fun p => strings.Contains p old) ps = false ->
  replaceFirstIn old new ps = ps.
Proof.
  induction ps as [|p ps IH]; intros H; [reflexivity|].
  cbn [existsb] in H. apply orb_false_iff in H as [Hp H].
  cbn [replaceFirstIn]. rewrite Hp, IH by assumption. reflexivity.
Qed.

(** A rule that replaces the first occurrence, on a line where this
    occurrence is the name of the attribute [m], if there is any. *)
Lemma rule_first (m m' : string) (l : Line) (tail : string) :
  (tail = "" \/ tail = xml.nl) ->
  strings.Contains (headPiece l) old = false ->
  strings.Contains ("</" ++ lineName l ++ ">") old = false ->
  strings.Replace (" " ++ m ++ "=") old new 1 = " " ++ m' ++ "=" ->
  forallb (fun a => Bool.eqb (strings.Contains (" " ++ attrName a ++ "=") old)
                      (named m a)) (lineAttrs l) = true ->
  beforeMarker old m (lineAttrs l) = true ->
  (countNamed m (lineAttrs l) <= 1)%nat ->
  hasName m (lineAttrs l) || dataLacks old l = true ->
  strings.Replace (concatAll (pieces l tail)) old new 1
  = concatAll (pieces (withAttrs l (lineName l)
                         (map (renameWith (swap m m')) (lineAttrs l))) tail).
Proof.
  intros Ht Hhead Hclose Hm Hnames Hb Hc Hd.
  rewrite (ReplaceFirst_pieces old new old_free old_nonempty old_new)
    by now apply delimited_pieces.
  f_equal. unfold pieces.
  rewrite replaceFirstIn_app.
  cbn [existsb]. rewrite Hhead, (Contains_indentation old _ old_free old_nonempty).
  cbn [orb].
  rewrite (attrs_first old new old_free old_nonempty m m' _ _ Hm Hnames Hb Hc).
  assert (Hpost : (if hasName m (lineAttrs l)
                   then (endPieces l ++ [tail])%list
                   else replaceFirstIn old new (endPieces l ++ [tail]))
                  = (endPieces l ++ [tail])%list).
  { destruct (hasName m (lineAttrs l)); [reflexivity|]. cbn [orb] in Hd.
    apply replaceFirstIn_absent. rewrite existsb_app. cbn [existsb].
    rewrite (Contains_tail old tail old_free old_nonempty Ht). rewrite !orb_false_r.
    destruct l as [d name attrs|d name attrs data|d name];
      cbn [endPieces lineName dataLacks] in *.
    - cbn [existsb]. rewrite orb_false_r.
      change ">" with (String ">" "").
      rewrite Contains_cons_delim by (assumption || reflexivity).
      now apply Contains_empty.
    - destruct (String.eqb data ""); cbn [existsb]; rewrite orb_false_r.
      + change "/>" with (String "/" (String ">" "")).
        rewrite !Contains_cons_delim by (assumption || reflexivity).
        now apply Contains_empty.
      + cbn [append]. rewrite Contains_cons_delim by (assumption || reflexivity).
        apply negb_true_iff in Hd. rewrite Hd. exact Hclose.
    - reflexivity. }
  rewrite Hpost.
  destruct l; reflexivity.
Qed.

End Rule.

(** ** The four kinds of lines the rules rewrite *)

Definition cencRule : string -> string := swap "cenc" "xmlns:cenc".
Definition msprRule : string -> string := swap "mspr" "xmlns:mspr".
Definition keyRule : string -> string := swap "default_KID" "cenc:default_KID".

Definition attrsNamed (attrs : list xml.Attr) : bool :=
  forallb (fun a => negb (String.eqb (attrName a) "")) attrs.

Lemma attrsPieces_named (attrs : list xml.Attr) :
  attrsNamed attrs = true ->
  concatAll (attrsPieces attrs) = xml.attrsText attrs.
Proof.
  induction attrs as [|a attrs IH]; intros H; [reflexivity|].
  unfold attrsNamed in *. cbn [forallb] in H. apply andb_true_iff in H as [Ha H].
  unfold attrsPieces, xml.attrsText in *. cbn [flat_map map concatAll].
  rewrite concatAll_app, IH by assumption.
  unfold xml.attrText. unfold attrName in Ha. rewrite (proj1 (negb_true_iff _) Ha).
  unfold attrName, escaped. cbn [attrPieces concatAll]. strassoc.
Qed.

Lemma pieces_collapsed (l : Line) (tail : string) :
  attrsNamed (lineAttrs l) = true -> concatAll (pieces l tail) = collapsed l ++ tail.
Proof.
  intros Hok. unfold pieces. cbn [List.app concatAll].
  rewrite !concatAll_app.
  destruct l as [d name attrs|d name attrs data|d name];
    cbn [lineDepth headPiece lineAttrs endPieces] in *.
  - rewrite attrsPieces_named by assumption.
    cbn [collapsed lineText concatAll]. unfold openTag.
    rewrite !app_nil_r. strassoc.
  - rewrite attrsPieces_named by assumption.
    rewrite collapsed_leaf. unfold closeTag.
    destruct (String.eqb data ""); cbn [concatAll]; rewrite !app_nil_r; strassoc.
  - cbn [collapsed lineText attrsPieces flat_map concatAll]. unfold closeTag.
    rewrite !app_nil_r. strassoc.
Qed.

Lemma swap_named (a b m n : string) :
  String.eqb a m = false -> String.eqb b m = false ->
  String.eqb (swap a b n) m = String.eqb n m.
Proof.
  intros Ha Hb. unfold swap. destruct (String.eqb_spec n a) as [->|]; [|reflexivity].
  rewrite Ha, Hb. reflexivity.
Qed.

Lemma named_rename (rho : string -> string) (m : string) (attrs : list xml.Attr) :
  (forall n, String.eqb (rho n) m = String.eqb n m) ->
  map (named m) (map (renameWith rho) attrs) = map (named m) attrs.
Proof.
  intros H. rewrite map_map. apply map_ext. intros a. unfold named.
  change (attrName (renameWith rho a)) with (rho (attrName a)). apply H.
Qed.

Lemma hasName_rename (rho : string -> string) (m : string) (attrs : list xml.Attr) :
  (forall n, String.eqb (rho n) m = String.eqb n m) ->
  hasName m (map (renameWith rho) attrs) = hasName m attrs.
Proof.
  intros H. induction attrs as [|a attrs IH]; [reflexivity|].
  unfold hasName in *. cbn [map existsb]. rewrite IH. f_equal.
  unfold named. change (attrName (renameWith rho a)) with (rho (attrName a)). apply H.
Qed.

Lemma countNamed_rename (rho : string -> string) (m : string) (attrs : list xml.Attr) :
  (forall n, String.eqb (rho n) m = String.eqb n m) ->
  countNamed m (map (renameWith rho) attrs) = countNamed m attrs.
Proof.
  intros H. induction attrs as [|a attrs IH]; [reflexivity|].
  unfold countNamed in *. cbn [map filter].
  assert (E : named m (renameWith rho a) = named m a).
  { unfold named. change (attrName (renameWith rho a)) with (rho (attrName a)). apply H. }
  rewrite E. destruct (named m a); cbn [List.length]; rewrite IH; reflexivity.
Qed.

Lemma beforeMarker_rename (pat : string) (rho : string -> string) (m : string)
  (attrs : list xml.Attr) :
  (forall n, String.eqb (rho n) m = String.eqb n m) ->
  beforeMarker pat m (map (renameWith rho) attrs) = beforeMarker pat m attrs.
Proof.
  intros H. induction attrs as [|a attrs IH]; [reflexivity|].
  cbn [map beforeMarker].
  assert (E : named m (renameWith rho a) = named m a).
  { unfold named. change (attrName (renameWith rho a)) with (rho (attrName a)). apply H. }
  rewrite E, IH. reflexivity.
Qed.

Lemma withAttrs_withAttrs (l : Line) (n n' : string) (a a' : list xml.Attr) :
  withAttrs (withAttrs l n a) n' a' = withAttrs l n' a'.
Proof. destruct l; reflexivity. Qed.

Lemma lineAttrs_withAttrs (l : Line) (n : string) (a : list xml.Attr) :
  isStart l = true -> lineAttrs (withAttrs l n a) = a.
Proof. destruct l; [reflexivity|reflexivity|discriminate]. Qed.

Lemma lineName_withAttrs (l : Line) (n : string) (a : list xml.Attr) :
  lineName (withAttrs l n a) = n.
Proof. destruct l; reflexivity. Qed.

Lemma dataLacks_withAttrs (pat : string) (l : Line) (n : string) (a : list xml.Attr) :
  dataLacks pat (withAttrs l n a) = dataLacks pat l.
Proof. destruct l; reflexivity. Qed.

Lemma headPiece_withAttrs (l : Line) (n : string) (a a' : list xml.Attr) :
  headPiece (withAttrs l n a) = headPiece (withAttrs l n a').
Proof. destruct l; reflexivity. Qed.

Lemma headPiece_start (l : Line) :
  isStart l = true -> headPiece l = "<" ++ lineName l.
Proof. destruct l; [reflexivity|reflexivity|discriminate]. Qed.

Lemma withAttrs_same (l : Line) :
  isStart l = true -> withAttrs l (lineName l) (lineAttrs l) = l.
Proof. destruct l; [reflexivity|reflexivity|discriminate]. Qed.

Lemma lineSchema_parts (l : Line) :
  lineSchema l = true ->
  inSchema (lineName l) = true
  /\ forallb (among (allowedAttrs (lineName l))) (lineAttrs l) = true
  /\ (countNamed "cenc" (lineAttrs l) <= 1)%nat
  /\ (countNamed "mspr" (lineAttrs l) <= 1)%nat.
Proof.
  unfold lineSchema. intros H.
  apply andb_true_iff in H as [H _].
  repeat (apply andb_true_iff in H; destruct H as [H ?]).
  repeat split; try assumption; now apply Nat.leb_le.
Qed.

Lemma lineSchema_leaf (l : Line) :
  lineSchema l = true ->
  isLeaf l = true \/ (lineName l <> "pssh" /\ lineName l <> "pro").
Proof.
  unfold lineSchema. intros H. apply andb_true_iff in H as [_ H].
  apply orb_true_iff in H as [H|H]; [now left|right].
  apply negb_true_iff in H. cbn [existsb] in H.
  apply orb_false_iff in H as [H1 H2]. apply orb_false_iff in H2 as [H2 _].
  split; intros E; rewrite E in *; discriminate.
Qed.

Lemma hasName_among (m : string) (names : list string) (attrs : list xml.Attr) :
  forallb (among names) attrs = true ->
  existsb (String.eqb m) names = false ->
  hasName m attrs = false.
Proof.
  intros Ha Hm. unfold hasName.
  destruct (existsb (named m) attrs) eqn:E; [|reflexivity].
  apply existsb_exists in E as (a & Hin & Hn).
  rewrite forallb_forall in Ha. specialize (Ha a Hin).
  unfold named in Hn. apply String.eqb_eq in Hn. unfold among in Ha. rewrite Hn in Ha.
  congruence.
Qed.

(** The first marker on a line: the values before the attribute lack it,
    and the text of the element does when there is no such attribute. *)
Definition firstMarker (pat m : string) (l : Line) : bool :=
  beforeMarker pat m (lineAttrs l) && (hasName m (lineAttrs l) || dataLacks pat l).

Lemma rootAttrs_cenc :
  forallb (fun n => Bool.eqb (strings.Contains (" " ++ n ++ "=") "cenc") (String.eqb n "cenc"))
    rootAttrs = true.
Proof. vm_compute. reflexivity. Qed.

Lemma rootAttrs_mspr :
  forallb (fun n => Bool.eqb (strings.Contains (" " ++ cencRule n ++ "=") "mspr")
                      (String.eqb (cencRule n) "mspr"))
    rootAttrs = true.
Proof. vm_compute. reflexivity. Qed.

Lemma start_trigger (l : Line) (tail X : string) :
  lineOK l = true -> inSchema (lineName l) = true -> (tail = "" \/ tail = xml.nl) ->
  isStart l = true -> existsb (String.eqb X) triggerNames = true ->
  strings.Contains (collapsed l ++ tail) (String "<" X) = String.eqb (lineName l) X.
Proof.
  intros Hok Hin Ht Hs HX. rewrite trigger_line by assumption. rewrite Hs. reflexivity.
Qed.

(** The line of the root element: the two name-space attributes are
    qualified. *)
Lemma root_line (l : Line) (tail : string) :
  lineOK l = true -> lineSchema l = true -> (tail = "" \/ tail = xml.nl) ->
  isStart l = true -> lineName l = "MPD" ->
  valuesLack keyId (lineAttrs l) = true -> dataLacks keyId l = true ->
  firstMarker "cenc" "cenc" l = true -> firstMarker "mspr" "mspr" l = true ->
  rewriteLine (lineText l ++ tail)
  = concatAll (pieces (withAttrs l "MPD"
                         (map (renameWith (fun n => msprRule (cencRule n))) (lineAttrs l)))
                 tail).
Proof.
  intros Hok Hs Ht Hstart Hname Hv Hd Hc Hm.
  destruct (lineSchema_parts l Hs) as (Hin & Hal & Hcc & Hcm).
  rewrite Hname in Hal. change (allowedAttrs "MPD") with rootAttrs in Hal.
  unfold firstMarker in Hc, Hm.
  apply andb_true_iff in Hc as [Hcb Hcd]. apply andb_true_iff in Hm as [Hmb Hmd].
  assert (Hhead : headPiece l = "<MPD") by (rewrite headPiece_start, Hname; trivial).
  assert (Hkid : hasName keyId (lineAttrs l) = false)
    by (apply (hasName_among _ _ _ Hal); reflexivity).
  (* the first rule *)
  assert (E1 : strings.Replace (collapsed l ++ tail) "cenc" "xmlns:cenc" 1
               = concatAll (pieces (withAttrs l "MPD"
                                      (map (renameWith cencRule) (lineAttrs l))) tail)).
  { rewrite <- pieces_text by assumption.
    rewrite (rule_first "cenc" "xmlns:cenc" eq_refl ltac:(discriminate) ltac:(discriminate)
               "cenc" "xmlns:cenc" l tail Ht); try assumption.
    - rewrite Hname. reflexivity.
    - rewrite Hhead. reflexivity.
    - rewrite Hname. reflexivity.
    - reflexivity.
    - exact (forallb_names _ _ _ rootAttrs_cenc Hal). }
  (* the second rule *)
  set (la := withAttrs l "MPD" (map (renameWith cencRule) (lineAttrs l))) in *.
  assert (Hren : forall n, String.eqb (cencRule n) "mspr" = String.eqb n "mspr")
    by (intros n; apply swap_named; reflexivity).
  assert (E2 : strings.Replace (concatAll (pieces la tail)) "mspr" "xmlns:mspr" 1
               = concatAll (pieces (withAttrs l "MPD"
                                      (map (renameWith (fun n => msprRule (cencRule n)))
                                         (lineAttrs l))) tail)).
  { rewrite (rule_first "mspr" "xmlns:mspr" eq_refl ltac:(discriminate) ltac:(discriminate)
               "mspr" "xmlns:mspr" la tail Ht).
    - unfold la. rewrite lineName_withAttrs, lineAttrs_withAttrs by assumption.
      rewrite withAttrs_withAttrs, renameWith_compose. reflexivity.
    - unfold la. rewrite (headPiece_withAttrs l "MPD" _ (lineAttrs l)).
      rewrite <- Hname, withAttrs_same, Hhead by assumption. reflexivity.
    - unfold la. rewrite lineName_withAttrs. reflexivity.
    - reflexivity.
    - unfold la. rewrite lineAttrs_withAttrs by assumption.
      exact (forallb_rename
               (fun n => Bool.eqb (strings.Contains (" " ++ n ++ "=") "mspr")
                           (String.eqb n "mspr"))
               cencRule rootAttrs _ rootAttrs_mspr Hal).
    - unfold la. rewrite lineAttrs_withAttrs by assumption.
      rewrite beforeMarker_rename by exact Hren. exact Hmb.
    - unfold la. rewrite lineAttrs_withAttrs by assumption.
      rewrite countNamed_rename by exact Hren. exact Hcm.
    - unfold la. rewrite lineAttrs_withAttrs, dataLacks_withAttrs by assumption.
      rewrite hasName_rename by exact Hren. exact Hmd. }
  unfold rewriteLine. rewrite selfClose_line by assumption.
  pose proof (start_trigger l tail "MPD" Hok Hin Ht Hstart eq_refl) as T1.
  pose proof (start_trigger l tail "pssh" Hok Hin Ht Hstart eq_refl) as T2.
  pose proof (start_trigger l tail "pro" Hok Hin Ht Hstart eq_refl) as T3.
  pose proof (keyId_absent l tail Hok Hs Ht Hkid Hv Hd) as T4. unfold keyId in T4.
  rewrite Hname in T1, T2, T3. cbn in T1, T2, T3.
  unfold injectMPD. rewrite T1.
  set (s2 := strings.Replace (strings.Replace (collapsed l ++ tail) "cenc" "xmlns:cenc" 1)
               "mspr" "xmlns:mspr" 1).
  assert (P2 : strings.Contains s2 "<pssh" = false)
    by (unfold s2; repeat apply Replace_absent; trivial).
  assert (P3 : strings.Contains s2 "<pro" = false)
    by (unfold s2; repeat apply Replace_absent; trivial).
  assert (P4 : strings.Contains s2 "default_KID" = false)
    by (unfold s2; repeat apply Replace_absent; trivial).
  unfold injectPssh. rewrite P2. unfold injectPro. rewrite P3.
  unfold qualifyDefaultKID. rewrite P4.
  unfold s2. rewrite E1, E2.
  apply dropEmptyTimeline_pieces; [assumption|].
  destruct l; reflexivity.
Qed.

Lemma psshAttrs_cenc :
  forallb (fun n => Bool.eqb (strings.Contains (" " ++ n ++ "=") "cenc") (String.eqb n "cenc"))
    ["cenc"] = true.
Proof. vm_compute. reflexivity. Qed.

Lemma psshAttrs_pssh :
  forallb (fun n => String.eqb (strings.Replace (" " ++ cencRule n ++ "=") "pssh" "cenc:pssh" (-1))
                      (" " ++ cencRule n ++ "=")) ["cenc"] = true.
Proof. vm_compute. reflexivity. Qed.

(** The line of a pssh element: the name-space attribute and the tag are
    qualified. *)
Lemma pssh_line (l : Line) (tail : string) :
  lineOK l = true -> lineSchema l = true -> (tail = "" \/ tail = xml.nl) ->
  isStart l = true -> lineName l = "pssh" ->
  valuesLack keyId (lineAttrs l) = true -> dataLacks keyId l = true ->
  firstMarker "cenc" "cenc" l = true ->
  valuesLack "pssh" (lineAttrs l) = true -> dataLacks "pssh" l = true ->
  rewriteLine (lineText l ++ tail)
  = concatAll (pieces (withAttrs l "cenc:pssh" (map (renameWith cencRule) (lineAttrs l)))
                 tail).
Proof.
  intros Hok Hs Ht Hstart Hname Hv Hd Hc Hpv Hpd.
  destruct (lineSchema_parts l Hs) as (Hin & Hal & Hcc & Hcm).
  rewrite Hname in Hal. change (allowedAttrs "pssh") with ["cenc"] in Hal.
  unfold firstMarker in Hc. apply andb_true_iff in Hc as [Hcb Hcd].
  assert (Hhead : headPiece l = "<pssh") by (rewrite headPiece_start, Hname; trivial).
  assert (Hkid : hasName keyId (lineAttrs l) = false)
    by (apply (hasName_among _ _ _ Hal); reflexivity).
  assert (E1 : strings.Replace (collapsed l ++ tail) "cenc" "xmlns:cenc" 1
               = concatAll (pieces (withAttrs l "pssh"
                                      (map (renameWith cencRule) (lineAttrs l))) tail)).
  { rewrite <- pieces_text by assumption.
    rewrite (rule_first "cenc" "xmlns:cenc" eq_refl ltac:(discriminate) ltac:(discriminate)
               "cenc" "xmlns:cenc" l tail Ht); try assumption.
    - rewrite Hname. reflexivity.
    - rewrite Hhead. reflexivity.
    - rewrite Hname. reflexivity.
    - reflexivity.
    - exact (forallb_names _ _ _ psshAttrs_cenc Hal). }
  set (la := withAttrs l "pssh" (map (renameWith cencRule) (lineAttrs l))) in *.
  assert (Hla : headPiece la = "<pssh").
  { unfold la. rewrite (headPiece_withAttrs l "pssh" _ (lineAttrs l)).
    rewrite <- Hname, withAttrs_same by assumption. now apply headPiece_start. }
  assert (E2 : strings.Replace (concatAll (pieces la tail)) "pssh" "cenc:pssh" (-1)
               = concatAll (pieces (withAttrs l "cenc:pssh"
                                      (map (renameWith cencRule) (lineAttrs l))) tail)).
  { rewrite (rule_all "pssh" "cenc:pssh" eq_refl ltac:(discriminate) ltac:(discriminate)
               "cenc:pssh" (fun n => n) la tail Ht).
    - unfold la. rewrite lineAttrs_withAttrs by assumption.
      rewrite withAttrs_withAttrs, renameWith_compose. reflexivity.
    - rewrite Hla. unfold la. rewrite withAttrs_withAttrs.
      rewrite headPiece_start by (destruct l; trivial).
      rewrite lineName_withAttrs. reflexivity.
    - unfold la. rewrite lineName_withAttrs. reflexivity.
    - unfold la. rewrite lineAttrs_withAttrs by assumption.
      exact (forallb_rename
               (fun n => String.eqb (strings.Replace (" " ++ n ++ "=") "pssh" "cenc:pssh" (-1))
                           (" " ++ n ++ "="))
               cencRule ["cenc"] _ psshAttrs_pssh Hal).
    - unfold la. rewrite lineAttrs_withAttrs by assumption.
      rewrite valuesLack_rename. exact Hpv.
    - unfold la. rewrite dataLacks_withAttrs. exact Hpd. }
  unfold rewriteLine. rewrite selfClose_line by assumption.
  pose proof (start_trigger l tail "MPD" Hok Hin Ht Hstart eq_refl) as T1.
  pose proof (start_trigger l tail "pssh" Hok Hin Ht Hstart eq_refl) as T2.
  pose proof (start_trigger l tail "pro" Hok Hin Ht Hstart eq_refl) as T3.
  pose proof (keyId_absent l tail Hok Hs Ht Hkid Hv Hd) as T4. unfold keyId in T4.
  rewrite Hname in T1, T2, T3. cbn in T1, T2, T3.
  unfold injectMPD. rewrite T1. unfold injectPssh. rewrite T2.
  set (s3 := strings.Replace (strings.Replace (collapsed l ++ tail) "cenc" "xmlns:cenc" 1)
               "pssh" "cenc:pssh" (-1)).
  assert (P3 : strings.Contains s3 "<pro" = false)
    by (unfold s3; repeat apply Replace_absent; trivial).
  assert (P4 : strings.Contains s3 "default_KID" = false)
    by (unfold s3; repeat apply Replace_absent; trivial).
  unfold injectPro. rewrite P3.
  unfold qualifyDefaultKID. rewrite P4.
  unfold s3. rewrite E1, E2.
  apply dropEmptyTimeline_pieces; [assumption|].
  destruct l; reflexivity.
Qed.

Lemma proAttrs_mspr :
  forallb (fun n => Bool.eqb (strings.Contains (" " ++ n ++ "=") "mspr") (String.eqb n "mspr"))
    ["mspr"] = true.
Proof. vm_compute. reflexivity. Qed.

Lemma proAttrs_pro :
  forallb (fun n => String.eqb (strings.Replace (" " ++ msprRule n ++ "=") "pro" "mspr:pro" (-1))
                      (" " ++ msprRule n ++ "=")) ["mspr"] = true.
Proof. vm_compute. reflexivity. Qed.

(** The line of a pro element. *)
Lemma pro_line (l : Line) (tail : string) :
  lineOK l = true -> lineSchema l = true -> (tail = "" \/ tail = xml.nl) ->
  isStart l = true -> lineName l = "pro" ->
  valuesLack keyId (lineAttrs l) = true -> dataLacks keyId l = true ->
  firstMarker "mspr" "mspr" l = true ->
  valuesLack "pro" (lineAttrs l) = true -> dataLacks "pro" l = true ->
  rewriteLine (lineText l ++ tail)
  = concatAll (pieces (withAttrs l "mspr:pro" (map (renameWith msprRule) (lineAttrs l)))
                 tail).
Proof.
  intros Hok Hs Ht Hstart Hname Hv Hd Hc Hpv Hpd.
  destruct (lineSchema_parts l Hs) as (Hin & Hal & Hcc & Hcm).
  rewrite Hname in Hal. change (allowedAttrs "pro") with ["mspr"] in Hal.
  unfold firstMarker in Hc. apply andb_true_iff in Hc as [Hcb Hcd].
  assert (Hhead : headPiece l = "<pro") by (rewrite headPiece_start, Hname; trivial).
  assert (Hkid : hasName keyId (lineAttrs l) = false)
    by (apply (hasName_among _ _ _ Hal); reflexivity).
  assert (E1 : strings.Replace (collapsed l ++ tail) "mspr" "xmlns:mspr" 1
               = concatAll (pieces (withAttrs l "pro"
                                      (map (renameWith msprRule) (lineAttrs l))) tail)).
  { rewrite <- pieces_text by assumption.
    rewrite (rule_first "mspr" "xmlns:mspr" eq_refl ltac:(discriminate) ltac:(discriminate)
               "mspr" "xmlns:mspr" l tail Ht); try assumption.
    - rewrite Hname. reflexivity.
    - rewrite Hhead. reflexivity.
    - rewrite Hname. reflexivity.
    - reflexivity.
    - exact (forallb_names _ _ _ proAttrs_mspr Hal). }
  set (la := withAttrs l "pro" (map (renameWith msprRule) (lineAttrs l))) in *.
  assert (Hla : headPiece la = "<pro").
  { unfold la. rewrite (headPiece_withAttrs l "pro" _ (lineAttrs l)).
    rewrite <- Hname, withAttrs_same by assumption. now apply headPiece_start. }
  assert (E2 : strings.Replace (concatAll (pieces la tail)) "pro" "mspr:pro" (-1)
               = concatAll (pieces (withAttrs l "mspr:pro"
                                      (map (renameWith msprRule) (lineAttrs l))) tail)).
  { rewrite (rule_all "pro" "mspr:pro" eq_refl ltac:(discriminate) ltac:(discriminate)
               "mspr:pro" (fun n => n) la tail Ht).
    - unfold la. rewrite lineAttrs_withAttrs by assumption.
      rewrite withAttrs_withAttrs, renameWith_compose. reflexivity.
    - rewrite Hla. unfold la. rewrite withAttrs_withAttrs.
      rewrite headPiece_start by (destruct l; trivial).
      rewrite lineName_withAttrs. reflexivity.
    - unfold la. rewrite lineName_withAttrs. reflexivity.
    - unfold la. rewrite lineAttrs_withAttrs by assumption.
      exact (forallb_rename
               (fun n => String.eqb (strings.Replace (" " ++ n ++ "=") "pro" "mspr:pro" (-1))
                           (" " ++ n ++ "="))
               msprRule ["mspr"] _ proAttrs_pro Hal).
    - unfold la. rewrite lineAttrs_withAttrs by assumption.
      rewrite valuesLack_rename. exact Hpv.
    - unfold la. rewrite dataLacks_withAttrs. exact Hpd. }
  unfold rewriteLine. rewrite selfClose_line by assumption.
  pose proof (start_trigger l tail "MPD" Hok Hin Ht Hstart eq_refl) as T1.
  pose proof (start_trigger l tail "pssh" Hok Hin Ht Hstart eq_refl) as T2.
  pose proof (start_trigger l tail "pro" Hok Hin Ht Hstart eq_refl) as T3.
  pose proof (keyId_absent l tail Hok Hs Ht Hkid Hv Hd) as T4. unfold keyId in T4.
  rewrite Hname in T1, T2, T3. cbn in T1, T2, T3.
  unfold injectMPD. rewrite T1. unfold injectPssh. rewrite T2.
  unfold injectPro. rewrite T3.
  set (s4 := strings.Replace (strings.Replace (collapsed l ++ tail) "mspr" "xmlns:mspr" 1)
               "pro" "mspr:pro" (-1)).
  assert (P4 : strings.Contains s4 "default_KID" = false)
    by (unfold s4; repeat apply Replace_absent; trivial).
  unfold qualifyDefaultKID. rewrite P4.
  unfold s4. rewrite E1, E2.
  apply dropEmptyTimeline_pieces; [assumption|].
  destruct l; reflexivity.
Qed.

Lemma protectionAttrs_key :
  forallb (fun n => String.eqb
                      (strings.Replace (" " ++ n ++ "=") "default_KID" "cenc:default_KID" (-1))
                      (" " ++ keyRule n ++ "=")) protectionAttrs = true.
Proof. vm_compute. reflexivity. Qed.

Lemma protectionAttrs_cenc :
  forallb (fun n => String.eqb
                      (strings.Replace (" " ++ keyRule n ++ "=") "cenc=" "xmlns:cenc=" (-1))
                      (" " ++ cencRule (keyRule n) ++ "=")) protectionAttrs = true.
Proof. vm_compute. reflexivity. Qed.

Lemma attrs_present (pat m : string) (attrs : list xml.Attr) :
  strings.Contains (" " ++ m ++ "=") pat = true ->
  hasName m attrs = true ->
  existsb (fun p => strings.Contains p pat) (attrsPieces attrs) = true.
Proof.
  intros Hm H. unfold hasName in H. apply existsb_exists in H as (a & Hin & Ha).
  unfold named in Ha. apply String.eqb_eq in Ha.
  apply existsb_exists. exists (" " ++ attrName a ++ "="). split.
  - unfold attrsPieces. apply in_flat_map. exists a. split; [exact Hin|left; reflexivity].
  - rewrite Ha. exact Hm.
Qed.

(** The line of a ContentProtection with a key id: the key id and the
    name-space attribute are qualified. *)
Lemma protection_line (l : Line) (tail : string) :
  lineOK l = true -> lineSchema l = true -> (tail = "" \/ tail = xml.nl) ->
  isStart l = true -> lineName l = "ContentProtection" ->
  hasName keyId (lineAttrs l) = true ->
  valuesLack keyId (lineAttrs l) = true -> dataLacks keyId l = true ->
  valuesLack "cenc=" (lineAttrs l) = true -> dataLacks "cenc=" l = true ->
  rewriteLine (lineText l ++ tail)
  = concatAll (pieces (withAttrs l "ContentProtection"
                         (map (renameWith (fun n => cencRule (keyRule n))) (lineAttrs l)))
                 tail).
Proof.
  intros Hok Hs Ht Hstart Hname Hkid Hv Hd Hcv Hcd.
  destruct (lineSchema_parts l Hs) as (Hin & Hal & Hcc & Hcm).
  rewrite Hname in Hal. change (allowedAttrs "ContentProtection") with protectionAttrs in Hal.
  assert (Hhead : headPiece l = "<ContentProtection")
    by (rewrite headPiece_start, Hname; trivial).
  assert (E1 : strings.Replace (collapsed l ++ tail) "default_KID" "cenc:default_KID" (-1)
               = concatAll (pieces (withAttrs l "ContentProtection"
                                      (map (renameWith keyRule) (lineAttrs l))) tail)).
  { rewrite <- pieces_text by assumption.
    rewrite (rule_all "default_KID" "cenc:default_KID" eq_refl ltac:(discriminate)
               ltac:(discriminate) "ContentProtection" keyRule l tail Ht); try assumption.
    - reflexivity.
    - rewrite Hhead. rewrite headPiece_start by (destruct l; trivial).
      rewrite lineName_withAttrs. reflexivity.
    - rewrite Hname. reflexivity.
    - exact (forallb_names _ _ _ protectionAttrs_key Hal). }
  set (la := withAttrs l "ContentProtection" (map (renameWith keyRule) (lineAttrs l))) in *.
  assert (Hla : headPiece la = "<ContentProtection").
  { unfold la. rewrite (headPiece_withAttrs l "ContentProtection" _ (lineAttrs l)).
    rewrite <- Hname, withAttrs_same by assumption. now apply headPiece_start. }
  assert (E2 : strings.Replace (concatAll (pieces la tail)) "cenc=" "xmlns:cenc=" (-1)
               = concatAll (pieces (withAttrs l "ContentProtection"
                                      (map (renameWith (fun n => cencRule (keyRule n)))
                                         (lineAttrs l))) tail)).
  { rewrite (rule_all "cenc=" "xmlns:cenc=" eq_refl ltac:(discriminate) ltac:(discriminate)
               "ContentProtection" cencRule la tail Ht).
    - unfold la. rewrite lineAttrs_withAttrs by assumption.
      rewrite withAttrs_withAttrs, renameWith_compose. reflexivity.
    - rewrite Hla. unfold la. rewrite withAttrs_withAttrs.
      rewrite headPiece_start by (destruct l; trivial).
      rewrite lineName_withAttrs. reflexivity.
    - unfold la. rewrite lineName_withAttrs. reflexivity.
    - unfold la. rewrite lineAttrs_withAttrs by assumption.
      exact (forallb_rename
               (fun n => String.eqb
                           (strings.Replace (" " ++ n ++ "=") "cenc=" "xmlns:cenc=" (-1))
                           (" " ++ cencRule n ++ "="))
               keyRule protectionAttrs _ protectionAttrs_cenc Hal).
    - unfold la. rewrite lineAttrs_withAttrs by assumption.
      rewrite valuesLack_rename. exact Hcv.
    - unfold la. rewrite dataLacks_withAttrs. exact Hcd. }
  unfold rewriteLine. rewrite selfClose_line by assumption.
  pose proof (start_trigger l tail "MPD" Hok Hin Ht Hstart eq_refl) as T1.
  pose proof (start_trigger l tail "pssh" Hok Hin Ht Hstart eq_refl) as T2.
  pose proof (start_trigger l tail "pro" Hok Hin Ht Hstart eq_refl) as T3.
  rewrite Hname in T1, T2, T3. cbn in T1, T2, T3.
  unfold injectMPD. rewrite T1. unfold injectPssh. rewrite T2.
  unfold injectPro. rewrite T3.
  assert (T4 : strings.Contains (collapsed l ++ tail) "default_KID" = true).
  { rewrite <- pieces_text by assumption.
    rewrite Contains_pieces by (try reflexivity; try discriminate; now apply delimited_pieces).
    unfold pieces. rewrite !existsb_app.
    rewrite (attrs_present "default_KID" keyId _ eq_refl Hkid).
    rewrite orb_true_r. reflexivity. }
  unfold qualifyDefaultKID. rewrite T4.
  rewrite E1, E2.
  apply dropEmptyTimeline_pieces; [assumption|].
  destruct l; reflexivity.
Qed.

(** *** Every line *)

Definition renameElem (name : string) : string :=
  if String.eqb name "pssh" then "cenc:pssh"
  else if String.eqb name "pro" then "mspr:pro"
  else name.

Definition attrRule (name : string) (attrs : list xml.Attr) : string -> string :=
  if String.eqb name "MPD" then fun n => msprRule (cencRule n)
  else if String.eqb name "pssh" then cencRule
  else if String.eqb name "pro" then msprRule
  else if hasName keyId attrs then fun n => cencRule (keyRule n)
  else fun n => n.

(** The line the rules make of a line. *)
Definition renameLine (l : Line) : Line :=
  match l with
  | LOpen d name attrs =>
      LOpen d (renameElem name) (map (renameWith (attrRule name attrs)) attrs)
  | LLeaf d name attrs data =>
      LLeaf d (renameElem name) (map (renameWith (attrRule name attrs)) attrs) data
  | LClose d name => LClose d (renameElem name)
  end.

(** What a document must keep to for the rules to touch the names of
    its lines only: no text holds [default_KID]; on the line of the root
    the first [cenc] and the first [mspr] are the names of the two
    name-space attributes, if there is any; so it is with [cenc] on the
    line of a pssh and with [mspr] on the line of a pro, whose other texts
    lack [pssh] and [pro]; next to a key id no text holds [cenc=]; and no
    timeline is empty. *)
Definition lineCond (l : Line) : bool :=
  valuesLack keyId (lineAttrs l) && dataLacks keyId l
  && negb (isEmptyTimeline l)
  && (if isStart l then
        if String.eqb (lineName l) "MPD"
        then firstMarker "cenc" "cenc" l && firstMarker "mspr" "mspr" l
        else if String.eqb (lineName l) "pssh"
        then firstMarker "cenc" "cenc" l
             && valuesLack "pssh" (lineAttrs l) && dataLacks "pssh" l
        else if String.eqb (lineName l) "pro"
        then firstMarker "mspr" "mspr" l
             && valuesLack "pro" (lineAttrs l) && dataLacks "pro" l
        else if hasName keyId (lineAttrs l)
        then valuesLack "cenc=" (lineAttrs l) && dataLacks "cenc=" l
        else true
      else true).

(** ** What the rules make of every line *)

Lemma swap_nonempty (m m' n : string) : m' <> "" -> n <> "" -> swap m m' n <> "".
Proof. intros Hm Hn. unfold swap. now destruct (String.eqb n m). Qed.

Lemma attrRule_nonempty (name : string) (attrs : list xml.Attr) (n : string) :
  n <> "" -> attrRule name attrs n <> "".
Proof.
  intros Hn. unfold attrRule, cencRule, msprRule, keyRule.
  destruct (String.eqb name "MPD"); [|destruct (String.eqb name "pssh");
    [|destruct (String.eqb name "pro"); [|destruct (hasName keyId attrs)]]];
    repeat (apply swap_nonempty; [discriminate|]); exact Hn.
Qed.

Lemma lineOK_attrs (l : Line) : lineOK l = true -> forallb attrOK (lineAttrs l) = true.
Proof.
  destruct l as [d name attrs|d name attrs data|d name]; cbn [lineOK lineAttrs]; intros H;
    [apply andb_true_iff in H as [_ H]; exact H
    |apply andb_true_iff in H as [_ H]; exact H|reflexivity].
Qed.

Lemma attrsNamed_rename (rho : string -> string) (attrs : list xml.Attr) :
  (forall n, n <> "" -> rho n <> "") -> forallb attrOK attrs = true ->
  attrsNamed (map (renameWith rho) attrs) = true.
Proof.
  intros Hrho. induction attrs as [|a attrs IH]; [reflexivity|].
  cbn [forallb map]. intros H. apply andb_true_iff in H as [Ha H].
  unfold attrsNamed in *. cbn [forallb]. rewrite IH by assumption.
  rewrite andb_true_r. apply negb_true_iff.
  change (attrName (renameWith rho a)) with (rho (attrName a)).
  apply String.eqb_neq. apply Hrho.
  unfold attrOK in Ha. apply andb_true_iff in Ha as [Ha _].
  apply negb_true_iff in Ha. apply String.eqb_neq in Ha. exact Ha.
Qed.

Lemma renameLine_start (l : Line) :
  renameLine l
  = withAttrs l (renameElem (lineName l))
      (map (renameWith (attrRule (lineName l) (lineAttrs l))) (lineAttrs l)).
Proof. destruct l; reflexivity. Qed.

Lemma map_renameWith_id (attrs : list xml.Attr) :
  map (renameWith (fun n => n)) attrs = attrs.
Proof.
  induction attrs as [|a attrs IH]; [reflexivity|].
  cbn [map]. rewrite IH. f_equal. now apply renameWith_id.
Qed.

Lemma lineAttrs_renameLine (l : Line) :
  lineAttrs (renameLine l)
  = map (renameWith (attrRule (lineName l) (lineAttrs l))) (lineAttrs l).
Proof. destruct l; reflexivity. Qed.

Lemma renamed_collapsed (l : Line) (tail : string) :
  lineOK l = true ->
  concatAll (pieces (renameLine l) tail) = collapsed (renameLine l) ++ tail.
Proof.
  intros Hok. apply pieces_collapsed. rewrite lineAttrs_renameLine.
  apply attrsNamed_rename; [apply attrRule_nonempty|now apply lineOK_attrs].
Qed.

(** The rules make of the text of a line the text of the renamed line. *)
Lemma R_line (l : Line) (tail : string) :
  lineOK l = true -> lineSchema l = true -> lineCond l = true ->
  (tail = "" \/ tail = xml.nl) ->
  rewriteLine (lineText l ++ tail) = collapsed (renameLine l) ++ tail.
Proof.
  intros Hok Hs Hc Ht.
  rewrite <- renamed_collapsed by assumption.
  unfold lineCond in Hc.
  apply andb_true_iff in Hc as [Hc Hk]. apply andb_true_iff in Hc as [Hc He].
  apply andb_true_iff in Hc as [Hv Hd]. apply negb_true_iff in He.
  destruct (lineSchema_parts l Hs) as (Hin & Hal & _ & _).
  rewrite renameLine_start.
  destruct (isStart l) eqn:Hstart.
  - destruct (String.eqb_spec (lineName l) "MPD") as [Hn|Hn1].
    { apply andb_true_iff in Hk as [H1 H2].
      rewrite Hn. change (renameElem "MPD") with "MPD".
      change (attrRule "MPD" (lineAttrs l)) with (fun n => msprRule (cencRule n)).
      now apply root_line. }
    destruct (String.eqb_spec (lineName l) "pssh") as [Hn|Hn2].
    { apply andb_true_iff in Hk as [H1 H3]. apply andb_true_iff in H1 as [H1 H2].
      rewrite Hn. change (renameElem "pssh") with "cenc:pssh".
      change (attrRule "pssh" (lineAttrs l)) with cencRule.
      now apply pssh_line. }
    destruct (String.eqb_spec (lineName l) "pro") as [Hn|Hn3].
    { apply andb_true_iff in Hk as [H1 H3]. apply andb_true_iff in H1 as [H1 H2].
      rewrite Hn. change (renameElem "pro") with "mspr:pro".
      change (attrRule "pro" (lineAttrs l)) with msprRule.
      now apply pro_line. }
    assert (Hre : renameElem (lineName l) = lineName l).
    { unfold renameElem.
      rewrite (proj2 (String.eqb_neq _ _) Hn2), (proj2 (String.eqb_neq _ _) Hn3).
      reflexivity. }
    assert (Hru : attrRule (lineName l) (lineAttrs l)
                  = if hasName keyId (lineAttrs l) then fun n => cencRule (keyRule n)
                    else fun n => n).
    { unfold attrRule.
      rewrite (proj2 (String.eqb_neq _ _) Hn1), (proj2 (String.eqb_neq _ _) Hn2),
        (proj2 (String.eqb_neq _ _) Hn3). reflexivity. }
    rewrite Hre, Hru.
    destruct (hasName keyId (lineAttrs l)) eqn:Hkid.
    + apply andb_true_iff in Hk as [H1 H2].
      destruct (String.eqb_spec (lineName l) "ContentProtection") as [Hn|Hn4].
      * rewrite Hn. now apply protection_line.
      * exfalso. unfold allowedAttrs in Hal.
        rewrite (proj2 (String.eqb_neq _ _) Hn1), (proj2 (String.eqb_neq _ _) Hn2),
          (proj2 (String.eqb_neq _ _) Hn3), (proj2 (String.eqb_neq _ _) Hn4) in Hal.
        rewrite (hasName_among keyId plainAttrs _ Hal eq_refl) in Hkid. discriminate.
    + rewrite map_renameWith_id, withAttrs_same by assumption.
      rewrite pieces_collapsed
        by (rewrite <- (map_renameWith_id (lineAttrs l));
            apply attrsNamed_rename; [auto|now apply lineOK_attrs]).
      apply plain_line; try assumption.
      rewrite Hstart. cbn [andb existsb triggerNames].
      rewrite (proj2 (String.eqb_neq _ _) Hn1), (proj2 (String.eqb_neq _ _) Hn2),
        (proj2 (String.eqb_neq _ _) Hn3). reflexivity.
  - destruct l as [d name attrs|d name attrs data|d name]; try discriminate.
    cbn [lineName lineAttrs withAttrs map] in *.
    destruct (lineSchema_leaf _ Hs) as [Hl|[Hn2 Hn3]]; [discriminate|].
    cbn [lineName] in Hn2, Hn3.
    assert (Hre : renameElem name = name).
    { unfold renameElem.
      rewrite (proj2 (String.eqb_neq _ _) Hn2), (proj2 (String.eqb_neq _ _) Hn3).
      reflexivity. }
    rewrite Hre. rewrite pieces_collapsed by reflexivity.
    apply plain_line; try assumption; reflexivity.
Qed.

(** ** What the rules make of a document *)

(** The tree whose lines are the rewritten lines. *)
Fixpoint renameNode (n : xml.Node) : xml.Node :=
  match n with
  | xml.CharData data => xml.CharData data
  | xml.Element name attrs children =>
      xml.Element (renameElem name) (map (renameWith (attrRule name attrs)) attrs)
        (map renameNode children)
  end.

Lemma nodeLines_rename (n : xml.Node) :
  forall d, nodeLines d (renameNode n) = map renameLine (nodeLines d n).
Proof.
  induction n as [name attrs kids IH|data] using Node_ind'; [|reflexivity].
  intros d.
  assert (Hk : forall d', flat_map (nodeLines d') (map renameNode kids)
                          = map renameLine (flat_map (nodeLines d') kids)).
  { intros d'. clear -IH. induction kids as [|k kids IHk]; [reflexivity|].
    cbn [map flat_map]. rewrite map_app, (IH k (or_introl eq_refl)), IHk; [reflexivity|].
    intros k' Hin. apply IH. now right. }
  destruct kids as [|[n1 a1 k1|d1] [|k2 kids]]; try reflexivity.
  - specialize (Hk (S d)). cbn [renameNode map] in *. cbn [nodeLines].
    rewrite Hk. cbn [map]. rewrite map_app. reflexivity.
  - specialize (Hk (S d)). cbn [renameNode map] in *. cbn [nodeLines].
    rewrite Hk. cbn [map]. rewrite map_app. reflexivity.
  - specialize (Hk (S d)). cbn [renameNode map] in *. cbn [nodeLines].
    rewrite Hk. cbn [map]. rewrite map_app. reflexivity.
Qed.

Lemma isElement_rename (n : xml.Node) : isElement (renameNode n) = isElement n.
Proof. destruct n; reflexivity. Qed.

Lemma forallb_map_ext {A B : Type} (P : B -> bool) (Q : A -> bool) (f : A -> B)
  (l : list A) :
  (forall x, In x l -> P (f x) = Q x) -> forallb P (map f l) = forallb Q l.
Proof.
  induction l as [|x l IH]; intros H; [reflexivity|].
  cbn [map forallb]. rewrite H by now left. rewrite IH; [reflexivity|].
  intros y Hy. apply H. now right.
Qed.

Lemma wellShaped_rename (n : xml.Node) : wellShaped (renameNode n) = wellShaped n.
Proof.
  induction n as [name attrs kids IH|data] using Node_ind'; [|reflexivity].
  assert (H1 : forallb isElement (map renameNode kids) = forallb isElement kids)
    by (apply forallb_map_ext; intros; apply isElement_rename).
  assert (H2 : forallb wellShaped (map renameNode kids) = forallb wellShaped kids)
    by (apply forallb_map_ext; exact IH).
  destruct kids as [|[n1 a1 k1|d1] [|k2 kids]]; try reflexivity;
    cbn [renameNode map] in *; cbn [wellShaped]; now rewrite H1, H2.
Qed.

Definition goodLine (l : Line) : bool := lineOK l && lineSchema l && lineCond l.

(** The loop of [Encode] writes the lines of the renamed tree. *)
Lemma rewrite_lines (ls : list Line) :
  ls <> [] -> forallb goodLine ls = true ->
  concatAll (map rewriteLine (terminated (map lineText ls))) ++ xml.nl
  = concatAll (map lineEnd (map renameLine ls)).
Proof.
  induction ls as [|l ls IH]; [congruence|]. intros _ H.
  cbn [forallb] in H. apply andb_true_iff in H as [Hl H].
  unfold goodLine in Hl. apply andb_true_iff in Hl as [Hl Hc].
  apply andb_true_iff in Hl as [Hok Hs].
  destruct ls as [|l' ls].
  - cbn [map terminated concatAll]. rewrite <- (app_nil_r (lineText l)).
    rewrite R_line by auto. unfold lineEnd. rewrite !app_nil_r. reflexivity.
  - change (terminated (map lineText (l :: l' :: ls)))
      with ((lineText l ++ xml.nl) :: terminated (map lineText (l' :: ls))).
    specialize (IH ltac:(discriminate) H).
    remember (l' :: ls) as rest eqn:Hrest.
    cbn [map concatAll]. rewrite app_assoc, IH.
    rewrite R_line by auto. reflexivity.
Qed.

(** [Encode] on a document whose lines the rules rename only. *)
Lemma Encode_renamed (m : MPD) :
  forallb goodLine (docLines m) = true ->
  Encode m
  = Ok ((xmlHeader ++ xml.nl)
        ++ concatAll (map lineEnd (nodeLines 0 (renameNode (marshal.mpd m))))).
Proof.
  intros H. rewrite Encode_inputLines. unfold inputLines.
  rewrite rewrite_lines; [|now apply nodeLines_nonempty|assumption].
  rewrite nodeLines_rename. reflexivity.
Qed.

(** ** The schema of the trees the marshaller builds *)

Definition leafShape (kids : list xml.Node) : bool :=
  match kids with
  | [] => true
  | [xml.CharData _] => true
  | _ => false
  end.

Definition elemSchema (name : string) (attrs : list xml.Attr) (leaf : bool) : bool :=
  inSchema name
  && forallb (among (allowedAttrs name)) attrs
  && (countNamed "cenc" attrs <=? 1)%nat
  && (countNamed "mspr" attrs <=? 1)%nat
  && (leaf || negb (existsb (String.eqb name) ["pssh"; "pro"])).

Fixpoint nodeSchema (n : xml.Node) : bool :=
  match n with
  | xml.CharData _ => true
  | xml.Element name attrs kids =>
      elemSchema name attrs (leafShape kids) && forallb nodeSchema kids
  end.

Lemma elemSchema_close (name : string) (attrs : list xml.Attr) :
  elemSchema name attrs false = true -> elemSchema name [] false = true.
Proof.
  unfold elemSchema. intros H.
  apply andb_true_iff in H as [H H5].
  repeat (apply andb_true_iff in H; destruct H as [H ?]).
  rewrite H, H5. reflexivity.
Qed.

Lemma nodeLines_schema (n : xml.Node) :
  nodeSchema n = true -> forall d, forallb lineSchema (nodeLines d n) = true.
Proof.
  induction n as [name attrs kids IH|data] using Node_ind'; [|reflexivity].
  intros H d. cbn [nodeSchema] in H. apply andb_true_iff in H as [H1 H2].
  assert (Hk : forall d', forallb lineSchema (flat_map (nodeLines d') kids) = true).
  { intros d'. clear -IH H2. induction kids as [|k kids IHk]; [reflexivity|].
    cbn [forallb] in H2. apply andb_true_iff in H2 as [Hk Hks].
    cbn [flat_map]. rewrite forallb_app, (IH k (or_introl eq_refl) Hk), IHk; auto.
    intros k' Hin. apply IH. now right. }
  destruct kids as [|[n1 a1 k1|d1] [|k2 kids]];
    cbn [nodeLines]; cbn [forallb]; rewrite ?forallb_app, ?Hk; cbn [forallb leafShape] in *;
    rewrite ?andb_true_r;
    try exact H1;
    (apply andb_true_intro; split; [exact H1|exact (elemSchema_close _ _ H1)]).
Qed.

(** *** The attributes the marshaller writes *)

Lemma countNamed_app (m : string) (a b : list xml.Attr) :
  countNamed m (a ++ b) = (countNamed m a + countNamed m b)%nat.
Proof. unfold countNamed. now rewrite filter_app, List.length_app. Qed.

Lemma countNamed_other (m n : string) (v : option string) :
  String.eqb n m = false -> countNamed m (marshal.strAttr n v) = 0%nat.
Proof.
  intros H. destruct v as [s|]; [|reflexivity].
  unfold countNamed, marshal.strAttr, named, attrName, xml.attr. cbn. now rewrite H.
Qed.

Lemma countNamed_cond (m n : string) (c : ConditionalUint.t) :
  String.eqb n m = false -> countNamed m (marshal.condAttr n c) = 0%nat.
Proof.
  intros H. unfold marshal.condAttr, ConditionalUint.MarshalXMLAttr.
  destruct c as [[u|] [b|]]; cbn;
    try (destruct (String.eqb n ""); [reflexivity|]);
    unfold countNamed, named, attrName; cbn; now rewrite ?H.
Qed.

Lemma countNamed_single (m n v : string) :
  String.eqb n m = false -> countNamed m [xml.attr n v] = 0%nat.
Proof. exact (fun H => countNamed_other m n (Some v) H). Qed.

Lemma nodeSchema_intro (name : string) (attrs : list xml.Attr) (kids : list xml.Node) :
  elemSchema name attrs (leafShape kids) = true -> forallb nodeSchema kids = true ->
  nodeSchema (xml.Element name attrs kids) = true.
Proof. intros H1 H2. cbn [nodeSchema]. now rewrite H1, H2. Qed.

(** An element that is neither pssh nor pro. *)
Lemma elemSchema_intro (name : string) (attrs : list xml.Attr) (leaf : bool) :
  inSchema name = true -> existsb (String.eqb name) ["pssh"; "pro"] = false ->
  forallb (among (allowedAttrs name)) attrs = true ->
  (countNamed "cenc" attrs <= 1)%nat -> (countNamed "mspr" attrs <= 1)%nat ->
  elemSchema name attrs leaf = true.
Proof.
  intros H1 H2 H3 H4 H5. unfold elemSchema.
  rewrite H1, H2, H3, (proj2 (Nat.leb_le _ _) H4), (proj2 (Nat.leb_le _ _) H5).
  now rewrite orb_true_r.
Qed.

Ltac count_attrs :=
  unfold marshal.uintAttr, marshal.intAttr, marshal.boolAttr;
  rewrite ?countNamed_app;
  repeat match goal with
         | |- context [countNamed ?m (marshal.strAttr ?n ?v)] =>
             rewrite (countNamed_other m n v) by reflexivity
         end;
  rewrite ?countNamed_cond by reflexivity;
  rewrite ?countNamed_single by reflexivity;
  repeat match goal with
         | |- context [marshal.strAttr _ ?v] =>
             lazymatch v with
             | Some _ => fail
             | None => fail
             | _ => destruct v
             end
         end;
  cbn; lia.

Ltac in_schema :=
  apply nodeSchema_intro;
  [apply elemSchema_intro;
   [reflexivity|reflexivity|forest (among plainAttrs)|count_attrs|count_attrs]
  |forest nodeSchema].

Lemma schema_event e : nodeSchema (marshal.event e) = true.
Proof. in_schema. Qed.

Lemma schema_eventStream e : nodeSchema (marshal.eventStream e) = true.
Proof. in_schema; auto using schema_event. Qed.

Lemma schema_programEventStream e : nodeSchema (marshal.programEventStream e) = true.
Proof. in_schema; auto using schema_event. Qed.

Lemma schema_pssh p : nodeSchema (marshal.pssh p) = true.
Proof. destruct p as [[v|] [c|]]; reflexivity. Qed.

Lemma schema_pro p : nodeSchema (marshal.pro p) = true.
Proof. destruct p as [[v|] [c|]]; reflexivity. Qed.

Lemma schema_contentProtection c : nodeSchema (marshal.contentProtection c) = true.
Proof. in_schema; auto using schema_pssh, schema_pro. Qed.

Lemma schema_segment s : nodeSchema (marshal.segment s) = true.
Proof. in_schema. Qed.

Lemma schema_segmentTimeline t : nodeSchema (marshal.segmentTimeline t) = true.
Proof. in_schema; auto using schema_segment. Qed.

Lemma schema_segmentTemplate t : nodeSchema (marshal.segmentTemplate t) = true.
Proof. in_schema; auto using schema_segmentTimeline. Qed.

Lemma schema_audio a : nodeSchema (marshal.audioChannelConfiguration a) = true.
Proof. in_schema. Qed.

Lemma schema_descriptor d : nodeSchema (marshal.descriptor "SupplementalProperty" d) = true.
Proof. in_schema. Qed.

Lemma schema_representation r : nodeSchema (marshal.representation r) = true.
Proof.
  in_schema; auto using schema_contentProtection, schema_segmentTemplate, schema_audio.
Qed.

Lemma schema_adaptationSet a : nodeSchema (marshal.adaptationSet a) = true.
Proof.
  in_schema;
    auto using schema_contentProtection, schema_segmentTemplate, schema_representation.
Qed.

Lemma schema_period p : nodeSchema (marshal.period p) = true.
Proof.
  in_schema;
    auto using schema_eventStream, schema_programEventStream, schema_adaptationSet,
      schema_descriptor.
Qed.

Lemma schema_mpd m : nodeSchema (marshal.mpd m) = true.
Proof. in_schema; auto using schema_period. Qed.

Lemma docLines_schema (m : MPD) : forallb lineSchema (docLines m) = true.
Proof. apply nodeLines_schema, schema_mpd. Qed.

(** ** strconv: numerals read back *)

Lemma digitChar_byte (d : N) : (d < 10)%N -> byteOf (strconv.digitChar d) = (48 + d)%N.
Proof.
  intros H. unfold byteOf, strconv.digitChar. apply N_ascii_embedding. lia.
Qed.

Lemma decimalValue_app (s t : string) :
  forall acc, decimalValue (s ++ t) acc = decimalValue t (decimalValue s acc).
Proof. induction s as [|c s IH]; intros acc; [reflexivity|]. cbn. apply IH. Qed.

Lemma allDigits_app (s t : string) : allDigits (s ++ t) = allDigits s && allDigits t.
Proof.
  induction s as [|c s IH]; [reflexivity|]. cbn. now rewrite IH, andb_assoc.
Qed.

Lemma isDigit_digitChar (d : N) : (d < 10)%N -> isDigit (strconv.digitChar d) = true.
Proof.
  intros H. unfold isDigit. rewrite digitChar_byte by assumption.
  apply inRange_spec. lia.
Qed.

(** The digits [formatBits] writes before the buffer it is given. *)
Lemma formatBits_digits (fuel : nat) :
  forall u a, (u < 10 ^ N.of_nat (S fuel))%N ->
  exists s, strconv.formatBits (S fuel) u a = s ++ a
            /\ s <> "" /\ allDigits s = true /\ decimalValue s 0 = u.
Proof.
  induction fuel as [|fuel IH]; intros u a Hu.
  - change (10 ^ N.of_nat 1)%N with 10%N in Hu.
    cbn [strconv.formatBits]. rewrite (proj2 (N.leb_gt 10 u) Hu).
    exists (String (strconv.digitChar u) ""). repeat split.
    + discriminate.
    + cbn. now rewrite isDigit_digitChar.
    + cbn [decimalValue]. rewrite digitChar_byte by assumption. lia.
  - change (strconv.formatBits (S (S fuel)) u a)
      with (if (10 <=? u)%N
            then strconv.formatBits (S fuel) (u / 10)
                   (String (strconv.digitChar (u - (u / 10) * 10)) a)
            else String (strconv.digitChar u) a).
    destruct (10 <=? u)%N eqn:E.
    + apply N.leb_le in E.
      assert (Hd : (u / 10 < 10 ^ N.of_nat (S fuel))%N).
      { apply N.Div0.div_lt_upper_bound.
        replace (10 * 10 ^ N.of_nat (S fuel))%N with (10 ^ N.of_nat (S (S fuel)))%N; [exact Hu|].
        rewrite (Nat2N.inj_succ (S fuel)), N.pow_succ_r'. reflexivity. }
      destruct (IH (u / 10)%N (String (strconv.digitChar (u - u / 10 * 10)) a) Hd)
        as (s & Hs & Hne & Hall & Hval).
      pose proof (N.Div0.div_mod u 10) as Hdm.
      pose proof (N.mod_lt u 10 ltac:(lia)) as Hm.
      assert (Hr : (u - u / 10 * 10 < 10)%N).
      { clear -Hdm Hm. generalize dependent (u / 10)%N. generalize dependent (u mod 10)%N.
        intros r Hr q Hq. lia. }
      exists (s ++ String (strconv.digitChar (u - u / 10 * 10)) ""). repeat split.
      * rewrite Hs. strassoc.
      * destruct s; [congruence|discriminate].
      * rewrite allDigits_app, Hall. cbn. now rewrite isDigit_digitChar.
      * rewrite decimalValue_app, Hval. cbn [decimalValue].
        rewrite digitChar_byte by assumption.
        clear -Hdm Hm. generalize dependent (u / 10)%N. generalize dependent (u mod 10)%N.
        intros r Hr q Hq. lia.
    + apply N.leb_gt in E.
      exists (String (strconv.digitChar u) ""). repeat split.
      * discriminate.
      * cbn. now rewrite isDigit_digitChar.
      * cbn [decimalValue]. rewrite digitChar_byte by assumption. lia.
Qed.

(** [FormatUint] writes the decimal numeral of a 64-bit number. *)
Lemma FormatUint_digits (u : N) :
  (u <= strconv.maxUint64)%N ->
  strconv.FormatUint u <> "" /\ allDigits (strconv.FormatUint u) = true
  /\ decimalValue (strconv.FormatUint u) 0 = u.
Proof.
  intros Hu. unfold strconv.FormatUint.
  destruct (formatBits_digits 19 u "") as (s & Hs & Hne & Hall & Hval).
  { unfold strconv.maxUint64 in Hu. change (10 ^ N.of_nat 20)%N with 100000000000000000000%N.
    lia. }
  rewrite Hs, app_nil_r. auto.
Qed.

(** The loop of [ParseUint] on digits whose value fits. *)
Lemma parseUintLoop_digits (maxVal : N) (s : string) :
  (maxVal <= strconv.maxUint64)%N ->
  forall n, allDigits s = true -> (decimalValue s n <= maxVal)%N ->
  strconv.parseUintLoop 10 maxVal s n = Ok (decimalValue s n).
Proof.
  intros Hmax. induction s as [|c s IH]; intros n Hall Hval; [reflexivity|].
  cbn [allDigits] in Hall. apply andb_true_iff in Hall as [Hc Hall].
  cbn [decimalValue] in *. cbn [strconv.parseUintLoop].
  unfold isDigit in Hc. rewrite Hc. apply inRange_spec in Hc.
  assert (Hlt : (10 <=? byteOf c - 48)%N = false) by (apply N.leb_gt; lia).
  rewrite Hlt.
  change (strconv.maxUint64 / 10 + 1)%N with 1844674407370955162%N.
  change (N.pos (2 ^ 64)) with 18446744073709551616%N.
  pose proof (decimalValue_ge s (n * 10 + (byteOf c - 48))) as Hge.
  unfold strconv.maxUint64 in *.
  assert (H1 : (1844674407370955162 <=? n)%N = false) by (apply N.leb_gt; lia).
  rewrite H1.
  rewrite N.mod_small by lia.
  assert (H2 : ((n * 10 + (byteOf c - 48) <? n * 10)
                || (maxVal <? n * 10 + (byteOf c - 48)))%N = false).
  { apply orb_false_iff; split; apply N.ltb_ge; lia. }
  rewrite H2. now apply IH.
Qed.

(** [ParseUint] reads back what [FormatUint] wrote, when the number fits
    the bit size. *)
Lemma ParseUint_FormatUint (u bits : N) :
  (bits <= 64)%N -> (u < 2 ^ bits)%N ->
  strconv.ParseUint (strconv.FormatUint u) bits = Ok u.
Proof.
  intros Hb Hu.
  assert (Hp : (2 ^ bits <= 2 ^ 64)%N) by (apply N.pow_le_mono_r; lia).
  change (2 ^ 64)%N with 18446744073709551616%N in Hp.
  destruct (FormatUint_digits u) as (Hne & Hall & Hval).
  { unfold strconv.maxUint64. lia. }
  unfold strconv.ParseUint, strconv.ParseUintBase.
  destruct (strconv.FormatUint u) as [|c s] eqn:E; [congruence|].
  rewrite parseUintLoop_digits; rewrite ?Hval; try assumption; try reflexivity.
  - unfold strconv.maxUint64. lia.
  - lia.
Qed.

Lemma digit_not_sign (c : ascii) :
  isDigit c = true -> Ascii.eqb c "+" = false /\ Ascii.eqb c "-" = false.
Proof.
  unfold isDigit. intros H. apply inRange_spec in H.
  split; apply Ascii.eqb_neq; intros ->; cbn in H; lia.
Qed.

(** [ParseInt] reads back what [FormatInt] wrote for a 64-bit integer. *)
Lemma ParseInt_FormatInt (i : Z) :
  (- 2 ^ 63 <= i < 2 ^ 63)%Z ->
  strconv.ParseInt (strconv.FormatInt i) 64 = Ok i.
Proof.
  intros Hi. unfold strconv.FormatInt.
  change (2 ^ 63)%Z with 9223372036854775808%Z in Hi.
  destruct (i <? 0)%Z eqn:E.
  - apply Z.ltb_lt in E.
    cbn [strconv.ParseInt]. change (Ascii.eqb "-" "-") with true.
    change (Ascii.eqb "-" "+") with false. cbn [orb negb andb].
    rewrite ParseUint_FormatUint; [|lia|].
    + change (2 ^ (64 - 1))%N with 9223372036854775808%N.
      assert (H : (9223372036854775808 <? Z.to_N (- i))%N = false)
        by (apply N.ltb_ge; lia).
      rewrite H. f_equal. lia.
    + change (2 ^ 64)%N with 18446744073709551616%N. lia.
  - apply Z.ltb_ge in E.
    destruct (FormatUint_digits (Z.to_N i)) as (Hne & Hall & Hval).
    { unfold strconv.maxUint64. lia. }
    pose proof (ParseUint_FormatUint (Z.to_N i) 64 ltac:(lia)) as Hp.
    destruct (strconv.FormatUint (Z.to_N i)) as [|c s] eqn:Ef; [congruence|].
    cbn [allDigits] in Hall. apply andb_true_iff in Hall as [Hc _].
    destruct (digit_not_sign c Hc) as [Hplus Hminus].
    cbn [strconv.ParseInt]. rewrite Hplus, Hminus. cbn [orb negb andb].
    rewrite Hp.
    + change (2 ^ (64 - 1))%N with 9223372036854775808%N.
      assert (H : (9223372036854775808 <=? Z.to_N i)%N = false)
        by (apply N.leb_gt; lia).
      rewrite H. f_equal. lia.
    + change (2 ^ 64)%N with 18446744073709551616%N. lia.
Qed.

Lemma ParseBool_FormatBool (b : bool) :
  strconv.ParseBool (strconv.FormatBool b) = Ok b.
Proof. destruct b; reflexivity. Qed.

(** *** [strings.TrimSpace] on text without white space *)

Definition plainByte (c : ascii) : bool :=
  negb (utf8.RuneSelf <=? byteOf c)%N && negb (strings.asciiSpace (byteOf c)).

Lemma allb_rev (P : ascii -> bool) (s : string) : allb P (rev s) = allb P s.
Proof.
  induction s as [|c s IH]; [reflexivity|].
  rewrite rev_cons, allb_app, IH. cbn [allb]. rewrite andb_true_r. apply andb_comm.
Qed.

Lemma TrimSpace_plain (s : string) :
  allb plainByte s = true -> strings.TrimSpace s = s.
Proof.
  destruct s as [|c s]; [reflexivity|]. intros H.
  pose proof H as Hrev. rewrite <- allb_rev in Hrev.
  cbn [allb] in H. apply andb_true_iff in H as [Hc _].
  unfold plainByte in Hc. apply andb_true_iff in Hc as [Hc1 Hc2].
  apply negb_true_iff in Hc1, Hc2.
  cbn [strings.TrimSpace]. rewrite Hc1, Hc2.
  destruct (rev (String c s)) as [|l r] eqn:E.
  - apply (f_equal rev) in E. rewrite rev_involutive in E. discriminate.
  - cbn [allb] in Hrev. apply andb_true_iff in Hrev as [Hl _].
    unfold plainByte in Hl. apply andb_true_iff in Hl as [Hl1 Hl2].
    apply negb_true_iff in Hl1, Hl2.
    cbn [strings.trimSpaceStop]. rewrite Hl1, Hl2.
    rewrite <- E. apply rev_involutive.
Qed.

Lemma digit_plain (c : ascii) : isDigit c = true -> plainByte c = true.
Proof.
  unfold isDigit, plainByte, strings.asciiSpace, utf8.RuneSelf. intros H.
  apply inRange_spec in H.
  repeat match goal with
         | |- context [(?a =? ?b)%N] =>
             replace (a =? b)%N with false by (symmetry; apply N.eqb_neq; lia)
         end.
  replace (128 <=? byteOf c)%N with false by (symmetry; apply N.leb_gt; lia).
  reflexivity.
Qed.

Lemma digits_plain (s : string) : allDigits s = true -> allb plainByte s = true.
Proof.
  induction s as [|c s IH]; [reflexivity|]. cbn [allDigits allb]. intros H.
  apply andb_true_iff in H as [Hc H]. now rewrite digit_plain, IH.
Qed.

Lemma TrimSpace_FormatUint (u : N) :
  (u <= strconv.maxUint64)%N ->
  strings.TrimSpace (strconv.FormatUint u) = strconv.FormatUint u.
Proof.
  intros H. apply TrimSpace_plain, digits_plain. now apply FormatUint_digits.
Qed.

Lemma TrimSpace_FormatInt (i : Z) :
  (- 2 ^ 63 <= i < 2 ^ 63)%Z ->
  strings.TrimSpace (strconv.FormatInt i) = strconv.FormatInt i.
Proof.
  intros Hi. change (2 ^ 63)%Z with 9223372036854775808%Z in Hi.
  apply TrimSpace_plain. unfold strconv.FormatInt.
  destruct (i <? 0)%Z eqn:E.
  - cbn [allb]. change (plainByte "-") with true. cbn [andb].
    apply digits_plain, FormatUint_digits. unfold strconv.maxUint64. lia.
  - apply Z.ltb_ge in E.
    apply digits_plain, FormatUint_digits. unfold strconv.maxUint64. lia.
Qed.

Lemma FormatInt_nonempty (i : Z) :
  (- 2 ^ 63 <= i < 2 ^ 63)%Z -> strconv.FormatInt i <> "".
Proof.
  intros Hi. change (2 ^ 63)%Z with 9223372036854775808%Z in Hi.
  unfold strconv.FormatInt. destruct (i <? 0)%Z eqn:E; [discriminate|].
  apply Z.ltb_ge in E. apply FormatUint_digits. unfold strconv.maxUint64. lia.
Qed.

(** *** What [copyValue] stores for the numerals *)

Lemma copyUint_FormatUint (bits u : N) :
  (bits <= 64)%N -> (u < 2 ^ bits)%N ->
  unmarshal.copyUint bits (strconv.FormatUint u) = Ok u.
Proof.
  intros Hb Hu.
  assert (Hp : (2 ^ bits <= 2 ^ 64)%N) by (apply N.pow_le_mono_r; lia).
  change (2 ^ 64)%N with 18446744073709551616%N in Hp.
  assert (Hm : (u <= strconv.maxUint64)%N) by (unfold strconv.maxUint64; lia).
  unfold unmarshal.copyUint.
  destruct (FormatUint_digits u Hm) as (Hne & _).
  rewrite (proj2 (String.eqb_neq _ _) Hne).
  rewrite TrimSpace_FormatUint, ParseUint_FormatUint by assumption. reflexivity.
Qed.

Lemma copyInt_FormatInt (i : Z) :
  (- 2 ^ 63 <= i < 2 ^ 63)%Z ->
  unmarshal.copyInt 64 (strconv.FormatInt i) = Ok i.
Proof.
  intros Hi. unfold unmarshal.copyInt.
  rewrite (proj2 (String.eqb_neq _ _) (FormatInt_nonempty i Hi)).
  rewrite TrimSpace_FormatInt, ParseInt_FormatInt by assumption. reflexivity.
Qed.

Lemma copyBool_FormatBool (b : bool) :
  unmarshal.copyBool (strconv.FormatBool b) = Ok b.
Proof. destruct b; reflexivity. Qed.

(** ** The renamed tree reads back *)

(** Every text of a tree is text of an XML document. *)
Fixpoint nodeText (n : xml.Node) : bool :=
  match n with
  | xml.CharData data => validText data
  | xml.Element _ attrs kids =>
      forallb (fun a => validText (xml.Value a)) attrs && forallb nodeText kids
  end.

Definition rules : list (string -> string) :=
  [fun n => msprRule (cencRule n); cencRule; msprRule;
   fun n => cencRule (keyRule n); fun n => n].

Lemma attrRule_rules (name : string) (attrs : list xml.Attr) :
  In (attrRule name attrs) rules.
Proof.
  unfold attrRule, rules.
  destruct (String.eqb name "MPD"); [now left|].
  destruct (String.eqb name "pssh"); [right; now left|].
  destruct (String.eqb name "pro"); [right; right; now left|].
  destruct (hasName keyId attrs); [right; right; right; now left|].
  right; right; right; right; now left.
Qed.

(** A fact of every rule on every attribute name of the schema. *)
Lemma rules_fact (Q : (string -> string) -> string -> bool) (name : string)
  (attrs : list xml.Attr) (n : string) :
  forallb (fun rho => forallb (Q rho) allAttrs) rules = true ->
  existsb (String.eqb n) allAttrs = true ->
  Q (attrRule name attrs) n = true.
Proof.
  intros H Hn. rewrite forallb_forall in H.
  specialize (H _ (attrRule_rules name attrs)).
  exact (table_fact (Q (attrRule name attrs)) allAttrs n H Hn).
Qed.

Lemma parseOK_rename (n : xml.Node) :
  nodeSchema n = true -> nodeText n = true -> parseOK (renameNode n) = true.
Proof.
  induction n as [name attrs kids IH|data] using Node_ind'; [|intros _ H; exact H].
  intros Hs Ht. cbn [nodeSchema nodeText] in Hs, Ht.
  apply andb_true_iff in Hs as [Hs Hks]. apply andb_true_iff in Ht as [Ht Hkt].
  unfold elemSchema in Hs. apply andb_true_iff in Hs as [Hs _].
  repeat (apply andb_true_iff in Hs; destruct Hs as [Hs ?]).
  cbn [renameNode parseOK].
  apply andb_true_intro; split; [apply andb_true_intro; split|].
  - pattern name. apply schema_cases; [exact Hs|]. repeat constructor.
  - apply forallb_forall. intros a' Hin. apply in_map_iff in Hin as (a & <- & Hin).
    unfold attrParseOK. apply andb_true_intro; split.
    + change (xml.Local (xml.AttrName (renameWith (attrRule name attrs) a)))
        with (attrRule name attrs (attrName a)).
      apply (rules_fact (fun rho n => nameOK (rho n))); [vm_compute; reflexivity|].
      match goal with H : forallb (among _) attrs = true |- _ =>
        rewrite forallb_forall in H; specialize (H a Hin); exact (allowed_all _ _ H) end.
    + rewrite forallb_forall in Ht. exact (Ht a Hin).
  - rewrite forallb_forall in Hks, Hkt. apply forallb_forall. intros k' Hin.
    apply in_map_iff in Hin as (k & <- & Hin). apply IH; auto.
Qed.

(** [Encode] writes a document the decoder reads as the renamed tree. *)
Lemma document_Encode (m : MPD) :
  nodeText (marshal.mpd m) = true -> forallb lineCond (docLines m) = true ->
  exists out, Encode m = Ok out
              /\ decoder.document out = Ok (treeOf 0 (renameNode (marshal.mpd m))).
Proof.
  intros Ht Hc. eexists. split.
  - apply Encode_renamed. apply forallb_forall. intros l Hl.
    pose proof (docLines_ok m) as H1. pose proof (docLines_schema m) as H2.
    rewrite forallb_forall in H1, H2, Hc. unfold goodLine.
    now rewrite H1, H2, Hc.
  - apply document_lines.
    + reflexivity.
    + rewrite wellShaped_rename. apply shaped_mpd.
    + apply parseOK_rename; [apply schema_mpd|assumption].
Qed.

(** ** What [Unmarshal] stores from the attributes of the renamed tree *)

(** An attribute of the marshaller's tree as [Unmarshal] sees it: renamed
    by the rules, read by the decoder, its name translated. *)
Definition seen (ns : decoder.Spaces) (rho : string -> string) (a : xml.Attr) : xml.Attr :=
  decoder.translateAttr ns (parsedAttr (renameWith rho a)).

Lemma seen_map (ns : decoder.Spaces) (rho : string -> string) (attrs : list xml.Attr) :
  map (decoder.translateAttr ns) (map parsedAttr (map (renameWith rho) attrs))
  = map (seen ns rho) attrs.
Proof. rewrite !map_map. reflexivity. Qed.

Lemma translate_local (ns : decoder.Spaces) (n : xml.Name) (b : bool) :
  xml.Local (decoder.translate ns n b) = xml.Local n.
Proof.
  unfold decoder.translate.
  destruct (String.eqb (xml.Space n) decoder.xmlnsPrefix); [reflexivity|].
  destruct (String.eqb (xml.Space n) "" && negb b); [reflexivity|].
  destruct (String.eqb (xml.Space n) "" && String.eqb (xml.Local n) decoder.xmlnsPrefix);
    [reflexivity|].
  destruct (decoder.lookup _ ns); reflexivity.
Qed.

Definition keepsLocal (rho : string -> string) (n : string) : bool :=
  String.eqb (xml.Local (decoder.splitName (rho n))) n.

Lemma seen_local (ns : decoder.Spaces) (rho : string -> string) (n s : string) :
  keepsLocal rho n = true -> unmarshal.local (seen ns rho (xml.attr n s)) = n.
Proof.
  intros H. unfold unmarshal.local, seen, decoder.translateAttr. cbn [xml.AttrName].
  rewrite translate_local. apply String.eqb_eq. exact H.
Qed.

(** The attributes of a start tag, field by field: the name of each and
    the text the marshaller writes for it, if it writes any. *)
Definition Fields : Type := list (string * option string).

Fixpoint attrsOf (fields : Fields) : list xml.Attr :=
  match fields with
  | [] => []
  | (n, v) :: rest =>
      match rest with
      | [] => marshal.strAttr n v
      | _ :: _ => marshal.strAttr n v ++ attrsOf rest
      end
  end.

Fixpoint field (name : string) (fields : Fields) : option string :=
  match fields with
  | [] => None
  | (n, v) :: rest => if String.eqb n name then v else field name rest
  end.

Definition fieldNames (fields : Fields) : list string := map fst fields.

Fixpoint distinct (names : list string) : bool :=
  match names with
  | [] => true
  | n :: rest => negb (existsb (String.eqb n) rest) && distinct rest
  end.

(** The names of the fields of one start tag: distinct names of the
    schema. *)
Definition goodNames (names : list string) : bool :=
  distinct names && forallb (fun n => existsb (String.eqb n) allAttrs) names.

Lemma attrsOf_cons (n : string) (v : option string) (rest : Fields) :
  attrsOf ((n, v) :: rest) = (marshal.strAttr n v ++ attrsOf rest)%list.
Proof. destruct rest; [symmetry; apply List.app_nil_r|reflexivity]. Qed.

Lemma bind_ret {A : Type} (r : result A error) : decoder.bind r (fun x => Ok x) = r.
Proof. destruct r; reflexivity. Qed.

Lemma attrField_app {A : Type} (store : xml.Attr -> A -> result A error) (name : string)
  (a b : list xml.Attr) :
  forall old,
  unmarshal.attrField store name (a ++ b) old
  = decoder.bind (unmarshal.attrField store name a old) (unmarshal.attrField store name b).
Proof.
  induction a as [|x a IH]; intros old; [reflexivity|].
  cbn [List.app unmarshal.attrField].
  destruct (String.eqb (unmarshal.local x) name); [|apply IH].
  destruct (store x old) as [v|e]; [|reflexivity]. cbn [decoder.bind]. apply IH.
Qed.

(** What the field [name] stores from an attribute text, if there is
    one. *)
Definition stored {A : Type} (store : xml.Attr -> A -> result A error) (ns : decoder.Spaces)
  (rho : string -> string) (name : string) (v : option string) (old : A)
  : result A error :=
  match v with
  | Some s => store (seen ns rho (xml.attr name s)) old
  | None => Ok old
  end.

Section Fields.

Context {A : Type}.
Variable store : xml.Attr -> A -> result A error.
Variable ns : decoder.Spaces.
Variable rho : string -> string.

Lemma attrField_one (name n : string) (v : option string) (old : A) :
  keepsLocal rho n = true ->
  unmarshal.attrField store name (map (seen ns rho) (marshal.strAttr n v)) old
  = if String.eqb n name then stored store ns rho n v old else Ok old.
Proof.
  intros Hn. destruct v as [s|]; cbn [marshal.strAttr map unmarshal.attrField stored].
  - rewrite (seen_local ns rho n s Hn).
    destruct (String.eqb n name); [apply bind_ret|reflexivity].
  - now destruct (String.eqb n name).
Qed.

Lemma attrField_absent (name : string) (fields : Fields) :
  forallb (keepsLocal rho) (fieldNames fields) = true ->
  existsb (String.eqb name) (fieldNames fields) = false ->
  forall old,
  unmarshal.attrField store name (map (seen ns rho) (attrsOf fields)) old = Ok old.
Proof.
  induction fields as [|[n v] rest IH]; intros Hk Hn old; [reflexivity|].
  cbn [fieldNames map fst forallb existsb] in Hk, Hn.
  apply andb_true_iff in Hk as [Hk Hks]. apply orb_false_iff in Hn as [Hn Hns].
  rewrite attrsOf_cons, map_app, attrField_app, attrField_one by assumption.
  rewrite String.eqb_sym, Hn. cbn [decoder.bind]. now apply IH.
Qed.

Lemma attrField_fields (name : string) (fields : Fields) :
  forallb (keepsLocal rho) (fieldNames fields) = true ->
  distinct (fieldNames fields) = true ->
  forall old,
  unmarshal.attrField store name (map (seen ns rho) (attrsOf fields)) old
  = stored store ns rho name (field name fields) old.
Proof.
  induction fields as [|[n v] rest IH]; intros Hk Hd old; [reflexivity|].
  cbn [fieldNames map fst forallb distinct] in Hk, Hd.
  apply andb_true_iff in Hk as [Hk Hks]. apply andb_true_iff in Hd as [Hd Hds].
  apply negb_true_iff in Hd.
  rewrite attrsOf_cons, map_app, attrField_app, attrField_one by assumption.
  cbn [field]. destruct (String.eqb_spec n name) as [->|Hne].
  - replace (decoder.bind (stored store ns rho name v old)
               (unmarshal.attrField store name (map (seen ns rho) (attrsOf rest))))
      with (decoder.bind (stored store ns rho name v old) (fun x => Ok x)); [apply bind_ret|].
    destruct (stored store ns rho name v old) as [x|e]; [|reflexivity].
    cbn [decoder.bind]. symmetry. now apply attrField_absent.
  - cbn [decoder.bind]. now apply IH.
Qed.

End Fields.

Lemma goodNames_keep (elem : string) (attrs : list xml.Attr) (names : list string) :
  goodNames names = true ->
  forallb (keepsLocal (attrRule elem attrs)) names = true /\ distinct names = true.
Proof.
  unfold goodNames. intros H. apply andb_true_iff in H as [Hd Ha]. split; [|exact Hd].
  apply forallb_forall. intros n Hn. rewrite forallb_forall in Ha.
  apply (rules_fact keepsLocal); [vm_compute; reflexivity|]. now apply Ha.
Qed.

(** *** The fields by their types *)

Definition fitsUint (bits : N) (v : option N) : bool :=
  match v with
  | Some n => (n <? 2 ^ bits)%N
  | None => true
  end.

Definition fitsInt (v : option Z) : bool :=
  match v with
  | Some i => (- 2 ^ 63 <=? i)%Z && (i <? 2 ^ 63)%Z
  | None => true
  end.

(** The text [MarshalXMLAttr] writes for a ConditionalUint, if any. *)
Definition condText (c : ConditionalUint.t) : option string :=
  match ConditionalUint.u c with
  | Some v => Some (strconv.FormatUint v)
  | None => option_map strconv.FormatBool (ConditionalUint.b c)
  end.

(** What [UnmarshalXMLAttr] makes of this text: the number alone when the
    ConditionalUint holds both variants. *)
Definition canonCond (c : ConditionalUint.t) : ConditionalUint.t :=
  match ConditionalUint.u c with
  | Some v => {| ConditionalUint.u := Some v; ConditionalUint.b := None |}
  | None => c
  end.

Definition fitsCond (c : ConditionalUint.t) : bool := fitsUint 64 (ConditionalUint.u c).

Section Back.

Variable ns : decoder.Spaces.
Variables (elem : string) (attrs0 : list xml.Attr).
Variable fields : Fields.
Hypothesis names_ok : goodNames (fieldNames fields) = true.

Lemma fields_stored {A : Type} (store : xml.Attr -> A -> result A error) (name : string)
  (old : A) :
  unmarshal.attrField store name (map (seen ns (attrRule elem attrs0)) (attrsOf fields)) old
  = stored store ns (attrRule elem attrs0) name (field name fields) old.
Proof.
  destruct (goodNames_keep elem attrs0 _ names_ok) as [Hk Hd].
  now apply attrField_fields.
Qed.

Lemma stringPtrAttr_back (name : string) (v : option string) :
  field name fields = v ->
  unmarshal.stringPtrAttr name (map (seen ns (attrRule elem attrs0)) (attrsOf fields)) None = Ok v.
Proof.
  intros <-. unfold unmarshal.stringPtrAttr. rewrite fields_stored.
  now destruct (field name fields).
Qed.

Lemma stringAttr_back (name : string) (s old : string) :
  field name fields = Some s ->
  unmarshal.stringAttr name (map (seen ns (attrRule elem attrs0)) (attrsOf fields)) old = Ok s.
Proof.
  intros H. unfold unmarshal.stringAttr. rewrite fields_stored, H. reflexivity.
Qed.

Lemma uintPtrAttr_back (bits : N) (name : string) (v : option N) :
  (bits <= 64)%N -> fitsUint bits v = true ->
  field name fields = option_map strconv.FormatUint v ->
  unmarshal.uintPtrAttr bits name (map (seen ns (attrRule elem attrs0)) (attrsOf fields)) None = Ok v.
Proof.
  intros Hb Hv H. unfold unmarshal.uintPtrAttr. rewrite fields_stored, H.
  destruct v as [n|]; [|reflexivity].
  cbn [option_map stored]. cbn [fitsUint] in Hv. apply N.ltb_lt in Hv.
  change (xml.Value (seen ns (attrRule elem attrs0) (xml.attr name (strconv.FormatUint n))))
    with (strconv.FormatUint n).
  now rewrite copyUint_FormatUint.
Qed.

Lemma uintAttr_back (name : string) (n old : N) :
  (n < 2 ^ 64)%N ->
  field name fields = Some (strconv.FormatUint n) ->
  unmarshal.uintAttr 64 name (map (seen ns (attrRule elem attrs0)) (attrsOf fields)) old = Ok n.
Proof.
  intros Hv H. unfold unmarshal.uintAttr. rewrite fields_stored, H.
  cbn [stored].
  change (xml.Value (seen ns (attrRule elem attrs0) (xml.attr name (strconv.FormatUint n))))
    with (strconv.FormatUint n).
  apply copyUint_FormatUint; [lia|assumption].
Qed.

Lemma intPtrAttr_back (name : string) (v : option Z) :
  fitsInt v = true ->
  field name fields = option_map strconv.FormatInt v ->
  unmarshal.intPtrAttr 64 name (map (seen ns (attrRule elem attrs0)) (attrsOf fields)) None = Ok v.
Proof.
  intros Hv H. unfold unmarshal.intPtrAttr. rewrite fields_stored, H.
  destruct v as [i|]; [|reflexivity].
  cbn [option_map stored]. cbn [fitsInt] in Hv.
  apply andb_true_iff in Hv as [H1 H2]. apply Z.leb_le in H1. apply Z.ltb_lt in H2.
  change (xml.Value (seen ns (attrRule elem attrs0) (xml.attr name (strconv.FormatInt i))))
    with (strconv.FormatInt i).
  now rewrite copyInt_FormatInt.
Qed.

Lemma boolPtrAttr_back (name : string) (v : option bool) :
  field name fields = option_map strconv.FormatBool v ->
  unmarshal.boolPtrAttr name (map (seen ns (attrRule elem attrs0)) (attrsOf fields)) None = Ok v.
Proof.
  intros H. unfold unmarshal.boolPtrAttr. rewrite fields_stored, H.
  destruct v as [b|]; [|reflexivity].
  cbn [option_map stored].
  change (xml.Value (seen ns (attrRule elem attrs0) (xml.attr name (strconv.FormatBool b))))
    with (strconv.FormatBool b).
  now rewrite copyBool_FormatBool.
Qed.

Lemma condAttr_back (name : string) (c : ConditionalUint.t) :
  fitsCond c = true ->
  field name fields = condText c ->
  unmarshal.condAttr name (map (seen ns (attrRule elem attrs0)) (attrsOf fields)) ConditionalUint.zero
  = Ok (canonCond c).
Proof.
  intros Hv H. unfold unmarshal.condAttr. rewrite fields_stored, H.
  destruct c as [[v|] [b|]];
    cbn [fitsCond fitsUint canonCond condText ConditionalUint.u ConditionalUint.b
         option_map stored] in *.
  - apply N.ltb_lt in Hv.
    rewrite (UnmarshalXMLAttr_uint _ _ v); [reflexivity|].
    now apply ParseUint_FormatUint.
  - apply N.ltb_lt in Hv.
    rewrite (UnmarshalXMLAttr_uint _ _ v); [reflexivity|].
    now apply ParseUint_FormatUint.
  - destruct b; reflexivity.
  - reflexivity.
Qed.

End Back.

Lemma condAttr_strAttr (name : string) (c : ConditionalUint.t) :
  name <> "" -> marshal.condAttr name c = marshal.strAttr name (condText c).
Proof.
  intros Hn. apply String.eqb_neq in Hn.
  unfold marshal.condAttr, ConditionalUint.MarshalXMLAttr, condText.
  destruct c as [[v|] [b|]]; cbn; now rewrite ?Hn.
Qed.

(** ** What [Unmarshal] stores from the children of the renamed tree *)

(** The children of an element as the decoder returns them. *)
Definition kidTrees (d : nat) (kids : list xml.Node) : list decoder.Tree :=
  match kids with
  | [] => []
  | [xml.CharData data] => if String.eqb data "" then [] else [decoder.Text data]
  | _ => (kidsTrees d kids ++ [decoder.Text (xml.nl ++ xml.indentation d)])%list
  end.

Lemma treeOf_Element (d : nat) (name : string) (attrs : list xml.Attr)
  (kids : list xml.Node) :
  treeOf d (xml.Element name attrs kids)
  = decoder.Elem (decoder.splitName name) (map parsedAttr attrs) (kidTrees d kids).
Proof. destruct kids as [|[n1 a1 k1|d1] [|k2 kids]]; reflexivity. Qed.

Definition rootLocal (n : xml.Node) : string :=
  match n with
  | xml.Element name _ _ => xml.Local (decoder.splitName name)
  | xml.CharData _ => ""
  end.

Lemma kidsTrees_app (d : nat) (a b : list xml.Node) :
  kidsTrees d (a ++ b) = (kidsTrees d a ++ kidsTrees d b)%list.
Proof. unfold kidsTrees. apply flat_map_app. Qed.

Lemma kidsTrees_cons (d : nat) (k : xml.Node) (kids : list xml.Node) :
  kidsTrees d (k :: kids)
  = decoder.Text (xml.nl ++ xml.indentation (S d)) :: treeOf (S d) k :: kidsTrees d kids.
Proof. reflexivity. Qed.

Section Children.

Context {A : Type}.
Variable store : decoder.Tree -> A -> result A error.
Variable name : string.

Lemma childField_app (a b : list decoder.Tree) :
  forall old,
  unmarshal.childField store name (a ++ b) old
  = decoder.bind (unmarshal.childField store name a old) (unmarshal.childField store name b).
Proof.
  induction a as [|x a IH]; intros old; [reflexivity|].
  cbn [List.app unmarshal.childField]. destruct x as [n attrs kids|data]; [|apply IH].
  destruct (String.eqb (xml.Local n) name); [|apply IH].
  destruct (store _ old) as [v|e]; [|reflexivity]. cbn [decoder.bind]. apply IH.
Qed.

(** The white space before the end tag is no child. *)
Lemma childField_kidTrees (d : nat) (kids : list xml.Node) (old : A) :
  forallb isElement kids = true ->
  unmarshal.childField store name (kidTrees d kids) old
  = unmarshal.childField store name (kidsTrees d kids) old.
Proof.
  intros H.
  assert (Hg : unmarshal.childField store name
                 (kidsTrees d kids ++ [decoder.Text (xml.nl ++ xml.indentation d)]) old
               = unmarshal.childField store name (kidsTrees d kids) old).
  { rewrite childField_app. cbn [unmarshal.childField]. apply bind_ret. }
  destruct kids as [|[n1 a1 k1|d1] [|k2 kids]]; try exact Hg; try reflexivity.
  discriminate.
Qed.

Lemma childField_element (d : nat) (k : xml.Node) (kids : list xml.Node) (old : A) :
  isElement k = true ->
  unmarshal.childField store name (kidsTrees d (k :: kids)) old
  = if String.eqb (rootLocal k) name
    then decoder.bind (store (treeOf (S d) k) old)
           (unmarshal.childField store name (kidsTrees d kids))
    else unmarshal.childField store name (kidsTrees d kids) old.
Proof.
  destruct k as [n attrs ks|data]; [|discriminate]. intros _.
  rewrite kidsTrees_cons, treeOf_Element. reflexivity.
Qed.

(** The elements of other names are skipped. *)
Definition others (kids : list xml.Node) : bool :=
  forallb (fun k => isElement k && negb (String.eqb (rootLocal k) name)) kids.

Lemma childField_others (d : nat) (kids : list xml.Node) :
  others kids = true ->
  forall old, unmarshal.childField store name (kidsTrees d kids) old = Ok old.
Proof.
  unfold others. induction kids as [|k kids IH]; intros H old; [reflexivity|].
  cbn [forallb] in H. apply andb_true_iff in H as [Hk H].
  apply andb_true_iff in Hk as [He Hn]. apply negb_true_iff in Hn.
  rewrite childField_element, Hn by assumption. now apply IH.
Qed.

End Children.

(** *** The fields by their types *)

(** The pointers of a slice that are not nil. *)
Fixpoint somes {A : Type} (l : list (option A)) : list A :=
  match l with
  | [] => []
  | Some x :: l' => x :: somes l'
  | None :: l' => somes l'
  end.

Section Slices.

Context {A : Type}.
Variable read : A -> decoder.Tree -> result A error.
Variable zero : A.
Variable name : string.
Variable d : nat.
Variable g : A -> xml.Node.
Variable h : A -> A.

(** The element of [x] is read as [h x]. *)
Definition readsBack (x : A) : Prop :=
  isElement (g x) = true /\ rootLocal (g x) = name
  /\ read zero (treeOf (S d) (g x)) = Ok (h x).

Lemma sliceElem_back (xs : list A) :
  (forall x, In x xs -> readsBack x) ->
  forall old,
  unmarshal.sliceElem read zero name (kidsTrees d (map g xs)) old
  = Ok (old ++ map h xs)%list.
Proof.
  unfold unmarshal.sliceElem.
  induction xs as [|x xs IH]; intros H old; [now rewrite List.app_nil_r|].
  destruct (H x (or_introl eq_refl)) as (He & Hn & Hr).
  cbn [map]. rewrite childField_element by assumption.
  rewrite Hn, String.eqb_refl, Hr. cbn [decoder.bind].
  rewrite IH by (intros y Hy; apply H; now right).
  now rewrite <- List.app_assoc.
Qed.

(** A nil pointer of the slice writes no element. *)
Lemma ptrSliceElem_back (l : list (option A)) :
  (forall x, In x (somes l) -> readsBack x) ->
  forall old,
  unmarshal.ptrSliceElem read zero name
    (kidsTrees d (flat_map (marshal.optElem g) l)) old
  = Ok (old ++ map Some (map h (somes l)))%list.
Proof.
  unfold unmarshal.ptrSliceElem.
  induction l as [|[x|] l IH]; intros H old.
  - now rewrite List.app_nil_r.
  - cbn [somes] in H. destruct (H x (or_introl eq_refl)) as (He & Hn & Hr).
    cbn [map flat_map marshal.optElem List.app somes].
    rewrite childField_element by assumption.
    rewrite Hn, String.eqb_refl, Hr. cbn [decoder.bind].
    rewrite IH by (intros y Hy; apply H; now right).
    now rewrite <- List.app_assoc.
  - cbn [flat_map marshal.optElem List.app somes]. now apply IH.
Qed.

Lemma ptrElem_back (v : option A) :
  (forall x, v = Some x -> readsBack x) ->
  unmarshal.ptrElem read zero name (kidsTrees d (marshal.optElem g v)) None
  = Ok (option_map h v).
Proof.
  unfold unmarshal.ptrElem. intros H. destruct v as [x|]; [|reflexivity].
  destruct (H x eq_refl) as (He & Hn & Hr).
  cbn [marshal.optElem]. rewrite childField_element by assumption.
  rewrite Hn, String.eqb_refl, Hr. reflexivity.
Qed.

End Slices.

Lemma stringElem_back (name : string) (d : nat) (s : string) :
  xml.Local (decoder.splitName name) = name ->
  unmarshal.stringElem name (kidsTrees d (marshal.strElem name s)) "" = Ok s.
Proof.
  intros Hn. unfold unmarshal.stringElem, marshal.strElem.
  destruct (String.eqb_spec s "") as [->|Hs]; [reflexivity|].
  rewrite childField_element by reflexivity. cbn [rootLocal].
  rewrite Hn, String.eqb_refl. rewrite treeOf_Element.
  cbn [kidTrees unmarshal.children]. rewrite (proj2 (String.eqb_neq _ _) Hs).
  cbn [unmarshal.charData unmarshal.childField kidsTrees flat_map decoder.bind].
  now rewrite app_nil_r.
Qed.

(** *** The renamed pieces of a forest *)

Lemma rename_optElem {A : Type} (f : A -> xml.Node) (v : option A) :
  map renameNode (marshal.optElem f v) = marshal.optElem (fun x => renameNode (f x)) v.
Proof. now destruct v. Qed.

Lemma rename_flat_optElem {A : Type} (f : A -> xml.Node) (l : list (option A)) :
  map renameNode (flat_map (marshal.optElem f) l)
  = flat_map (marshal.optElem (fun x => renameNode (f x))) l.
Proof.
  induction l as [|x l IH]; [reflexivity|].
  cbn [flat_map]. now rewrite map_app, rename_optElem, IH.
Qed.

Lemma rename_strElem (name s : string) :
  renameElem name = name ->
  map renameNode (marshal.strElem name s) = marshal.strElem name s.
Proof.
  intros H. unfold marshal.strElem. destruct (String.eqb s ""); [reflexivity|].
  cbn [map renameNode]. now rewrite H.
Qed.

(** Pointers of a slice none of which is nil. *)
Definition noneNil {A : Type} (l : list (option A)) : bool :=
  forallb (fun v => match v with Some _ => true | None => false end) l.

Lemma noneNil_somes {A : Type} (l : list (option A)) :
  noneNil l = true -> map Some (somes l) = l.
Proof.
  induction l as [|[x|] l IH]; intros H; [reflexivity| |discriminate].
  cbn [noneNil forallb] in H. cbn [somes map]. f_equal. now apply IH.
Qed.

Lemma map_fixed {A : Type} (h : A -> A) (l : list A) :
  (forall x, In x l -> h x = x) -> map h l = l.
Proof.
  induction l as [|x l IH]; intros H; [reflexivity|].
  cbn [map]. rewrite H by now left. f_equal. apply IH. intros y Hy. apply H. now right.
Qed.

Lemma option_map_fixed {A : Type} (h : A -> A) (v : option A) :
  (forall x, v = Some x -> h x = x) -> option_map h v = v.
Proof. intros H. destruct v as [x|]; [|reflexivity]. cbn. now rewrite H. Qed.

(** *** The fields over the pieces of a forest *)

Section Pieces.

Context {A : Type}.
Variable read : A -> decoder.Tree -> result A error.
Variable zero : A.
Variable name : string.
Variable d : nat.

Lemma sliceElem_kidTrees (kids : list xml.Node) (old : list A) :
  forallb isElement kids = true ->
  unmarshal.sliceElem read zero name (kidTrees d kids) old
  = unmarshal.sliceElem read zero name (kidsTrees d kids) old.
Proof. apply childField_kidTrees. Qed.

Lemma sliceElem_skip (p rest : list xml.Node) (old : list A) :
  others name p = true ->
  unmarshal.sliceElem read zero name (kidsTrees d (p ++ rest)) old
  = unmarshal.sliceElem read zero name (kidsTrees d rest) old.
Proof.
  intros H. unfold unmarshal.sliceElem.
  rewrite kidsTrees_app, childField_app, childField_others by assumption. reflexivity.
Qed.

Lemma sliceElem_take (g : A -> xml.Node) (h : A -> A) (xs : list A)
  (rest : list xml.Node) (old : list A) :
  (forall x, In x xs -> readsBack read zero name d g h x) ->
  unmarshal.sliceElem read zero name (kidsTrees d (map g xs ++ rest)) old
  = unmarshal.sliceElem read zero name (kidsTrees d rest) (old ++ map h xs)%list.
Proof.
  intros H. pose proof (sliceElem_back read zero name d g h xs H old) as Hb.
  unfold unmarshal.sliceElem in *.
  rewrite kidsTrees_app, childField_app, Hb. reflexivity.
Qed.

Lemma sliceElem_nil (old : list A) :
  unmarshal.sliceElem read zero name (kidsTrees d []) old = Ok old.
Proof. reflexivity. Qed.

Lemma ptrSliceElem_kidTrees (kids : list xml.Node) (old : list (option A)) :
  forallb isElement kids = true ->
  unmarshal.ptrSliceElem read zero name (kidTrees d kids) old
  = unmarshal.ptrSliceElem read zero name (kidsTrees d kids) old.
Proof. apply childField_kidTrees. Qed.

Lemma ptrSliceElem_skip (p rest : list xml.Node) (old : list (option A)) :
  others name p = true ->
  unmarshal.ptrSliceElem read zero name (kidsTrees d (p ++ rest)) old
  = unmarshal.ptrSliceElem read zero name (kidsTrees d rest) old.
Proof.
  intros H. unfold unmarshal.ptrSliceElem.
  rewrite kidsTrees_app, childField_app, childField_others by assumption. reflexivity.
Qed.

Lemma ptrSliceElem_take (g : A -> xml.Node) (h : A -> A) (l : list (option A))
  (rest : list xml.Node) (old : list (option A)) :
  (forall x, In x (somes l) -> readsBack read zero name d g h x) ->
  unmarshal.ptrSliceElem read zero name
    (kidsTrees d (flat_map (marshal.optElem g) l ++ rest)) old
  = unmarshal.ptrSliceElem read zero name (kidsTrees d rest)
      (old ++ map Some (map h (somes l)))%list.
Proof.
  intros H. pose proof (ptrSliceElem_back read zero name d g h l H old) as Hb.
  unfold unmarshal.ptrSliceElem in *.
  rewrite kidsTrees_app, childField_app, Hb. reflexivity.
Qed.

Lemma ptrSliceElem_nil (old : list (option A)) :
  unmarshal.ptrSliceElem read zero name (kidsTrees d []) old = Ok old.
Proof. reflexivity. Qed.

Lemma ptrElem_kidTrees (kids : list xml.Node) (old : option A) :
  forallb isElement kids = true ->
  unmarshal.ptrElem read zero name (kidTrees d kids) old
  = unmarshal.ptrElem read zero name (kidsTrees d kids) old.
Proof. apply childField_kidTrees. Qed.

Lemma ptrElem_skip (p rest : list xml.Node) (old : option A) :
  others name p = true ->
  unmarshal.ptrElem read zero name (kidsTrees d (p ++ rest)) old
  = unmarshal.ptrElem read zero name (kidsTrees d rest) old.
Proof.
  intros H. unfold unmarshal.ptrElem.
  rewrite kidsTrees_app, childField_app, childField_others by assumption. reflexivity.
Qed.

Lemma ptrElem_take (g : A -> xml.Node) (h : A -> A) (v : option A)
  (rest : list xml.Node) :
  (forall x, v = Some x -> readsBack read zero name d g h x) ->
  unmarshal.ptrElem read zero name (kidsTrees d (marshal.optElem g v ++ rest)) None
  = unmarshal.ptrElem read zero name (kidsTrees d rest) (option_map h v).
Proof.
  intros H. pose proof (ptrElem_back read zero name d g h v H) as Hb.
  unfold unmarshal.ptrElem in *.
  rewrite kidsTrees_app, childField_app, Hb. reflexivity.
Qed.

Lemma ptrElem_nil (old : option A) :
  unmarshal.ptrElem read zero name (kidsTrees d []) old = Ok old.
Proof. reflexivity. Qed.

End Pieces.

Lemma stringElem_kidTrees (name : string) (d : nat) (kids : list xml.Node) (old : string) :
  forallb isElement kids = true ->
  unmarshal.stringElem name (kidTrees d kids) old
  = unmarshal.stringElem name (kidsTrees d kids) old.
Proof. apply childField_kidTrees. Qed.

Lemma stringElem_skip (name : string) (d : nat) (p rest : list xml.Node) (old : string) :
  others name p = true ->
  unmarshal.stringElem name (kidsTrees d (p ++ rest)) old
  = unmarshal.stringElem name (kidsTrees d rest) old.
Proof.
  intros H. unfold unmarshal.stringElem.
  rewrite kidsTrees_app, childField_app, childField_others by assumption. reflexivity.
Qed.

Lemma stringElem_take (name : string) (d : nat) (s : string) (rest : list xml.Node) :
  xml.Local (decoder.splitName name) = name ->
  unmarshal.stringElem name (kidsTrees d (marshal.strElem name s ++ rest)) ""
  = unmarshal.stringElem name (kidsTrees d rest) s.
Proof.
  intros H. pose proof (stringElem_back name d s H) as Hb.
  unfold unmarshal.stringElem in *.
  rewrite kidsTrees_app, childField_app, Hb. reflexivity.
Qed.

Lemma stringElem_nil (name : string) (d : nat) (old : string) :
  unmarshal.stringElem name (kidsTrees d []) old = Ok old.
Proof. reflexivity. Qed.

(** ** The name spaces in scope *)

(** The default name space in scope. *)
Definition defaultSpace (ns : decoder.Spaces) : string :=
  match decoder.lookup "" ns with
  | Some uri => uri
  | None => ""
  end.

Lemma translate_element (ns : decoder.Spaces) (l : string) :
  String.eqb l decoder.xmlnsPrefix = false ->
  decoder.translate ns {| xml.Space := ""; xml.Local := l |} true
  = {| xml.Space := defaultSpace ns; xml.Local := l |}.
Proof.
  intros H. unfold decoder.translate, defaultSpace. cbn [xml.Space xml.Local].
  rewrite H. cbn. destruct (decoder.lookup "" ns); reflexivity.
Qed.

(** An attribute that binds no default name space. *)
Definition bindsNoDefault (n : xml.Name) : bool :=
  negb (String.eqb (xml.Space n) "" && String.eqb (xml.Local n) decoder.xmlnsPrefix)
  && negb (String.eqb (xml.Space n) decoder.xmlnsPrefix && String.eqb (xml.Local n) "").

Lemma declare_default (attrs : list xml.Attr) :
  forallb (fun a => bindsNoDefault (xml.AttrName a)) attrs = true ->
  forall ns, decoder.lookup "" (decoder.declare ns attrs) = decoder.lookup "" ns.
Proof.
  induction attrs as [|a attrs IH]; intros H ns; [reflexivity|].
  cbn [forallb] in H. apply andb_true_iff in H as [Ha H].
  cbn [decoder.declare]. rewrite IH by assumption.
  unfold bindsNoDefault in Ha. apply andb_true_iff in Ha as [H1 H2].
  apply negb_true_iff in H1, H2. rewrite H1.
  destruct (String.eqb (xml.Space (xml.AttrName a)) decoder.xmlnsPrefix) eqn:E;
    [|reflexivity].
  cbn [andb] in H2. cbn [decoder.lookup]. now rewrite H2.
Qed.

Lemma declare_app (a b : list xml.Attr) :
  forall ns, decoder.declare ns (a ++ b) = decoder.declare (decoder.declare ns a) b.
Proof.
  induction a as [|x a IH]; intros ns; [reflexivity|].
  cbn [List.app decoder.declare]. apply IH.
Qed.

Lemma attrsOf_names (fields : Fields) (a : xml.Attr) :
  In a (attrsOf fields) -> In (attrName a) (fieldNames fields).
Proof.
  induction fields as [|[n v] rest IH]; [intros []|].
  rewrite attrsOf_cons. intros H. apply in_app_or in H as [H|H].
  - destruct v as [s|]; [|destruct H]. destruct H as [<-|[]]. now left.
  - right. now apply IH.
Qed.

(** The start tag as the decoder returns it. *)
Definition parsedAttrs (elem : string) (attrs0 : list xml.Attr) (fields : Fields)
  : list xml.Attr :=
  map parsedAttr (map (renameWith (attrRule elem attrs0)) (attrsOf fields)).

Definition keepsDefault (rho : string -> string) (n : string) : bool :=
  String.eqb n decoder.xmlnsPrefix || bindsNoDefault (decoder.splitName (rho n)).

Lemma parsedAttrs_default (elem : string) (attrs0 : list xml.Attr) (fields : Fields) :
  goodNames (fieldNames fields) = true ->
  existsb (String.eqb decoder.xmlnsPrefix) (fieldNames fields) = false ->
  forall ns,
  defaultSpace (decoder.declare ns (parsedAttrs elem attrs0 fields)) = defaultSpace ns.
Proof.
  intros Hn Hx ns. unfold defaultSpace. rewrite declare_default; [reflexivity|].
  unfold parsedAttrs. apply forallb_forall. intros a' Hin.
  apply in_map_iff in Hin as (a1 & <- & Hin). apply in_map_iff in Hin as (a & <- & Hin).
  apply attrsOf_names in Hin.
  change (xml.AttrName (parsedAttr (renameWith (attrRule elem attrs0) a)))
    with (decoder.splitName (attrRule elem attrs0 (attrName a))).
  unfold goodNames in Hn. apply andb_true_iff in Hn as [_ Ha].
  rewrite forallb_forall in Ha. specialize (Ha _ Hin).
  pose proof (rules_fact keepsDefault elem attrs0 (attrName a)
                ltac:(vm_compute; reflexivity) Ha) as Hk.
  unfold keepsDefault in Hk. apply orb_true_iff in Hk as [Hk|Hk]; [|exact Hk].
  apply String.eqb_eq in Hk.
  assert (Hf : existsb (String.eqb decoder.xmlnsPrefix) (fieldNames fields) = true).
  { apply existsb_exists. exists (attrName a). split; [exact Hin|].
    rewrite Hk. apply String.eqb_refl. }
  congruence.
Qed.

(** The name space the root element declares as the default. *)
Definition spaceOf (m : MPD) : string :=
  match XMLNS m with
  | Some s => s
  | None => ""
  end.

Lemma root_default (attrs0 : list xml.Attr) (v : option string) (rest : Fields) :
  goodNames (fieldNames rest) = true ->
  existsb (String.eqb decoder.xmlnsPrefix) (fieldNames rest) = false ->
  defaultSpace (decoder.declare [] (parsedAttrs "MPD" attrs0 (("xmlns", v) :: rest)))
  = match v with Some s => s | None => "" end.
Proof.
  intros Hn Hx. unfold parsedAttrs. rewrite attrsOf_cons, !map_app, declare_app.
  change (map parsedAttr (map (renameWith (attrRule "MPD" attrs0)) (attrsOf rest)))
    with (parsedAttrs "MPD" attrs0 rest).
  rewrite parsedAttrs_default by assumption. now destruct v.
Qed.

(** ** What [Decode] makes of a document *)

Definition elementName (space local : string) : xml.Name :=
  {| xml.Space := space; xml.Local := local |}.

(** The numbers of a document are numbers of their Go types. *)
Definition fitsEvent (e : Event) : bool :=
  fitsInt (Event_PresentationTime e) && fitsInt (Event_Duration e).

Definition fitsEventStream (e : EventStream) : bool :=
  fitsInt (ES_Timescale e) && forallb fitsEvent (ES_Events e).

Definition fitsProgramEventStream (e : ProgramEventStream) : bool :=
  fitsInt (PES_Timescale e) && forallb fitsEvent (PES_Events e).

Definition fitsSegment (s : SegmentTimelineSegment) : bool :=
  fitsUint 64 (Seg_T s) && (Seg_D s <? 2 ^ 64)%N && fitsInt (Seg_R s).

Definition fitsSegmentTimeline (t : SegmentTimeline) : bool :=
  forallb fitsSegment (Segments t).

Definition validOpt {A : Type} (valid : A -> bool) (v : option A) : bool :=
  match v with
  | Some x => valid x
  | None => true
  end.

Definition fitsSegmentTemplate (t : SegmentTemplate) : bool :=
  fitsUint 64 (ST_Timescale t) && fitsUint 64 (ST_StartNumber t)
  && fitsUint 64 (ST_PresentationTimeOffset t) && fitsUint 32 (ST_Duration t)
  && forallb fitsSegmentTimeline (ST_SegmentTimeline t).

Definition fitsRepresentation (r : Representation) : bool :=
  fitsUint 64 (Rep_Width r) && fitsUint 64 (Rep_Height r)
  && fitsUint 64 (Rep_Bandwidth r)
  && validOpt fitsSegmentTemplate (Rep_SegmentTemplate r).

Definition fitsAdaptationSet (a : AdaptationSet) : bool :=
  fitsCond (AS_SegmentAlignment a) && fitsCond (AS_SubsegmentAlignment a)
  && fitsUint 64 (AS_StartWithSAP a) && fitsUint 64 (AS_SubsegmentStartsWithSAP a)
  && forallb fitsRepresentation (AS_Representations a)
  && validOpt fitsSegmentTemplate (AS_SegmentTemplate a).

Definition fitsPeriod (p : Period) : bool :=
  forallb fitsEventStream (Period_EventStreams p)
  && forallb fitsProgramEventStream (Period_ProgramEventStreams p)
  && forallb fitsAdaptationSet (somes (Period_AdaptationSets p)).

Definition fitsMPD (m : MPD) : bool := forallb fitsPeriod (somes (Periods m)).

(** The document [Decode] reads from what [Encode] wrote: the number of a
    union alone when it holds both variants; on every event and event
    stream the name of its element in the default name space [sp] of the
    root; a text in every payload, the empty one when it held none; no nil
    pointer in a slice. *)
Definition canonEvent (sp : string) (e : Event) : Event :=
  {| Event_XMLName := elementName sp "Event"; Event_ID := Event_ID e;
     Event_PresentationTime := Event_PresentationTime e;
     Event_Duration := Event_Duration e |}.

Definition canonEventStream (sp : string) (e : EventStream) : EventStream :=
  {| ES_XMLName := elementName sp "EventStream"; ES_SchemeIDURI := ES_SchemeIDURI e;
     ES_Value := ES_Value e; ES_Timescale := ES_Timescale e;
     ES_Events := map (canonEvent sp) (ES_Events e) |}.

Definition canonProgramEventStream (sp : string) (e : ProgramEventStream)
  : ProgramEventStream :=
  {| PES_XMLName := elementName sp "ProgramEventStream"; PES_SchemeIDURI := PES_SchemeIDURI e;
     PES_Value := PES_Value e; PES_Timescale := PES_Timescale e;
     PES_Events := map (canonEvent sp) (PES_Events e) |}.

Definition textOf (v : option string) : string :=
  match v with
  | Some s => s
  | None => ""
  end.

Definition canonPssh (p : Pssh) : Pssh :=
  {| Pssh_Value := Some (textOf (Pssh_Value p)); Pssh_Cenc := Pssh_Cenc p |}.

Definition canonPro (p : Pro) : Pro :=
  {| Pro_Value := Some (textOf (Pro_Value p)); Pro_Mspr := Pro_Mspr p |}.

Definition canonContentProtection (c : ContentProtection) : ContentProtection :=
  {| CP_SchemeIDURI := CP_SchemeIDURI c; CP_Value := CP_Value c;
     CP_DefaultKID := CP_DefaultKID c; CP_Cenc := CP_Cenc c;
     CP_Pssh := option_map canonPssh (CP_Pssh c);
     CP_Pro := option_map canonPro (CP_Pro c) |}.

Definition canonRepresentation (r : Representation) : Representation :=
  {| Rep_ID := Rep_ID r; Rep_Width := Rep_Width r; Rep_Height := Rep_Height r;
     Rep_FrameRate := Rep_FrameRate r; Rep_Bandwidth := Rep_Bandwidth r;
     Rep_AudioSamplingRate := Rep_AudioSamplingRate r; Rep_Codecs := Rep_Codecs r;
     Rep_ContentProtections := map canonContentProtection (Rep_ContentProtections r);
     Rep_SegmentTemplate := Rep_SegmentTemplate r; Rep_ScanType := Rep_ScanType r;
     Rep_AudioChannelConfiguration := Rep_AudioChannelConfiguration r |}.

Definition canonAdaptationSet (a : AdaptationSet) : AdaptationSet :=
  {| AS_MimeType := AS_MimeType a;
     AS_SegmentAlignment := canonCond (AS_SegmentAlignment a);
     AS_SubsegmentAlignment := canonCond (AS_SubsegmentAlignment a);
     AS_StartWithSAP := AS_StartWithSAP a;
     AS_SubsegmentStartsWithSAP := AS_SubsegmentStartsWithSAP a;
     AS_BitstreamSwitching := AS_BitstreamSwitching a; AS_Lang := AS_Lang a;
     AS_ContentProtections := map canonContentProtection (AS_ContentProtections a);
     AS_Representations := map canonRepresentation (AS_Representations a);
     AS_FrameRate := AS_FrameRate a; AS_SegmentTemplate := AS_SegmentTemplate a |}.

Definition canonPeriod (sp : string) (p : Period) : Period :=
  {| Period_Start := Period_Start p; Period_ID := Period_ID p;
     Period_Duration := Period_Duration p;
     Period_SupplementalProperty := Period_SupplementalProperty p;
     Period_BaseURL := Period_BaseURL p;
     Period_EventStreams := map (canonEventStream sp) (Period_EventStreams p);
     Period_ProgramEventStreams :=
       map (canonProgramEventStream sp) (Period_ProgramEventStreams p);
     Period_AdaptationSets :=
       map Some (map canonAdaptationSet (somes (Period_AdaptationSets p))) |}.

Definition canonMPD (m : MPD) : MPD :=
  {| XMLNS := XMLNS m; Cenc := Cenc m; Mspr := Mspr m; Type_ := Type_ m;
     MinimumUpdatePeriod := MinimumUpdatePeriod m;
     AvailabilityStartTime := AvailabilityStartTime m;
     MediaPresentationDuration := MediaPresentationDuration m;
     MinBufferTime := MinBufferTime m;
     SuggestedPresentationDelay := SuggestedPresentationDelay m;
     TimeShiftBufferDepth := TimeShiftBufferDepth m; PublishTime := PublishTime m;
     Profiles := Profiles m; BaseURL := BaseURL m;
     Periods := map Some (map (canonPeriod (spaceOf m)) (somes (Periods m))) |}.

(** ** The documents that are read back *)

Definition nameIs (space local : string) (n : xml.Name) : bool :=
  String.eqb (xml.Space n) space && String.eqb (xml.Local n) local.

Definition isSome {A : Type} (v : option A) : bool :=
  match v with
  | Some _ => true
  | None => false
  end.

(** One variant at most. *)
Definition validCond (c : ConditionalUint.t) : bool :=
  negb (isSome (ConditionalUint.u c) && isSome (ConditionalUint.b c)).

(** An event carries the name of its element in the default name space
    [sp] of the document. *)
Definition validEvent (sp : string) (e : Event) : bool :=
  nameIs sp "Event" (Event_XMLName e).

Definition validEventStream (sp : string) (e : EventStream) : bool :=
  nameIs sp "EventStream" (ES_XMLName e) && forallb (validEvent sp) (ES_Events e).

Definition validProgramEventStream (sp : string) (e : ProgramEventStream) : bool :=
  nameIs sp "ProgramEventStream" (PES_XMLName e)
  && forallb (validEvent sp) (PES_Events e).

(** The payloads hold a text, if an empty one. *)
Definition validPssh (p : Pssh) : bool := isSome (Pssh_Value p).

Definition validPro (p : Pro) : bool := isSome (Pro_Value p).

Definition validContentProtection (c : ContentProtection) : bool :=
  validOpt validPssh (CP_Pssh c) && validOpt validPro (CP_Pro c).

Definition validRepresentation (r : Representation) : bool :=
  forallb validContentProtection (Rep_ContentProtections r).

Definition validAdaptationSet (a : AdaptationSet) : bool :=
  validCond (AS_SegmentAlignment a) && validCond (AS_SubsegmentAlignment a)
  && forallb validContentProtection (AS_ContentProtections a)
  && forallb validRepresentation (AS_Representations a).

Definition validPeriod (sp : string) (p : Period) : bool :=
  forallb (validEventStream sp) (Period_EventStreams p)
  && forallb (validProgramEventStream sp) (Period_ProgramEventStreams p)
  && noneNil (Period_AdaptationSets p)
  && forallb validAdaptationSet (somes (Period_AdaptationSets p)).

(** A document [Decode] reads back as it is: no nil pointer in a slice,
    one variant of a union at most, a text in every payload, and on every
    event and event stream the name of its element. *)
Definition validMPD (m : MPD) : bool :=
  noneNil (Periods m) && forallb (validPeriod (spaceOf m)) (somes (Periods m)).

(** ** Every element is read back *)

Ltac reify_attrs t :=
  lazymatch t with
  | (?a ++ ?b)%list =>
      let fa := reify_attrs a in
      let fb := reify_attrs b in
      constr:((fa ++ fb)%list)
  | marshal.strAttr ?n ?v => constr:([(n, v)])
  | marshal.uintAttr ?n ?v => constr:([(n, option_map strconv.FormatUint v)])
  | marshal.intAttr ?n ?v => constr:([(n, option_map strconv.FormatInt v)])
  | marshal.boolAttr ?n ?v => constr:([(n, option_map strconv.FormatBool v)])
  | marshal.condAttr ?n ?c => constr:([(n, condText c)])
  | [xml.attr ?n ?s] => constr:([(n, Some s)])
  | @nil _ => constr:(@nil (string * option string))
  end.

(** The start tag of the element of the goal, field by field. *)
Ltac open_element Hn :=
  match goal with
  | |- context [renameNode (xml.Element ?name ?attrs ?kids)] =>
      let f := reify_attrs attrs in
      let f' := eval cbn [List.app] in f in
      replace attrs with (attrsOf f')
        by (rewrite ?condAttr_strAttr by discriminate; reflexivity);
      assert (Hn : goodNames (fieldNames f') = true) by reflexivity
  end;
  cbn [renameNode]; rewrite treeOf_Element; cbn [unmarshal.start]; rewrite ?seen_map.

Ltac field_value name F :=
  eval cbv [field String.eqb Ascii.eqb Bool.eqb andb] in (field name F).

Ltac attrs_back Hn :=
  repeat match goal with
    | |- context [unmarshal.stringPtrAttr ?name
                    (map (seen ?ns (attrRule ?e ?a0)) (attrsOf ?F)) None] =>
        rewrite (stringPtrAttr_back ns e a0 F Hn name _ eq_refl)
    | |- context [unmarshal.stringAttr ?name
                    (map (seen ?ns (attrRule ?e ?a0)) (attrsOf ?F)) ?old] =>
        let t := field_value name F in
        lazymatch t with
        | Some ?s => rewrite (stringAttr_back ns e a0 F Hn name s old eq_refl)
        end
    | |- context [unmarshal.uintPtrAttr ?bits ?name
                    (map (seen ?ns (attrRule ?e ?a0)) (attrsOf ?F)) None] =>
        let t := field_value name F in
        lazymatch t with
        | option_map strconv.FormatUint ?w =>
            rewrite (uintPtrAttr_back ns e a0 F Hn bits name w
                       ltac:(lia) ltac:(assumption) eq_refl)
        end
    | |- context [unmarshal.uintAttr 64 ?name
                    (map (seen ?ns (attrRule ?e ?a0)) (attrsOf ?F)) ?old] =>
        let t := field_value name F in
        lazymatch t with
        | Some (strconv.FormatUint ?w) =>
            rewrite (uintAttr_back ns e a0 F Hn name w old ltac:(assumption) eq_refl)
        end
    | |- context [unmarshal.intPtrAttr 64 ?name
                    (map (seen ?ns (attrRule ?e ?a0)) (attrsOf ?F)) None] =>
        let t := field_value name F in
        lazymatch t with
        | option_map strconv.FormatInt ?w =>
            rewrite (intPtrAttr_back ns e a0 F Hn name w ltac:(assumption) eq_refl)
        end
    | |- context [unmarshal.boolPtrAttr ?name
                    (map (seen ?ns (attrRule ?e ?a0)) (attrsOf ?F)) None] =>
        let t := field_value name F in
        lazymatch t with
        | option_map strconv.FormatBool ?w =>
            rewrite (boolPtrAttr_back ns e a0 F Hn name w eq_refl)
        end
    | |- context [unmarshal.condAttr ?name
                    (map (seen ?ns (attrRule ?e ?a0)) (attrsOf ?F)) ConditionalUint.zero] =>
        let t := field_value name F in
        lazymatch t with
        | condText ?c =>
            rewrite (condAttr_back ns e a0 F Hn name c ltac:(assumption) eq_refl)
        end
    end;
  cbn [decoder.bind].

Lemma descriptor_back (ns : decoder.Spaces) (d : nat) (x : Descriptor) :
  unmarshal.descriptor ns unmarshal.zeroDescriptor
    (treeOf d (renameNode (marshal.descriptor "SupplementalProperty" x)))
  = Ok x.
Proof.
  unfold unmarshal.descriptor, marshal.descriptor, unmarshal.zeroDescriptor.
  open_element Hn.
  cbn [Descriptor_SchemeIDURI Descriptor_Value Descriptor_ID].
  attrs_back Hn. now destruct x.
Qed.

Lemma audio_back (ns : decoder.Spaces) (d : nat) (x : AudioChannelConfiguration) :
  unmarshal.audioChannelConfiguration ns unmarshal.zeroAudioChannelConfiguration
    (treeOf d (renameNode (marshal.audioChannelConfiguration x)))
  = Ok x.
Proof.
  unfold unmarshal.audioChannelConfiguration, marshal.audioChannelConfiguration,
    unmarshal.zeroAudioChannelConfiguration.
  open_element Hn.
  cbn [Audio_SchemeIDURI Audio_Value].
  attrs_back Hn. now destruct x.
Qed.

(** The default name space below a start tag that declares none. *)
Ltac default_space Hn :=
  match goal with
  | |- context [decoder.declare ?ns
                  (map parsedAttr (map (renameWith (attrRule ?e ?a0)) (attrsOf ?F)))] =>
      change (map parsedAttr (map (renameWith (attrRule e a0)) (attrsOf F)))
        with (parsedAttrs e a0 F);
      pose proof (parsedAttrs_default e a0 F Hn eq_refl ns) as Hspace
  end.

(** The children of the element of the goal, piece by piece. *)
Ltac open_kids HE :=
  rewrite ?map_app, ?map_map, ?rename_optElem, ?rename_flat_optElem;
  rewrite ?rename_strElem by reflexivity;
  match goal with
  | |- context [kidTrees ?d ?K] =>
      rewrite <- (List.app_nil_r K); rewrite <- ?List.app_assoc
  end;
  match goal with
  | |- context [kidTrees ?d ?K] =>
      assert (HE : forallb isElement K = true) by (forest isElement)
  end;
  rewrite ?(sliceElem_kidTrees _ _ _ _ _ _ HE), ?(ptrSliceElem_kidTrees _ _ _ _ _ _ HE),
    ?(ptrElem_kidTrees _ _ _ _ _ _ HE), ?(stringElem_kidTrees _ _ _ _ HE).

Ltac solve_others := unfold others; forest isElement.

Ltac skip_pieces :=
  repeat match goal with
    | |- context [unmarshal.sliceElem ?r ?z ?n (kidsTrees ?d (?p ++ ?rest)) ?old] =>
        rewrite (sliceElem_skip r z n d p rest old) by solve_others
    | |- context [unmarshal.ptrSliceElem ?r ?z ?n (kidsTrees ?d (?p ++ ?rest)) ?old] =>
        rewrite (ptrSliceElem_skip r z n d p rest old) by solve_others
    | |- context [unmarshal.ptrElem ?r ?z ?n (kidsTrees ?d (?p ++ ?rest)) ?old] =>
        rewrite (ptrElem_skip r z n d p rest old) by solve_others
    | |- context [unmarshal.stringElem ?n (kidsTrees ?d (?p ++ ?rest)) ?old] =>
        rewrite (stringElem_skip n d p rest old) by solve_others
    end;
  rewrite ?sliceElem_nil, ?ptrSliceElem_nil, ?ptrElem_nil, ?stringElem_nil;
  cbn [decoder.bind].

Ltac split_valid H :=
  repeat match type of H with
    | (_ && _ = true) =>
        let V := fresh "V" in
        apply andb_true_iff in H as [H V]
    end.

Ltac from_valid :=
  match goal with
  | Hy : In ?y ?xs, HF : forallb ?f ?xs = true |- ?f ?y = true =>
      exact (proj1 (forallb_forall f xs) HF y Hy)
  | Hy : ?v = Some ?y, HF : validOpt ?f ?v = true |- ?f ?y = true =>
      rewrite Hy in HF; exact HF
  end.

(** A piece is read back by the lemma of its element. *)
Ltac reads_back lemma :=
  let y := fresh "y" in
  let Hy := fresh "Hy" in
  intros y Hy; split; [reflexivity|split; [reflexivity|]];
  apply lemma; try from_valid.

Definition same {A : Type} (x : A) : A := x.

Lemma map_same {A : Type} (l : list A) : map same l = l.
Proof. apply map_id. Qed.

Lemma option_map_same {A : Type} (v : option A) : option_map same v = v.
Proof. now destruct v. Qed.

Lemma event_canon (ns : decoder.Spaces) (d : nat) (x : Event) :
  fitsEvent x = true ->
  unmarshal.event ns unmarshal.zeroEvent (treeOf d (renameNode (marshal.event x)))
  = Ok (canonEvent (defaultSpace ns) x).
Proof.
  unfold fitsEvent, canonEvent. destruct x as [xmlname id time duration].
  cbn [Event_XMLName Event_ID Event_PresentationTime Event_Duration].
  intros H. split_valid H.
  unfold unmarshal.event, marshal.event, unmarshal.zeroEvent.
  cbn [Event_XMLName Event_ID Event_PresentationTime Event_Duration].
  open_element Hn. attrs_back Hn.
  change (decoder.splitName (renameElem "Event"))
    with {| xml.Space := ""; xml.Local := "Event" |}.
  rewrite translate_element by reflexivity.
  default_space Hn. now rewrite Hspace.
Qed.

Lemma eventStream_canon (ns : decoder.Spaces) (d : nat) (x : EventStream) :
  fitsEventStream x = true ->
  unmarshal.eventStream ns unmarshal.zeroEventStream
    (treeOf d (renameNode (marshal.eventStream x)))
  = Ok (canonEventStream (defaultSpace ns) x).
Proof.
  unfold fitsEventStream, canonEventStream.
  destruct x as [xmlname scheme value timescale events].
  cbn [ES_XMLName ES_SchemeIDURI ES_Value ES_Timescale ES_Events].
  intros H. split_valid H.
  unfold unmarshal.eventStream, marshal.eventStream, unmarshal.zeroEventStream.
  cbn [ES_XMLName ES_SchemeIDURI ES_Value ES_Timescale ES_Events].
  open_element Hn. attrs_back Hn.
  change (decoder.splitName (renameElem "EventStream"))
    with {| xml.Space := ""; xml.Local := "EventStream" |}.
  rewrite translate_element by reflexivity.
  default_space Hn. rewrite Hspace.
  open_kids HE. skip_pieces.
  rewrite sliceElem_take with (h := canonEvent (defaultSpace ns))
    by (intros y Hy; split; [reflexivity|split; [reflexivity|]];
        rewrite <- Hspace; apply event_canon; from_valid).
  skip_pieces. reflexivity.
Qed.

Lemma programEventStream_canon (ns : decoder.Spaces) (d : nat) (x : ProgramEventStream) :
  fitsProgramEventStream x = true ->
  unmarshal.programEventStream ns unmarshal.zeroProgramEventStream
    (treeOf d (renameNode (marshal.programEventStream x)))
  = Ok (canonProgramEventStream (defaultSpace ns) x).
Proof.
  unfold fitsProgramEventStream, canonProgramEventStream.
  destruct x as [xmlname scheme value timescale events].
  cbn [PES_XMLName PES_SchemeIDURI PES_Value PES_Timescale PES_Events].
  intros H. split_valid H.
  unfold unmarshal.programEventStream, marshal.programEventStream,
    unmarshal.zeroProgramEventStream.
  cbn [PES_XMLName PES_SchemeIDURI PES_Value PES_Timescale PES_Events].
  open_element Hn. attrs_back Hn.
  change (decoder.splitName (renameElem "ProgramEventStream"))
    with {| xml.Space := ""; xml.Local := "ProgramEventStream" |}.
  rewrite translate_element by reflexivity.
  default_space Hn. rewrite Hspace.
  open_kids HE. skip_pieces.
  rewrite sliceElem_take with (h := canonEvent (defaultSpace ns))
    by (intros y Hy; split; [reflexivity|split; [reflexivity|]];
        rewrite <- Hspace; apply event_canon; from_valid).
  skip_pieces. reflexivity.
Qed.

Lemma charData_kids (d : nat) (v : option string) :
  unmarshal.charData (kidTrees d (map renameNode (marshal.charData v))) = textOf v.
Proof.
  destruct v as [s|]; [|reflexivity]. cbn [marshal.charData map renameNode kidTrees textOf].
  destruct (String.eqb_spec s "") as [->|H]; [reflexivity|].
  cbn [unmarshal.charData]. apply app_nil_r.
Qed.

Lemma pssh_canon (ns : decoder.Spaces) (d : nat) (x : Pssh) :
  unmarshal.pssh ns unmarshal.zeroPssh (treeOf d (renameNode (marshal.pssh x)))
  = Ok (canonPssh x).
Proof.
  destruct x as [value cenc].
  unfold unmarshal.pssh, marshal.pssh, unmarshal.zeroPssh, canonPssh.
  cbn [Pssh_Value Pssh_Cenc].
  open_element Hn. attrs_back Hn. now rewrite charData_kids.
Qed.

Lemma pro_canon (ns : decoder.Spaces) (d : nat) (x : Pro) :
  unmarshal.pro ns unmarshal.zeroPro (treeOf d (renameNode (marshal.pro x)))
  = Ok (canonPro x).
Proof.
  destruct x as [value mspr].
  unfold unmarshal.pro, marshal.pro, unmarshal.zeroPro, canonPro.
  cbn [Pro_Value Pro_Mspr].
  open_element Hn. attrs_back Hn. now rewrite charData_kids.
Qed.

Lemma contentProtection_canon (ns : decoder.Spaces) (d : nat) (x : ContentProtection) :
  unmarshal.contentProtection ns unmarshal.zeroContentProtection
    (treeOf d (renameNode (marshal.contentProtection x)))
  = Ok (canonContentProtection x).
Proof.
  destruct x as [scheme value kid cenc pssh pro].
  unfold unmarshal.contentProtection, marshal.contentProtection,
    unmarshal.zeroContentProtection, canonContentProtection.
  cbn [CP_SchemeIDURI CP_Value CP_DefaultKID CP_Cenc CP_Pssh CP_Pro].
  open_element Hn. attrs_back Hn.
  open_kids HE. skip_pieces.
  rewrite ptrElem_take with (h := canonPssh) by (reads_back pssh_canon). skip_pieces.
  rewrite ptrElem_take with (h := canonPro) by (reads_back pro_canon). skip_pieces.
  reflexivity.
Qed.

Lemma segment_back (ns : decoder.Spaces) (d : nat) (x : SegmentTimelineSegment) :
  fitsSegment x = true ->
  unmarshal.segment ns unmarshal.zeroSegment (treeOf d (renameNode (marshal.segment x)))
  = Ok x.
Proof.
  unfold fitsSegment. destruct x as [t dur r].
  cbn [Seg_T Seg_D Seg_R]. intros H. split_valid H.
  match goal with H : (_ <? _)%N = true |- _ => apply N.ltb_lt in H end.
  unfold unmarshal.segment, marshal.segment, unmarshal.zeroSegment.
  cbn [Seg_T Seg_D Seg_R].
  open_element Hn. attrs_back Hn. reflexivity.
Qed.

Lemma segmentTimeline_back (ns : decoder.Spaces) (d : nat) (x : SegmentTimeline) :
  fitsSegmentTimeline x = true ->
  unmarshal.segmentTimeline ns unmarshal.zeroSegmentTimeline
    (treeOf d (renameNode (marshal.segmentTimeline x)))
  = Ok x.
Proof.
  unfold fitsSegmentTimeline. destruct x as [segments].
  cbn [Segments]. intros H.
  unfold unmarshal.segmentTimeline, marshal.segmentTimeline, unmarshal.zeroSegmentTimeline.
  cbn [Segments].
  cbn [renameNode]. rewrite treeOf_Element. cbn [unmarshal.start].
  open_kids HE. skip_pieces.
  rewrite sliceElem_take with (h := same) by (reads_back segment_back). skip_pieces.
  now rewrite map_same.
Qed.

Lemma segmentTemplate_back (ns : decoder.Spaces) (d : nat) (x : SegmentTemplate) :
  fitsSegmentTemplate x = true ->
  unmarshal.segmentTemplate ns unmarshal.zeroSegmentTemplate
    (treeOf d (renameNode (marshal.segmentTemplate x)))
  = Ok x.
Proof.
  unfold fitsSegmentTemplate.
  destruct x as [timescale media initialization startNumber offset duration timelines].
  cbn [ST_Timescale ST_StartNumber ST_PresentationTimeOffset ST_Duration
       ST_SegmentTimeline]. intros H. split_valid H.
  unfold unmarshal.segmentTemplate, marshal.segmentTemplate, unmarshal.zeroSegmentTemplate.
  cbn [ST_Timescale ST_Media ST_Initialization ST_StartNumber ST_PresentationTimeOffset
       ST_Duration ST_SegmentTimeline].
  open_element Hn. attrs_back Hn.
  open_kids HE. skip_pieces.
  rewrite sliceElem_take with (h := same) by (reads_back segmentTimeline_back).
  skip_pieces. now rewrite map_same.
Qed.

Lemma representation_canon (ns : decoder.Spaces) (d : nat) (x : Representation) :
  fitsRepresentation x = true ->
  unmarshal.representation ns unmarshal.zeroRepresentation
    (treeOf d (renameNode (marshal.representation x)))
  = Ok (canonRepresentation x).
Proof.
  unfold fitsRepresentation, canonRepresentation.
  destruct x as [id width height frameRate bandwidth rate codecs protections template
                 scanType audio].
  cbn [Rep_ID Rep_Width Rep_Height Rep_FrameRate Rep_Bandwidth Rep_AudioSamplingRate
       Rep_Codecs Rep_ContentProtections Rep_SegmentTemplate Rep_ScanType
       Rep_AudioChannelConfiguration].
  intros H. split_valid H.
  unfold unmarshal.representation, marshal.representation, unmarshal.zeroRepresentation.
  cbn [Rep_ID Rep_Width Rep_Height Rep_FrameRate Rep_Bandwidth Rep_AudioSamplingRate
       Rep_Codecs Rep_ContentProtections Rep_SegmentTemplate Rep_ScanType
       Rep_AudioChannelConfiguration].
  open_element Hn. attrs_back Hn.
  open_kids HE. skip_pieces.
  rewrite sliceElem_take with (h := canonContentProtection)
    by (reads_back contentProtection_canon).
  skip_pieces.
  rewrite ptrElem_take with (h := same) by (reads_back segmentTemplate_back). skip_pieces.
  rewrite ptrElem_take with (h := same) by (reads_back audio_back). skip_pieces.
  now rewrite !option_map_same.
Qed.

Lemma adaptationSet_canon (ns : decoder.Spaces) (d : nat) (x : AdaptationSet) :
  fitsAdaptationSet x = true ->
  unmarshal.adaptationSet ns unmarshal.zeroAdaptationSet
    (treeOf d (renameNode (marshal.adaptationSet x)))
  = Ok (canonAdaptationSet x).
Proof.
  unfold fitsAdaptationSet, canonAdaptationSet.
  destruct x as [mimeType alignment subAlignment sap subSap switching lang protections
                 representations frameRate template].
  cbn [AS_MimeType AS_SegmentAlignment AS_SubsegmentAlignment AS_StartWithSAP
       AS_SubsegmentStartsWithSAP AS_BitstreamSwitching AS_Lang AS_ContentProtections
       AS_Representations AS_FrameRate AS_SegmentTemplate].
  intros H. split_valid H.
  unfold unmarshal.adaptationSet, marshal.adaptationSet, unmarshal.zeroAdaptationSet.
  cbn [AS_MimeType AS_SegmentAlignment AS_SubsegmentAlignment AS_StartWithSAP
       AS_SubsegmentStartsWithSAP AS_BitstreamSwitching AS_Lang AS_ContentProtections
       AS_Representations AS_FrameRate AS_SegmentTemplate].
  open_element Hn. attrs_back Hn.
  open_kids HE. skip_pieces.
  rewrite sliceElem_take with (h := canonContentProtection)
    by (reads_back contentProtection_canon).
  skip_pieces.
  rewrite sliceElem_take with (h := canonRepresentation)
    by (reads_back representation_canon).
  skip_pieces.
  rewrite ptrElem_take with (h := same) by (reads_back segmentTemplate_back). skip_pieces.
  now rewrite option_map_same.
Qed.

Lemma period_canon (ns : decoder.Spaces) (d : nat) (x : Period) :
  fitsPeriod x = true ->
  unmarshal.period ns unmarshal.zeroPeriod (treeOf d (renameNode (marshal.period x)))
  = Ok (canonPeriod (defaultSpace ns) x).
Proof.
  unfold fitsPeriod, canonPeriod.
  destruct x as [start id duration property baseURL streams programStreams sets].
  cbn [Period_Start Period_ID Period_Duration Period_SupplementalProperty Period_BaseURL
       Period_EventStreams Period_ProgramEventStreams Period_AdaptationSets].
  intros H. split_valid H.
  unfold unmarshal.period, marshal.period, unmarshal.zeroPeriod.
  cbn [Period_Start Period_ID Period_Duration Period_SupplementalProperty Period_BaseURL
       Period_EventStreams Period_ProgramEventStreams Period_AdaptationSets].
  open_element Hn. attrs_back Hn.
  default_space Hn.
  open_kids HE. skip_pieces.
  rewrite ptrElem_take with (h := same) by (reads_back descriptor_back). skip_pieces.
  rewrite stringElem_take by reflexivity. skip_pieces.
  rewrite sliceElem_take with (h := canonEventStream (defaultSpace ns))
    by (intros y Hy; split; [reflexivity|split; [reflexivity|]];
        rewrite <- Hspace; apply eventStream_canon; from_valid).
  skip_pieces.
  rewrite sliceElem_take with (h := canonProgramEventStream (defaultSpace ns))
    by (intros y Hy; split; [reflexivity|split; [reflexivity|]];
        rewrite <- Hspace; apply programEventStream_canon; from_valid).
  skip_pieces.
  rewrite ptrSliceElem_take with (h := canonAdaptationSet)
    by (reads_back adaptationSet_canon).
  skip_pieces. rewrite option_map_same, ?map_map. reflexivity.
Qed.

(** ** The root element, read into a receiver *)

(** A pointer the document sets, or the one the receiver held. *)
Definition orElse {A : Type} (v old : option A) : option A :=
  match v with
  | Some _ => v
  | None => old
  end.

Lemma orElse_None {A : Type} (v : option A) : orElse v None = v.
Proof. now destruct v. Qed.

Lemma stringPtrAttr_onto (ns : decoder.Spaces) (elem : string) (attrs0 : list xml.Attr)
  (fields : Fields) (name : string) (v old : option string) :
  goodNames (fieldNames fields) = true ->
  field name fields = v ->
  unmarshal.stringPtrAttr name (map (seen ns (attrRule elem attrs0)) (attrsOf fields)) old
  = Ok (orElse v old).
Proof.
  intros Hn <-. unfold unmarshal.stringPtrAttr. rewrite fields_stored by assumption.
  now destruct (field name fields).
Qed.

Lemma stringElem_onto (name : string) (d : nat) (s old : string) (rest : list xml.Node) :
  xml.Local (decoder.splitName name) = name ->
  unmarshal.stringElem name (kidsTrees d (marshal.strElem name s ++ rest)) old
  = unmarshal.stringElem name (kidsTrees d rest) (if String.eqb s "" then old else s).
Proof.
  intros H. unfold marshal.strElem.
  destruct (String.eqb_spec s "") as [->|Hs]; [reflexivity|].
  pose proof (stringElem_take name d s rest H) as Ht.
  unfold marshal.strElem in Ht. rewrite (proj2 (String.eqb_neq _ _) Hs) in Ht.
  unfold unmarshal.stringElem in *.
  rewrite kidsTrees_app, childField_app in *.
  rewrite childField_element in * by reflexivity. cbn [rootLocal] in *.
  rewrite H, String.eqb_refl in *. exact Ht.
Qed.

(** The receiver [m0] after the document [m] is read into it: the
    attributes [m] sets replace those of [m0], the others stay; the
    periods of [m] follow those of [m0]. *)
Definition onto (m0 m : MPD) : MPD :=
  {| XMLNS := orElse (XMLNS m) (XMLNS m0);
     Cenc := orElse (Cenc m) (Cenc m0);
     Mspr := orElse (Mspr m) (Mspr m0);
     Type_ := orElse (Type_ m) (Type_ m0);
     MinimumUpdatePeriod := orElse (MinimumUpdatePeriod m) (MinimumUpdatePeriod m0);
     AvailabilityStartTime := orElse (AvailabilityStartTime m) (AvailabilityStartTime m0);
     MediaPresentationDuration :=
       orElse (MediaPresentationDuration m) (MediaPresentationDuration m0);
     MinBufferTime := orElse (MinBufferTime m) (MinBufferTime m0);
     SuggestedPresentationDelay :=
       orElse (SuggestedPresentationDelay m) (SuggestedPresentationDelay m0);
     TimeShiftBufferDepth := orElse (TimeShiftBufferDepth m) (TimeShiftBufferDepth m0);
     PublishTime := orElse (PublishTime m) (PublishTime m0);
     Profiles := Profiles m;
     BaseURL := if String.eqb (BaseURL m) "" then BaseURL m0 else BaseURL m;
     Periods := (Periods m0 ++ Periods m)%list |}.

Lemma onto_zero (m : MPD) : onto unmarshal.zeroMPD m = m.
Proof.
  destruct m as [xmlns cenc mspr type minimumUpdatePeriod availabilityStartTime
                 mediaPresentationDuration minBufferTime suggestedPresentationDelay
                 timeShiftBufferDepth publishTime profiles baseURL periods].
  unfold onto, unmarshal.zeroMPD.
  cbn [XMLNS Cenc Mspr Type_ MinimumUpdatePeriod AvailabilityStartTime
       MediaPresentationDuration MinBufferTime SuggestedPresentationDelay
       TimeShiftBufferDepth PublishTime Profiles BaseURL Periods].
  rewrite !orElse_None. cbn [List.app].
  match goal with
  | |- context [if String.eqb ?s "" then "" else ?s] =>
      replace (if String.eqb s "" then "" else s) with s
        by (destruct (String.eqb_spec s ""); congruence)
  end.
  reflexivity.
Qed.

Lemma mpd_onto (m0 m : MPD) :
  fitsMPD m = true ->
  unmarshal.mpd [] m0 (treeOf 0 (renameNode (marshal.mpd m))) = Ok (onto m0 (canonMPD m)).
Proof.
  unfold fitsMPD, canonMPD, spaceOf, onto.
  destruct m as [xmlns cenc mspr type minimumUpdatePeriod availabilityStartTime
                 mediaPresentationDuration minBufferTime suggestedPresentationDelay
                 timeShiftBufferDepth publishTime profiles baseURL periods].
  cbn [XMLNS Cenc Mspr Type_ MinimumUpdatePeriod AvailabilityStartTime
       MediaPresentationDuration MinBufferTime SuggestedPresentationDelay
       TimeShiftBufferDepth PublishTime Profiles BaseURL Periods].
  intros H.
  unfold unmarshal.mpd, marshal.mpd.
  cbn [XMLNS Cenc Mspr Type_ MinimumUpdatePeriod AvailabilityStartTime
       MediaPresentationDuration MinBufferTime SuggestedPresentationDelay
       TimeShiftBufferDepth PublishTime Profiles BaseURL Periods].
  open_element Hn.
  repeat match goal with
    | |- context [unmarshal.stringPtrAttr ?name
                    (map (seen ?ns (attrRule ?e ?a0)) (attrsOf ?F)) ?old] =>
        rewrite (stringPtrAttr_onto ns e a0 F name _ old Hn eq_refl)
    end.
  attrs_back Hn.
  match goal with
  | |- context [decoder.declare ?ns
                  (map parsedAttr (map (renameWith (attrRule ?e ?a0))
                                     (attrsOf (("xmlns", ?v) :: ?rest))))] =>
      change (map parsedAttr (map (renameWith (attrRule e a0))
                                (attrsOf (("xmlns", v) :: rest))))
        with (parsedAttrs e a0 (("xmlns", v) :: rest));
      pose proof (root_default a0 v rest eq_refl eq_refl) as Hspace
  end.
  open_kids HE. skip_pieces.
  rewrite stringElem_onto by reflexivity. skip_pieces.
  rewrite ptrSliceElem_take
    with (h := canonPeriod match xmlns with Some s => s | None => "" end)
    by (intros y Hy; split; [reflexivity|split; [reflexivity|]];
        rewrite <- Hspace; apply period_canon; from_valid).
  skip_pieces. rewrite ?map_map. reflexivity.
Qed.

(** ** The documents that are read back as they are *)

Lemma nameIs_eq (sp local : string) (n : xml.Name) :
  nameIs sp local n = true -> elementName sp local = n.
Proof.
  unfold nameIs, elementName. intros H. apply andb_true_iff in H as [H1 H2].
  apply String.eqb_eq in H1, H2. destruct n. cbn in *. now subst.
Qed.

Lemma canonCond_valid (c : ConditionalUint.t) : validCond c = true -> canonCond c = c.
Proof. destruct c as [[v|] [b|]]; [discriminate|reflexivity..]. Qed.

Lemma canonEvent_valid (sp : string) (e : Event) :
  validEvent sp e = true -> canonEvent sp e = e.
Proof.
  unfold validEvent, canonEvent. intros H. rewrite (nameIs_eq _ _ _ H). now destruct e.
Qed.

Lemma canonEventStream_valid (sp : string) (e : EventStream) :
  validEventStream sp e = true -> canonEventStream sp e = e.
Proof.
  unfold validEventStream, canonEventStream. intros H.
  apply andb_true_iff in H as [H1 H2]. rewrite (nameIs_eq _ _ _ H1).
  rewrite map_fixed; [now destruct e|].
  intros x Hx. apply canonEvent_valid. rewrite forallb_forall in H2. now apply H2.
Qed.

Lemma canonProgramEventStream_valid (sp : string) (e : ProgramEventStream) :
  validProgramEventStream sp e = true -> canonProgramEventStream sp e = e.
Proof.
  unfold validProgramEventStream, canonProgramEventStream. intros H.
  apply andb_true_iff in H as [H1 H2]. rewrite (nameIs_eq _ _ _ H1).
  rewrite map_fixed; [now destruct e|].
  intros x Hx. apply canonEvent_valid. rewrite forallb_forall in H2. now apply H2.
Qed.

Lemma canonPssh_valid (p : Pssh) : validPssh p = true -> canonPssh p = p.
Proof. destruct p as [[s|] c]; [reflexivity|discriminate]. Qed.

Lemma canonPro_valid (p : Pro) : validPro p = true -> canonPro p = p.
Proof. destruct p as [[s|] c]; [reflexivity|discriminate]. Qed.

Lemma canonContentProtection_valid (c : ContentProtection) :
  validContentProtection c = true -> canonContentProtection c = c.
Proof.
  unfold validContentProtection, canonContentProtection. intros H.
  apply andb_true_iff in H as [H1 H2].
  rewrite !option_map_fixed; [now destruct c| |].
  - intros x Hx. apply canonPro_valid. rewrite Hx in H2. exact H2.
  - intros x Hx. apply canonPssh_valid. rewrite Hx in H1. exact H1.
Qed.

Lemma canonRepresentation_valid (r : Representation) :
  validRepresentation r = true -> canonRepresentation r = r.
Proof.
  unfold validRepresentation, canonRepresentation. intros H.
  rewrite map_fixed; [now destruct r|].
  intros x Hx. apply canonContentProtection_valid.
  rewrite forallb_forall in H. now apply H.
Qed.

Lemma canonAdaptationSet_valid (a : AdaptationSet) :
  validAdaptationSet a = true -> canonAdaptationSet a = a.
Proof.
  unfold validAdaptationSet, canonAdaptationSet. intros H. split_valid H.
  rewrite !canonCond_valid by assumption.
  rewrite !map_fixed; [now destruct a| |].
  - intros x Hx. apply canonRepresentation_valid. from_valid.
  - intros x Hx. apply canonContentProtection_valid. from_valid.
Qed.

Lemma canonPeriod_valid (sp : string) (p : Period) :
  validPeriod sp p = true -> canonPeriod sp p = p.
Proof.
  unfold validPeriod, canonPeriod. intros H. split_valid H.
  rewrite (map_fixed canonAdaptationSet)
    by (intros x Hx; apply canonAdaptationSet_valid; from_valid).
  rewrite noneNil_somes by assumption.
  rewrite !map_fixed; [now destruct p| |].
  - intros x Hx. apply canonProgramEventStream_valid. from_valid.
  - intros x Hx. apply canonEventStream_valid. from_valid.
Qed.

Lemma canonMPD_valid (m : MPD) : validMPD m = true -> canonMPD m = m.
Proof.
  unfold validMPD, canonMPD. intros H. split_valid H.
  rewrite (map_fixed (canonPeriod (spaceOf m)))
    by (intros x Hx; apply canonPeriod_valid; from_valid).
  rewrite noneNil_somes by assumption. now destruct m.
Qed.

(** ** [Decode] after [Encode] *)

Lemma Decode_Encode_canon (m0 m : MPD) :
  fitsMPD m = true -> nodeText (marshal.mpd m) = true ->
  forallb lineCond (docLines m) = true ->
  exists out, Encode m = Ok out /\ Decode m0 out = Ok (onto m0 (canonMPD m)).
Proof.
  intros Hv Ht Hc. destruct (document_Encode m Ht Hc) as (out & He & Hd).
  exists out. split; [exact He|]. unfold Decode. rewrite Hd. now apply mpd_onto.
Qed.

Lemma Decode_Encode_zero (m : MPD) :
  validMPD m = true -> fitsMPD m = true -> nodeText (marshal.mpd m) = true ->
  forallb lineCond (docLines m) = true ->
  exists out, Encode m = Ok out /\ Decode unmarshal.zeroMPD out = Ok m.
Proof.
  intros Hv Hf Ht Hc.
  destruct (Decode_Encode_canon unmarshal.zeroMPD m Hf Ht Hc) as (out & He & Hd).
  exists out. now rewrite onto_zero, canonMPD_valid in Hd.
Qed.

(** ** Further properties of [Encode], [Decode] and ConditionalUint *)

(** A document with every kind of element, attribute and payload. *)
Definition docComplete : MPD :=
  let space := "urn:mpeg:dash:schema:mpd:2011" in
  let event :=
    {| Event_XMLName := {| xml.Space := space; xml.Local := "Event" |};
       Event_ID := Some "1"; Event_PresentationTime := Some 10%Z;
       Event_Duration := Some (-5)%Z |} in
  let stream :=
    {| ES_XMLName := {| xml.Space := space; xml.Local := "EventStream" |};
       ES_SchemeIDURI := Some "urn:scte:scte35:2013:xml"; ES_Value := None;
       ES_Timescale := Some 90000%Z; ES_Events := [event] |} in
  let programStream :=
    {| PES_XMLName := {| xml.Space := space; xml.Local := "ProgramEventStream" |};
       PES_SchemeIDURI := None; PES_Value := Some "a<b"; PES_Timescale := None;
       PES_Events := [] |} in
  let protection :=
    {| CP_SchemeIDURI := Some "urn:mpeg:dash:mp4protection:2011";
       CP_Value := Some "cenc";
       CP_DefaultKID := Some "0123";
       CP_Cenc := Some "urn:mpeg:cenc:2013";
       CP_Pssh := None; CP_Pro := None |} in
  let payloads :=
    {| CP_SchemeIDURI := Some "urn:uuid:9a04f079"; CP_Value := None;
       CP_DefaultKID := None; CP_Cenc := None;
       CP_Pssh := Some {| Pssh_Value := Some "AAAA";
                          Pssh_Cenc := Some "urn:mpeg:cenc:2013" |};
       CP_Pro := Some {| Pro_Value := Some "";
                         Pro_Mspr := Some "urn:microsoft:playready" |} |} in
  let template :=
    {| ST_Timescale := Some 1000%N; ST_Media := Some "$Time$.m4s";
       ST_Initialization := Some "init.mp4"; ST_StartNumber := Some 1%N;
       ST_PresentationTimeOffset := None; ST_Duration := Some 4294967295%N;
       ST_SegmentTimeline :=
         [{| Segments := [{| Seg_T := Some 0%N; Seg_D := 2000%N; Seg_R := Some (-1)%Z |};
                          {| Seg_T := None; Seg_D := 18446744073709551615%N;
                             Seg_R := None |}] |}] |} in
  let representation :=
    {| Rep_ID := Some "v1"; Rep_Width := Some 1920%N; Rep_Height := Some 1080%N;
       Rep_FrameRate := Some "30000/1001"; Rep_Bandwidth := Some 5000000%N;
       Rep_AudioSamplingRate := None; Rep_Codecs := Some "avc1.640028";
       Rep_ContentProtections := []; Rep_SegmentTemplate := Some template;
       Rep_ScanType := None;
       Rep_AudioChannelConfiguration :=
         Some {| Audio_SchemeIDURI := Some "urn:mpeg:dash:23003:3:audio";
                 Audio_Value := Some "2" |} |} in
  let set :=
    {| AS_MimeType := "video/mp4";
       AS_SegmentAlignment :=
         {| ConditionalUint.u := None; ConditionalUint.b := Some true |};
       AS_SubsegmentAlignment :=
         {| ConditionalUint.u := Some 1%N; ConditionalUint.b := None |};
       AS_StartWithSAP := Some 1%N; AS_SubsegmentStartsWithSAP := None;
       AS_BitstreamSwitching := Some false; AS_Lang := Some "en";
       AS_ContentProtections := [protection; payloads];
       AS_Representations := [representation];
       AS_FrameRate := None; AS_SegmentTemplate := None |} in
  let period :=
    {| Period_Start := Some "PT0S"; Period_ID := Some "p0"; Period_Duration := None;
       Period_SupplementalProperty :=
         Some {| Descriptor_SchemeIDURI := Some "urn:x"; Descriptor_Value := Some "1";
                 Descriptor_ID := None |};
       Period_BaseURL := "media/";
       Period_EventStreams := [stream]; Period_ProgramEventStreams := [programStream];
       Period_AdaptationSets := [Some set] |} in
  {| XMLNS := Some space; Cenc := Some "urn:mpeg:cenc:2013";
     Mspr := Some "urn:microsoft:playready"; Type_ := Some "static";
     MinimumUpdatePeriod := None; AvailabilityStartTime := None;
     MediaPresentationDuration := Some "PT10S"; MinBufferTime := Some "PT2S";
     SuggestedPresentationDelay := None; TimeShiftBufferDepth := None;
     PublishTime := None; Profiles := "urn:mpeg:dash:profile:isoff-live:2011";
     BaseURL := "http://example.com/"; Periods := [Some period] |}.

(** A receiver that holds a document already. *)
Definition docReceiver : MPD :=
  {| XMLNS := Some "urn:other"; Cenc := None; Mspr := None; Type_ := Some "dynamic";
     MinimumUpdatePeriod := Some "PT5S"; AvailabilityStartTime := None;
     MediaPresentationDuration := None; MinBufferTime := None;
     SuggestedPresentationDelay := None; TimeShiftBufferDepth := None;
     PublishTime := None; Profiles := "old"; BaseURL := "http://old/";
     Periods := [None; Some unmarshal.zeroPeriod] |}.

(** A document [Decode] does not read back as it is: a nil pointer among
    the periods and among the adaptation sets, a ConditionalUint with both
    variants, a payload without text, an event stream without name. *)
Definition docLossy : MPD :=
  let stream :=
    {| ES_XMLName := unmarshal.zeroName; ES_SchemeIDURI := Some "urn:x";
       ES_Value := None; ES_Timescale := None;
       ES_Events := [unmarshal.zeroEvent] |} in
  let protection :=
    {| CP_SchemeIDURI := None; CP_Value := None; CP_DefaultKID := None;
       CP_Cenc := None;
       CP_Pssh := Some {| Pssh_Value := None; Pssh_Cenc := Some "urn:mpeg:cenc:2013" |};
       CP_Pro := Some {| Pro_Value := None; Pro_Mspr := None |} |} in
  let set :=
    {| AS_MimeType := "audio/mp4";
       AS_SegmentAlignment :=
         {| ConditionalUint.u := Some 1%N; ConditionalUint.b := Some true |};
       AS_SubsegmentAlignment := ConditionalUint.zero;
       AS_StartWithSAP := None; AS_SubsegmentStartsWithSAP := None;
       AS_BitstreamSwitching := None; AS_Lang := None;
       AS_ContentProtections := [protection]; AS_Representations := [];
       AS_FrameRate := None; AS_SegmentTemplate := None |} in
  let period :=
    {| Period_Start := None; Period_ID := None; Period_Duration := None;
       Period_SupplementalProperty := None; Period_BaseURL := "";
       Period_EventStreams := [stream]; Period_ProgramEventStreams := [];
       Period_AdaptationSets := [None; Some set] |} in
  {| XMLNS := Some "urn:mpeg:dash:schema:mpd:2011"; Cenc := None; Mspr := None;
     Type_ := None; MinimumUpdatePeriod := None; AvailabilityStartTime := None;
     MediaPresentationDuration := None; MinBufferTime := None;
     SuggestedPresentationDelay := None; TimeShiftBufferDepth := None;
     PublishTime := None; Profiles := ""; BaseURL := "";
     Periods := [Some period; None] |}.

(** One variant exactly, the number a [uint64]. *)
Definition oneVariant (c : ConditionalUint.t) : bool :=
  match ConditionalUint.u c, ConditionalUint.b c with
  | Some v, None => (v <? 2 ^ 64)%N
  | None, Some _ => true
  | _, _ => false
  end.

(** *** The canonical form is a document that is read back *)

Lemma nameIs_elementName (sp local : string) :
  nameIs sp local (elementName sp local) = true.
Proof. unfold nameIs, elementName. cbn. now rewrite !String.eqb_refl. Qed.

Lemma somes_Some {A : Type} (l : list A) : somes (map Some l) = l.
Proof. induction l as [|x l IH]; [reflexivity|]. cbn. now rewrite IH. Qed.

Lemma noneNil_Some {A : Type} (l : list A) : noneNil (map Some l) = true.
Proof. induction l as [|x l IH]; [reflexivity|exact IH]. Qed.

Lemma validCond_canon (c : ConditionalUint.t) : validCond (canonCond c) = true.
Proof. now destruct c as [[v|] [b|]]. Qed.

Lemma validEventStream_canon (sp : string) (e : EventStream) :
  validEventStream sp (canonEventStream sp e) = true.
Proof.
  unfold validEventStream, canonEventStream. cbn [ES_XMLName ES_Events].
  rewrite nameIs_elementName. apply forallb_map_true. intros x.
  apply nameIs_elementName.
Qed.

Lemma validProgramEventStream_canon (sp : string) (e : ProgramEventStream) :
  validProgramEventStream sp (canonProgramEventStream sp e) = true.
Proof.
  unfold validProgramEventStream, canonProgramEventStream. cbn [PES_XMLName PES_Events].
  rewrite nameIs_elementName. apply forallb_map_true. intros x.
  apply nameIs_elementName.
Qed.

Lemma validContentProtection_canon (c : ContentProtection) :
  validContentProtection (canonContentProtection c) = true.
Proof. destruct c as [s v k e [p|] [q|]]; reflexivity. Qed.

Lemma validRepresentation_canon (r : Representation) :
  validRepresentation (canonRepresentation r) = true.
Proof.
  unfold validRepresentation, canonRepresentation. cbn [Rep_ContentProtections].
  apply forallb_map_true, validContentProtection_canon.
Qed.

Lemma validAdaptationSet_canon (a : AdaptationSet) :
  validAdaptationSet (canonAdaptationSet a) = true.
Proof.
  unfold validAdaptationSet, canonAdaptationSet.
  cbn [AS_SegmentAlignment AS_SubsegmentAlignment AS_ContentProtections
       AS_Representations].
  rewrite !validCond_canon.
  rewrite (forallb_map_true _ _ _ validContentProtection_canon).
  now rewrite (forallb_map_true _ _ _ validRepresentation_canon).
Qed.

Lemma validPeriod_canon (sp : string) (p : Period) :
  validPeriod sp (canonPeriod sp p) = true.
Proof.
  unfold validPeriod, canonPeriod.
  cbn [Period_EventStreams Period_ProgramEventStreams Period_AdaptationSets].
  rewrite (forallb_map_true _ _ _ (validEventStream_canon sp)).
  rewrite (forallb_map_true _ _ _ (validProgramEventStream_canon sp)).
  rewrite noneNil_Some, somes_Some.
  now rewrite (forallb_map_true _ _ _ validAdaptationSet_canon).
Qed.

Lemma validMPD_canon (m : MPD) : validMPD (canonMPD m) = true.
Proof.
  unfold validMPD. cbn [canonMPD Periods]. rewrite noneNil_Some, somes_Some.
  change (spaceOf (canonMPD m)) with (spaceOf m).
  now rewrite (forallb_map_true _ _ _ (validPeriod_canon (spaceOf m))).
Qed.

(** X1: [Decode] after [Encode] gives the document back.  For every
    document that is valid ([validMPD]: no nil pointer in a slice of
    pointers, a text in every payload, one variant of a union at most, on
    every event and event stream the name of its element in the default
    name space of the root), whose numbers are numbers of their Go types
    ([fitsMPD]), whose texts are text of an XML document ([nodeText]) and
    whose lines the six rules rename only ([lineCond]: no empty timeline,
    the markers where the rules expect them), [Encode] returns a text, and
    [Decode] of this text into the zero value returns the document. *)
Theorem X1_Decode_Encode_round_trip (m : MPD) :
  validMPD m = true -> fitsMPD m = true -> nodeText (marshal.mpd m) = true ->
  forallb lineCond (docLines m) = true ->
  exists out, Encode m = Ok out /\ Decode unmarshal.zeroMPD out = Ok m.
Proof. apply Decode_Encode_zero. Qed.

Lemma X1_Decode_Encode_round_trip_witness :
  exists out, Encode docComplete = Ok out
              /\ Decode unmarshal.zeroMPD out = Ok docComplete.
Proof.
  apply (X1_Decode_Encode_round_trip docComplete); vm_compute; reflexivity.
Defined.

(** X2: [Decode] does not reset its receiver.  Reading the text [Encode]
    wrote for a document [m] into a receiver [m0] leaves the attributes of
    [m0] that [m] does not set, replaces the others, keeps the BaseURL of
    [m0] when that of [m] is empty, and appends the periods read from [m]
    to those of [m0]. *)
Theorem X2_Decode_into_receiver (m0 m : MPD) :
  fitsMPD m = true -> nodeText (marshal.mpd m) = true ->
  forallb lineCond (docLines m) = true ->
  exists out, Encode m = Ok out /\ Decode m0 out = Ok (onto m0 (canonMPD m)).
Proof. apply Decode_Encode_canon. Qed.

Lemma X2_Decode_into_receiver_witness :
  exists out, Encode docComplete = Ok out
              /\ Decode docReceiver out = Ok (onto docReceiver (canonMPD docComplete)).
Proof.
  apply (X2_Decode_into_receiver docReceiver docComplete); vm_compute; reflexivity.
Defined.

(** X3: on the documents of X1 [Encode] is injective: two of them with
    the same output are equal. *)
Theorem X3_Encode_injective (m1 m2 : MPD) :
  validMPD m1 = true -> fitsMPD m1 = true -> nodeText (marshal.mpd m1) = true ->
  forallb lineCond (docLines m1) = true ->
  validMPD m2 = true -> fitsMPD m2 = true -> nodeText (marshal.mpd m2) = true ->
  forallb lineCond (docLines m2) = true ->
  Encode m1 = Encode m2 -> m1 = m2.
Proof.
  intros V1 F1 T1 C1 V2 F2 T2 C2 E.
  destruct (Decode_Encode_zero m1 V1 F1 T1 C1) as (o1 & E1 & D1).
  destruct (Decode_Encode_zero m2 V2 F2 T2 C2) as (o2 & E2 & D2).
  rewrite E1, E2 in E. injection E as ->. congruence.
Qed.

Lemma X3_Encode_injective_witness : docComplete = docComplete.
Proof.
  apply (X3_Encode_injective docComplete docComplete); vm_compute; reflexivity.
Defined.

(** X4: what [Encode] writes.  When every line of the serializer's output
    keeps to [lineCond], the output of [Encode] is the XML declaration and
    the lines of the same tree with other names: the elements pssh and pro
    are cenc:pssh and mspr:pro, the attributes cenc and mspr of the root,
    cenc of a pssh and mspr of a pro are xmlns:cenc and xmlns:mspr, and next
    to a default_KID, which is cenc:default_KID, cenc is xmlns:cenc; an
    element without content is self-closed.  No value and no text is
    changed. *)
Theorem X4_Encode_renames_only (m : MPD) :
  forallb lineCond (docLines m) = true ->
  Encode m
  = Ok ((xmlHeader ++ xml.nl)
        ++ concatAll (map lineEnd (nodeLines 0 (renameNode (marshal.mpd m))))).
Proof.
  intros Hc. apply Encode_renamed. apply forallb_forall. intros l Hl.
  pose proof (docLines_ok m) as H1. pose proof (docLines_schema m) as H2.
  rewrite forallb_forall in H1, H2, Hc. unfold goodLine.
  now rewrite H1, H2, Hc.
Qed.

Lemma X4_Encode_renames_only_witness :
  Encode docComplete
  = Ok ((xmlHeader ++ xml.nl)
        ++ concatAll (map lineEnd (nodeLines 0 (renameNode (marshal.mpd docComplete))))).
Proof. apply (X4_Encode_renames_only docComplete). vm_compute. reflexivity. Defined.

(** X5: the output of [Encode] is a document the decoder reads.  For a
    document whose texts are text of an XML document and whose lines keep
    to [lineCond], the decoder reads the output of [Encode] without a
    syntax error, as the renamed tree with the line breaks and the
    indentation between its elements as character data. *)
Theorem X5_Encode_output_parses (m : MPD) :
  nodeText (marshal.mpd m) = true -> forallb lineCond (docLines m) = true ->
  exists out, Encode m = Ok out
              /\ decoder.document out = Ok (treeOf 0 (renameNode (marshal.mpd m))).
Proof. apply document_Encode. Qed.

Lemma X5_Encode_output_parses_witness :
  exists out, Encode docComplete = Ok out
              /\ decoder.document out
                 = Ok (treeOf 0 (renameNode (marshal.mpd docComplete))).
Proof. apply (X5_Encode_output_parses docComplete); vm_compute; reflexivity. Defined.

(** X6: the loop of [Encode] rewrites line by line.  [Encode] returns no
    error on any document; its output is the XML declaration and a
    newline, then every line of the serializer's output with its newline
    (the last line has none) after the six rules, each line by itself and
    in the order of the lines, then a newline. *)
Theorem X6_Encode_line_by_line (m : MPD) :
  Encode m
  = Ok ((xmlHeader ++ xml.nl)
        ++ concatAll (map rewriteLine (terminated (map lineText (docLines m))))
        ++ xml.nl).
Proof. apply Encode_inputLines. Qed.

(** X7: a ConditionalUint with one variant is read back.  The attribute
    [MarshalXMLAttr] returns for it, read by [UnmarshalXMLAttr] into the
    zero value, gives the same ConditionalUint, and neither returns an
    error. *)
Theorem X7_ConditionalUint_round_trip (c : ConditionalUint.t) (name : xml.Name) :
  oneVariant c = true ->
  snd (ConditionalUint.MarshalXMLAttr c name) = None
  /\ ConditionalUint.UnmarshalXMLAttr ConditionalUint.zero
       (fst (ConditionalUint.MarshalXMLAttr c name))
     = (c, None).
Proof.
  destruct c as [[v|] [b|]]; cbn [oneVariant ConditionalUint.u ConditionalUint.b];
    try discriminate; intros H.
  - apply N.ltb_lt in H. split; [reflexivity|].
    cbn [ConditionalUint.MarshalXMLAttr ConditionalUint.u fst].
    rewrite (UnmarshalXMLAttr_uint _ _ v); [reflexivity|].
    now apply ParseUint_FormatUint.
  - split; [reflexivity|]. destruct b; reflexivity.
Qed.

Lemma X7_ConditionalUint_round_trip_witness :
  snd (ConditionalUint.MarshalXMLAttr
         {| ConditionalUint.u := Some 18446744073709551615%N; ConditionalUint.b := None |}
         {| xml.Space := ""; xml.Local := "segmentAlignment" |}) = None
  /\ ConditionalUint.UnmarshalXMLAttr ConditionalUint.zero
       (fst (ConditionalUint.MarshalXMLAttr
               {| ConditionalUint.u := Some 18446744073709551615%N;
                  ConditionalUint.b := None |}
               {| xml.Space := ""; xml.Local := "segmentAlignment" |}))
     = ({| ConditionalUint.u := Some 18446744073709551615%N; ConditionalUint.b := None |},
        None).
Proof. apply X7_ConditionalUint_round_trip. reflexivity. Defined.

(** X8: with both variants set the boolean is lost.  [MarshalXMLAttr]
    writes the number alone, so reading its attribute into the zero value
    gives the integer variant and no boolean. *)
Theorem X8_both_variants_lose_boolean (v : N) (b : bool) (name : xml.Name) :
  (v < 2 ^ 64)%N ->
  ConditionalUint.UnmarshalXMLAttr ConditionalUint.zero
    (fst (ConditionalUint.MarshalXMLAttr
            {| ConditionalUint.u := Some v; ConditionalUint.b := Some b |} name))
  = ({| ConditionalUint.u := Some v; ConditionalUint.b := None |}, None).
Proof.
  intros H. cbn [ConditionalUint.MarshalXMLAttr ConditionalUint.u fst].
  rewrite (UnmarshalXMLAttr_uint _ _ v); [reflexivity|].
  now apply ParseUint_FormatUint.
Qed.

Lemma X8_both_variants_lose_boolean_witness :
  ConditionalUint.UnmarshalXMLAttr ConditionalUint.zero
    (fst (ConditionalUint.MarshalXMLAttr
            {| ConditionalUint.u := Some 7%N; ConditionalUint.b := Some true |}
            {| xml.Space := ""; xml.Local := "segmentAlignment" |}))
  = ({| ConditionalUint.u := Some 7%N; ConditionalUint.b := None |}, None).
Proof. apply X8_both_variants_lose_boolean. reflexivity. Defined.

(** X9: [UnmarshalXMLAttr] writes one pointer at most.  When it returns an
    error the receiver is as it was; when it returns none, either the
    number is set and the boolean is the receiver's, or the boolean is set
    and the number is the receiver's: a variant the receiver held is never
    cleared. *)
Theorem X9_UnmarshalXMLAttr_keeps_receiver (c : ConditionalUint.t) (attr : xml.Attr) :
  match ConditionalUint.UnmarshalXMLAttr c attr with
  | (c', Some _) => c' = c
  | (c', None) =>
      (exists v, c' = {| ConditionalUint.u := Some v;
                         ConditionalUint.b := ConditionalUint.b c |})
      \/ (exists v, c' = {| ConditionalUint.u := ConditionalUint.u c;
                            ConditionalUint.b := Some v |})
  end.
Proof.
  unfold ConditionalUint.UnmarshalXMLAttr.
  destruct (strconv.ParseUint (xml.Value attr) 64) as [v|e]; [left; now exists v|].
  destruct (strconv.ParseBool (xml.Value attr)) as [v|e']; [right; now exists v|].
  reflexivity.
Qed.

(** X10: what [Decode] makes of any document.  For every document whose
    numbers are numbers of their Go types, whose texts are text of an XML
    document and whose lines keep to [lineCond], valid or not, [Decode] of
    the output of [Encode] into the zero value is the canonical form of
    the document: the nil pointers among the periods and the adaptation
    sets are gone, a ConditionalUint with both variants has the number
    alone, a payload without text has the empty text, every event and
    event stream has the name of its element in the default name space of
    the root, and nothing else is changed.  The canonical form is a valid
    document. *)
Theorem X10_Decode_Encode_canonical (m : MPD) :
  fitsMPD m = true -> nodeText (marshal.mpd m) = true ->
  forallb lineCond (docLines m) = true ->
  (exists out, Encode m = Ok out /\ Decode unmarshal.zeroMPD out = Ok (canonMPD m))
  /\ validMPD (canonMPD m) = true.
Proof.
  intros Hf Ht Hc. split; [|apply validMPD_canon].
  destruct (Decode_Encode_canon unmarshal.zeroMPD m Hf Ht Hc) as (out & He & Hd).
  exists out. now rewrite onto_zero in Hd.
Qed.

Lemma X10_Decode_Encode_canonical_witness :
  (exists out, Encode docLossy = Ok out
               /\ Decode unmarshal.zeroMPD out = Ok (canonMPD docLossy))
  /\ validMPD (canonMPD docLossy) = true.
Proof.
  apply (X10_Decode_Encode_canonical docLossy); vm_compute; reflexivity.
Defined.

(** ** C6: what the pass writes for an element without content *)

(** The rewrites of the loop body that follow the first one
    (mpd.go, lines 104 to 122). *)
Definition afterSelfClose (s : string) : string :=
  dropEmptyTimeline (qualifyDefaultKID (injectPro (injectPssh (injectMPD s)))).

(** *** Substitutions between delimiters *)

Section Frame.

Variables old new : string.
Hypothesis old_free : free old = true.
Hypothesis old_nonempty : old <> "".

Lemma Subst_delim_cons (c : ascii) (s t : string) :
  delim c = true ->
  Subst (eq old) new (String c s) t ->
  exists t', t = String c t' /\ Subst (eq old) new s t'.
Proof.
  intros Hc H. remember (String c s) as u eqn:Hu.
  destruct H as [u|a seg b t Hseg Hsub].
  - subst u. exists s. split; [reflexivity|constructor].
  - subst seg. destruct a as [|x a].
    + exfalso. destruct (free_head old old_free old_nonempty) as (x & o & Ho & Hx).
      rewrite Ho in Hu. cbn [append] in Hu. injection Hu as Hxc _. congruence.
    + cbn [append] in Hu. injection Hu as -> <-.
      exists (a ++ new ++ t). split; [reflexivity|now constructor].
Qed.

Lemma Subst_prefix (w : string) : forall r t,
  allb delim w = true ->
  Subst (eq old) new (w ++ r) t ->
  exists r', t = w ++ r' /\ Subst (eq old) new r r'.
Proof.
  induction w as [|c w IH]; intros r t Hw H.
  - exists t. auto.
  - cbn [allb] in Hw. apply andb_true_iff in Hw as [Hc Hw].
    cbn [append] in H. apply (Subst_delim_cons c _ _ Hc) in H as (t' & -> & H).
    destruct (IH _ _ Hw H) as (r' & -> & Hr). exists r'. auto.
Qed.

Lemma allb_delim_head (z e b : string) :
  allb delim z = true -> z = e ++ old ++ b -> False.
Proof.
  intros Hz ->. destruct (free_head old old_free old_nonempty) as (x & o & Ho & Hx).
  rewrite Ho in Hz. clear Ho.
  induction e as [|c e IH]; cbn [append allb] in Hz.
  - rewrite Hx in Hz. discriminate.
  - apply andb_true_iff in Hz as [_ Hz]. auto.
Qed.

Lemma free_app (a b : string) : free (a ++ b) = free a && free b.
Proof. unfold free. induction a as [|c a IH]; [reflexivity|]. cbn [append allb]. now rewrite IH, andb_assoc. Qed.

Lemma Subst_suffix (z : string) (Hz : allb delim z = true) : forall s t,
  Subst (eq old) new s t -> forall r, s = r ++ z ->
  exists r', t = r' ++ z /\ Subst (eq old) new r r'.
Proof.
  intros s t H. induction H as [s|a seg b t Hseg Hsub IH]; intros r Hs.
  - subst s. exists r. split; [reflexivity|constructor].
  - subst seg.
    assert (Hb : exists b0, b = b0 ++ z /\ r = a ++ old ++ b0).
    { destruct (app_eq_app _ _ _ _ Hs) as [(e & Hr & He)|(e & Ha & He)].
      - destruct (app_eq_app _ _ _ _ He) as [(e' & He' & Hb)|(e' & Ho & Hz')].
        + exists e'. split; [exact Hb|]. rewrite Hr, He'. strassoc.
        + destruct e' as [|c e'].
          * rewrite app_nil_r in Ho. subst e. cbn [append] in Hz'. subst b.
            exists "". split; [reflexivity|]. rewrite app_nil_r. exact Hr.
          * exfalso. destruct z as [|c' z]; [discriminate|].
            cbn [append] in Hz'. injection Hz' as <- _.
            cbn [allb] in Hz. apply andb_true_iff in Hz as [Hc _].
            pose proof old_free as Hf. rewrite Ho, free_app in Hf.
            apply andb_true_iff in Hf as [_ Hf]. unfold free in Hf. cbn [allb] in Hf.
            rewrite Hc in Hf. discriminate.
      - exfalso. exact (allb_delim_head z e b Hz He). }
    destruct Hb as (b0 & Hb & Hr).
    destruct (IH b0 Hb) as (r' & -> & Hr').
    exists (a ++ new ++ r'). split; [strassoc|]. rewrite Hr. now constructor.
Qed.

(** A replacement in a text between a run of delimiters [w] and a run of
    delimiters [z] works between them. *)
Lemma Replace_frame (w mid z : string) (n : Z) :
  allb delim w = true -> allb delim z = true ->
  exists mid', strings.Replace (w ++ mid ++ z) old new n = w ++ mid' ++ z
               /\ Subst (eq old) new mid mid'.
Proof.
  intros Hw Hz.
  pose proof (Replace_Subst old new (w ++ mid ++ z) n) as H.
  apply (Subst_prefix w _ _ Hw) in H as (r' & Hr & H).
  destruct (Subst_suffix z Hz _ _ H mid eq_refl) as (mid' & -> & Hm).
  exists mid'. auto.
Qed.

End Frame.

(** *** The rules after the first keep a self-closed tag *)

(** Every text the rules insert holds a colon, and no marker does: a text
    a rule has changed holds a colon from then on. *)
Definition grown (s t : string) : Prop :=
  (t = s \/ lacks ":" t = false) /\ (lacks ":" s = false -> lacks ":" t = false).

Lemma grown_refl (s : string) : grown s s.
Proof. split; auto. Qed.

Lemma grown_trans (s t u : string) : grown s t -> grown t u -> grown s u.
Proof.
  intros [[->|H1] H2] [[->|H3] H4]; split; auto.
Qed.

Lemma Subst_grown (old new s t : string) :
  lacks ":" old = true -> lacks ":" new = false ->
  Subst (eq old) new s t -> grown s t.
Proof.
  intros Ho Hn H. induction H as [s|a seg b t Hseg Hsub IH]; [apply grown_refl|].
  assert (Hl : lacks ":" (a ++ new ++ t) = false).
  { rewrite !lacks_app, Hn. now rewrite andb_false_r. }
  split; auto.
Qed.

(** Two replacements, one after the other, between delimiters. *)
Lemma Replace_twice (o1 n1 o2 n2 w mid z : string) (k1 k2 : Z) :
  free o1 = true -> o1 <> "" -> lacks ":" o1 = true -> lacks ":" n1 = false ->
  free o2 = true -> o2 <> "" -> lacks ":" o2 = true -> lacks ":" n2 = false ->
  allb delim w = true -> allb delim z = true ->
  exists mid',
    strings.Replace (strings.Replace (w ++ mid ++ z) o1 n1 k1) o2 n2 k2 = w ++ mid' ++ z
    /\ grown mid mid'.
Proof.
  intros F1 E1 L1 N1 F2 E2 L2 N2 Hw Hz.
  destruct (Replace_frame o1 n1 F1 E1 w mid z k1 Hw Hz) as (m1 & -> & H1).
  destruct (Replace_frame o2 n2 F2 E2 w m1 z k2 Hw Hz) as (m2 & -> & H2).
  exists m2. split; [reflexivity|].
  apply (grown_trans mid m1 m2).
  - exact (Subst_grown o1 n1 mid m1 L1 N1 H1).
  - exact (Subst_grown o2 n2 m1 m2 L2 N2 H2).
Qed.

Ltac two_replacements :=
  apply Replace_twice; (reflexivity || discriminate || assumption).

(** The four rules that rename, on a tag between its indentation and its
    end. *)
Lemma renaming_frame (w mid z : string) :
  allb delim w = true -> allb delim z = true ->
  exists mid',
    qualifyDefaultKID (injectPro (injectPssh (injectMPD (w ++ mid ++ z)))) = w ++ mid' ++ z
    /\ grown mid mid'.
Proof.
  intros Hw Hz.
  assert (H1 : exists m1, injectMPD (w ++ mid ++ z) = w ++ m1 ++ z /\ grown mid m1).
  { unfold injectMPD. destruct (strings.Contains _ _).
    - two_replacements.
    - exists mid. split; [reflexivity|apply grown_refl]. }
  destruct H1 as (m1 & -> & G1).
  assert (H2 : exists m2, injectPssh (w ++ m1 ++ z) = w ++ m2 ++ z /\ grown m1 m2).
  { unfold injectPssh. destruct (strings.Contains _ _).
    - two_replacements.
    - exists m1. split; [reflexivity|apply grown_refl]. }
  destruct H2 as (m2 & -> & G2).
  assert (H3 : exists m3, injectPro (w ++ m2 ++ z) = w ++ m3 ++ z /\ grown m2 m3).
  { unfold injectPro. destruct (strings.Contains _ _).
    - two_replacements.
    - exists m2. split; [reflexivity|apply grown_refl]. }
  destruct H3 as (m3 & -> & G3).
  assert (H4 : exists m4, qualifyDefaultKID (w ++ m3 ++ z) = w ++ m4 ++ z /\ grown m3 m4).
  { unfold qualifyDefaultKID. destruct (strings.Contains _ _).
    - two_replacements.
    - exists m3. split; [reflexivity|apply grown_refl]. }
  destruct H4 as (m4 & -> & G4).
  exists m4. split; [reflexivity|].
  eauto using grown_trans.
Qed.

Definition isEmptyLeaf (l : Line) : bool :=
  match l with
  | LLeaf _ _ _ data => String.eqb data ""
  | _ => false
  end.

Lemma allb_delim_indentation (d : nat) : allb delim (xml.indentation d) = true.
Proof. induction d as [|d IH]; [reflexivity|]. cbn [xml.indentation append allb]. exact IH. Qed.

(** The line of an element without content, after all six rules: the
    self-closed tag is still there, unless the line is that of an empty
    timeline, which the last rule drops. *)
Lemma selfClosed_written (l : Line) (tail : string) :
  lineOK l = true -> inSchema (lineName l) = true ->
  (tail = "" \/ tail = xml.nl) ->
  isEmptyLeaf l = true ->
  if isEmptyTimeline l then rewriteLine (lineText l ++ tail) = ""
  else exists mid,
      rewriteLine (lineText l ++ tail)
      = xml.indentation (lineDepth l) ++ "<" ++ mid ++ "/>" ++ tail.
Proof.
  intros Hok Hin Ht Hleaf.
  destruct l as [d name attrs|d name attrs data|d name]; try discriminate.
  cbn [isEmptyLeaf] in Hleaf. apply String.eqb_eq in Hleaf. subst data.
  unfold rewriteLine. rewrite selfClose_line by assumption.
  pose proof (pieces_text (LLeaf d name attrs "") tail Hok) as Hp.
  rewrite pieces_mid in Hp. cbn [lineDepth] in *.
  set (mid := name ++ xml.attrsText attrs).
  assert (Hs : collapsed (LLeaf d name attrs "") ++ tail
               = (xml.indentation d ++ "<") ++ mid ++ ("/>" ++ tail)).
  { rewrite collapsed_leaf. unfold mid. cbn [String.eqb]. strassoc. }
  assert (Hw : allb delim (xml.indentation d ++ "<") = true).
  { rewrite allb_app, allb_delim_indentation. reflexivity. }
  assert (Hz : allb delim ("/>" ++ tail) = true).
  { destruct Ht as [->| ->]; reflexivity. }
  destruct (renaming_frame _ mid _ Hw Hz) as (mid' & Hr & [[Hsame|Hcolon] _]).
  - (* no rule has changed the line *)
    subst mid'. rewrite <- Hs in Hr. rewrite Hr.
    unfold dropEmptyTimeline. rewrite <- Hp.
    rewrite (TrimSpace_tag d _ tail Ht).
    pose proof (timeline_check (LLeaf d name attrs "") Hin) as Hc.
    unfold emptyTimelineTag in Hc. rewrite Hc.
    destruct (isEmptyTimeline (LLeaf d name attrs "")); [reflexivity|].
    exists mid. rewrite Hp, Hs. strassoc.
  - assert (He : isEmptyTimeline (LLeaf d name attrs "") = false).
    { destruct (isEmptyTimeline (LLeaf d name attrs "")) eqn:E; [|reflexivity].
      exfalso. pose proof (emptyTimeline_dropped d tail Ht) as Hd.
      cbn [isEmptyTimeline] in E. destruct attrs; [|discriminate].
      apply andb_true_iff in E as [E _]. apply String.eqb_eq in E. subst name.
      unfold rewriteLine in Hd. unfold timelineTag in Hd.
      rewrite selfClose_line in Hd by assumption.
      fold (afterSelfClose (collapsed (LLeaf d "SegmentTimeline" [] "") ++ tail)) in Hd.
      unfold afterSelfClose in Hd. rewrite Hs, Hr in Hd.
      unfold dropEmptyTimeline in Hd.
      replace ((xml.indentation d ++ "<") ++ mid' ++ "/>" ++ tail)
        with (xml.indentation d ++ String "<" ((mid' ++ "/") ++ ">") ++ tail) in Hd by strassoc.
      rewrite (TrimSpace_tag d _ tail Ht) in Hd.
      destruct (String.eqb_spec (String "<" ((mid' ++ "/") ++ ">")) "<SegmentTimeline/>") as [E|E].
      - assert (Hl : lacks ":" (String "<" ((mid' ++ "/") ++ ">")) = true)
          by (rewrite E; reflexivity).
        change (String "<" ((mid' ++ "/") ++ ">")) with ("<" ++ (mid' ++ "/") ++ ">") in Hl.
        rewrite !lacks_app, Hcolon in Hl. discriminate.
      - destruct (xml.indentation d); discriminate. }
    rewrite He. rewrite Hs, Hr. unfold dropEmptyTimeline.
    replace ((xml.indentation d ++ "<") ++ mid' ++ "/>" ++ tail)
      with (xml.indentation d ++ String "<" ((mid' ++ "/") ++ ">") ++ tail) by strassoc.
    rewrite (TrimSpace_tag d _ tail Ht).
    destruct (String.eqb_spec (String "<" ((mid' ++ "/") ++ ">")) "<SegmentTimeline/>") as [E|E].
    + assert (Hl : lacks ":" (String "<" ((mid' ++ "/") ++ ">")) = true)
        by (rewrite E; reflexivity).
      change (String "<" ((mid' ++ "/") ++ ">")) with ("<" ++ (mid' ++ "/") ++ ">") in Hl.
      rewrite !lacks_app, Hcolon in Hl. discriminate.
    + exists mid'. strassoc.
Qed.

(** *** The line of a Representation without children *)

Lemma delimited_app (a b : string) :
  delimited a = true -> delimited b = true -> delimited (a ++ b) = true.
Proof. destruct a; auto. Qed.

Lemma Replace_delimited (old new s : string) (n : Z) :
  free old = true -> old <> "" ->
  delimited s = true -> delimited (strings.Replace s old new n) = true.
Proof.
  intros Hf Hne Hs. pose proof (Replace_Subst old new s n) as H.
  destruct s as [|c s].
  - remember "" as u eqn:Hu. destruct H as [u|a seg b t Hseg Hsub]; [now subst u|].
    subst seg. exfalso. destruct a; [|discriminate].
    destruct old; [congruence|discriminate].
  - cbn [delimited] in Hs.
    destruct (Subst_delim_cons old new Hf Hne c s _ Hs H) as (t' & -> & _). exact Hs.
Qed.

Lemma delimited_attrsText (attrs : list xml.Attr) :
  forallb attrOK attrs = true -> delimited (xml.attrsText attrs) = true.
Proof.
  intros H. rewrite <- attrsPieces_text by assumption.
  apply delimited_concat, delimited_attrsPieces.
Qed.

Section Qualify.

Variables old new : string.
Hypothesis old_free : free old = true.
Hypothesis old_nonempty : old <> "".
Hypothesis old_new : old <> new.

(** A replacement of every occurrence on a self-closed tag whose name
    lacks the marker works on the attributes. *)
Lemma ReplaceAll_attrs (w A tail : string) :
  strings.Contains w old = false -> delimited A = true ->
  (tail = "" \/ tail = xml.nl) ->
  strings.Replace (w ++ A ++ "/>" ++ tail) old new (-1)
  = w ++ strings.Replace A old new (-1) ++ "/>" ++ tail.
Proof.
  intros Hw HA Ht.
  assert (Hz : delimited ("/>" ++ tail) = true) by reflexivity.
  assert (Hzl : strings.Contains ("/>" ++ tail) old = false).
  { change ("/>" ++ tail) with (String "/" (String ">" tail)).
    rewrite !Contains_cons_delim by (assumption || reflexivity).
    now apply Contains_tail. }
  rewrite (ReplaceAll_app_delim old new old_free old_nonempty old_new _
             (delimited_app _ _ HA Hz) (S (String.length w)) w) by lia.
  rewrite (ReplaceAll_app_delim old new old_free old_nonempty old_new _
             Hz (S (String.length A)) A) by lia.
  rewrite (Replace_lacks old new old_nonempty old_new w) by assumption.
  rewrite (Replace_lacks old new old_nonempty old_new ("/>" ++ tail)) by assumption.
  reflexivity.
Qed.

Lemma Contains_attrs (w A tail : string) :
  strings.Contains w old = false -> delimited A = true ->
  (tail = "" \/ tail = xml.nl) ->
  strings.Contains (w ++ A ++ "/>" ++ tail) old = strings.Contains A old.
Proof.
  intros Hw HA Ht.
  assert (Hz : delimited ("/>" ++ tail) = true) by reflexivity.
  rewrite Contains_app_delim by (try assumption; now apply delimited_app).
  rewrite Contains_app_delim by assumption.
  rewrite Hw. change ("/>" ++ tail) with (String "/" (String ">" tail)).
  rewrite !Contains_cons_delim by (assumption || reflexivity).
  rewrite (Contains_tail old tail old_free old_nonempty Ht).
  now rewrite orb_false_r.
Qed.

End Qualify.

Lemma Contains_open (d : nat) (name pat : string) :
  free pat = true -> pat <> "" -> strings.Contains ("<" ++ name) pat = false ->
  strings.Contains (xml.indentation d ++ "<" ++ name) pat = false.
Proof.
  intros Hf Hne Hn.
  rewrite Contains_app_delim by (assumption || reflexivity).
  rewrite Contains_indentation by assumption. exact Hn.
Qed.

(** The key-id rule on a self-closed tag whose name lacks its markers. *)
Lemma qualify_attrs (d : nat) (name A tail : string) :
  strings.Contains ("<" ++ name) "default_KID" = false ->
  strings.Contains ("<" ++ name) "cenc=" = false ->
  delimited A = true -> (tail = "" \/ tail = xml.nl) ->
  qualifyDefaultKID ((xml.indentation d ++ "<" ++ name) ++ A ++ "/>" ++ tail)
  = (xml.indentation d ++ "<" ++ name) ++ qualifyDefaultKID A ++ "/>" ++ tail.
Proof.
  intros Hk Hc HA Ht. unfold qualifyDefaultKID.
  rewrite (Contains_attrs "default_KID" eq_refl ltac:(discriminate) _ A tail)
    by (try assumption; now apply Contains_open).
  destruct (strings.Contains A "default_KID"); [|reflexivity].
  rewrite (ReplaceAll_attrs "default_KID" "cenc:default_KID" eq_refl ltac:(discriminate)
             ltac:(discriminate) _ A tail)
    by (try assumption; now apply Contains_open).
  rewrite (ReplaceAll_attrs "cenc=" "xmlns:cenc=" eq_refl ltac:(discriminate)
             ltac:(discriminate) _ _ tail);
    try assumption; try reflexivity.
  - now apply Contains_open.
  - apply Replace_delimited; (reflexivity || discriminate || assumption).
Qed.

(** A Representation with its attributes only. *)
Definition withoutChildren (r : Representation) : Representation :=
  {| Rep_ID := Rep_ID r;
     Rep_Width := Rep_Width r;
     Rep_Height := Rep_Height r;
     Rep_FrameRate := Rep_FrameRate r;
     Rep_Bandwidth := Rep_Bandwidth r;
     Rep_AudioSamplingRate := Rep_AudioSamplingRate r;
     Rep_Codecs := Rep_Codecs r;
     Rep_ContentProtections := [];
     Rep_SegmentTemplate := None;
     Rep_ScanType := Rep_ScanType r;
     Rep_AudioChannelConfiguration := None |}.

Definition representationLine (d : nat) (r : Representation) : Line :=
  LLeaf d "Representation" (representationAttrs r) "".

Lemma representationLine_ok (d : nat) (r : Representation) :
  lineOK (representationLine d r) = true /\ lineSchema (representationLine d r) = true.
Proof.
  pose proof (nodeLines_ok _ (ok_representation (withoutChildren r)) d) as H1.
  pose proof (nodeLines_schema _ (schema_representation (withoutChildren r)) d) as H2.
  change (nodeLines d (marshal.representation (withoutChildren r)))
    with [representationLine d r] in H1, H2.
  cbn [forallb] in H1, H2. rewrite andb_true_r in H1, H2. auto.
Qed.

(** What the pass writes for the line of a Representation without
    children: the self-closed tag, its attributes after the key-id rule. *)
Lemma representation_written (d : nat) (r : Representation) (tail : string) :
  (tail = "" \/ tail = xml.nl) ->
  rewriteLine (lineText (representationLine d r) ++ tail)
  = xml.indentation d ++ "<Representation"
    ++ qualifyDefaultKID (xml.attrsText (representationAttrs r)) ++ "/>" ++ tail.
Proof.
  intros Ht. destruct (representationLine_ok d r) as [Hok Hs].
  destruct (lineSchema_parts _ Hs) as (Hin & _).
  unfold rewriteLine. rewrite selfClose_line by assumption.
  assert (T : forall X, In X triggerNames ->
              strings.Contains (collapsed (representationLine d r) ++ tail) (String "<" X)
              = false).
  { intros X HX. rewrite start_trigger; try assumption; try reflexivity.
    - cbn in HX. destruct HX as [<-|[<-|[<-|[]]]]; reflexivity.
    - cbn in HX. destruct HX as [<-|[<-|[<-|[]]]]; reflexivity. }
  pose proof (T "MPD" ltac:(cbn; auto)) as T1.
  pose proof (T "pssh" ltac:(cbn; auto)) as T2.
  pose proof (T "pro" ltac:(cbn; auto)) as T3.
  unfold injectMPD. rewrite T1. unfold injectPssh. rewrite T2.
  unfold injectPro. rewrite T3.
  assert (HA : delimited (xml.attrsText (representationAttrs r)) = true).
  { apply delimited_attrsText. unfold representationLine in Hok. cbn [lineOK] in Hok.
    now apply andb_true_iff in Hok as [_ Hok]. }
  unfold representationLine. rewrite collapsed_leaf. cbn [String.eqb].
  replace ((xml.indentation d ++ "<" ++ "Representation"
            ++ xml.attrsText (representationAttrs r) ++ "/>") ++ tail)
    with ((xml.indentation d ++ "<" ++ "Representation")
          ++ xml.attrsText (representationAttrs r) ++ "/>" ++ tail) by strassoc.
  rewrite qualify_attrs by (assumption || reflexivity).
  set (A := qualifyDefaultKID (xml.attrsText (representationAttrs r))).
  unfold dropEmptyTimeline.
  replace ((xml.indentation d ++ "<" ++ "Representation") ++ A ++ "/>" ++ tail)
    with (xml.indentation d ++ String "<" (("Representation" ++ A ++ "/") ++ ">") ++ tail)
    by strassoc.
  rewrite (TrimSpace_tag d _ tail Ht).
  cbn [append String.eqb Ascii.eqb Bool.eqb]. strassoc.
Qed.

Lemma qualify_plain (d : nat) (r : Representation) :
  valuesLack keyId (representationAttrs r) = true ->
  qualifyDefaultKID (xml.attrsText (representationAttrs r))
  = xml.attrsText (representationAttrs r).
Proof.
  intros Hv. destruct (representationLine_ok d r) as [Hok Hs].
  destruct (lineSchema_parts _ Hs) as (_ & Hal & _).
  assert (Hno : hasName keyId (lineAttrs (representationLine d r)) = false)
    by (apply (hasName_among _ _ _ Hal); reflexivity).
  pose proof (keyId_absent _ "" Hok Hs (or_introl eq_refl) Hno Hv eq_refl) as Hk.
  unfold representationLine in Hk. rewrite collapsed_leaf in Hk.
  apply Contains_false_app in Hk as [Hk _].
  apply Contains_false_app in Hk as [_ Hk].
  apply Contains_false_app in Hk as [_ Hk].
  apply Contains_false_app in Hk as [_ Hk].
  apply Contains_false_app in Hk as [Hk _].
  unfold qualifyDefaultKID. unfold keyId in Hk. rewrite Hk. reflexivity.
Qed.

(** *** The lines of a child among the lines of the document *)

Lemma In_removelast {A : Type} (x : A) (ls : list A) : In x (removelast ls) -> In x ls.
Proof.
  induction ls as [|y ls IH]; [auto|].
  cbn [removelast]. destruct ls as [|z ls]; [intros []|].
  intros [->|H]; [now left|right; auto].
Qed.

Lemma child_lines (d : nat) (name : string) (attrs : list xml.Attr)
  (kids : list xml.Node) (k : xml.Node) (l : Line) :
  In k kids -> In l (nodeLines (S d) k) ->
  In l (removelast (nodeLines d (xml.Element name attrs kids))).
Proof.
  intros Hk Hl.
  assert (Hin : In l (flat_map (nodeLines (S d)) kids))
    by (apply in_flat_map; eauto).
  assert (Hgen : In l (removelast (LOpen d name attrs
                                   :: flat_map (nodeLines (S d)) kids ++ [LClose d name]))).
  { change (LOpen d name attrs :: flat_map (nodeLines (S d)) kids ++ [LClose d name])
      with ((LOpen d name attrs :: flat_map (nodeLines (S d)) kids) ++ [LClose d name])%list.
    rewrite removelast_last. now right. }
  destruct kids as [|k1 kids]; [destruct Hk|].
  destruct k1 as [n1 a1 c1|data]; [exact Hgen|].
  destruct kids as [|k2 kids]; [|exact Hgen].
  destruct Hk as [<-|[]]. destruct Hl.
Qed.

Lemma representation_lines (m : MPD) (p : Period) (a : AdaptationSet)
  (r : Representation) (l : Line) :
  In (Some p) (Periods m) -> In (Some a) (Period_AdaptationSets p) ->
  In r (AS_Representations a) ->
  In l (nodeLines 3 (marshal.representation r)) ->
  In l (removelast (docLines m)).
Proof.
  intros Hp Ha Hr Hl.
  unfold docLines, marshal.mpd. apply (child_lines 0 _ _ _ (marshal.period p)).
  { apply in_or_app. right. apply in_flat_map. exists (Some p). split; [exact Hp|now left]. }
  apply In_removelast. unfold marshal.period.
  apply (child_lines 1 _ _ _ (marshal.adaptationSet a)).
  { repeat (apply in_or_app; right).
    apply in_flat_map. exists (Some a). split; [exact Ha|now left]. }
  apply In_removelast. unfold marshal.adaptationSet.
  apply (child_lines 2 _ _ _ (marshal.representation r)); [|exact Hl].
  apply in_or_app. right. apply in_or_app. left. now apply in_map.
Qed.

Lemma inner_line (ls : list Line) (l : Line) :
  In l (removelast ls) -> In (lineText l ++ xml.nl) (terminated (map lineText ls)).
Proof.
  induction ls as [|x ls IH]; [intros []|].
  destruct ls as [|y ls]; [intros []|].
  change (removelast (x :: y :: ls)) with (x :: removelast (y :: ls)).
  change (terminated (map lineText (x :: y :: ls)))
    with ((lineText x ++ xml.nl) :: terminated (map lineText (y :: ls))).
  intros [->|H]; [now left|right; auto].
Qed.

Lemma concatAll_In (f : string -> string) (ts : list string) (t : string) :
  In t ts -> exists before after, concatAll (map f ts) = before ++ f t ++ after.
Proof.
  intros H. apply in_split in H as (l1 & l2 & ->).
  exists (concatAll (map f l1)), (concatAll (map f l2)).
  rewrite map_app, concatAll_app. reflexivity.
Qed.

(** The loop of [Encode] works on the collapsed lines. *)
Lemma rewrite_collapsed (ls : list Line) :
  forallb lineOK ls = true ->
  map rewriteLine (terminated (map lineText ls))
  = map afterSelfClose (terminated (map collapsed ls)).
Proof.
  induction ls as [|l ls IH]; intros H; [reflexivity|].
  cbn [forallb] in H. apply andb_true_iff in H as [Hl H].
  destruct ls as [|l' ls].
  - cbn [map terminated]. unfold rewriteLine at 1.
    rewrite <- (app_nil_r (lineText l)), selfClose_line by auto.
    rewrite app_nil_r. reflexivity.
  - specialize (IH H). remember (l' :: ls) as rest eqn:Hrest.
    assert (E1 : terminated (map lineText (l :: rest))
                 = (lineText l ++ xml.nl) :: terminated (map lineText rest))
      by (subst rest; reflexivity).
    assert (E2 : terminated (map collapsed (l :: rest))
                 = (collapsed l ++ xml.nl) :: terminated (map collapsed rest))
      by (subst rest; reflexivity).
    rewrite E1, E2. cbn [map]. rewrite IH. unfold rewriteLine at 1.
    rewrite selfClose_line by auto. reflexivity.
Qed.

(** C6. The rewrite pass of Encode works on the lines of the serializer's
    output, and its first rewrite turns every line that is an open tag
    immediately followed by its close tag, with nothing between them, into
    the one self-closing tag; every other line it leaves as it is, so that
    only a close tag that follows the open tag of its own element is
    collapsed.  The output of Encode is made of these collapsed lines, each
    after the five rules that follow; these rules keep the self-closed tag
    of every such line (they change names and values inside the tag only),
    but for the line of an empty SegmentTimeline, which the last rule
    drops.  In particular a Representation without children, which the
    serializer writes as an open tag followed by its close tag, is written
    by Encode as the self-closing Representation tag with its attributes
    (after the key-id rule, which leaves them as they are when no value
    holds default_KID). *)
Theorem C6_empty_elements_self_close (m : MPD) :
  (xmlEncode m = Ok (joinLines (map lineText (docLines m)))
   /\ Encode m
      = Ok ((xmlHeader ++ xml.nl)
            ++ concatAll (map afterSelfClose (terminated (map collapsed (docLines m))))
            ++ xml.nl))
  /\ (forall l tail,
         In l (docLines m) -> (tail = "" \/ tail = xml.nl) ->
         selfClose (lineText l ++ tail) = collapsed l ++ tail
         /\ rewriteLine (lineText l ++ tail) = afterSelfClose (collapsed l ++ tail))
  /\ (forall d name attrs,
         lineText (LLeaf d name attrs "")
         = xml.indentation d ++ "<" ++ name ++ xml.attrsText attrs ++ "></" ++ name ++ ">"
         /\ collapsed (LLeaf d name attrs "")
            = xml.indentation d ++ "<" ++ name ++ xml.attrsText attrs ++ "/>")
  /\ (forall l, (forall d name attrs, l <> LLeaf d name attrs "") -> collapsed l = lineText l)
  /\ (forall d name attrs tail,
         In (LLeaf d name attrs "") (docLines m) -> (tail = "" \/ tail = xml.nl) ->
         if isEmptyTimeline (LLeaf d name attrs "")
         then rewriteLine (lineText (LLeaf d name attrs "") ++ tail) = ""
         else exists mid,
             rewriteLine (lineText (LLeaf d name attrs "") ++ tail)
             = xml.indentation d ++ "<" ++ mid ++ "/>" ++ tail)
  /\ (forall p a r,
         In (Some p) (Periods m) -> In (Some a) (Period_AdaptationSets p) ->
         In r (AS_Representations a) ->
         Rep_ContentProtections r = [] ->
         Rep_SegmentTemplate r = None ->
         Rep_AudioChannelConfiguration r = None ->
         nodeLines 3 (marshal.representation r) = [representationLine 3 r]
         /\ lineText (representationLine 3 r)
            = xml.indentation 3 ++ "<Representation"
              ++ xml.attrsText (representationAttrs r) ++ "></Representation>"
         /\ (exists before after,
                Encode m
                = Ok (before
                      ++ (xml.indentation 3 ++ "<Representation"
                          ++ qualifyDefaultKID (xml.attrsText (representationAttrs r))
                          ++ "/>" ++ xml.nl)
                      ++ after))
         /\ (valuesLack keyId (representationAttrs r) = true ->
             qualifyDefaultKID (xml.attrsText (representationAttrs r))
             = xml.attrsText (representationAttrs r))).
Proof.
  pose proof (docLines_ok m) as Hok.
  pose proof (docLines_schema m) as Hsch.
  split.
  { split; [apply xmlEncode_lines|].
    rewrite Encode_inputLines. unfold inputLines.
    now rewrite rewrite_collapsed. }
  split.
  { intros l tail Hin Htail. rewrite forallb_forall in Hok.
    unfold rewriteLine. rewrite selfClose_line by auto. split; reflexivity. }
  split.
  { intros d name attrs. split.
    - cbn [lineText]. unfold openTag, closeTag.
      change (xml.EscapeString "") with "". strassoc.
    - reflexivity. }
  split.
  { intros l Hl. destruct l as [d name attrs|d name attrs [|c data]|d name]; try reflexivity.
    exfalso. now apply (Hl d name attrs). }
  split.
  { intros d name attrs tail Hin Htail.
    rewrite forallb_forall in Hok, Hsch.
    destruct (lineSchema_parts _ (Hsch _ Hin)) as (Hn & _).
    exact (selfClosed_written _ tail (Hok _ Hin) Hn Htail eq_refl). }
  intros p a r Hp Ha Hr H1 H2 H3.
  assert (Hl : nodeLines 3 (marshal.representation r) = [representationLine 3 r]).
  { unfold marshal.representation. rewrite H1, H2, H3. reflexivity. }
  split; [exact Hl|].
  split.
  { unfold representationLine. cbn [lineText]. unfold openTag, closeTag.
    change (xml.EscapeString "") with "". strassoc. }
  split; [|apply (qualify_plain 3)].
  assert (Hin : In (representationLine 3 r) (removelast (docLines m))).
  { apply (representation_lines m p a r); try assumption. rewrite Hl. now left. }
  apply inner_line in Hin.
  destruct (concatAll_In rewriteLine _ _ Hin) as (before & after & Hc).
  exists ((xmlHeader ++ xml.nl) ++ before), (after ++ xml.nl).
  rewrite Encode_inputLines. unfold inputLines. rewrite Hc.
  rewrite representation_written by (right; reflexivity).
  f_equal. strassoc.
Qed.

(** C6 at the scenario of the spec: its Representation with id 1 and
    bandwidth 500000 has no children. *)
Lemma C6_empty_elements_self_close_witness :
  exists before after,
    Encode docScenario
    = Ok (before
          ++ (xml.indentation 3 ++ "<Representation"
              ++ qualifyDefaultKID
                   (xml.attrsText
                      (representationAttrs (mkRepresentation (Some "1") (Some 500000%N) [] None)))
              ++ "/>" ++ xml.nl)
          ++ after).
Proof.
  refine (proj1 (proj2 (proj2
    (proj2 (proj2 (proj2 (proj2 (proj2 (C6_empty_elements_self_close docScenario)))))
       (mkPeriod _) (mkAdaptationSet "video/mp4" _ _ None)
       (mkRepresentation (Some "1") (Some 500000%N) [] None)
       _ _ _ eq_refl eq_refl eq_refl)))).
  - simpl. left. reflexivity.
  - simpl. left. reflexivity.
  - simpl. left. reflexivity.
Defined.

(** ** C9: the two variants of a ConditionalUint *)

(** A document whose AdaptationSet carries the attribute segmentAlignment
    twice, first with a boolean and then with an integer. *)
Definition docRepeatedAttribute : string :=
  "<MPD profiles=" ++ q ++ "p" ++ q ++ "><Period>"
  ++ "<AdaptationSet mimeType=" ++ q ++ "video/mp4" ++ q
  ++ " segmentAlignment=" ++ q ++ "true" ++ q
  ++ " segmentAlignment=" ++ q ++ "42" ++ q
  ++ "></AdaptationSet></Period></MPD>".

Definition bothVariants : ConditionalUint.t :=
  {| ConditionalUint.u := Some 42%N; ConditionalUint.b := Some true |}.

(** C9 as the spec words it fails on the code: [UnmarshalXMLAttr] sets one
    pointer and never clears the other.  A ConditionalUint constructed from
    the boolean variant holds one variant; after the operation that decodes
    the text 42 into it, it holds both.  So it is with a document read by
    [Decode] into a zero-valued MPD, when an element repeats the
    attribute. *)
Lemma C9_counterexample :
  let c := {| ConditionalUint.u := None; ConditionalUint.b := Some true |} in
  let c' := fst (ConditionalUint.UnmarshalXMLAttr c (xml.attr "segmentAlignment" "42")) in
  (constructed c /\ atMostOne c)
  /\ (c' = bothVariants /\ ~ atMostOne c')
  /\ Decode unmarshal.zeroMPD docRepeatedAttribute
     = Ok (mkMPD None None None "p"
             [Some (mkPeriod
                [Some {| AS_MimeType := "video/mp4";
                         AS_SegmentAlignment := bothVariants;
                         AS_SubsegmentAlignment := ConditionalUint.zero;
                         AS_StartWithSAP := None;
                         AS_SubsegmentStartsWithSAP := None;
                         AS_BitstreamSwitching := None;
                         AS_Lang := None;
                         AS_ContentProtections := [];
                         AS_Representations := [];
                         AS_FrameRate := None;
                         AS_SegmentTemplate := None |}])]).
Proof.
  cbv zeta. split; [split; [apply constructed_bool|left; reflexivity]|].
  split; [split; [reflexivity|]|].
  - intros [H|H]; discriminate H.
  - vm_compute. reflexivity.
Qed.

(** C9, amended.  A ConditionalUint constructed empty, constructed from one
    variant, or produced by decoding an attribute into a zero-valued
    ConditionalUint holds at most one of the two variants.  Decoding into
    any ConditionalUint does not clear the other variant: after an integer
    text at most one variant is set exactly when the receiver held no
    boolean variant; after a boolean text, exactly when the receiver held
    no integer variant; and a decode that fails leaves the receiver as it
    was. *)
Theorem C9_at_most_one_variant (c : ConditionalUint.t) :
  (constructed c -> atMostOne c)
  /\ (forall attr v,
        strconv.ParseUint (xml.Value attr) 64 = Ok v ->
        (atMostOne (fst (ConditionalUint.UnmarshalXMLAttr c attr))
         <-> ConditionalUint.b c = None))
  /\ (forall attr v,
        uint64Text (xml.Value attr) = false ->
        strconv.ParseBool (xml.Value attr) = Ok v ->
        (atMostOne (fst (ConditionalUint.UnmarshalXMLAttr c attr))
         <-> ConditionalUint.u c = None))
  /\ (forall attr,
        snd (ConditionalUint.UnmarshalXMLAttr c attr) <> None ->
        fst (ConditionalUint.UnmarshalXMLAttr c attr) = c).
Proof.
  split.
  { intros H. destruct H as [|v|v|attr]; unfold atMostOne; simpl; auto.
    unfold ConditionalUint.UnmarshalXMLAttr.
    destruct (strconv.ParseUint (xml.Value attr) 64); simpl; auto.
    destruct (strconv.ParseBool (xml.Value attr)); simpl; auto. }
  split.
  { intros attr v H. rewrite (UnmarshalXMLAttr_uint c attr v H).
    unfold atMostOne. cbn [fst ConditionalUint.u ConditionalUint.b].
    split; [intros [E|E]; [discriminate E|exact E]|auto]. }
  split.
  { intros attr v Hu Hb. rewrite (UnmarshalXMLAttr_bool c attr v Hu Hb).
    unfold atMostOne. cbn [fst ConditionalUint.u ConditionalUint.b].
    split; [intros [E|E]; [exact E|discriminate E]|auto]. }
  intros attr. unfold ConditionalUint.UnmarshalXMLAttr.
  destruct (strconv.ParseUint (xml.Value attr) 64); cbn [snd fst]; [congruence|].
  destruct (strconv.ParseBool (xml.Value attr)); cbn [snd fst]; congruence.
Qed.

(** The amended C9 at the text true decoded into a zero value, and at the
    text 7 decoded into a ConditionalUint that holds the integer 42. *)
Lemma C9_at_most_one_variant_witness :
  atMostOne (fst (ConditionalUint.UnmarshalXMLAttr ConditionalUint.zero
                    (xml.attr "subsegmentAlignment" "true")))
  /\ atMostOne (fst (ConditionalUint.UnmarshalXMLAttr
                       {| ConditionalUint.u := Some 42%N; ConditionalUint.b := None |}
                       (xml.attr "subsegmentAlignment" "7"))).
Proof.
  split.
  - apply (proj1 (C9_at_most_one_variant _)
             (constructed_decoded (xml.attr "subsegmentAlignment" "true"))).
  - apply (proj1 (proj2 (C9_at_most_one_variant
                           {| ConditionalUint.u := Some 42%N; ConditionalUint.b := None |}))
             (xml.attr "subsegmentAlignment" "7") 7%N).
    + reflexivity.
    + reflexivity.
Defined.

(** ** C1: when Decode after Encode gives the document back *)

(** C1, amended.  For every document whose numbers are numbers of their Go
    types, whose texts are text of an XML document and whose lines the six
    rules rename only (no empty timeline, the markers where the rules
    expect them), [Encode] returns a text, and [Decode] of this text into
    the zero value returns the document itself exactly when the document is
    valid: no nil pointer among its periods and adaptation sets, a text in
    every payload, at most one variant in every ConditionalUint, and on
    every event and event stream the name of its element in the default
    name space of the root. *)
Theorem C1_round_trip_when_valid (m : MPD) :
  fitsMPD m = true -> nodeText (marshal.mpd m) = true ->
  forallb lineCond (docLines m) = true ->
  exists out,
    Encode m = Ok out
    /\ (Decode unmarshal.zeroMPD out = Ok m <-> validMPD m = true).
Proof.
  intros Hf Ht Hc.
  destruct (Decode_Encode_canon unmarshal.zeroMPD m Hf Ht Hc) as (out & He & Hd).
  rewrite onto_zero in Hd.
  exists out. split; [exact He|]. rewrite Hd. split.
  - intros E. injection E as E. rewrite <- E. apply validMPD_canon.
  - intros Hv. now rewrite canonMPD_valid.
Qed.

(** The amended C1 at a document that sets every kind of field. *)
Lemma C1_round_trip_when_valid_witness :
  exists out,
    Encode docComplete = Ok out
    /\ (Decode unmarshal.zeroMPD out = Ok docComplete <-> validMPD docComplete = true).
Proof.
  apply (C1_round_trip_when_valid docComplete); vm_compute; reflexivity.
Defined.
